(* ===== verification/_CoqProject ===== *)
-Q . S2P
Prelude.v
Text.v
Extern.v
Machine.v
Discipline.v
Sim.v
Console.v
Returns.v
Io.v
Cpus.v
Interrupts.v
Pagetable.v
Platform.v
Alarm.v
Secondary.v
Pci.v
PciInit.v
FdtMap.v
Virtio.v
Shell.v
Vcat.v
Frame.v
Boot.v
Locking.v
Session.v
Bringup.v
Interrupted.v
Input.v
Cores.v
Build.v
