(* ===== verification/Prelude.v ===== *)
(** * osdemo: a verification of the aarch64 Rust OS demo

    The program is a small kernel for one of two virtual machines (QEMU and crosvm).
    [main] brings up the console, the logger, the two heaps, the page table, the
    interrupt controller (GIC), and the VirtIO devices of the device tree and of the
    PCI buses; then it runs a shell on the console, from which alarms can be set, other
    cores started, devices listed and a socket opened; when the shell ends it powers
    the machine off.  Interrupts are taken while the shell runs, and other cores run
    at the same time.

    ** How the code is modelled

    The embedding is shallow.  A Rust function is a program of type [K A], which is
    [machine -> outcome A * machine]: it returns a value, panics, hangs (an explicit
    [loop {}], or a spin lock which this core holds already), or, for the loops which
    are not bounded by their input, runs out of fuel.  [machine] (Machine) holds the
    statics of all modules, the registers, the exception mask and the held locks of
    the core which runs, and the history of its calls to the outside.  Panics do not
    unwind.  Arithmetic on [usize] and [u64] panics on overflow, as in a build with
    overflow checks.  Locks and exception masking are explicit operations on the state,
    with the locks of [spin] and the masking of [percore] as they are documented.

    What is not in the repository is a parameter.  A call of a driver, of the firmware
    or of the hardware is an [event] with its answer; the answers come from the class
    [BoardEnv], as a function of the whole history, so nothing is assumed of them but
    what a theorem says.

    What happens around the core which runs is a parameter too: the class [Surroundings]
    (Machine) has a program which runs before every call and one which runs before every
    lock is obtained.  In the surroundings [alone] nothing happens; the functional theorems
    are about a core which runs alone, and their statements do not show it.  In the
    surroundings [interrupted] (Interrupted) an interrupt may be taken before any call at
    which exceptions are not masked, any number of times, and the vector and its handlers
    run as part of the call; and other cores may have changed what a lock protects each
    time it is obtained.  The definitions of the program are the same in all surroundings.

    Crates which compute ([aarch64_paging], the allocators,
    [chrono], the provided methods of [embedded_io]) are classes of operations, and
    what is documented of them is a class of laws: [EmbeddedIoLaws], [PagingLaws],
    [FrameAllocatorLaws], [HeapFresh], [AttributeLayout], [PagingCalls],
    [UartAccepts], [UartReads], [Pl011Line].  The page-table crate calls the kernel back, to
    allocate and to find tables: its operations take the functions of the [Translation]
    trait, and are composed of calls of them.  Theorems which say that boot returns have the
    success of these crates and of the board as laws of their own: [PagingSucceeds],
    [FrameAllocatorComplete] (a block which is free is found), [PageHeapSuffices],
    [VirtioStarts].  Sim gives an instance of the crates and of the
    board, on which the witnesses run; it also boots the whole kernel.

    ** Files

    - Prelude: outcomes, the monad, its notations and proof tactics ([run_step],
      [inv_bind], [inv_step], [stays]).
    - Discipline: the judgement [orderly], that a program never waits for a lock of its own,
      requests locks in the order of their ranks and holds those which handlers take only
      with exceptions masked.  Frame: relations which the calls of a program keep.
      Returns: the judgement [returns], that a program returns, and nothing but calls to the
      outside has happened.
    - Text: what is used of Rust's [core] on bytes, strings and numbers.
    - Extern, Machine, Sim: crates and hardware, the state, the simulated board.
    - Console: [console.rs], [logger.rs], [drivers.rs], [drivers/*.rs], and [power_off]
      of [main.rs].
    - Io: the console as an interface ([ConsoleDev]) with its promise ([ConsoleSpec]),
      against which the applications are verified, and which [Console] keeps.
    - Cpus: [cpus.rs].
    - Interrupts: [interrupts.rs], [exceptions.rs], the trait of [platform.rs].
    - Pagetable: [pagetable.rs].
    - Platform: [platform/qemu.rs], [platform/crosvm.rs], the linker scripts.
    - Alarm: [apps/alarm.rs].  Secondary: [secondary_entry.rs], [apps/cpus.rs].
    - Pci: [pci.rs].  PciInit: that every BAR is placed.  FdtMap: the mapping of the device tree in [main.rs].
    - Virtio: [virtio.rs], [devices.rs].
    - Shell: [apps/shell.rs].  Vcat: what its [vcat] relays.
    - Boot: [main] and the interrupt vector with the handlers which are registered.
    - Locking: the choice of the platform, and that the whole program is [orderly].
    - Session: a session at the console from the end of boot to power-off.
    - Bringup: what boot needs of the board and of the device tree, and that it returns.
    - Interrupted: the surroundings with interrupts and other cores; deadlocks.
    - Input: reading from the console while interrupts are taken.
    - Cores: the life of a secondary core.
    - Build: [build.rs].

    A module of the development has the name of the Rust type or file whose operations
    it holds, and a definition the name of the function.  The body of a loop, or a part
    of a long function, is a definition of its own which the function composes
    ([allocate_bar] in [allocate_bars], [init_pagetable] in [main], [prepare_core] in
    [secondary_entry]).

    ** What is shown

    - Locks and interrupts.  With interrupts at any time and other cores, no core waits for
      a lock of its own, and at every call at which it can be interrupted the locks of the
      handlers are free ([Interrupted.interrupts_never_deadlock]); the cores never wait for
      each other in a circle ([Interrupted.cores_never_wait_in_a_circle]); [Console::read]
      does not wait with the lock ([Console.console_read_discipline]).
    - Interrupt handlers.  The four operations on the tables refine an abstract
      specification ([Interrupts.irq_handler_ops_refine]); dispatch, its isolation and the
      exclusion of shared and private handlers, for cores which interleave in any order.
    - Memory.  After boot all devices and all PCI memory are mapped as device memory and
      all memory is mapped, to itself ([Boot.boot_pagetable_complete], and its parts in
      Pagetable, FdtMap and Pci); the initial page table covers the image and the devices
      it needs; tables and DMA buffers are zeroed, disjoint and given back.
    - PCI.  Every memory BAR gets an aligned block of a suitable range, and no two overlap
      ([Pci.init_pci_assigns_bars]); those blocks are mapped.  If there is 32-bit memory for
      as many blocks of the largest size as there are BARs, all of them are placed, and
      [init_pci] returns ([PciInit.init_pci_places_all]).
    - Boot.  The conditions on the device tree and on the devices under which none of the
      [unwrap]s and assertions between reset and the shell panics; boot then returns, and
      what it leaves behind ([Bringup.boot_returns]).
    - Cores.  Each started core has a stack of its own which is never freed; a core takes
      interrupts only with handlers in place, and ends in [PSCI_CPU_OFF].
    - The console and the applications.  What is written arrives in order; what is read is
      what was typed; a session of the shell is answered line by line
      ([Shell.shell_session]); interrupts take no input away from a line
      ([Input.read_line_interrupted]); the effects of [alarm], [start_cpu], [sgi] and [vcat].
    - Ends.  On such a board [main] runs from reset through a whole session to power-off
      ([Bringup.main_runs_to_power_off]); whatever the board, it does so once boot has
      returned ([Session.main_session]), and it powers off after any shell which returns
      ([Session.main_powers_off]); a panic powers off, unless it is the logger which panics.
    - Where the code does not do what it means to: [Input.console_wakeup_lost],
      [Console.panic_in_logger_deadlocks],
      [Cores.late_sgi_panics], [Shell.read_line_overflow_panics],
      [Shell.vcat_extra_arguments_panic], [Interrupts.shared_handler_shadowed],
      [Pci.range_up_to_4g_not_32bit].

    ** Fuel

    [Console.read] has fuel for its waits, [read_line], [vcat_loop] and [shell_loop] for
    their iterations; the loop over a PCI bus has fuel for the 256 functions which a bus can
    have.  Theorems which say that they return ask for more fuel than the
    number of waits, typed bytes or polls which the code makes on the given input, so it
    does not bound the input; safety theorems hold for any fuel and every outcome, running
    out of it included, and so for every prefix of a run which never ends.

    ** Not modelled

    - How many tables a page table needs: that the ten pages of the page heap are enough is a
      condition of the theorems about boot, as it depends on the inside of the crate.
    - The inside of the crates, and the assembly of [aarch64_rt] which runs before [main].
    - What is shown of a PCI function ([DeviceFunctionInfo]) is identified with its text, and
      the texts of the types of other crates are given by the class of their constants.
    - The heap's lock is only modelled while the heap is initialised: the allocations
      inside [BTreeMap] and [Vec] are not events.  No interrupt handler allocates, and the
      allocator takes no other lock, so it cannot be part of a circle of waiting cores.
    - Interrupts are taken at calls and at locks, not between two instructions which only
      compute or which access data that no handler accesses.  Cores interleave at locks:
      of another core's run, a core sees what it did to the data under them.
    - [apps.rs] only declares modules. *)

From stdpp Require Export prelude gmap list strings.
From Stdlib Require Export Strings.Byte ZArith Lia.
#[global] Open Scope Z_scope.
#[global] Set Warnings "-clear-no-such-hyp".

(** ** Outcomes of Rust code

    The kernel is built with [panic = abort] semantics (there is no unwinding
    on this target): a computation returns a value, panics, never returns
    ([loop {}], or spinning on a lock that is already held by this core), or,
    for the model of an unbounded loop, runs out of fuel. *)

Inductive hang_reason :=
| Deadlock   (* spinning on a [SpinMutex] which is already held *)
| SpinLoop.  (* an explicit [loop {}] *)

Inductive outcome (A : Type) :=
| Val (a : A)
| Panic (msg : string)
| Hang (why : hang_reason)
| OutOfFuel.
Arguments Val {A} a.
Arguments Panic {A} msg.
Arguments Hang {A} why.
Arguments OutOfFuel {A}.

#[export] Instance hang_reason_eq_dec : EqDecision hang_reason.
Proof. solve_decision. Defined.

(** [Result<T, E>]: the error is kept as the text it is printed with. *)
Inductive result (A : Type) :=
| Ok (a : A)
| Err (e : string).
Arguments Ok {A} a.
Arguments Err {A} e.

#[export] Instance result_eq_dec {A} `{EqDecision A} : EqDecision (result A).
Proof. solve_decision. Defined.

(** ** The state and panic monad

    The state survives a panic: the panic handler runs in it. *)

Definition prog (S A : Type) : Type := S -> outcome A * S.

Section prog.
Context {S : Type}.

Definition ret {A} (a : A) : prog S A := fun s => (Val a, s).

Definition bind {A B} (m : prog S A) (k : A -> prog S B) : prog S B :=
  fun s =>
    match m s with
    | (Val a, s') => k a s'
    | (Panic msg, s') => (Panic msg, s')
    | (Hang why, s') => (Hang why, s')
    | (OutOfFuel, s') => (OutOfFuel, s')
    end.

Definition panic {A} (msg : string) : prog S A := fun s => (Panic msg, s).
Definition hang {A} (why : hang_reason) : prog S A := fun s => (Hang why, s).
Definition out_of_fuel {A} : prog S A := fun s => (OutOfFuel, s).
Definition gets {A} (f : S -> A) : prog S A := fun s => (Val (f s), s).
Definition modify (f : S -> S) : prog S unit := fun s => (Val tt, f s).
End prog.

Declare Scope prog_scope.
Delimit Scope prog_scope with prog.
Notation "'let!' x := m 'in' k" := (bind m (fun x => k))
  (at level 10, x name, m at level 100, k at level 200) : prog_scope.
Notation "'let!' ' p := m 'in' k" := (bind m (fun x => match x with p => k end))
  (at level 10, p pattern, m at level 100, k at level 200) : prog_scope.
Notation "'do!' m 'in' k" := (bind m (fun _ => k))
  (at level 10, m at level 100, k at level 200) : prog_scope.
#[global] Open Scope prog_scope.

Section combinators.
Context {S : Type}.

(** [Option::unwrap]/[expect] and [Result::unwrap]. *)
Definition expect {A} (msg : string) (o : option A) : prog S A :=
  match o with Some a => ret a | None => panic msg end.

Definition unwrap {A} (o : option A) : prog S A :=
  expect "called `Option::unwrap()` on a `None` value" o.

Definition unwrap_ok {A} (r : result A) : prog S A :=
  match r with
  | Ok a => ret a
  | Err e => panic ("called `Result::unwrap()` on an `Err` value: " +:+ e)
  end.

(** [assert!] *)
Definition assert (b : bool) (msg : string) : prog S unit :=
  if b then ret tt else panic msg.

(** [if c { m }] *)
Definition when (c : bool) (m : prog S unit) : prog S unit :=
  if c then m else ret tt.

(** [for x in l { f(x) }], and the same with a local variable threaded
    through the iterations. *)
Fixpoint for_each {A} (f : A -> prog S unit) (l : list A) : prog S unit :=
  match l with
  | [] => ret tt
  | x :: l => do! f x in for_each f l
  end.

Fixpoint fold_prog {A B} (f : B -> A -> prog S B) (b : B) (l : list A) : prog S B :=
  match l with
  | [] => ret b
  | x :: l => let! b' := f b x in fold_prog f b' l
  end.

(** Checked arithmetic: the image is built with the [dev] profile, in which
    overflow panics. *)
Definition checked_add (w : Z) (a b : Z) : prog S Z :=
  if (a + b) <? 2 ^ w then ret (a + b) else panic "attempt to add with overflow".

Definition checked_mul (w : Z) (a b : Z) : prog S Z :=
  if (a * b) <? 2 ^ w then ret (a * b) else panic "attempt to multiply with overflow".

(** [core::alloc::Layout::from_size_align(size, align).unwrap()]: the alignment
    must be a power of two and the size must not overflow [isize] when it is
    rounded up to the alignment. *)
Definition layout_ok (size align : Z) : bool :=
  (0 <? align) && (Z.land align (align - 1) =? 0) && (size <=? 2 ^ 63 - 1 - (align - 1)).

Definition layout_from_size_align (size align : Z) : prog S unit :=
  unwrap_ok (if layout_ok size align then Ok tt else Err "LayoutError").
End combinators.

(** ** Reasoning about programs

    Three styles are used: running a program symbolically with the [run_]
    equations below, Hoare triples over outcomes, and preservation of a
    preorder between the initial and the final state, which composes without
    any knowledge of the outcome. *)

Section reasoning.
Context {S : Type}.

Lemma bind_Val {A B} (m : prog S A) (k : A -> prog S B) s a s' :
  m s = (Val a, s') -> bind m k s = k a s'.
Proof. intros H. unfold bind. by rewrite H. Qed.

Lemma bind_Panic {A B} (m : prog S A) (k : A -> prog S B) s msg s' :
  m s = (Panic msg, s') -> bind m k s = (Panic msg, s').
Proof. intros H. unfold bind. by rewrite H. Qed.

Lemma bind_Hang {A B} (m : prog S A) (k : A -> prog S B) s why s' :
  m s = (Hang why, s') -> bind m k s = (Hang why, s').
Proof. intros H. unfold bind. by rewrite H. Qed.

(** A bind returns only if both parts do. *)
Lemma bind_Val_inv {A B} (m : prog S A) (k : A -> prog S B) s b s' :
  bind m k s = (Val b, s') ->
  exists a s1, m s = (Val a, s1) /\ k a s1 = (Val b, s').
Proof. unfold bind. intros H. destruct (m s) as [[a|?|?|] s1]; naive_solver. Qed.

Lemma bind_bind {A B C} (m : prog S A) (k : A -> prog S B) (h : B -> prog S C) s :
  bind (bind m k) h s = bind m (fun a => bind (k a) h) s.
Proof. unfold bind. by destruct (m s) as [[a|?|?|] s1]. Qed.

Lemma bind_ext {A B} (m : prog S A) (k k' : A -> prog S B) s :
  (forall a s1, k a s1 = k' a s1) -> bind m k s = bind m k' s.
Proof. intros H. unfold bind. destruct (m s) as [[a|?|?|] s1]; auto. Qed.

(** To compute an outcome without the final state. *)
Lemma run_fst {A} (m : prog S A) s o : (m s).1 = o -> m s = (o, (m s).2).
Proof. intros <-. by destruct (m s). Qed.

(** The value of a run which returns. *)
Definition val_or {A} (d : A) (o : outcome A) : A := match o with Val a => a | _ => d end.
Definition is_val {A} (o : outcome A) : bool := match o with Val _ => true | _ => false end.

Lemma run_val {A} (m : prog S A) s d :
  is_val (m s).1 = true -> m s = (Val (val_or d (m s).1), (m s).2).
Proof. by destruct (m s) as [[] s']. Qed.

Definition triple {A} (P : S -> Prop) (m : prog S A) (Q : outcome A -> S -> Prop) : Prop :=
  forall s, P s -> Q (m s).1 (m s).2.

(** [Q] for the values returned, [E] for the other outcomes. *)
Definition post {A} (Q : A -> S -> Prop) (E : S -> Prop) (o : outcome A) (s : S) : Prop :=
  match o with Val a => Q a s | _ => E s end.

Lemma triple_bind {A B} P (Q : A -> S -> Prop) E (m : prog S A) (k : A -> prog S B) R :
  triple P m (post Q E) ->
  (forall a, triple (Q a) (k a) (post R E)) ->
  triple P (bind m k) (post R E).
Proof.
  intros Hm Hk s HP. specialize (Hm s HP). unfold bind.
  destruct (m s) as [[a|?|?|] s1]; simpl in *; auto. apply (Hk a s1 Hm).
Qed.

Lemma triple_for_each {A} (I : S -> Prop) E (f : A -> prog S unit) (l : list A) :
  (forall x, x ∈ l -> triple I (f x) (post (fun _ => I) E)) ->
  triple I (for_each f l) (post (fun _ => I) E).
Proof.
  induction l as [|x l IH]; intros Hf; simpl.
  - by intros s Hs.
  - eapply triple_bind; [apply Hf, list_elem_of_here|].
    intros []. apply IH. intros y Hy. by apply Hf, list_elem_of_further.
Qed.

(** The final state is related to the initial one, whatever the outcome. *)
Definition stays {A} (R : S -> S -> Prop) (m : prog S A) : Prop :=
  forall s, R s (m s).2.

Lemma stays_run {A} (R : S -> S -> Prop) (m : prog S A) s o s' :
  stays R m -> m s = (o, s') -> R s s'.
Proof. intros H E. specialize (H s). by rewrite E in H. Qed.

Section stays.
Context (R : S -> S -> Prop) `{!PreOrder R}.

Lemma stays_ret {A} (a : A) : stays R (ret a).
Proof. intros s. simpl. reflexivity. Qed.
Lemma stays_panic {A} msg : stays R (panic (A:=A) msg).
Proof. intros s. simpl. reflexivity. Qed.
Lemma stays_hang {A} why : stays R (hang (A:=A) why).
Proof. intros s. simpl. reflexivity. Qed.
Lemma stays_gets {A} (f : S -> A) : stays R (gets f).
Proof. intros s. simpl. reflexivity. Qed.

Lemma stays_bind {A B} (m : prog S A) (k : A -> prog S B) :
  stays R m -> (forall a, stays R (k a)) -> stays R (bind m k).
Proof.
  intros Hm Hk s. specialize (Hm s). unfold bind.
  destruct (m s) as [[a|?|?|] s1]; simpl in *; auto.
  etrans; [exact Hm|apply Hk].
Qed.

Lemma stays_expect {A} msg (o : option A) : stays R (expect msg o).
Proof. destruct o; [apply stays_ret|apply stays_panic]. Qed.
Lemma stays_unwrap_ok {A} (r : result A) : stays R (unwrap_ok r).
Proof. destruct r; [apply stays_ret|apply stays_panic]. Qed.
Lemma stays_assert b msg : stays R (assert b msg).
Proof. destruct b; [apply stays_ret|apply stays_panic]. Qed.
Lemma stays_when b (m : prog S unit) : stays R m -> stays R (when b m).
Proof. intros H. destruct b; [exact H|apply stays_ret]. Qed.

Lemma stays_for_each {A} (f : A -> prog S unit) (l : list A) :
  (forall x, stays R (f x)) -> stays R (for_each f l).
Proof.
  intros Hf. induction l as [|x l IH]; simpl; [apply stays_ret|].
  by apply stays_bind.
Qed.

Lemma stays_fold {A B} (f : B -> A -> prog S B) (l : list A) b :
  (forall b x, stays R (f b x)) -> stays R (fold_prog f b l).
Proof.
  intros Hf. revert b. induction l as [|x l IH]; intros b; simpl; [apply stays_ret|].
  by apply stays_bind.
Qed.
End stays.

(** ** Programs which only run given programs

    What is known of a provided method of a foreign trait: it returns or panics by
    itself, and otherwise runs the methods it is given. *)
Inductive composed (base : forall A : Type, prog S A -> Prop) : forall A : Type, prog S A -> Prop :=
| composed_base A (m : prog S A) : base A m -> composed base A m
| composed_ret A (a : A) : composed base A (ret a)
| composed_panic A msg : composed base A (panic msg)
| composed_bind A B (m : prog S A) (k : A -> prog S B) :
    composed base A m -> (forall a, composed base B (k a)) -> composed base B (bind m k)
| composed_ext A (m m' : prog S A) :
    (forall s, m s = m' s) -> composed base A m -> composed base A m'.

(** The calls of one method. *)
Inductive is_call {X Y} (f : X -> prog S Y) : forall A : Type, prog S A -> Prop :=
| call_of x : is_call f Y (f x).

Lemma composed_stays R `{!PreOrder R} base {A} (m : prog S A) :
  (forall A (m : prog S A), base A m -> stays R m) -> composed base A m -> stays R m.
Proof.
  intros Hb. induction 1 as [A m Hm|A a|A msg|A B m k _ IHm _ IHk|A m m' E _ IH].
  - by apply Hb.
  - by apply stays_ret.
  - by apply stays_panic.
  - by apply stays_bind.
  - intros s. rewrite <-E. apply IH.
Qed.
End reasoning.

Create HintDb stays.
#[export] Hint Resolve stays_ret stays_panic stays_hang stays_gets stays_bind stays_expect
  stays_unwrap_ok stays_assert stays_when stays_for_each stays_fold : stays.

#[export] Hint Extern 1 (stays _ (unwrap _)) => apply stays_expect; apply _ : stays.
#[export] Hint Extern 1 (stays _ (layout_from_size_align _ _)) =>
  apply stays_unwrap_ok; apply _ : stays.

(** Extended by the files which define further combinators. *)
Ltac stays_hook := fail.

Ltac stays_step :=
  lazymatch goal with
  | |- forall _, _ => intros ?
  | |- stays _ (bind _ _) => apply stays_bind; [apply _|..]
  | |- stays _ (match ?x with _ => _ end) => destruct x
  | |- stays _ (when _ _) => apply stays_when; [apply _|]
  | |- stays _ (for_each _ _) => apply stays_for_each; [apply _|]
  | |- stays _ (fold_prog _ _ _) => apply stays_fold; [apply _|]
  | |- _ => first [stays_hook | solve [auto with stays typeclass_instances]]
  end.
Ltac stays := repeat stays_step.

(** Runs one step of a program whose first action is known. *)
Ltac run_step :=
  first
    [ erewrite bind_Val by (reflexivity || eassumption)
    | erewrite bind_Panic by (reflexivity || eassumption)
    | erewrite bind_Hang by (reflexivity || eassumption) ];
  cbv beta iota.

(** ** Inverting a run which returned *)

Section inversion.
Context {S : Type}.

Lemma ret_inv {A} (a b : A) (s s' : S) : ret a s = (Val b, s') -> b = a /\ s' = s.
Proof. by intros [= <- <-]. Qed.
Lemma gets_inv {A} (f : S -> A) (b : A) (s s' : S) : gets f s = (Val b, s') -> b = f s /\ s' = s.
Proof. by intros [= <- <-]. Qed.
Lemma expect_inv {A} msg (o : option A) (a : A) (s s' : S) :
  expect msg o s = (Val a, s') -> o = Some a /\ s' = s.
Proof. destruct o; [|done]. by intros [= <- <-]. Qed.
Lemma unwrap_ok_inv {A} (r : result A) (a : A) (s s' : S) :
  unwrap_ok r s = (Val a, s') -> r = Ok a /\ s' = s.
Proof. destruct r; [|done]. by intros [= <- <-]. Qed.
Lemma assert_inv b msg u (s s' : S) : assert b msg s = (Val u, s') -> b = true /\ s' = s.
Proof. destruct b; [|done]. by intros [= <-]. Qed.
Lemma checked_add_inv w a b c (s s' : S) :
  checked_add w a b s = (Val c, s') -> (c = a + b /\ a + b < 2 ^ w) /\ s' = s.
Proof. unfold checked_add. destruct (Z.ltb_spec (a + b) (2 ^ w)); [|done]. by intros [= <- <-]. Qed.
Lemma checked_mul_inv w a b c (s s' : S) :
  checked_mul w a b s = (Val c, s') -> (c = a * b /\ a * b < 2 ^ w) /\ s' = s.
Proof. unfold checked_mul. destruct (Z.ltb_spec (a * b) (2 ^ w)); [|done]. by intros [= <- <-]. Qed.
End inversion.

(** Splits [bind m k s = (Val b, s')] in a hypothesis into its two halves. *)
Tactic Notation "inv_bind" hyp(H) "as" ident(a) ident(s1) ident(H1) :=
  apply bind_Val_inv in H as (a & s1 & H1 & H); cbv beta iota in H.

(** Extended by the files which define further primitives. *)
Ltac inv_prim_hook H1 := idtac.

(** Simplifies [H1 : m s = (Val a, s')] for a primitive [m]. *)
Ltac inv_prim H1 :=
  lazymatch type of H1 with
  | ret _ _ = _ => apply ret_inv in H1 as [-> ->]
  | gets _ _ = _ => apply gets_inv in H1 as [-> ->]
  | unwrap _ _ = _ => apply expect_inv in H1 as [H1 ->]
  | expect _ _ _ = _ => apply expect_inv in H1 as [H1 ->]
  | unwrap_ok _ _ = _ => apply unwrap_ok_inv in H1 as [H1 ->]
  | layout_from_size_align _ _ _ = _ => apply unwrap_ok_inv in H1 as [H1 ->]
  | assert _ _ _ = _ => apply assert_inv in H1 as [H1 ->]
  | checked_add _ _ _ _ = _ => apply checked_add_inv in H1 as [[-> H1] ->]
  | checked_mul _ _ _ _ = _ => apply checked_mul_inv in H1 as [[-> H1] ->]
  | _ => inv_prim_hook H1
  end.

(** One step of the inversion of a run, with a name for the value. *)
Tactic Notation "inv_step" hyp(H) "as" ident(a) :=
  let s1 := fresh "s" in let H1 := fresh "Hrun" in
  inv_bind H as a s1 H1; inv_prim H1.
Tactic Notation "inv_step" hyp(H) := let a := fresh "x" in inv_step H as a.
