(* ===== verification/Text.v ===== *)
(** * Text: what the program uses of Rust's [core] on bytes, strings and numbers

    [char]/[u8] classification, [str::from_utf8], [str::split(' ')],
    [str::parse] for the integer types and the integer formats [{}], [{:#x}]
    [{:#012x}] and [{:#018x}].  Bytes are [byte]; a [&str] is a [string]. *)

From S2P Require Import Prelude.

(** ** Bytes *)

Definition b2z (b : byte) : Z := Z.of_N (Byte.to_N b).

#[export] Instance byte_eq_dec : EqDecision byte := Byte.byte_eq_dec.

Definition bytes (s : string) : list byte := String.list_byte_of_string s.

Lemma append_assoc (a b c : string) : (a +:+ b) +:+ c = a +:+ b +:+ c.
Proof.
  induction a as [|ch a IH]; [reflexivity|].
  change (String ch ((a +:+ b) +:+ c) = String ch (a +:+ b +:+ c)). by rewrite IH.
Qed.

(** [u8::is_ascii_control]: 0x00-0x1f and 0x7f. *)
Definition is_ascii_control (b : byte) : bool := (b2z b <? 32) || (b2z b =? 127).

Lemma b2z_range b : 0 <= b2z b < 256.
Proof. unfold b2z. pose proof (Byte.to_N_bounded b). lia. Qed.

(** ** [str::from_utf8] *)

Definition in_range (lo hi : Z) (b : byte) : bool := (lo <=? b2z b) && (b2z b <=? hi).

Definition is_cont (b : byte) : bool := in_range 0x80 0xBF b.

(** The allowed second byte of a three and a four byte sequence: this excludes
    overlong encodings, surrogates and values above U+10FFFF. *)
Definition second_of_3 (b0 b1 : byte) : bool :=
  (in_range 0xE0 0xE0 b0 && in_range 0xA0 0xBF b1)
  || (in_range 0xE1 0xEC b0 && in_range 0x80 0xBF b1)
  || (in_range 0xED 0xED b0 && in_range 0x80 0x9F b1)
  || (in_range 0xEE 0xEF b0 && in_range 0x80 0xBF b1).

Definition second_of_4 (b0 b1 : byte) : bool :=
  (in_range 0xF0 0xF0 b0 && in_range 0x90 0xBF b1)
  || (in_range 0xF1 0xF3 b0 && in_range 0x80 0xBF b1)
  || (in_range 0xF4 0xF4 b0 && in_range 0x80 0x8F b1).

Fixpoint valid_utf8 (l : list byte) : bool :=
  match l with
  | [] => true
  | b0 :: l1 =>
      if b2z b0 <? 0x80 then valid_utf8 l1
      else
        match l1 with
        | [] => false
        | b1 :: l2 =>
            if in_range 0xC2 0xDF b0 then is_cont b1 && valid_utf8 l2
            else
              match l2 with
              | [] => false
              | b2 :: l3 =>
                  if in_range 0xE0 0xEF b0 then
                    second_of_3 b0 b1 && is_cont b2 && valid_utf8 l3
                  else
                    match l3 with
                    | [] => false
                    | b3 :: l4 =>
                        in_range 0xF0 0xF4 b0 && second_of_4 b0 b1
                        && is_cont b2 && is_cont b3 && valid_utf8 l4
                    end
              end
        end
  end.

Definition from_utf8 (l : list byte) : option string :=
  if valid_utf8 l then Some (String.string_of_list_byte l) else None.

(** ASCII text is always valid. *)
Lemma valid_utf8_ascii l : Forall (fun b => b2z b < 0x80) l -> valid_utf8 l = true.
Proof.
  induction 1 as [|b l Hb _ IH]; [done|]. simpl.
  by rewrite (proj2 (Z.ltb_lt _ _) Hb).
Qed.

(** ** [str::split(' ')]

    The iterator is never empty: an empty string splits into one empty part. *)

Definition space : Ascii.ascii := Ascii.ascii_of_nat 32.

Fixpoint split_space (s : string) : list string :=
  match s with
  | EmptyString => [EmptyString]
  | String c s' =>
      if Ascii.eqb c space then EmptyString :: split_space s'
      else
        match split_space s' with
        | [] => [String c EmptyString]
        | p :: ps => String c p :: ps
        end
  end.

(** [parts.join(" ")], the inverse of splitting. *)
Fixpoint join_space (ps : list string) : string :=
  match ps with
  | [] => EmptyString
  | [p] => p
  | p :: ps => p +:+ String space (join_space ps)
  end.

Lemma split_space_cons s : exists p ps, split_space s = p :: ps.
Proof.
  destruct s as [|c s]; simpl; [eauto|].
  destruct (Ascii.eqb c space); [eauto|]. destruct (split_space s); eauto.
Qed.

Lemma join_split_space s : join_space (split_space s) = s.
Proof.
  induction s as [|c s IH]; [done|]. simpl.
  destruct (split_space_cons s) as (p & ps & E). rewrite E in *.
  destruct (Ascii.eqb_spec c space) as [->|]; simpl.
  - by rewrite <-IH.
  - destruct ps; simpl in *; by rewrite <-IH.
Qed.

(** No part contains a space. *)
Fixpoint no_space (s : string) : Prop :=
  match s with
  | EmptyString => True
  | String c s' => c <> space /\ no_space s'
  end.

Lemma split_space_parts s : Forall no_space (split_space s).
Proof.
  induction s as [|c s IH]; simpl; [by repeat constructor|].
  destruct (Ascii.eqb_spec c space).
  - by constructor.
  - destruct (split_space s) as [|p ps]; [by repeat constructor|].
    inversion_clear IH. by constructor.
Qed.

Lemma split_space_single s : no_space s -> split_space s = [s].
Proof.
  induction s as [|c s IH]; [done|]. simpl. intros [Hc Hs].
  destruct (Ascii.eqb_spec c space); [done|]. by rewrite IH.
Qed.

Lemma split_space_app p s :
  no_space p -> split_space (p +:+ String space s) = p :: split_space s.
Proof.
  induction p as [|c p IH]; simpl; [done|]. intros [Hc Hp].
  destruct (Ascii.eqb_spec c space); [done|]. by rewrite IH.
Qed.

(** ** Decimal and hexadecimal output *)

Definition digit_char (d : Z) : Ascii.ascii :=
  Ascii.ascii_of_N (Z.to_N (if d <? 10 then 48 + d else 87 + d)).

(** The digits of [n] in the given base, most significant first; [fuel] bounds
    their number. *)
Fixpoint digits (base : Z) (fuel : nat) (n : Z) (acc : string) : string :=
  match fuel with
  | O => acc
  | S f =>
      let acc' := String (digit_char (n mod base)) acc in
      if n <? base then acc' else digits base f (n / base) acc'
  end.

(** [{}] of an unsigned integer: 20 digits are enough for a [u64]. *)
Definition fmt_dec (n : Z) : string := digits 10 20 n EmptyString.

Definition fmt_hex_digits (n : Z) : string := digits 16 32 n EmptyString.

(** [{:#x}], which [{:#0x}] is equal to (there is no width to pad to). *)
Definition fmt_hex (n : Z) : string := "0x" +:+ fmt_hex_digits n.

Fixpoint zeros (n : nat) : string :=
  match n with O => EmptyString | S n => String (Ascii.ascii_of_nat 48) (zeros n) end.

(** [{:#0<width>x}]: padded with zeros after the prefix. *)
Definition fmt_hex_padded (width : nat) (n : Z) : string :=
  "0x" +:+ zeros (width - 2 - String.length (fmt_hex_digits n)) +:+ fmt_hex_digits n.
Definition fmt_hex_012 (n : Z) : string := fmt_hex_padded 12 n.
Definition fmt_hex_018 (n : Z) : string := fmt_hex_padded 18 n.

(** ** [str::parse] for integers *)

Definition char_digit (c : Ascii.ascii) : option Z :=
  let n := Z.of_N (Ascii.N_of_ascii c) in
  if (48 <=? n) && (n <=? 57) then Some (n - 48) else None.

(** Accumulates digits, failing on the first one that is not a digit or that
    takes the value above [max]. *)
Fixpoint parse_digits (max acc : Z) (s : string) : option Z :=
  match s with
  | EmptyString => Some acc
  | String c s' =>
      match char_digit c with
      | None => None
      | Some d =>
          let acc' := acc * 10 + d in
          if acc' <=? max then parse_digits max acc' s' else None
      end
  end.

(** Negative numbers are accumulated downwards, so that the minimum parses. *)
Fixpoint parse_digits_neg (min acc : Z) (s : string) : option Z :=
  match s with
  | EmptyString => Some acc
  | String c s' =>
      match char_digit c with
      | None => None
      | Some d =>
          let acc' := acc * 10 - d in
          if min <=? acc' then parse_digits_neg min acc' s' else None
      end
  end.

Definition plus_sign : Ascii.ascii := Ascii.ascii_of_nat 43.
Definition minus_sign : Ascii.ascii := Ascii.ascii_of_nat 45.

(** An unsigned [w]-bit integer: an optional [+], then at least one digit. *)
Definition parse_unsigned (w : Z) (s : string) : option Z :=
  match s with
  | EmptyString => None
  | String c s' =>
      if Ascii.eqb c plus_sign then
        match s' with
        | EmptyString => None
        | _ => parse_digits (2 ^ w - 1) 0 s'
        end
      else parse_digits (2 ^ w - 1) 0 s
  end.

(** A signed [w]-bit integer: an optional [+] or [-], then at least one digit. *)
Definition parse_signed (w : Z) (s : string) : option Z :=
  match s with
  | EmptyString => None
  | String c s' =>
      if Ascii.eqb c plus_sign || Ascii.eqb c minus_sign then
        match s' with
        | EmptyString => None
        | _ =>
            if Ascii.eqb c plus_sign then parse_digits (2 ^ (w - 1) - 1) 0 s'
            else parse_digits_neg (- 2 ^ (w - 1)) 0 s'
        end
      else parse_digits (2 ^ (w - 1) - 1) 0 s
  end.

Example parse_max : parse_unsigned 32 "4294967295" = Some 4294967295.
Proof. reflexivity. Qed.
Example parse_over : parse_unsigned 32 "4294967296" = None.
Proof. reflexivity. Qed.
Example parse_min : parse_signed 8 "-128" = Some (-128).
Proof. reflexivity. Qed.
Example parse_sign : parse_unsigned 8 "+" = None /\ parse_unsigned 8 "-1" = None.
Proof. done. Qed.
Example fmt_ex : fmt_dec 1024 = "1024" /\ fmt_hex 0x90a0 = "0x90a0" /\ fmt_hex_012 0x81 = "0x0000000081".
Proof. done. Qed.

(** ** Bounds of what is parsed, and printing then parsing *)

Lemma char_digit_range c d : char_digit c = Some d -> 0 <= d <= 9.
Proof. unfold char_digit. case_match eqn:E; [|done]. intros [= <-]. lia. Qed.

Lemma parse_digits_bounds max acc s n :
  0 <= acc <= max -> parse_digits max acc s = Some n -> 0 <= n <= max.
Proof.
  revert acc. induction s as [|c s IH]; intros acc Ha; simpl; [by intros [= <-]|].
  destruct (char_digit c) as [d|] eqn:Ed; [|done].
  apply char_digit_range in Ed. case_match eqn:Em; [|done].
  apply IH. lia.
Qed.

Lemma parse_unsigned_bounds w s n :
  0 <= w -> parse_unsigned w s = Some n -> 0 <= n < 2 ^ w.
Proof.
  intros Hw. assert (0 < 2 ^ w) by (apply Z.pow_pos_nonneg; lia).
  unfold parse_unsigned. destruct s as [|c s']; [done|].
  intros H'. enough (0 <= n <= 2 ^ w - 1) by lia.
  repeat case_match; try done; eapply parse_digits_bounds; try eassumption; lia.
Qed.

Ltac digit_cases d :=
  assert (d = 0 \/ d = 1 \/ d = 2 \/ d = 3 \/ d = 4 \/ d = 5 \/ d = 6 \/ d = 7 \/
          d = 8 \/ d = 9) as Hd by lia;
  repeat (destruct Hd as [->|Hd]; [reflexivity|]); by subst.

Lemma char_digit_char d : 0 <= d < 10 -> char_digit (digit_char d) = Some d.
Proof. intros H. digit_cases d. Qed.

Lemma digit_char_not_sign d : 0 <= d < 10 -> Ascii.eqb (digit_char d) plus_sign = false.
Proof. intros H. digit_cases d. Qed.

(** Parsing the digits of [n] from accumulator 0 reaches [n] with [tail] left. *)
Lemma parse_digits_digits max fuel n tail :
  0 <= n <= max -> n < 10 ^ Z.of_nat fuel ->
  parse_digits max 0 (digits 10 fuel n tail) = parse_digits max n tail.
Proof.
  revert n tail. induction fuel as [|f IH]; intros n tail Hn Hf.
  { assert (n = 0) as -> by (rewrite Z.pow_0_r in Hf; lia). done. }
  cbn [digits]. pose proof (Z.mod_pos_bound n 10 ltac:(lia)) as Hm.
  destruct (Z.ltb_spec n 10).
  - cbn [parse_digits]. rewrite (Z.mod_small n 10), char_digit_char by lia.
    rewrite Z.mul_0_l, Z.add_0_l. by rewrite (proj2 (Z.leb_le _ _)) by lia.
  - assert (0 <= n / 10 <= max).
    { split; [apply Z.div_pos; lia|]. apply Z.div_le_upper_bound; lia. }
    rewrite IH; [|done|].
    + cbn [parse_digits]. rewrite char_digit_char by done.
      replace (n / 10 * 10 + n mod 10) with n by (pose proof (Z.div_mod n 10); lia).
      by rewrite (proj2 (Z.leb_le _ _)) by lia.
    + apply Z.div_lt_upper_bound; [lia|].
      rewrite Nat2Z.inj_succ, Z.pow_succ_r in Hf by lia. lia.
Qed.

Lemma digits_head fuel n tail :
  0 <= n -> (0 < fuel)%nat ->
  exists d s, digits 10 fuel n tail = String (digit_char d) s /\ 0 <= d < 10.
Proof.
  revert n tail. induction fuel as [|f IH]; intros n tail Hn Hf; [lia|].
  cbn [digits]. pose proof (Z.mod_pos_bound n 10 ltac:(lia)).
  case_match; [eauto|]. destruct f as [|f]; [simpl; eauto|].
  apply IH; [apply Z.div_pos; lia|lia].
Qed.

(** Printing a [w]-bit number ([w] at most 64) and parsing it gives it back. *)
Lemma parse_fmt_dec w n : 0 <= w <= 64 -> 0 <= n < 2 ^ w -> parse_unsigned w (fmt_dec n) = Some n.
Proof.
  intros Hw Hn. unfold parse_unsigned, fmt_dec.
  destruct (digits_head 20 n "" ltac:(lia) ltac:(lia)) as (d & s & E & Hd).
  rewrite E, digit_char_not_sign, <-E by done.
  rewrite parse_digits_digits; [done|lia|].
  assert (2 ^ w <= 2 ^ 64) by (apply Z.pow_le_mono_r; lia).
  change (10 ^ Z.of_nat 20) with 100000000000000000000.
  change (2 ^ 64) with 18446744073709551616 in *. lia.
Qed.
