(* ===== verification/Extern.v ===== *)
(** * Extern: the crates and the hardware, as the program sees them

    Nothing here is code of the repository.  A call of a driver crate, of the
    firmware or of the hardware is an [event] which records the call and its
    answer; the answer is a function, given by the parameter [BoardEnv], of the
    history of events so far, so that nothing is assumed of it.  The flattened
    device tree is the data which the accessors of [dtoolkit] return.  Crates
    whose data the program computes with ([aarch64_paging], [arm_gic]'s
    constants, [chrono]) are classes of operations; what is relied upon is
    stated in classes of laws next to the components which use them. *)

From S2P Require Import Prelude Text.

#[local] Set Warnings "-register-all".

(** ** Device tree ([dtoolkit]) *)

(** An entry of a [reg] property: [address::<u64>()] and [size::<u64>()] fail
    when the cells do not fit. *)
Record Reg := mkReg { reg_address : result Z; reg_size : result Z }.

(** An entry of a [ranges] property. *)
Record Range := mkRange {
  range_child_bus_address : result Z;   (* [child_bus_address::<u128>()] *)
  range_parent_bus_address : result Z;  (* [parent_bus_address::<u64>()] *)
  range_length : result Z;              (* [length::<u64>()] *)
}.

(** A node: [name()], [compatible()], [reg()], [ranges()], [property()] and
    [children()]. *)
Inductive FdtNode := mkFdtNode {
  node_name : string;
  node_compatible : option (list string);
  node_reg : result (option (list Reg));
  node_ranges : result (option (list Range));
  node_property : string -> option (list byte);
  node_children : list FdtNode;
}.

(** A node of [/cpus]: [ids()] and [to_int::<u64>()] of each of them. *)
Record FdtCpu := mkFdtCpu { cpu_ids : result (list (result Z)) }.

Record Fdt := mkFdt {
  fdt_root : FdtNode;
  fdt_memory_reg : result (result (option (list Reg)));  (* [memory()], then its [reg()] *)
  fdt_cpus : result (list FdtCpu);                       (* [cpus()], then [cpus()] of it *)
  fdt_find_node : string -> option FdtNode;
  fdt_find_compatible : string -> list FdtNode;          (* [root().find_compatible()] *)
  fdt_memory_reservations : list string;
  fdt_data_len : Z;
  fdt_display : string;
}.

(** ** Data of the driver crates *)

Inductive Conduit := Smc | Hvc.

Inductive Trigger := Edge | Level.

Inductive AffinityState := AffOn | AffOff | AffOnPending.

Inductive LowestAffinityLevel :=
| AffAll | Aff0Ignored | Aff0Aff1Ignored | Aff0Aff1Aff2Ignored.

(** [VirtIO] device types the program distinguishes. *)
Inductive DeviceType := DevBlock | DevConsole | DevSocket | DevOther (name : string).

(** A transport is identified by where its device was found. *)
Inductive Transport :=
| MmioTransport (header size : Z)
| PciTransport (root_base : Z) (device_function : Z).

(** [MmioError::InvalidDeviceID(DeviceTypeError::InvalidDeviceType(n))] or any
    other error. *)
Inductive MmioError := InvalidDeviceType (n : Z) | OtherMmioError (text : string).

Inductive MemoryBarType := Width32 | Width64 | Below1MiB.

Inductive BarInfo :=
| BarMemory (address_type : MemoryBarType) (prefetchable : bool) (address size : Z)
| BarIO (address size : Z).

Inductive DisconnectReason := Shutdown | ResetReason.

Inductive VsockEventType :=
| VsConnected
| VsDisconnected (reason : DisconnectReason)
| VsReceived (length : Z)
| VsCreditUpdate
| VsOther (name : string).

Record VsockAddr := mkVsockAddr { cid : Z; port : Z }.

Record VsockEvent := mkVsockEvent {
  vs_source : VsockAddr;
  vs_destination : VsockAddr;
  vs_type : VsockEventType;
}.

#[export] Instance Conduit_eq_dec : EqDecision Conduit.
Proof. solve_decision. Defined.
#[export] Instance AffinityState_eq_dec : EqDecision AffinityState.
Proof. solve_decision. Defined.
#[export] Instance Transport_eq_dec : EqDecision Transport.
Proof. solve_decision. Defined.
#[export] Instance VsockAddr_eq_dec : EqDecision VsockAddr.
Proof. solve_decision. Defined.
#[export] Instance Trigger_eq_dec : EqDecision Trigger.
Proof. solve_decision. Defined.

(** ** Events *)

(** The spin mutexes of the program. *)
Inductive lock :=
| LConsole        (* console.rs: [CONSOLE] *)
| LSharedIrq      (* interrupts.rs: [SHARED_IRQ_HANDLERS] *)
| LGic            (* interrupts.rs: [GIC] *)
| LStacks         (* secondary_entry.rs: [SECONDARY_STACKS] *)
| LHeapAllocator  (* main.rs: [HEAP_ALLOCATOR] *)
| LHeap           (* main.rs: [HEAP] *)
| LPageHeap.      (* main.rs: [PAGE_HEAP] *)

#[export] Instance lock_eq_dec : EqDecision lock.
Proof. solve_decision. Defined.

Definition lock_code (l : lock) : nat :=
  match l with
  | LConsole => 0 | LSharedIrq => 1 | LGic => 2 | LStacks => 3
  | LHeapAllocator => 4 | LHeap => 5 | LPageHeap => 6
  end.

Definition lock_decode (n : nat) : option lock :=
  [LConsole; LSharedIrq; LGic; LStacks; LHeapAllocator; LHeap; LPageHeap] !! n.

#[export] Instance lock_countable : Countable lock.
Proof. refine (inj_countable lock_code lock_decode _). by intros []. Defined.

Inductive event :=
(* a lock which other cores may hold (Machine) *)
| LockRequest (l : lock)
(* the UART of the platform *)
| UartWrite (buf : list byte) (r : result nat)
| UartFlush (r : result unit)
| UartReadReady (r : result bool)
| UartRead (len : nat) (r : result (list byte))
| UartClearInterrupts                       (* PL011: [clear_interrupts(RXI)] *)
| UartSetInterruptMasks (base : Z)          (* PL011: [set_interrupt_masks(RXI)] *)
| UartNewMmio (base : Z) (r : result unit)  (* 16550: [new_mmio] *)
| UartInit (base : Z) (r : result unit)     (* 16550: [init] *)
(* the CPU *)
| Wfi
| IrqEnable
| WriteHcrEl2 (value : Z)
| ReadEsr (el value : Z)
| ReadFar (el value : Z)
(* the GIC *)
| GicAck (r : option Z)
| GicEnd (intid : Z)
| GicEnableGroup1 (enable : bool)
| GicSetPriorityMask (mask : Z)
| GicSendSgi (intid : Z) (r : result unit)
| GicNew (gicd gicr cpu_count : Z)
| GicSetup (cpu : Z)
| GicInitCpu (cpu : Z)
| GicSetPriority (intid : Z) (cpu : option Z) (priority : Z) (r : result unit)
| GicSetTrigger (intid : Z) (cpu : option Z) (trigger : Trigger) (r : result unit)
| GicEnableInterrupt (intid : Z) (cpu : option Z) (enable : bool) (r : result unit)
(* firmware (PSCI) *)
| PsciSystemOff (c : Conduit) (r : result unit)
| PsciVersion (c : Conduit) (r : result string)
| PsciAffinityInfo (c : Conduit) (mpidr : Z) (level : LowestAffinityLevel)
    (r : result AffinityState)
| PsciCpuOff (c : Conduit) (r : result unit)
| StartCore (c : Conduit) (mpidr stack arg : Z) (r : result unit)
(* the real-time clock *)
| RtcGetTime (t : Z)
| RtcSetMatch (t : Z) (r : result unit)
| RtcEnableInterrupt (enable : bool)
| RtcClearInterrupt
(* allocators *)
| HeapInit (start size : Z)                 (* the global allocator *)
| HeapAlloc (size align : Z) (r : option Z)
| HeapDealloc (ptr size align : Z)
| PageHeapInit (start size : Z)             (* the page table allocator *)
| PageAlloc (size align : Z) (r : option Z)
| PageDealloc (ptr size align : Z)
| WriteBytes (ptr value len : Z)            (* [ptr::write_bytes] *)
(* page tables *)
| ActivateMapping
(* PCI *)
| PciBars (root df : Z) (r : result (list (option BarInfo)))
| PciSetBar32 (root df : Z) (index value : Z)
| PciSetBar64 (root df : Z) (index value : Z)
| PciSetCommand (root df : Z) (command : Z)
| PciGetStatusCommand (root df : Z) (r : string * string)
(** the [n]-th [next] of [enumerate_bus] *)
| PciBusNext (root : Z) (n : nat) (r : option (Z * string))
(* VirtIO *)
| VirtioMmioNew (header size : Z) (r : Transport + MmioError)
| VirtioPciNew (root df : Z) (r : result Transport)
| VirtioVendorId (t : Transport) (r : Z)
| VirtioReadFeatures (t : Transport) (r : Z)
| VirtioGetStatus (t : Transport) (r : Z)
| VirtioBlkNew (t : Transport) (r : result unit)
| VirtioConsoleNew (t : Transport) (r : result unit)
| VirtioSocketNew (t : Transport) (r : result unit)
| BlkDeviceId (t : Transport) (r : result (list byte))
| VsConnect (t : Transport) (peer : VsockAddr) (local_port : Z) (r : result unit)
| VsSend (t : Transport) (peer : VsockAddr) (local_port : Z) (buf : list byte) (r : result unit)
| VsPoll (t : Transport) (r : result (option VsockEvent))
| VsAvailable (t : Transport) (peer : VsockAddr) (local_port : Z) (r : result Z)
| VsRecv (t : Transport) (peer : VsockAddr) (local_port : Z) (len : nat) (r : result (list byte)).

(** ** Histories

    A call is recorded with the exception mask and the locks of the core at that
    moment, so that the locking discipline can be read off a history. *)

Record entry := mkEntry { call : event; at_masked : bool; at_held : gset lock }.

(** The history of a run, newest call first. *)
Abbreviation history := (list entry).

(** The blocks of the heap which were allocated and not freed. *)
Fixpoint heap_live (h : history) : list (Z * Z) :=
  match h with
  | [] => []
  | e :: h =>
      match call e with
      | HeapAlloc size _ (Some p) => (p, size) :: heap_live h
      | HeapDealloc p _ _ => List.filter (fun b => negb (b.1 =? p)) (heap_live h)
      | _ => heap_live h
      end
  end.

(** How many times the socket device [t] was polled. *)
Fixpoint vs_polls (t : Transport) (h : history) : nat :=
  match h with
  | [] => 0
  | e :: h =>
      match call e with
      | VsPoll t' _ => if decide (t' = t) then S (vs_polls t h) else vs_polls t h
      | _ => vs_polls t h
      end
  end.

(** The answers of the environment. *)
Class BoardEnv := {
  env_uart_write : history -> list byte -> result nat;
  env_uart_flush : history -> result unit;
  env_uart_read_ready : history -> result bool;
  env_uart_read : history -> nat -> result (list byte);
  env_uart_new_mmio : history -> Z -> result unit;
  env_uart_init : history -> Z -> result unit;
  env_hcr_el2 : history -> Z;
  env_esr : history -> Z -> Z;
  env_far : history -> Z -> Z;
  env_gic_ack : history -> option Z;
  env_gic_send_sgi : history -> Z -> result unit;
  env_gic_set_priority : history -> Z -> option Z -> Z -> result unit;
  env_gic_set_trigger : history -> Z -> option Z -> Trigger -> result unit;
  env_gic_enable_interrupt : history -> Z -> option Z -> bool -> result unit;
  env_psci_system_off : history -> Conduit -> result unit;
  env_psci_version : history -> Conduit -> result string;
  env_psci_affinity_info : history -> Conduit -> Z -> LowestAffinityLevel -> result AffinityState;
  env_psci_cpu_off : history -> Conduit -> result unit;
  env_start_core : history -> Conduit -> Z -> Z -> Z -> result unit;
  env_rtc_get_time : history -> Z;
  env_rtc_set_match : history -> Z -> result unit;
  env_heap_alloc : history -> Z -> Z -> option Z;
  env_page_alloc : history -> Z -> Z -> option Z;
  env_pci_bus_next : history -> Z -> nat -> option (Z * string);
  env_pci_bars : history -> Z -> Z -> result (list (option BarInfo));
  env_pci_status_command : history -> Z -> Z -> string * string;
  env_virtio_mmio_new : history -> Z -> Z -> Transport + MmioError;
  env_virtio_pci_new : history -> Z -> Z -> result Transport;
  env_virtio_vendor_id : history -> Transport -> Z;
  env_virtio_read_features : history -> Transport -> Z;
  env_virtio_get_status : history -> Transport -> Z;
  env_virtio_blk_new : history -> Transport -> result unit;
  env_virtio_console_new : history -> Transport -> result unit;
  env_virtio_socket_new : history -> Transport -> result unit;
  env_blk_device_id : history -> Transport -> result (list byte);
  env_vs_connect : history -> Transport -> VsockAddr -> Z -> result unit;
  env_vs_send : history -> Transport -> VsockAddr -> Z -> list byte -> result unit;
  env_vs_poll : history -> Transport -> result (option VsockEvent);
  env_vs_available : history -> Transport -> VsockAddr -> Z -> result Z;
  env_vs_recv : history -> Transport -> VsockAddr -> Z -> nat -> result (list byte);
}.

(** ** Page tables ([aarch64_paging]) *)

(** [paging::Translation]: how the crate gets memory for its tables.  A table is its
    address. *)
Record Translation (S : Type) := mkTranslation {
  tr_allocate_table : prog S (Z * Z);
  tr_deallocate_table : Z -> prog S unit;
  tr_physical_to_virtual : Z -> prog S Z;
}.
Arguments mkTranslation {S}.
Arguments tr_allocate_table {S}.
Arguments tr_deallocate_table {S}.
Arguments tr_physical_to_virtual {S}.

Inductive is_callback {S} (t : Translation S) : forall A : Type, prog S A -> Prop :=
| callback_allocate : is_callback t (Z * Z) (tr_allocate_table t)
| callback_deallocate p : is_callback t unit (tr_deallocate_table t p)
| callback_translate pa : is_callback t Z (tr_physical_to_virtual t pa).

(** A range of pages, [start] inclusive and [end] exclusive. *)
Record MemoryRegion := mkRegion { region_start : Z; region_end : Z }.

Class PagingCrate := {
  (** [MemoryRegion::new] *)
  region_new : Z -> Z -> MemoryRegion;
  region_display : MemoryRegion -> string;
  region_debug : MemoryRegion -> string;
  (** [Mapping<T, _>] without its [T : Translation], which its methods take. *)
  Mapping : Type;
  mapping_new_el2 {S} : Translation S -> Z -> prog S Mapping;
  mapping_new_el1 {S} : Translation S -> Z -> Z -> prog S Mapping;
  mapping_size : Mapping -> Z;
  mapping_map_range {S} :
    Translation S -> Mapping -> MemoryRegion -> Z -> Z -> prog S (result unit * Mapping);
  mapping_active : Mapping -> bool;
  mapping_activate : Mapping -> Mapping;
  mapping_debug : Mapping -> string;
  (** attribute bits of [El1Attributes] and [El23Attributes] *)
  El1_VALID : Z;
  El1_ATTRIBUTE_INDEX_0 : Z;
  El1_ATTRIBUTE_INDEX_1 : Z;
  El1_INNER_SHAREABLE : Z;
  El1_ACCESSED : Z;
  El1_NON_GLOBAL : Z;
  El1_UXN : Z;
  El23_VALID : Z;
  El23_ATTRIBUTE_INDEX_0 : Z;
  El23_ATTRIBUTE_INDEX_1 : Z;
  El23_INNER_SHAREABLE : Z;
  El23_ACCESSED : Z;
  El23_NON_GLOBAL : Z;
  El23_XN : Z;
}.

(** ** Constants and conversions of the other crates *)

Class CrateConsts := {
  (** [arm_gic]: [IntId::sgi], [IntId::spi] and [IntId::SGI_COUNT]; an [IntId]
      is its interrupt number. *)
  IntId_sgi : Z -> Z;
  IntId_spi : Z -> Z;
  SGI_COUNT : Z;
  intid_debug : Z -> string;
  (** sizes of foreign types *)
  size_of_Gicd : Z;
  size_of_GicrSgi : Z;
  size_of_VirtIOHeader : Z;
  layout_PageTable : Z * Z;
  layout_Stack : Z -> Z * Z;
  (** page sizes of [aarch64_paging] and of [virtio_drivers] *)
  PAGE_SIZE : Z;
  VIRTIO_PAGE_SIZE : Z;
  (** [HcrEl2::IMO], [MpidrEl1::U], [MpidrEl1::MT] *)
  HCR_IMO : Z;
  MPIDR_U : Z;
  MPIDR_MT : Z;
  (** [Cam::size] *)
  cam_mmio_size : Z;
  cam_ecam_size : Z;
  (** [Command::IO_SPACE], [MEMORY_SPACE] and [BUS_MASTER] *)
  CMD_IO_SPACE : Z;
  CMD_MEMORY_SPACE : Z;
  CMD_BUS_MASTER : Z;
  (** [chrono]: [Duration::seconds] and [DateTime + Duration] panic when out of
      range; an instant is its Unix time in seconds. *)
  duration_seconds : Z -> option Z;
  datetime_add : Z -> Z -> option Z;
  datetime_display : Z -> string;
  (** texts of foreign types *)
  reg_debug : Reg -> string;
  affinity_debug : AffinityState -> string;
  bar_display : BarInfo -> string;
  df_display : Z -> string;
  vsevent_debug : VsockEvent -> string;
  register_state_debug : string;
  (** [Display] of [core::panic::PanicInfo] for a message *)
  panic_info_display : string -> string;
  (** properties of a [VirtIO] device *)
  transport_device_type : Transport -> DeviceType;
  mmio_version_debug : Transport -> string;
  device_status_debug : Z -> string;
  devicetype_debug : DeviceType -> string;
  mmio_error_display : MmioError -> string;
  virtio_device_type : string -> option DeviceType;
  blk_capacity : Transport -> Z;
  blk_readonly : Transport -> bool;
  vconsole_size_debug : Transport -> result string;
  vsock_guest_cid : Transport -> Z;
}.

(** ** Provided methods of the [embedded_io] traits

    [Write::write_all], [Write::write_fmt] and [Read::read_exact] come from the
    crate; they take the [write] or [read] of the type which implements the
    trait.  The laws are their documentation: they call [write] or [read] in a
    loop until the buffer is done, and stop at the first error; they have no other
    effect. *)

Class EmbeddedIo (S : Type) := {
  io_write_all : (list byte -> prog S (result nat)) -> list byte -> prog S (result unit);
  io_write_fmt : (list byte -> prog S (result nat)) -> string -> prog S (result unit);
  io_read_exact : (nat -> prog S (result (list byte))) -> nat -> prog S (result (list byte));
  (** the pieces in which a formatted text reaches [write_all] *)
  fmt_pieces : string -> list (list byte);
}.

(** Writes buffers in sequence, up to the first error. *)
Fixpoint write_seq {S} (wr : list byte -> prog S (result unit)) (ps : list (list byte))
    : prog S (result unit) :=
  match ps with
  | [] => ret (Ok tt)
  | p :: ps =>
      let! r := wr p in
      match r with Ok _ => write_seq wr ps | Err e => ret (Err e) end
  end.

Class EmbeddedIoLaws (S : Type) (I : EmbeddedIo S) := {
  write_all_nil w s : io_write_all w [] s = (Val (Ok tt), s);
  write_all_step w buf n s s' :
    buf <> [] -> (0 < n)%nat -> w buf s = (Val (Ok n), s') ->
    io_write_all w buf s = io_write_all w (drop n buf) s';
  write_all_err w buf e s s' :
    buf <> [] -> w buf s = (Val (Err e), s') -> io_write_all w buf s = (Val (Err e), s');
  write_all_calls w buf : composed (is_call w) (result unit) (io_write_all w buf);
  write_fmt_pieces w text s :
    io_write_fmt w text s = write_seq (io_write_all w) (fmt_pieces text) s;
  fmt_pieces_concat text : concat (fmt_pieces text) = bytes text;
  read_exact_zero r s : io_read_exact r 0%nat s = (Val (Ok []), s);
  read_exact_step r n bs s s' :
    (0 < n)%nat -> bs <> [] -> (length bs <= n)%nat -> r n s = (Val (Ok bs), s') ->
    io_read_exact r n s =
      (let! rest := io_read_exact r (n - length bs)%nat in
       ret (match rest with Ok tl => Ok (bs ++ tl) | Err e => Err e end)) s';
  read_exact_fails r n res s s' :
    (0 < n)%nat -> r n s = (Val res, s') -> (forall bs, res = Ok bs -> bs = []) ->
    exists e, io_read_exact r n s = (Val (Err e), s');
  read_exact_stops r n o s s' :
    (0 < n)%nat -> r n s = (o, s') -> (forall res, o <> Val res) ->
    exists o', io_read_exact r n s = (o', s') /\ forall res, o' <> Val res;
  read_exact_calls r n : composed (is_call r) (result (list byte)) (io_read_exact r n);
}.

Lemma write_seq_calls {S X Y} (f : X -> prog S Y) (wr : list byte -> prog S (result unit)) ps :
  (forall b, composed (is_call f) _ (wr b)) -> composed (is_call f) _ (write_seq wr ps).
Proof.
  intros H. induction ps as [|p ps IH]; simpl; [apply composed_ret|].
  apply composed_bind; [done|]. intros []; [done|apply composed_ret].
Qed.

Lemma write_fmt_calls {S} `{L : EmbeddedIoLaws S} w text :
  composed (is_call w) (result unit) (io_write_fmt w text).
Proof.
  eapply composed_ext; [intros s; symmetry; apply write_fmt_pieces|].
  apply write_seq_calls. intros b. apply write_all_calls.
Qed.

Lemma calls_stay {S A X Y} (R : S -> S -> Prop) `{!PreOrder R} (f : X -> prog S Y) (m : prog S A) :
  composed (is_call f) A m -> (forall x, stays R (f x)) -> stays R m.
Proof. intros Hm Hf. apply (composed_stays R (is_call f)); [|done]. by intros ? ? []. Qed.

Lemma write_all_stays {S} `{L : EmbeddedIoLaws S} w buf (R : S -> S -> Prop) `{!PreOrder R} :
  (forall b, stays R (w b)) -> stays R (io_write_all w buf).
Proof. by apply calls_stay, write_all_calls. Qed.

Lemma read_exact_stays {S} `{L : EmbeddedIoLaws S} r n (R : S -> S -> Prop) `{!PreOrder R} :
  (forall m, stays R (r m)) -> stays R (io_read_exact r n).
Proof. by apply calls_stay, read_exact_calls. Qed.

Lemma write_fmt_stays {S} `{L : EmbeddedIoLaws S} (R : S -> S -> Prop) `{!PreOrder R} w text :
  (forall b, stays R (w b)) -> stays R (io_write_fmt w text).
Proof. by apply calls_stay, write_fmt_calls. Qed.
#[export] Hint Resolve write_all_stays write_fmt_stays read_exact_stays : stays.
