(* ===== verification/Machine.v ===== *)
(** * Machine: the statics of the kernel, one core's registers, locks and masking

    The state of a run on one core: the mutable statics of every module of the
    program, the registers of the core which the program reads, its exception
    mask, the spin locks which are held, and the history of calls to the
    outside.  [exception_free] and the locks are the ones of [percore] and
    [spin]; log messages go through the logger of [logger.rs], so logging is
    defined in [Console]. *)

From S2P Require Import Prelude Text Extern.

(** The functions which the program registers as IRQ handlers. *)
Inductive IrqHandler :=
| ConsoleHandleIrq    (* [Console::<ConsoleImpl>::handle_irq] *)
| AlarmIrqHandle      (* [alarm::irq_handle] *)
| SecondaryIrqHandler (* [cpus::secondary_irq_handler] *).

#[export] Instance IrqHandler_eq_dec : EqDecision IrqHandler.
Proof. solve_decision. Defined.

(** Levels of the [log] crate, in increasing order of verbosity. *)
Inductive LogLevel := LError | LWarn | LInfo | LDebug | LTrace.

Definition level_num (l : LogLevel) : Z :=
  match l with LError => 1 | LWarn => 2 | LInfo => 3 | LDebug => 4 | LTrace => 5 end.

Definition level_display (l : LogLevel) : string :=
  match l with
  | LError => "ERROR" | LWarn => "WARN" | LInfo => "INFO" | LDebug => "DEBUG" | LTrace => "TRACE"
  end.

Section machine.
Context {P : PagingCrate}.

(** [pagetable::IdMap] *)
Inductive IdMap :=
| IdMapEl1 (mapping : Mapping)
| IdMapEl2 (mapping : Mapping).

Record machine := mkMachine {
  (* registers of this core *)
  current_el_reg : Z;                             (* CurrentEL.EL *)
  mpidr_el1 : Z;                                  (* MPIDR_EL1 *)
  masked : bool;                                  (* are exceptions masked? *)
  (* locks *)
  held : gset lock;
  borrowed : gset nat;                            (* per-core [RefCell]s borrowed *)
  (* statics *)
  console_once : bool;                            (* console.rs: [CONSOLE] is set *)
  log_max_level : option Z;                       (* the logger is set, with this level *)
  fdt_once : option Fdt;                          (* main.rs: [FDT] *)
  gic_once : bool;                                (* interrupts.rs: [GIC] is set *)
  pagetable_once : option IdMap;                  (* pagetable.rs: [PAGETABLE] *)
  shared_irq : gmap Z IrqHandler;                 (* [SHARED_IRQ_HANDLERS] *)
  private_irq : option (list (gmap Z IrqHandler));(* [PRIVATE_IRQ_HANDLERS], lazy *)
  alarm_fired : bool;                             (* alarm.rs: [ALARM_FIRED] *)
  secondary_stacks : gmap Z Z;                    (* [SECONDARY_STACKS] *)
  (* calls to the outside, newest first *)
  trace : history;
}.

(** Field updates. *)
Definition set_mpidr_el1 (v : Z) (m : machine) : machine :=
  mkMachine (current_el_reg m) v (masked m) (held m) (borrowed m) (console_once m)
    (log_max_level m) (fdt_once m) (gic_once m) (pagetable_once m) (shared_irq m)
    (private_irq m) (alarm_fired m) (secondary_stacks m) (trace m).
Definition set_masked (v : bool) (m : machine) : machine :=
  mkMachine (current_el_reg m) (mpidr_el1 m) v (held m) (borrowed m) (console_once m)
    (log_max_level m) (fdt_once m) (gic_once m) (pagetable_once m) (shared_irq m)
    (private_irq m) (alarm_fired m) (secondary_stacks m) (trace m).
Definition set_held (v : gset lock) (m : machine) : machine :=
  mkMachine (current_el_reg m) (mpidr_el1 m) (masked m) v (borrowed m) (console_once m)
    (log_max_level m) (fdt_once m) (gic_once m) (pagetable_once m) (shared_irq m)
    (private_irq m) (alarm_fired m) (secondary_stacks m) (trace m).
Definition set_borrowed (v : gset nat) (m : machine) : machine :=
  mkMachine (current_el_reg m) (mpidr_el1 m) (masked m) (held m) v (console_once m)
    (log_max_level m) (fdt_once m) (gic_once m) (pagetable_once m) (shared_irq m)
    (private_irq m) (alarm_fired m) (secondary_stacks m) (trace m).
Definition set_console_once (v : bool) (m : machine) : machine :=
  mkMachine (current_el_reg m) (mpidr_el1 m) (masked m) (held m) (borrowed m) v
    (log_max_level m) (fdt_once m) (gic_once m) (pagetable_once m) (shared_irq m)
    (private_irq m) (alarm_fired m) (secondary_stacks m) (trace m).
Definition set_log_max_level (v : option Z) (m : machine) : machine :=
  mkMachine (current_el_reg m) (mpidr_el1 m) (masked m) (held m) (borrowed m)
    (console_once m) v (fdt_once m) (gic_once m) (pagetable_once m) (shared_irq m)
    (private_irq m) (alarm_fired m) (secondary_stacks m) (trace m).
Definition set_fdt_once (v : option Fdt) (m : machine) : machine :=
  mkMachine (current_el_reg m) (mpidr_el1 m) (masked m) (held m) (borrowed m)
    (console_once m) (log_max_level m) v (gic_once m) (pagetable_once m) (shared_irq m)
    (private_irq m) (alarm_fired m) (secondary_stacks m) (trace m).
Definition set_gic_once (v : bool) (m : machine) : machine :=
  mkMachine (current_el_reg m) (mpidr_el1 m) (masked m) (held m) (borrowed m)
    (console_once m) (log_max_level m) (fdt_once m) v (pagetable_once m) (shared_irq m)
    (private_irq m) (alarm_fired m) (secondary_stacks m) (trace m).
Definition set_pagetable_once (v : option IdMap) (m : machine) : machine :=
  mkMachine (current_el_reg m) (mpidr_el1 m) (masked m) (held m) (borrowed m)
    (console_once m) (log_max_level m) (fdt_once m) (gic_once m) v (shared_irq m)
    (private_irq m) (alarm_fired m) (secondary_stacks m) (trace m).
Definition set_shared_irq (v : gmap Z IrqHandler) (m : machine) : machine :=
  mkMachine (current_el_reg m) (mpidr_el1 m) (masked m) (held m) (borrowed m)
    (console_once m) (log_max_level m) (fdt_once m) (gic_once m) (pagetable_once m) v
    (private_irq m) (alarm_fired m) (secondary_stacks m) (trace m).
Definition set_private_irq (v : option (list (gmap Z IrqHandler))) (m : machine) : machine :=
  mkMachine (current_el_reg m) (mpidr_el1 m) (masked m) (held m) (borrowed m)
    (console_once m) (log_max_level m) (fdt_once m) (gic_once m) (pagetable_once m)
    (shared_irq m) v (alarm_fired m) (secondary_stacks m) (trace m).
Definition set_alarm_fired (v : bool) (m : machine) : machine :=
  mkMachine (current_el_reg m) (mpidr_el1 m) (masked m) (held m) (borrowed m)
    (console_once m) (log_max_level m) (fdt_once m) (gic_once m) (pagetable_once m)
    (shared_irq m) (private_irq m) v (secondary_stacks m) (trace m).
Definition set_secondary_stacks (v : gmap Z Z) (m : machine) : machine :=
  mkMachine (current_el_reg m) (mpidr_el1 m) (masked m) (held m) (borrowed m)
    (console_once m) (log_max_level m) (fdt_once m) (gic_once m) (pagetable_once m)
    (shared_irq m) (private_irq m) (alarm_fired m) v (trace m).
Definition set_trace (v : history) (m : machine) : machine :=
  mkMachine (current_el_reg m) (mpidr_el1 m) (masked m) (held m) (borrowed m)
    (console_once m) (log_max_level m) (fdt_once m) (gic_once m) (pagetable_once m)
    (shared_irq m) (private_irq m) (alarm_fired m) (secondary_stacks m) v.
End machine.

Abbreviation K := (prog machine).

(** What can happen to a core between two steps of its own code: before a call to the
    outside, and before it takes a lock.  Programs are written for any surroundings;
    unless others are given they run [alone], and nothing happens. *)
Class Surroundings `{P : PagingCrate} := {
  before_call : K unit;
  before_lock : lock -> K unit;
}.

#[export] Instance alone `{P : PagingCrate} : Surroundings | 100 := {|
  before_call := ret tt;
  before_lock _ := ret tt;
|}.

Section primitives.
Context {P : PagingCrate} {Q : Surroundings}.

(** A call to the outside: [f] computes the answer from the history, [mk]
    builds the event. *)
Definition ask {A} (f : history -> A) (mk : A -> event) : K A :=
  do! before_call in
  fun s =>
    let a := f (trace s) in
    (Val a, set_trace (mkEntry (mk a) (masked s) (held s) :: trace s) s).

(** A call which has no answer. *)
Definition tell (e : event) : K unit := ask (fun _ => tt) (fun _ => e).

(** [percore::exception_free]: runs [m] with exceptions masked, then restores
    the previous mask. *)
Definition exception_free {A} (m : K A) : K A :=
  let! prev := gets masked in
  do! modify (set_masked true) in
  let! a := m in
  do! modify (set_masked prev) in
  ret a.

(** [SpinMutex::lock], and the drop of the guard at the end of the scope.  A
    core which locks a mutex it holds already spins forever. *)
Definition acquire (l : lock) : K unit :=
  do! before_lock l in
  let! h := gets held in
  if decide (l ∈ h) then hang Deadlock else modify (set_held ({[l]} ∪ h)).

Definition release (l : lock) : K unit :=
  let! h := gets held in modify (set_held (h ∖ {[l]})).

Definition with_lock {A} (l : lock) (m : K A) : K A :=
  do! acquire l in
  let! a := m in
  do! release l in
  ret a.
End primitives.

(** ** Facts about masking, locks and calls *)

Section facts.
Context {P : PagingCrate}.
Implicit Types s : machine.

(** Only calls to the outside happened between [s] and [s']. *)
Definition calls_only s s' : Prop := exists evs, s' = set_trace (evs ++ trace s) s.

#[export] Instance calls_only_preorder : PreOrder calls_only.
Proof.
  split.
  - intros s. exists []. by destruct s.
  - intros s1 s2 s3 [e1 ->] [e2 ->]. exists (e2 ++ e1). simpl. by rewrite <-app_assoc.
Qed.

Lemma ask_alone {A} (f : history -> A) mk s :
  ask f mk s =
    (Val (f (trace s)), set_trace (mkEntry (mk (f (trace s))) (masked s) (held s) :: trace s) s).
Proof. done. Qed.

Lemma calls_only_ask {A} (f : history -> A) mk : stays calls_only (ask f mk).
Proof. intros s. by exists [mkEntry (mk (f (trace s))) (masked s) (held s)]. Qed.

Lemma set_trace_id s : set_trace (trace s) s = s.
Proof. by destruct s. Qed.

(** The state inside a critical section entered from [s]. *)
Definition in_critical (l : lock) s : machine :=
  set_held ({[l]} ∪ held s) (set_masked true s).

Lemma held_restore (l : lock) (h : gset lock) : l ∉ h -> ({[l]} ∪ h) ∖ {[l]} = h.
Proof. intros H. apply set_eq. intros x. rewrite elem_of_difference. set_solver. Qed.

Lemma acquire_held l s : l ∈ held s -> acquire l s = (Hang Deadlock, s).
Proof. intros H. unfold acquire. do 2 run_step. by rewrite decide_True. Qed.

Lemma acquire_free l s :
  l ∉ held s -> acquire l s = (Val tt, set_held ({[l]} ∪ held s) s).
Proof. intros H. unfold acquire. do 2 run_step. by rewrite decide_False. Qed.

Lemma with_lock_deadlock {A} l (m : K A) s :
  l ∈ held s -> with_lock l m s = (Hang Deadlock, s).
Proof. intros H. unfold with_lock. by erewrite bind_Hang by by apply acquire_held. Qed.

Lemma with_lock_free {A} l (m : K A) s :
  l ∉ held s ->
  with_lock l m s =
    (let! a := m in do! release l in ret a) (set_held ({[l]} ∪ held s) s).
Proof. intros H. unfold with_lock. by erewrite bind_Val by by apply acquire_free. Qed.

(** A critical section whose body only makes calls leaves the mask and the
    locks as it found them. *)
Lemma exception_free_Val {A} (m : K A) s a s1 :
  m (set_masked true s) = (Val a, s1) ->
  exception_free m s = (Val a, set_masked (masked s) s1).
Proof. intros H. unfold exception_free. do 2 run_step. by erewrite bind_Val by exact H. Qed.

Lemma exception_free_Panic {A} (m : K A) s msg s1 :
  m (set_masked true s) = (Panic msg, s1) -> exception_free m s = (Panic msg, s1).
Proof. intros H. unfold exception_free. do 2 run_step. by erewrite bind_Panic by exact H. Qed.

Lemma with_lock_run {A} l (m : K A) s a s1 :
  l ∉ held s ->
  m (set_held ({[l]} ∪ held s) s) = (Val a, s1) -> held s1 = {[l]} ∪ held s ->
  with_lock l m s = (Val a, set_held (held s) s1).
Proof.
  intros Hl Hm Hh. rewrite with_lock_free by done. erewrite bind_Val by apply Hm.
  unfold release, bind, gets, modify, ret. by rewrite Hh, held_restore.
Qed.

Lemma with_lock_Val {A} l (m : K A) s a t :
  l ∉ held s ->
  m (set_held ({[l]} ∪ held s) s) = (Val a, set_trace t (set_held ({[l]} ∪ held s) s)) ->
  with_lock l m s = (Val a, set_trace t s).
Proof.
  intros Hl Hm. rewrite with_lock_free by done. erewrite bind_Val by apply Hm.
  unfold release, bind, gets, modify, ret, set_held, set_trace. simpl.
  by rewrite held_restore.
Qed.

Lemma critical_Val {A} l (m : K A) s a t :
  l ∉ held s ->
  m (in_critical l s) = (Val a, set_trace t (in_critical l s)) ->
  exception_free (with_lock l m) s = (Val a, set_trace t s).
Proof.
  intros Hl Hm. unfold exception_free. do 2 run_step.
  erewrite bind_Val by exact (with_lock_Val l m (set_masked true s) a t Hl Hm).
  reflexivity.
Qed.

Lemma critical_Panic {A} l (m : K A) s msg t :
  l ∉ held s ->
  m (in_critical l s) = (Panic msg, set_trace t (in_critical l s)) ->
  exception_free (with_lock l m) s = (Panic msg, set_trace t (in_critical l s)).
Proof.
  intros Hl Hm. unfold exception_free. do 2 run_step.
  assert (with_lock l m (set_masked true s) = (Panic msg, set_trace t (in_critical l s))) as E.
  { rewrite with_lock_free by exact Hl. by erewrite bind_Panic by exact Hm. }
  by rewrite (bind_Panic _ _ _ _ _ E).
Qed.

Lemma critical_deadlock {A} l (m : K A) s :
  l ∈ held s -> exception_free (with_lock l m) s = (Hang Deadlock, set_masked true s).
Proof.
  intros Hl. unfold exception_free. do 2 run_step.
  by erewrite bind_Hang by exact (with_lock_deadlock l m (set_masked true s) Hl).
Qed.

Lemma with_lock_inv {A} l (m : K A) s a s' :
  with_lock l m s = (Val a, s') ->
  (l ∉ held s) /\ exists s1, m (set_held ({[l]} ∪ held s) s) = (Val a, s1) /\
    s' = set_held (held s1 ∖ {[l]}) s1.
Proof.
  destruct (decide (l ∈ held s)) as [Hin|Hout]; [by rewrite with_lock_deadlock|].
  rewrite with_lock_free by done. intros H. split; [done|].
  inv_bind H as a1 s1 Hm. injection H as <- <-. by exists s1.
Qed.

Lemma exception_free_inv {A} (m : K A) s a s' :
  exception_free m s = (Val a, s') ->
  exists s1, m (set_masked true s) = (Val a, s1) /\ s' = set_masked (masked s) s1.
Proof.
  unfold exception_free. intros H. inv_step H. inv_bind H as u s1 H1. injection H1 as <- <-.
  inv_bind H as a1 s1 H1. injection H as <- <-. by exists s1.
Qed.

(** A critical section which returned and whose body only made calls. *)
Lemma critical_inv {A} l (m : K A) s a s' :
  exception_free (with_lock l m) s = (Val a, s') ->
  (l ∉ held s) /\ exists s1, m (in_critical l s) = (Val a, s1) /\
    forall t, s1 = set_trace t (in_critical l s) -> s' = set_trace t s.
Proof.
  intros (s1 & H & ->)%exception_free_inv. apply with_lock_inv in H as (Hl & s2 & H & ->).
  split; [done|]. exists s2. split; [done|]. intros t ->. simpl in *.
  unfold set_trace, set_masked, set_held. simpl. by rewrite held_restore.
Qed.
End facts.

#[export] Hint Resolve calls_only_ask calls_only_preorder : stays.
#[export] Hint Extern 1 (stays _ before_call) => apply stays_ret; apply _ : stays.
#[export] Hint Extern 1 (stays _ (before_lock _)) => apply stays_ret; apply _ : stays.

(** ** Histories only grow *)

Section grows.
Context {P : PagingCrate}.
Implicit Types s : machine.

Definition grows s s' : Prop := exists evs, trace s' = evs ++ trace s.

#[export] Instance grows_preorder : PreOrder grows.
Proof.
  split.
  - intros s. by exists [].
  - intros s1 s2 s3 [e1 H1] [e2 H2]. exists (e2 ++ e1). by rewrite H2, H1, app_assoc.
Qed.

Lemma grows_ask {A} (f : history -> A) mk : stays grows (ask f mk).
Proof. intros s. by eexists [_]. Qed.

Lemma grows_modify (f : machine -> machine) :
  (forall s, trace (f s) = trace s) -> stays grows (modify f).
Proof. intros H s. exists []. simpl. by rewrite H. Qed.

#[local] Hint Resolve grows_ask : stays.
#[local] Hint Extern 2 (stays grows (modify _)) => apply grows_modify; by intros [] : stays.

Lemma grows_exception_free {A} (m : K A) : stays grows m -> stays grows (exception_free m).
Proof. intros H. unfold exception_free. stays. Qed.

Lemma grows_with_lock {A} l (m : K A) : stays grows m -> stays grows (with_lock l m).
Proof. intros H. unfold with_lock, acquire, release. stays. Qed.

Lemma calls_only_grows s s' : calls_only s s' -> grows s s'.
Proof. intros [evs ->]. by exists evs. Qed.
End grows.

#[export] Hint Resolve grows_ask grows_exception_free grows_with_lock : stays.
#[export] Hint Extern 2 (stays grows (modify _)) => apply grows_modify; by intros [] : stays.
#[export] Hint Extern 1 (stays _ (tell _)) => progress unfold tell : stays.

Ltac stays_hook ::=
  lazymatch goal with
  | |- stays grows (exception_free _) => apply grows_exception_free
  | |- stays grows (with_lock _ _) => apply grows_with_lock
  end.
