(* ===== verification/Discipline.v ===== *)
(** * Discipline: how the kernel holds its locks

    A core deadlocks if it waits for a lock which it holds itself, which can happen in
    an interrupt handler, or for one which another core holds that waits in turn.  Two
    rules exclude both: the locks which interrupt handlers take are only held with
    exceptions masked, and locks are taken in the order of their ranks.  [orderly] is
    the judgement that a program keeps the rules, in any surroundings which do. *)

From S2P Require Import Prelude Text Extern Machine.

(** The locks which interrupt handlers take. *)
Definition irq_lock (l : lock) : bool :=
  match l with LConsole | LSharedIrq => true | _ => false end.

Definition rank (l : lock) : nat :=
  match l with
  | LHeap | LPageHeap => 0
  | LHeapAllocator | LStacks => 1
  | LGic => 2
  | LSharedIrq => 3
  | LConsole => 4
  end.

(** [l] may be requested while [h] is held. *)
Definition below (h : gset lock) (l : lock) : Prop := forall l', l' ∈ h -> (rank l' < rank l)%nat.

Definition disciplined_at (h : gset lock) (mask : bool) : Prop :=
  forall l, irq_lock l = true -> l ∈ h -> mask = true.

Definition good_entry (e : entry) : Prop :=
  disciplined_at (at_held e) (at_masked e) /\
  forall l, call e = LockRequest l -> below (at_held e) l.

Lemma below_empty l : below ∅ l.
Proof. intros l' Hl. by apply not_elem_of_empty in Hl. Qed.

Lemma below_mono h l l' : (rank l <= rank l')%nat -> below h l -> below h l'.
Proof. intros Hr Hb l'' Hl. specialize (Hb l'' Hl). lia. Qed.

Lemma below_add h l l' : (rank l' < rank l)%nat -> below h l -> below ({[l']} ∪ h) l.
Proof. intros Hr Hb l'' [->%elem_of_singleton|Hin]%elem_of_union; [done|by apply Hb]. Qed.

Lemma below_free h l : below h l -> l ∉ h.
Proof. intros Hb Hl. specialize (Hb l Hl). lia. Qed.

Lemma disciplined_masked h : disciplined_at h true.
Proof. by intros l _ _. Qed.

Lemma disciplined_add h mask l :
  mask = true \/ irq_lock l = false -> disciplined_at h mask -> disciplined_at ({[l]} ∪ h) mask.
Proof.
  intros [->|Hl] Hd; [apply disciplined_masked|].
  intros l' Hl' [->%elem_of_singleton|Hin]%elem_of_union; [congruence|by eapply Hd].
Qed.

(** With exceptions unmasked, the locks of the handlers can be requested. *)
Lemma disciplined_below h : disciplined_at h false -> below h LSharedIrq.
Proof.
  intros Hd l Hl. destruct (irq_lock l) eqn:E; [by specialize (Hd l E Hl)|].
  destruct l; simpl in *; lia || done.
Qed.

Create HintDb below.
#[export] Hint Resolve below_empty : below.

(** Solves [below h l] from hypotheses about the locks already held. *)
Ltac below :=
  repeat (lazymatch goal with |- below (_ ∪ _) _ => apply below_add; [simpl; lia|] end);
  solve [ auto with below
        | match goal with
          | H : below ?h _ |- below ?h _ => refine (below_mono _ _ _ _ H); simpl; lia
          end ].

Section orderly.
Context {P : PagingCrate}.
Implicit Types s : machine.

(** From a state in which exactly [h] is held, in a disciplined way and with exceptions
    masked if [k]: [m] does not wait for a lock of its own core, every call is made in a
    disciplined state and every request for a lock is in order, and if [m] returns then
    exactly [h'] is held, in a disciplined way and with exceptions still masked if [k]. *)
Definition orderly_to {A} (k : bool) (h : gset lock) (m : K A) (h' : gset lock) : Prop :=
  forall s, held s = h -> (k = true -> masked s = true) -> disciplined_at h (masked s) ->
    (m s).1 <> Hang Deadlock /\
    (exists evs, trace (m s).2 = evs ++ trace s /\ Forall good_entry evs) /\
    forall a, (m s).1 = Val a ->
      held (m s).2 = h' /\ (k = true -> masked (m s).2 = true) /\
      disciplined_at h' (masked (m s).2).

Definition orderly {A} (k : bool) (h : gset lock) (m : K A) : Prop := orderly_to k h m h.

(** Surroundings which keep the rules. *)
Class OrderlySurroundings (Q : Surroundings) : Prop := {
  before_call_orderly k h : orderly k h before_call;
  before_lock_orderly k h l : below h l -> orderly k h (before_lock l);
}.

Lemma orderly_bind_to {A B} k h1 h2 h3 (m : K A) (f : A -> K B) :
  orderly_to k h1 m h2 -> (forall a, orderly_to k h2 (f a) h3) -> orderly_to k h1 (bind m f) h3.
Proof.
  intros Hm Hf s Hh Hk Hd. destruct (Hm s Hh Hk Hd) as (Hdl & (e1 & Ht1 & Hg1) & Hv). unfold bind.
  destruct (m s) as [[a|?|?|] s1]; simpl in *;
    [|by (split; [congruence|]; split; [exists e1|])..].
  destruct (Hv a eq_refl) as (Hh1 & Hk1 & Hd1).
  destruct (Hf a s1 Hh1 Hk1 Hd1) as (Hdl2 & (e2 & Ht2 & Hg2) & Hv2).
  split; [done|]. split; [|done]. exists (e2 ++ e1).
  split; [by rewrite Ht2, Ht1, app_assoc|by apply Forall_app].
Qed.

Lemma orderly_bind {A B} k h (m : K A) (f : A -> K B) :
  orderly k h m -> (forall a, orderly k h (f a)) -> orderly k h (bind m f).
Proof. apply orderly_bind_to. Qed.

(** A step which makes no calls and leaves locks and mask alone. *)
Lemma orderly_pure {A} k h (m : K A) :
  (forall s, (m s).1 <> Hang Deadlock /\
     trace (m s).2 = trace s /\ held (m s).2 = held s /\ masked (m s).2 = masked s) ->
  orderly k h m.
Proof.
  intros H s Hh Hk Hd. destruct (H s) as (Hdl & Ht & Hh' & Hm). split; [done|].
  split; [exists []; by rewrite Ht|]. intros a _. by rewrite Hh', Hm.
Qed.

Lemma orderly_ext {A} k h (m m' : K A) : (forall s, m s = m' s) -> orderly k h m -> orderly k h m'.
Proof. intros E Hm s. rewrite <-E. apply Hm. Qed.

Lemma orderly_ret {A} k h (a : A) : orderly k h (ret a).
Proof. by apply orderly_pure. Qed.
Lemma orderly_panic {A} k h msg : orderly k h (panic (A:=A) msg).
Proof. by apply orderly_pure. Qed.
Lemma orderly_spin {A} k h : orderly k h (hang (A:=A) SpinLoop).
Proof. by apply orderly_pure. Qed.
Lemma orderly_out_of_fuel {A} k h : orderly k h (out_of_fuel (A:=A)).
Proof. by apply orderly_pure. Qed.
Lemma orderly_gets {A} k h (f : machine -> A) : orderly k h (gets f).
Proof. by apply orderly_pure. Qed.
Lemma orderly_expect {A} k h msg (o : option A) : orderly k h (expect msg o).
Proof. by destruct o; apply orderly_pure. Qed.
Lemma orderly_unwrap_ok {A} k h (r : result A) : orderly k h (unwrap_ok r).
Proof. by destruct r; apply orderly_pure. Qed.
Lemma orderly_assert k h b msg : orderly k h (assert b msg).
Proof. by destruct b; apply orderly_pure. Qed.
Lemma orderly_checked_add k h w a b : orderly k h (checked_add w a b).
Proof. apply orderly_pure. intros s. unfold checked_add. by destruct (_ <? _). Qed.
Lemma orderly_checked_mul k h w a b : orderly k h (checked_mul w a b).
Proof. apply orderly_pure. intros s. unfold checked_mul. by destruct (_ <? _). Qed.
Lemma orderly_when k h b (m : K unit) : orderly k h m -> orderly k h (when b m).
Proof. intros H. destruct b; [done|apply orderly_ret]. Qed.

Lemma orderly_for_each {A} k h (f : A -> K unit) l :
  (forall x, orderly k h (f x)) -> orderly k h (for_each f l).
Proof. intros H. induction l; simpl; [apply orderly_ret|by apply orderly_bind]. Qed.

Lemma orderly_fold {A B} k h (f : B -> A -> K B) l b :
  (forall b x, orderly k h (f b x)) -> orderly k h (fold_prog f b l).
Proof.
  intros H. revert b. induction l; intros b; simpl; [apply orderly_ret|by apply orderly_bind].
Qed.

(** Masking makes the body of an [exception_free] code which runs masked. *)
Lemma orderly_exception_free {A} k h (m : K A) :
  orderly true h m -> orderly k h (exception_free m).
Proof.
  intros Hm s Hh Hk Hd. unfold exception_free, bind, gets, modify, ret.
  destruct (Hm (set_masked true s)) as (Hdl & (e1 & Ht1 & Hg1) & Hv);
    [done|done|apply disciplined_masked|].
  simpl in *. destruct (m _) as [[a|?|?|] s1]; simpl in *;
    [|by (split; [congruence|]; split; [exists e1|])..].
  split; [done|]. split; [by exists e1|]. intros a' _. by destruct (Hv a eq_refl) as (Hh1 & _ & _).
Qed.

(** A method which is composed of calls of an orderly one. *)
Lemma orderly_composed_of {A} k h base (m : K A) :
  composed base A m -> (forall A (m : K A), base A m -> orderly k h m) -> orderly k h m.
Proof.
  intros Hm Hb. induction Hm as [A m Hm|A a|A msg|A B m g _ IHm _ IHg|A m m' E _ IH].
  - by apply Hb.
  - apply orderly_ret.
  - apply orderly_panic.
  - by apply orderly_bind.
  - by eapply orderly_ext.
Qed.

Lemma orderly_composed {A X Y} k h (f : X -> K Y) (m : K A) :
  composed (is_call f) A m -> (forall x, orderly k h (f x)) -> orderly k h m.
Proof. intros Hm Hf. eapply orderly_composed_of; [exact Hm|]. intros ? ? [x]. apply Hf. Qed.

Section calls.
Context {Q : Surroundings} {QO : OrderlySurroundings Q}.

Lemma orderly_ask {A} k h (f : history -> A) mk :
  (forall a l, mk a <> LockRequest l) -> orderly k h (ask f mk).
Proof.
  intros Hmk. unfold ask. apply orderly_bind; [apply before_call_orderly|]. intros _ s Hh Hk Hd.
  simpl. split; [done|]. split; [|by intros; rewrite Hh].
  eexists [_]. split; [reflexivity|]. repeat constructor; simpl; [by rewrite Hh|].
  intros l E. by apply Hmk in E.
Qed.

Lemma orderly_acquire k h l :
  below h l -> k = true \/ irq_lock l = false -> orderly_to k h (acquire l) ({[l]} ∪ h).
Proof.
  intros Hb Hl. unfold acquire. eapply orderly_bind_to; [by apply before_lock_orderly|]. intros _.
  intros s Hh Hk Hd. apply below_free in Hb. unfold bind, gets, modify. simpl.
  rewrite decide_False by (by rewrite Hh). simpl. split; [done|]. split; [by exists []|].
  intros _ _. split; [by rewrite Hh|]. split; [done|]. apply disciplined_add; [|done].
  destruct Hl as [->|Hl]; [left; by apply Hk|by right].
Qed.

Lemma orderly_release k h l : orderly_to k h (release l) (h ∖ {[l]}).
Proof.
  intros s Hh Hk Hd. split; [done|]. split; [by exists []|]. intros _ _. simpl. rewrite Hh.
  split; [done|]. split; [done|]. intros l' Hl' [Hin _]%elem_of_difference. by eapply Hd.
Qed.

Lemma orderly_with_lock {A} k h l (m : K A) :
  below h l -> k = true \/ irq_lock l = false -> orderly k ({[l]} ∪ h) m ->
  orderly k h (with_lock l m).
Proof.
  intros Hb Hl Hm. unfold with_lock. eapply orderly_bind_to; [by apply orderly_acquire|intros _].
  eapply orderly_bind_to; [exact Hm|intros a].
  rewrite <-(held_restore l h) at 2 by (by apply below_free).
  eapply orderly_bind_to; [apply orderly_release|intros _; apply orderly_ret].
Qed.
End calls.

(** Nothing happens to a core which is alone. *)
#[export] Instance alone_orderly : OrderlySurroundings alone.
Proof. split; intros; apply orderly_ret. Qed.
End orderly.

Create HintDb orderly.
#[export] Hint Resolve orderly_ret orderly_panic orderly_spin orderly_out_of_fuel orderly_gets
  orderly_expect orderly_unwrap_ok orderly_assert orderly_checked_add orderly_checked_mul : orderly.
#[export] Hint Extern 1 (orderly _ _ (ask _ _)) => apply orderly_ask; by intros : orderly.
#[export] Hint Extern 1 (orderly _ _ (tell _)) => apply orderly_ask; by intros : orderly.
#[export] Hint Extern 1 (orderly _ _ (unwrap _)) => apply orderly_expect : orderly.
#[export] Hint Extern 1 (orderly _ _ (layout_from_size_align _ _)) => apply orderly_unwrap_ok : orderly.
#[export] Hint Extern 2 (orderly _ _ (modify _)) => apply orderly_pure; by intros [] : orderly.
#[export] Hint Extern 1 (below _ _) => below : orderly.

(** One step of a proof that a program is orderly. *)
Ltac orderly_step :=
  lazymatch goal with
  | |- forall _, _ => intros ?
  | |- orderly _ _ (bind _ _) => apply orderly_bind
  | |- orderly _ _ (when _ _) => apply orderly_when
  | |- orderly _ _ (for_each _ _) => apply orderly_for_each
  | |- orderly _ _ (fold_prog _ _ _) => apply orderly_fold
  | |- orderly _ _ (exception_free _) => apply orderly_exception_free
  | |- orderly _ _ (with_lock _ _) => apply orderly_with_lock; [below|first [by left | by right]|]
  | |- orderly _ _ (match ?x with _ => _ end) => destruct x
  | |- _ => solve [auto with orderly]
  end.
Ltac orderly := repeat orderly_step.
