(* ===== verification/Sim.v ===== *)
(** * Sim: a simulated board

    Concrete instances of the parameters of [Extern]: provided methods of
    [embedded_io], a page table which is a list of mapped ranges, the
    architectural constants, and an environment with a UART fed from a list of
    bytes.  They satisfy the laws which the components rely on, and are what the
    witnesses run. *)

From S2P Require Import Prelude Text Extern Machine.

Section io.
Context {S : Type}.

Fixpoint sim_write_all (fuel : nat) (w : list byte -> prog S (result nat)) (buf : list byte)
    : prog S (result unit) :=
  match buf with
  | [] => ret (Ok tt)
  | _ =>
      match fuel with
      | O => out_of_fuel
      | Datatypes.S fuel =>
          let! r := w buf in
          match r with
          | Ok O => panic "write() returned Ok(0)"
          | Ok n => sim_write_all fuel w (drop n buf)
          | Err e => ret (Err e)
          end
      end
  end.

Fixpoint sim_read_exact (fuel : nat) (r : nat -> prog S (result (list byte))) (n : nat)
    : prog S (result (list byte)) :=
  match n with
  | O => ret (Ok [])
  | _ =>
      match fuel with
      | O => out_of_fuel
      | Datatypes.S fuel =>
          let! res := r n in
          match res with
          | Ok [] => ret (Err "UnexpectedEof")
          | Ok bs =>
              let! rest := sim_read_exact fuel r (n - length bs)%nat in
              ret (match rest with Ok tl => Ok (bs ++ tl) | Err e => Err e end)
          | Err e => ret (Err e)
          end
      end
  end.

#[export] Instance sim_io : EmbeddedIo S := {|
  io_write_all w buf := sim_write_all (length buf) w buf;
  io_write_fmt w text := write_seq (fun buf => sim_write_all (length buf) w buf) [bytes text];
  io_read_exact r n := sim_read_exact n r n;
  fmt_pieces text := [bytes text];
|}.

Lemma sim_write_all_fuel w f1 f2 buf s :
  (length buf <= f1)%nat -> (length buf <= f2)%nat ->
  sim_write_all f1 w buf s = sim_write_all f2 w buf s.
Proof.
  revert f2 buf s. induction f1 as [|f1 IH]; intros f2 buf s H1 H2.
  { destruct buf; [|simpl in H1; lia]. by destruct f2. }
  destruct buf as [|b buf]; [by destruct f2|]. destruct f2 as [|f2]; [simpl in H2; lia|].
  simpl. unfold bind. destruct (w _ s) as [[[[|n]|e]|?|?|] s1]; try done.
  simpl in *. apply IH; rewrite length_drop; lia.
Qed.

Lemma sim_read_exact_fuel r f1 f2 n s :
  (n <= f1)%nat -> (n <= f2)%nat -> sim_read_exact f1 r n s = sim_read_exact f2 r n s.
Proof.
  revert f2 n s. induction f1 as [|f1 IH]; intros f2 n s H1 H2.
  { destruct n; [|lia]. by destruct f2. }
  destruct n as [|n]; [by destruct f2|]. destruct f2 as [|f2]; [lia|].
  simpl. unfold bind. destruct (r _ s) as [[[[|b bs]|e]|?|?|] s1]; try done.
  cbn [length]. by rewrite (IH f2) by lia.
Qed.

Lemma sim_write_all_calls w f buf :
  (length buf <= f)%nat -> composed (is_call w) (result unit) (sim_write_all f w buf).
Proof.
  revert buf. induction f as [|f IH]; intros [|b buf] Hf; simpl in *;
    [apply composed_ret|lia|apply composed_ret|].
  apply composed_bind; [apply composed_base, call_of|].
  intros [[|n]|e]; [apply composed_panic| |apply composed_ret].
  apply IH. simpl. rewrite length_drop. lia.
Qed.

Lemma sim_read_exact_calls r f n :
  (n <= f)%nat -> composed (is_call r) (result (list byte)) (sim_read_exact f r n).
Proof.
  revert n. induction f as [|f IH]; intros [|n] Hf; simpl in *;
    [apply composed_ret|lia|apply composed_ret|].
  apply composed_bind; [apply composed_base, call_of|].
  intros [[|b bs]|e]; [apply composed_ret| |apply composed_ret].
  apply composed_bind; [apply IH; simpl; lia|]. intros rest. apply composed_ret.
Qed.

#[export] Instance sim_io_laws : EmbeddedIoLaws S sim_io.
Proof.
  split; simpl.
  - done.
  - intros w buf n s s' Hne Hn Hw. destruct buf as [|b buf]; [done|]. simpl.
    erewrite bind_Val by done. destruct n as [|n]; [lia|].
    apply sim_write_all_fuel; [|done]. simpl. rewrite length_drop. lia.
  - intros w buf e s s' Hne Hw. destruct buf as [|b buf]; [done|]. simpl.
    by erewrite bind_Val by done.
  - intros w buf. by apply sim_write_all_calls.
  - done.
  - intros text. by rewrite app_nil_r.
  - done.
  - intros r n bs s s' Hn Hne Hlen Hr. destruct n as [|n]; [lia|]. simpl.
    erewrite bind_Val by done. destruct bs as [|b bs]; [done|]. simpl.
    unfold bind. rewrite (sim_read_exact_fuel r n (n - length bs) (n - length bs) s') by lia.
    done.
  - intros r n res s s' Hn Hr Hres. destruct n as [|n]; [lia|]. simpl. erewrite bind_Val by done.
    destruct res as [bs|e]; [|by exists e]. rewrite (Hres bs eq_refl). by eexists.
  - intros r n o s s' Hn Hr Ho. destruct n as [|n]; [lia|]. simpl. unfold bind. rewrite Hr.
    destruct o as [res|?|?|]; [by destruct (Ho res)|by eexists..].
  - intros r n. by apply sim_read_exact_calls.
Qed.
End io.

(** ** Page tables: a list of mapped ranges, newest first *)

Definition align_down (a n : Z) : Z := a - a mod n.
Definition align_up (a n : Z) : Z := align_down (a + n - 1) n.

Record sim_mapping := mkSimMapping {
  sm_ranges : list (Z * Z * Z * Z);  (* start, end, physical address, attributes *)
  sm_size : Z;
  sm_active : bool;
  sm_root : Z;                       (* the physical addresses of the root table *)
  sm_tables : list Z;                (* and of the others *)
}.

(** Every range gets a table of its own. *)
Definition sim_map_range {S} (t : Translation S) (m : sim_mapping) (r : MemoryRegion)
    (pa attrs : Z) : prog S (result unit * sim_mapping) :=
  if region_end r <=? sm_size m then
    do! tr_physical_to_virtual t (sm_root m) in
    let! '(_, table) := tr_allocate_table t in
    ret (Ok tt, mkSimMapping ((region_start r, region_end r, pa, attrs) :: sm_ranges m)
                  (sm_size m) (sm_active m) (sm_root m) (table :: sm_tables m))
  else ret (Err "AddressRange", m).

Definition sim_new_mapping {S} (t : Translation S) (level : Z) : prog S sim_mapping :=
  let! '(_, table) := tr_allocate_table t in
  ret (mkSimMapping [] (2 ^ (48 - 9 * level)) false table []).

#[export] Instance sim_paging : PagingCrate := {|
  region_new a b := mkRegion (align_down a 4096) (align_up b 4096);
  region_display _ := "region";
  region_debug _ := "region";
  Mapping := sim_mapping;
  mapping_new_el2 S := sim_new_mapping;
  mapping_new_el1 S t asid level := sim_new_mapping t level;
  mapping_size := sm_size;
  mapping_map_range S := sim_map_range;
  mapping_active := sm_active;
  mapping_activate m := mkSimMapping (sm_ranges m) (sm_size m) true (sm_root m) (sm_tables m);
  mapping_debug _ := "mapping";
  El1_VALID := 1;
  El1_ATTRIBUTE_INDEX_0 := 0;
  El1_ATTRIBUTE_INDEX_1 := Z.shiftl 1 2;
  El1_INNER_SHAREABLE := Z.shiftl 3 8;
  El1_ACCESSED := Z.shiftl 1 10;
  El1_NON_GLOBAL := Z.shiftl 1 11;
  El1_UXN := Z.shiftl 1 54;
  El23_VALID := 1;
  El23_ATTRIBUTE_INDEX_0 := 0;
  El23_ATTRIBUTE_INDEX_1 := Z.shiftl 1 2;
  El23_INNER_SHAREABLE := Z.shiftl 3 8;
  El23_ACCESSED := Z.shiftl 1 10;
  El23_NON_GLOBAL := Z.shiftl 1 11;
  El23_XN := Z.shiftl 1 54;
|}.

(** ** Constants *)

#[export] Instance sim_consts : CrateConsts := {|
  IntId_sgi n := n;
  IntId_spi n := 32 + n;
  SGI_COUNT := 16;
  intid_debug n := "IntId(" +:+ fmt_dec n +:+ ")";
  size_of_Gicd := 0x10000;
  size_of_GicrSgi := 0x20000;
  size_of_VirtIOHeader := 0x100;
  layout_PageTable := (4096, 4096);
  layout_Stack pages := (pages * 4096, 4096);
  PAGE_SIZE := 4096;
  VIRTIO_PAGE_SIZE := 4096;
  HCR_IMO := Z.shiftl 1 4;
  MPIDR_U := Z.shiftl 1 30;
  MPIDR_MT := Z.shiftl 1 24;
  cam_mmio_size := 0x1000000;
  cam_ecam_size := 0x10000000;
  CMD_IO_SPACE := 1;
  CMD_MEMORY_SPACE := 2;
  CMD_BUS_MASTER := 4;
  duration_seconds s := if Z.abs s <=? 9223372036854775 then Some s else None;
  datetime_add t d := if (Z.abs (t + d) <=? 8210266876799) then Some (t + d) else None;
  datetime_display t := fmt_dec t;
  reg_debug _ := "reg";
  affinity_debug a := match a with AffOn => "On" | AffOff => "Off" | AffOnPending => "OnPending" end;
  bar_display _ := "bar";
  df_display df := fmt_dec df;
  vsevent_debug _ := "event";
  register_state_debug := "registers";
  panic_info_display msg := "panicked: " +:+ msg;
  transport_device_type t :=
    match t with
    | MmioTransport header _ => if header =? 0xa000000 then DevBlock else DevSocket
    | PciTransport _ _ => DevConsole
    end;
  mmio_version_debug _ := "Modern";
  device_status_debug s := fmt_dec s;
  devicetype_debug _ := "type";
  mmio_error_display _ := "error";
  virtio_device_type i := if bool_decide (i = "virtio") then Some DevConsole else None;
  blk_capacity _ := 0;
  blk_readonly _ := false;
  vconsole_size_debug _ := Ok "None";
  vsock_guest_cid _ := 102;
|}.

(** ** The environment

    The heap allocates above everything which is live; page tables are at addresses
    which grow with the history. *)

(** How many bytes have been read from the UART. *)
Fixpoint uart_consumed (h : history) : nat :=
  match h with
  | [] => 0
  | e :: h =>
      match call e with
      | UartRead _ (Ok bs) => (length bs + uart_consumed h)%nat
      | _ => uart_consumed h
      end
  end.

Definition is_wfi (e : entry) : bool := match call e with Wfi => true | _ => false end.
Definition count_wfi (h : history) : nat := length (List.filter is_wfi h).

Record sim_config := mkSimConfig {
  cfg_input : list byte;                         (* typed at the console *)
  cfg_delay : nat;                               (* after this many interrupts *)
  cfg_uart_fails : bool;                         (* UART writes report an error *)
  cfg_irq : option Z;                            (* the interrupt which is pending *)
  cfg_pci : list (Z * list (option BarInfo));    (* PCI functions and their BARs *)
  cfg_vsock : list VsockEvent;                   (* events, in the order they are polled *)
}.

Definition sim_default : sim_config := mkSimConfig [] 0 false (Some 33) [] [].

Definition sim_env (cfg : sim_config) : BoardEnv := {|
  env_uart_write h buf :=
    if cfg_uart_fails cfg then Err "Overrun" else Ok (Nat.min 16 (length buf));
  env_uart_flush h := Ok tt;
  env_uart_read_ready h := 
    Ok ((cfg_delay cfg <=? count_wfi h) && (uart_consumed h <? length (cfg_input cfg)))%nat;
  env_uart_read h len :=
    if (uart_consumed h <? length (cfg_input cfg))%nat
    then Ok (take len (drop (uart_consumed h) (cfg_input cfg))) else Err "NotReady";
  env_uart_new_mmio h base := Ok tt;
  env_uart_init h base := Ok tt;
  env_hcr_el2 h := 0;
  env_esr h el := 0x96000045;
  env_far h el := 0xdead0000;
  env_gic_ack h := cfg_irq cfg;
  env_gic_send_sgi h id := Ok tt;
  env_gic_set_priority h id cpu p := Ok tt;
  env_gic_set_trigger h id cpu t := Ok tt;
  env_gic_enable_interrupt h id cpu e := Ok tt;
  env_psci_system_off h c := Ok tt;
  env_psci_version h c := Ok "1.1";
  env_psci_affinity_info h c id level := Ok (if id =? 0 then AffOn else AffOff);
  env_psci_cpu_off h c := Ok tt;
  env_start_core h c id stack arg := Ok tt;
  env_rtc_get_time h := 1700000000;
  env_rtc_set_match h t := if (0 <=? t) && (t <? 2 ^ 32) then Ok tt else Err "InvalidTime";
  env_heap_alloc h size align :=
    Some (align_up (foldr (fun b top => Z.max (b.1 + b.2) top) 0x40200000 (heap_live h)) align);
  env_page_alloc h size align := Some (0x40100000 + 0x1000 * Z.of_nat (length h));
  env_pci_bus_next h root n := (fun p => (p.1, "virtio")) <$> cfg_pci cfg !! n;
  env_pci_bars h root df :=
    match list_find (fun p => p.1 = df) (cfg_pci cfg) with
    | Some (_, (_, bars)) => Ok bars
    | None => Err "InvalidDevice"
    end;
  env_pci_status_command h root df := ("status", "command");
  env_virtio_mmio_new h header size :=
    if header =? 0xa000200 then inr (InvalidDeviceType 0) else inl (MmioTransport header size);
  env_virtio_pci_new h root df := Ok (PciTransport root df);
  env_virtio_vendor_id h t := 0x554d4551;
  env_virtio_read_features h t := 0x130000000;
  env_virtio_get_status h t := 0;
  env_virtio_blk_new h t := Ok tt;
  env_virtio_console_new h t := Ok tt;
  env_virtio_socket_new h t := Ok tt;
  env_blk_device_id h t := Ok (bytes "disk0");
  env_vs_connect h t peer local_port := Ok tt;
  env_vs_send h t peer local_port buf := Ok tt;
  env_vs_poll h t := Ok (cfg_vsock cfg !! vs_polls t h);
  env_vs_available h t peer local_port := Ok 0;
  env_vs_recv h t peer local_port len := Ok [];
|}.

(** A core at reset, before [main] runs. *)
Definition sim_machine : machine :=
  mkMachine 1 0x80000000 true ∅ ∅ false None None false None ∅ None false ∅ [].
