(* ===== verification/Console.v ===== *)
(** * Console: [console.rs], [logger.rs], [drivers.rs] and powering off

    The UART driver behind a spin lock ([SharedConsole]), its unique reader
    ([Console]), the logger, the interrupt handlers of the two UARTs, and
    [power_off]/[smc_for_psci] of [main.rs], which the panic handler uses. *)

From S2P Require Import Prelude Text Extern Machine Sim.

Definition nl : string := String (Ascii.ascii_of_nat 10) EmptyString.
Definition crlf : list byte := [x0d; x0a].

(** ** The UART driver and the CPU *)

Section uart.
Context {P : PagingCrate} {Q : Surroundings} {B : BoardEnv}.

Definition uart_write (buf : list byte) : K (result nat) :=
  ask (fun h => env_uart_write h buf) (UartWrite buf).
Definition uart_flush : K (result unit) := ask env_uart_flush UartFlush.
Definition uart_read_ready : K (result bool) := ask env_uart_read_ready UartReadReady.
Definition uart_read (len : nat) : K (result (list byte)) :=
  ask (fun h => env_uart_read h len) (UartRead len).

Definition wfi : K unit := tell Wfi.

(** [arm_gic::irq_enable] unmasks interrupts. *)
Definition irq_enable : K unit :=
  do! tell IrqEnable in modify (set_masked false).

Definition end_interrupt (intid : Z) : K unit := tell (GicEnd intid).
End uart.

#[export] Hint Extern 1 (stays _ (uart_write _)) => progress unfold uart_write : stays.

(** ** Drivers which handle interrupts *)

(** [drivers::InterruptDriven] *)
Class InterruptDriven `{P : PagingCrate} := driver_handle_irq : Z -> K unit.

(** Its default method, which neither driver overrides. *)
Definition wait_for_irq `{P : PagingCrate} `{Q : !Surroundings} : K unit := wfi.

Module Pl011.
Section pl011.
Context {P : PagingCrate} {Q : Surroundings}.

Definition handle_irq (intid : Z) : K unit :=
  do! tell UartClearInterrupts in end_interrupt intid.

#[export] Instance interrupt_driven : InterruptDriven := handle_irq.
End pl011.
End Pl011.

Module Uart16550.
Section uart16550.
Context {P : PagingCrate} {Q : Surroundings}.

Definition handle_irq (intid : Z) : K unit := end_interrupt intid.

#[export] Instance interrupt_driven : InterruptDriven := handle_irq.
End uart16550.
End Uart16550.

(** ** [SharedConsole]: the driver behind a lock *)

Module SharedConsole.
Section shared_console.
Context {P : PagingCrate} {Q : Surroundings} {B : BoardEnv}.

Definition write (buf : list byte) : K (result nat) :=
  exception_free (with_lock LConsole (uart_write buf)).

Definition flush : K (result unit) :=
  exception_free (with_lock LConsole uart_flush).
End shared_console.
End SharedConsole.

(** ** The logger ([logger.rs]) *)

Module Logger.
Section logger.
Context {P : PagingCrate} {Q : Surroundings} {B : BoardEnv} {I : EmbeddedIo machine}.

(** [impl Log for SharedConsole]: [enabled] is always true. *)
Definition shared_log (level : LogLevel) (args : string) : K unit :=
  exception_free (with_lock LConsole (
    let! r := io_write_fmt uart_write ("[" +:+ level_display level +:+ "] " +:+ args +:+ nl) in
    unwrap_ok r)).

(** [set_logger] fails if a logger is set already. *)
Definition init (max_level : LogLevel) : K (result unit) :=
  let! cur := gets log_max_level in
  match cur with
  | Some _ => ret (Err "SetLoggerError")
  | None =>
      do! modify (set_log_max_level (Some (level_num max_level))) in
      ret (Ok tt)
  end.

(** The [log!] macros: nothing happens before a logger is set (the maximum
    level is then [Off]) or above the maximum level. *)
Definition log (level : LogLevel) (args : string) : K unit :=
  let! max := gets log_max_level in
  when (level_num level <=? default 0 max) (shared_log level args).

(** The same when evaluating the arguments may panic or call a device: they are only
    evaluated if the message is logged. *)
Definition log_with (level : LogLevel) (args : K string) : K unit :=
  let! max := gets log_max_level in
  when (level_num level <=? default 0 max) (let! args := args in shared_log level args).
End logger.
End Logger.

Abbreviation error := (Logger.log LError).
Abbreviation warn := (Logger.log LWarn).
Abbreviation info := (Logger.log LInfo).
Abbreviation debug := (Logger.log LDebug).
Abbreviation log_trace := (Logger.log LTrace).

(** ** Powering off ([main.rs]) *)

Module Power.
Section power.
Context {P : PagingCrate} {Q : Surroundings} {B : BoardEnv} {I : EmbeddedIo machine}.

Definition fdt_uses_smc (fdt : option Fdt) : bool :=
  match fdt with
  | None => false
  | Some fdt =>
      match fdt_find_node fdt "/psci" with
      | None => false
      | Some psci_node =>
          match node_property psci_node "method" with
          | None => false
          | Some value => bool_decide (value = bytes "smc" ++ [x00])
          end
      end
  end.

Definition smc_for_psci : K bool := gets (fun s => fdt_uses_smc (fdt_once s)).

Definition conduit (smc : bool) : Conduit := if smc then Smc else Hvc.

Definition system_off (c : Conduit) : K (result unit) :=
  ask (fun h => env_psci_system_off h c) (PsciSystemOff c).

Definition power_off {A} : K A :=
  let! smc := smc_for_psci in
  let! result := system_off (conduit smc) in
  do! match result with
      | Err e => error ("PSCI_SYSTEM_OFF failed: " +:+ e)
      | Ok _ => error "PSCI_SYSTEM_OFF returned unexpectedly"
      end in
  hang SpinLoop.
End power.
End Power.

(** ** [Console]: the unique reader *)

Module Console.
Section console.
Context {P : PagingCrate} {Q : Surroundings} {B : BoardEnv} {I : EmbeddedIo machine} {C : CrateConsts}.
Context {D : InterruptDriven}.

Definition write (buf : list byte) : K (result nat) := SharedConsole.write buf.
Definition flush : K (result unit) := SharedConsole.flush.

(** The closure run with the lock held: [None] if there is nothing to read. *)
Definition try_read (len : nat) : K (result (option (list byte))) :=
  let! ready := uart_read_ready in
  match ready with
  | Err e => ret (Err e)
  | Ok true =>
      let! r := uart_read len in
      ret (match r with Ok bs => Ok (Some bs) | Err e => Err e end)
  | Ok false => ret (Ok None)
  end.

(** Waits, without the lock, until there is data. *)
Fixpoint read (fuel : nat) (len : nat) : K (result (list byte)) :=
  match fuel with
  | O => out_of_fuel
  | S fuel =>
      let! r := exception_free (with_lock LConsole (try_read len)) in
      match r with
      | Err e => ret (Err e)
      | Ok (Some bs) => ret (Ok bs)
      | Ok None => do! wait_for_irq in read fuel len
      end
  end.

Definition read_ready : K (result bool) :=
  exception_free (with_lock LConsole uart_read_ready).

(** [CONSOLE.get().unwrap()], then the driver's handler under the lock. *)
Definition handle_irq (intid : Z) : K unit :=
  let! set := gets console_once in
  do! unwrap (if set then Some tt else None) in
  exception_free (with_lock LConsole (driver_handle_irq intid)).

(** [init]: [CONSOLE.call_once]. *)
Definition init : K unit := modify (set_console_once true).

(** The panic handler: any error writing is ignored. *)
Definition panic_handler {A} (msg : string) : K A :=
  let! set := gets console_once in
  do! when set
    (exception_free (with_lock LConsole (
       let! _ := io_write_fmt uart_write (panic_info_display msg +:+ nl) in ret tt))) in
  Power.power_off.

(** A program together with the panic handler. *)
Definition with_panic_handler {A} (m : K A) : K A :=
  fun s => match m s with (Panic msg, s') => panic_handler msg s' | r => r end.
End console.
End Console.

(** ** Facts about the console *)

(** The bytes which the UART has accepted, in order. *)
Fixpoint uart_output (h : history) : list byte :=
  match h with
  | [] => []
  | e :: h =>
      match call e with
      | UartWrite buf (Ok n) => uart_output h ++ take n buf
      | _ => uart_output h
      end
  end.

(** Documented behaviour of [embedded_io::Write::write]: it blocks until it can
    write something, so that a write of a non-empty buffer, when it does not
    fail, is of at least one byte, and never of more than the buffer. *)
Class UartAccepts `{B : BoardEnv} : Prop := uart_accepts h buf :
  buf <> [] -> exists n, env_uart_write h buf = Ok n /\ (0 < n <= length buf)%nat.

Section facts.
Context {P : PagingCrate} {B : BoardEnv} {I : EmbeddedIo machine} {L : EmbeddedIoLaws machine I}.
Context {C : CrateConsts} {D : InterruptDriven}.
Implicit Types s : machine.

(** [s'] is [s] after calls which had exactly [text] written to the UART. *)
Definition wrote (text : list byte) s s' : Prop :=
  exists evs, s' = set_trace (evs ++ trace s) s /\
    uart_output (evs ++ trace s) = uart_output (trace s) ++ text.

Lemma wrote_refl s : wrote [] s s.
Proof. exists []. split; [by destruct s|]. simpl. by rewrite app_nil_r. Qed.

Lemma wrote_trans t1 t2 s1 s2 s3 :
  wrote t1 s1 s2 -> wrote t2 s2 s3 -> wrote (t1 ++ t2) s1 s3.
Proof.
  intros (e1 & -> & H1) (e2 & -> & H2). exists (e2 ++ e1). simpl in *.
  rewrite <-app_assoc. split; [done|]. by rewrite H2, H1, app_assoc.
Qed.

Lemma wrote_held t s s' : wrote t s s' -> held s' = held s /\ masked s' = masked s.
Proof. by intros (e & -> & _). Qed.

(** A writer which writes a prefix of its buffer, at least one byte, from any
    state in which [ok] holds. *)
Definition writes_prefix (ok : machine -> Prop) (w : list byte -> K (result nat)) : Prop :=
  forall buf s, buf <> [] -> ok s ->
  exists n s', w buf s = (Val (Ok n), s') /\ (0 < n <= length buf)%nat /\
    wrote (take n buf) s s' /\ ok s'.

Lemma write_all_writes ok w buf s :
  writes_prefix ok w -> ok s ->
  exists s', io_write_all w buf s = (Val (Ok tt), s') /\ wrote buf s s' /\ ok s'.
Proof.
  intros Hw. remember (length buf) as n eqn:Hn. revert buf s Hn.
  induction n as [n IH] using lt_wf_ind. intros buf s -> Hok.
  destruct (decide (buf = [])) as [->|Hne].
  { exists s. rewrite write_all_nil. split; [done|]. split; [apply wrote_refl|done]. }
  destruct (Hw buf s Hne Hok) as (k & s1 & Ew & Hk & Hwr & Hok1).
  rewrite (write_all_step w buf k s s1) by (done || lia).
  destruct (IH (length (drop k buf))) with (buf := drop k buf) (s := s1)
    as (s2 & E2 & Hw2 & Hok2); [rewrite length_drop; lia|done|done|].
  exists s2. split; [done|]. split; [|done].
  rewrite <-(take_drop k buf). by eapply wrote_trans.
Qed.

Lemma write_fmt_writes ok w text s :
  writes_prefix ok w -> ok s ->
  exists s', io_write_fmt w text s = (Val (Ok tt), s') /\ wrote (bytes text) s s' /\ ok s'.
Proof.
  intros Hw Hok. rewrite write_fmt_pieces, <-fmt_pieces_concat.
  generalize (fmt_pieces text) as ps. intros ps. revert s Hok.
  induction ps as [|p ps IH]; intros s Hok; simpl.
  { exists s. split; [done|]. split; [apply wrote_refl|done]. }
  destruct (write_all_writes ok w p s Hw Hok) as (s1 & E1 & H1 & Hok1).
  destruct (IH s1 Hok1) as (s2 & E2 & H2 & Hok2).
  exists s2. rewrite (bind_Val _ _ _ _ _ E1). split; [done|].
  split; [by eapply wrote_trans|done].
Qed.

Lemma uart_write_prefix `{!UartAccepts} : writes_prefix (fun _ => True) uart_write.
Proof.
  intros buf s Hne _. destruct (uart_accepts (trace s) buf Hne) as (n & E & Hn).
  unfold uart_write. rewrite ask_alone, E. eexists n, _. split; [done|]. split; [done|].
  split; [|done]. by exists [mkEntry (UartWrite buf (Ok n)) (masked s) (held s)].
Qed.

(** Writing through the lock reaches the UART when the lock is free. *)
Lemma shared_write_prefix `{!UartAccepts} :
  writes_prefix (fun s => LConsole ∉ held s) SharedConsole.write.
Proof.
  intros buf s Hne Hl.
  destruct (uart_write_prefix buf (in_critical LConsole s) Hne Logic.I)
    as (n & s1 & E & Hn & (evs & -> & Ho) & _).
  exists n, (set_trace (evs ++ trace s) s). split; [by apply critical_Val|].
  split; [done|]. split; [by exists evs|done].
Qed.

(** *** Reading *)

Definition ready_entry s (r : result bool) : entry :=
  mkEntry (UartReadReady r) true ({[LConsole]} ∪ held s).
Definition read_entry s (len : nat) (r : result (list byte)) : entry :=
  mkEntry (UartRead len r) true ({[LConsole]} ∪ held s).
Definition wfi_entry s : entry := mkEntry Wfi (masked s) (held s).

(** The state after [n] polls which found nothing, each followed by a wait. *)
Fixpoint after_polls (n : nat) s : machine :=
  match n with
  | O => s
  | S n => after_polls n (set_trace (wfi_entry s :: ready_entry s (Ok false) :: trace s) s)
  end.

Lemma try_read_none len s :
  LConsole ∉ held s -> env_uart_read_ready (trace s) = Ok false ->
  exception_free (with_lock LConsole (Console.try_read len)) s =
    (Val (Ok None), set_trace (ready_entry s (Ok false) :: trace s) s).
Proof.
  intros Hl Hr. apply critical_Val; [done|].
  unfold Console.try_read, uart_read_ready, ask, bind. simpl. by rewrite Hr.
Qed.

Lemma try_read_some len s r :
  LConsole ∉ held s -> env_uart_read_ready (trace s) = Ok true ->
  env_uart_read (ready_entry s (Ok true) :: trace s) len = r ->
  exception_free (with_lock LConsole (Console.try_read len)) s =
    (Val (match r with Ok bs => Ok (Some bs) | Err e => Err e end),
     set_trace (read_entry s len r :: ready_entry s (Ok true) :: trace s) s).
Proof.
  intros Hl Hr <-. apply critical_Val; [done|].
  unfold Console.try_read, uart_read_ready, uart_read, ask, bind. simpl. by rewrite Hr.
Qed.

Lemma read_after_polls n fuel len s r :
  LConsole ∉ held s -> (n < fuel)%nat ->
  (forall i, (i < n)%nat -> env_uart_read_ready (trace (after_polls i s)) = Ok false) ->
  let s1 := after_polls n s in
  env_uart_read_ready (trace s1) = Ok true ->
  env_uart_read (ready_entry s1 (Ok true) :: trace s1) len = r ->
  Console.read fuel len s =
    (Val r, set_trace (read_entry s1 len r :: ready_entry s1 (Ok true) :: trace s1) s1).
Proof.
  revert fuel s. induction n as [|n IH]; intros fuel s Hl Hf Hidle s1 Hr Hd;
    (destruct fuel as [|fuel]; [lia|]); cbn [Console.read].
  - erewrite bind_Val by (by apply try_read_some). by destruct r.
  - erewrite bind_Val by (apply try_read_none; [done|apply (Hidle 0%nat); lia]).
    cbv beta iota. run_step. apply IH; [done|lia| |done|done].
    intros i Hi. apply (Hidle (S i)). lia.
Qed.

(** Whatever the UART answers, a read only waits for interrupts in the state of
    its caller, and only touches the driver with the lock held and exceptions
    masked. *)
Definition read_discipline s (e : entry) : Prop :=
  match call e with
  | Wfi => at_masked e = masked s /\ at_held e = held s
  | _ => at_masked e = true /\ at_held e = {[LConsole]} ∪ held s
  end.

Lemma try_read_calls len s :
  LConsole ∉ held s ->
  exists r evs, exception_free (with_lock LConsole (Console.try_read len)) s =
      (Val r, set_trace (evs ++ trace s) s) /\ Forall (read_discipline s) evs.
Proof.
  intros Hl. destruct (env_uart_read_ready (trace s)) as [[]|e] eqn:Er.
  - eexists _, [_; _]. split; [by apply try_read_some|]. by repeat constructor.
  - eexists _, [_]. split; [by apply try_read_none|]. by repeat constructor.
  - eexists (Err e), [ready_entry s (Err e)]. split; [|by repeat constructor].
    apply critical_Val; [done|].
    unfold Console.try_read, uart_read_ready, ask, bind. simpl. by rewrite Er.
Qed.

Lemma read_discipline_all fuel len s :
  LConsole ∉ held s ->
  exists evs, (Console.read fuel len s).2 = set_trace (evs ++ trace s) s /\
    Forall (read_discipline s) evs.
Proof.
  revert s. induction fuel as [|fuel IH]; intros s Hl; cbn [Console.read].
  { exists []. split; [by destruct s|done]. }
  destruct (try_read_calls len s Hl) as (r & evs & E & Hevs).
  erewrite bind_Val by done. destruct r as [[bs|]|e]; simpl; [by exists evs| |by exists evs].
  unfold wait_for_irq, wfi, tell, ask, bind. simpl.
  destruct (IH (set_trace (wfi_entry s :: evs ++ trace s) s) Hl) as (evs2 & E2 & H2).
  exists (evs2 ++ wfi_entry s :: evs). split.
  - etrans; [exact E2|]. simpl. by rewrite <-app_assoc.
  - apply Forall_app. split; [done|]. by constructor.
Qed.

(** *** Logging *)

Definition log_line (level : LogLevel) (args : string) : string :=
  "[" +:+ level_display level +:+ "] " +:+ args +:+ nl.

Lemma log_suppressed level args s :
  default 0 (log_max_level s) < level_num level -> Logger.log level args s = (Val tt, s).
Proof.
  intros H. unfold Logger.log, bind, gets. simpl.
  by rewrite (proj2 (Z.leb_gt _ _)).
Qed.

Lemma shared_log_writes `{!UartAccepts} level args s :
  LConsole ∉ held s ->
  exists s', Logger.shared_log level args s = (Val tt, s') /\
    wrote (bytes (log_line level args)) s s'.
Proof.
  intros Hl. destruct (write_fmt_writes (fun _ => True) uart_write (log_line level args)
    (in_critical LConsole s) uart_write_prefix Logic.I) as (s1 & E & (evs & -> & Ho) & _).
  exists (set_trace (evs ++ trace s) s). split; [|by exists evs].
  unfold Logger.shared_log. apply critical_Val; [done|].
  by erewrite bind_Val by exact E.
Qed.

Lemma log_writes `{!UartAccepts} level args s :
  LConsole ∉ held s -> level_num level <= default 0 (log_max_level s) ->
  exists s', Logger.log level args s = (Val tt, s') /\ wrote (bytes (log_line level args)) s s'.
Proof.
  intros Hl Hlev. unfold Logger.log. run_step. rewrite (proj2 (Z.leb_le _ _)) by done.
  by apply shared_log_writes.
Qed.

Lemma log_returns `{!UartAccepts} level args s :
  LConsole ∉ held s ->
  exists evs, Logger.log level args s = (Val tt, set_trace (evs ++ trace s) s).
Proof.
  intros Hl. destruct (Z.lt_ge_cases (default 0 (log_max_level s)) (level_num level)) as [Hlev|Hlev].
  - exists []. rewrite log_suppressed by done. by destruct s.
  - destruct (log_writes level args s Hl Hlev) as (s' & E & evs & -> & _). by exists evs.
Qed.

(** *** Powering off and panicking *)

(** Weaker than [UartAccepts]: a write may also report an error. *)
Definition uart_blocking : Prop := forall h buf, buf <> [] ->
  match env_uart_write h buf with Ok n => (0 < n <= length buf)%nat | Err _ => True end.

Lemma write_all_returns buf s :
  uart_blocking ->
  exists r evs, io_write_all uart_write buf s = (Val r, set_trace (evs ++ trace s) s).
Proof.
  intros Hb. remember (length buf) as n eqn:Hn. revert buf s Hn.
  induction n as [n IH] using lt_wf_ind. intros buf s ->.
  destruct (decide (buf = [])) as [->|Hne].
  { exists (Ok tt), []. rewrite write_all_nil. by destruct s. }
  specialize (Hb (trace s) buf Hne).
  destruct (env_uart_write (trace s) buf) as [k|e] eqn:Ew.
  - erewrite (write_all_step _ buf k s); [|done|lia|by unfold uart_write; rewrite ask_alone, Ew].
    edestruct (IH (length (drop k buf))) as (r & evs & E); [|reflexivity|].
    { rewrite length_drop. lia. }
    erewrite E. eexists r, (evs ++ [_]). simpl. by rewrite <-app_assoc.
  - erewrite write_all_err; [|done|by unfold uart_write; rewrite ask_alone, Ew].
    by eexists (Err e), [_].
Qed.

Lemma write_fmt_returns text s :
  uart_blocking ->
  exists r evs, io_write_fmt uart_write text s = (Val r, set_trace (evs ++ trace s) s).
Proof.
  intros Hb. rewrite write_fmt_pieces. generalize (fmt_pieces text) as ps. intros ps.
  revert s. induction ps as [|p ps IH]; intros s; simpl.
  { exists (Ok tt), []. by destruct s. }
  destruct (write_all_returns p s Hb) as (r & evs & E). erewrite bind_Val by done.
  destruct r as [[]|e]; simpl; [|by exists (Err e), evs].
  destruct (IH (set_trace (evs ++ trace s) s)) as (r2 & evs2 & E2). rewrite E2.
  exists r2, (evs2 ++ evs). simpl. by rewrite <-app_assoc.
Qed.

(** *** What a message leaves in the history *)

Definition is_uart_write (e : entry) : Prop := exists buf r, call e = UartWrite buf r.

(** Only writes to the UART happened between [s] and [s']. *)
Definition uart_calls s s' : Prop :=
  exists evs, s' = set_trace (evs ++ trace s) s /\ Forall is_uart_write evs.

#[export] Instance uart_calls_preorder : PreOrder uart_calls.
Proof.
  split.
  - intros s. exists []. split; [by destruct s|done].
  - intros s1 s2 s3 (e1 & -> & H1) (e2 & -> & H2). exists (e2 ++ e1). simpl.
    rewrite <-app_assoc. split; [done|by apply Forall_app].
Qed.

Lemma uart_write_calls buf : stays uart_calls (uart_write buf).
Proof.
  intros s. eexists [_]. split; [reflexivity|]. apply Forall_singleton. by eexists _, _.
Qed.

Lemma shared_log_inv level args s u s' :
  Logger.shared_log level args s = (Val u, s') -> uart_calls s s'.
Proof.
  intros (_ & s1 & H & Hs')%critical_inv. inv_bind H as r s2 H1. inv_prim H.
  set (text := "[" +:+ _) in H1. pose proof (write_fmt_stays uart_calls uart_write text
    uart_write_calls (in_critical LConsole s)) as Hs.
  rewrite H1 in Hs. destruct Hs as (evs & Hs & Hevs). simpl in Hs. subst s2. exists evs. split; [|done].
  by apply Hs'.
Qed.

Lemma log_inv level args s u s' : Logger.log level args s = (Val u, s') -> uart_calls s s'.
Proof.
  unfold Logger.log. intros H. inv_step H. destruct (_ <=? _); simpl in H.
  - by eapply shared_log_inv.
  - inv_prim H. reflexivity.
Qed.

Lemma log_with_inv level args s u s' :
  (forall x s1, args s = (Val x, s1) -> s1 = s) ->
  Logger.log_with level args s = (Val u, s') -> uart_calls s s'.
Proof.
  unfold Logger.log_with. intros Ha H. inv_step H. destruct (_ <=? _); simpl in H.
  - inv_bind H as x s1 H1. apply Ha in H1 as ->. by eapply shared_log_inv.
  - inv_prim H. reflexivity.
Qed.

(** A view of the history which does not look at the UART. *)
Definition ignores_uart {X} (f : history -> X) : Prop :=
  forall e h, is_uart_write e -> f (e :: h) = f h.

Lemma uart_calls_ignored {X} (f : history -> X) s s' :
  ignores_uart f -> uart_calls s s' -> f (trace s') = f (trace s).
Proof.
  intros Hf (evs & -> & Hevs). simpl. induction Hevs as [|e evs He _ IH]; simpl; [done|].
  by rewrite (Hf _ _ He).
Qed.

Lemma log_with_view {X} (f : history -> X) level args s u s' :
  ignores_uart f -> (forall s1 x s2, args s1 = (Val x, s2) -> f (trace s2) = f (trace s1)) ->
  Logger.log_with level args s = (Val u, s') -> f (trace s') = f (trace s).
Proof.
  unfold Logger.log_with. intros Hf Ha H. inv_step H. destruct (_ <=? _); simpl in H.
  - inv_bind H as x s1 H1. rewrite <-(Ha _ _ _ H1).
    by eapply uart_calls_ignored, shared_log_inv.
  - by inv_prim H.
Qed.

Lemma grows_log level args : stays grows (Logger.log level args).
Proof. unfold Logger.log, Logger.shared_log. stays. Qed.
End facts.

#[export] Hint Resolve grows_log : stays.

Ltac inv_prim_hook H1 ::=
  lazymatch type of H1 with
  | Logger.log _ _ _ = _ => apply log_inv in H1
  | _ => idtac
  end.

(** ** Properties *)

(** Simulated boards for the witnesses: the default one, one at which [ab] is
    typed after two interrupts, and one with a failing UART. *)
Definition quiet : BoardEnv := sim_env sim_default.
Definition typed : BoardEnv := sim_env (mkSimConfig (bytes "ab") 2 false None [] []).
Definition broken : BoardEnv := sim_env (mkSimConfig [] 0 true None [] []).

Lemma sim_accepts cfg : cfg_uart_fails cfg = false -> UartAccepts (B := sim_env cfg).
Proof.
  intros Hf h buf Hne. exists (Nat.min 16 (length buf)). cbn [env_uart_write sim_env].
  rewrite Hf. split; [done|].
  destruct buf; [done|]. cbn [length]. lia.
Qed.

#[export] Instance quiet_accepts : UartAccepts (B := quiet).
Proof. by apply sim_accepts. Qed.

(** A running kernel: console and logger are set, at the level of [main]. *)
Definition sim_running : machine (P := sim_paging) :=
  set_masked false (set_console_once true (set_log_max_level (Some (level_num LDebug)) sim_machine)).

Section theorems.
Context {P : PagingCrate} {B : BoardEnv} {I : EmbeddedIo machine} {L : EmbeddedIoLaws machine I}.
Context {C : CrateConsts} {D : InterruptDriven}.
Implicit Types s : machine.

Lemma count_wfi_after_polls n s :
  count_wfi (trace (after_polls n s)) = (n + count_wfi (trace s))%nat.
Proof. revert s. induction n as [|n IH]; intros s; [done|]. simpl. rewrite IH. unfold count_wfi. simpl. lia. Qed.

Lemma after_polls_calls n s : calls_only s (after_polls n s).
Proof.
  revert s. induction n as [|n IH]; intros s; simpl; [reflexivity|].
  etrans; [|apply IH]. by eexists [_; _].
Qed.

(** C17: if the UART reports data after [n] polls which found none, then
    [Console::read] returns exactly the bytes which the driver then reads, after
    waiting for an interrupt exactly [n] times; the lock is free again, and no
    static of the kernel has changed. *)
Theorem console_read_returns n fuel len s bs :
  LConsole ∉ held s -> (n < fuel)%nat ->
  (forall i, (i < n)%nat -> env_uart_read_ready (trace (after_polls i s)) = Ok false) ->
  env_uart_read_ready (trace (after_polls n s)) = Ok true ->
  env_uart_read (ready_entry (after_polls n s) (Ok true) :: trace (after_polls n s)) len = Ok bs ->
  exists s', Console.read fuel len s = (Val (Ok bs), s') /\ calls_only s s' /\
    count_wfi (trace s') = (n + count_wfi (trace s))%nat.
Proof.
  intros Hl Hf Hidle Hr Hd. erewrite read_after_polls by eassumption.
  eexists. split; [done|]. split.
  - etrans; [apply after_polls_calls|]. by eexists [_; _].
  - exact (count_wfi_after_polls n s).
Qed.

(** C16: whatever the UART answers and however long it takes, [Console::read]
    waits for interrupts only in the masking and locking state of its caller,
    and talks to the driver only with the lock held and exceptions masked. *)
Theorem console_read_discipline fuel len s :
  LConsole ∉ held s ->
  exists evs, trace (Console.read fuel len s).2 = evs ++ trace s /\
    Forall (read_discipline s) evs.
Proof.
  intros Hl. destruct (read_discipline_all fuel len s Hl) as (evs & E & H).
  exists evs. by rewrite E.
Qed.

(** [writeln!] on the console delivers exactly its text to the UART, in
    order, however many bytes the driver takes at a time, and changes no static. *)
Theorem console_write_fmt_delivers `{!UartAccepts} text s :
  LConsole ∉ held s ->
  exists s', io_write_fmt Console.write text s = (Val (Ok tt), s') /\ wrote (bytes text) s s'.
Proof.
  intros Hl. destruct (write_fmt_writes _ _ text s shared_write_prefix Hl) as (s' & E & Hw & _).
  eauto.
Qed.

(** A log message at or below the maximum level writes the line
    [[LEVEL] message] to the UART; any other message does nothing at all. *)
Theorem log_filters `{!UartAccepts} level args s :
  LConsole ∉ held s ->
  if level_num level <=? default 0 (log_max_level s)
  then exists s', Logger.log level args s = (Val tt, s') /\
         wrote (bytes ("[" +:+ level_display level +:+ "] " +:+ args +:+ nl)) s s'
  else Logger.log level args s = (Val tt, s).
Proof.
  intros Hl. destruct (Z.leb_spec (level_num level) (default 0 (log_max_level s))).
  - by apply log_writes.
  - by apply log_suppressed.
Qed.

(** The conduit for PSCI calls in [s]. *)
Definition psci_conduit s : Conduit := Power.conduit (Power.fdt_uses_smc (fdt_once s)).

Definition off_entry s : entry :=
  mkEntry (PsciSystemOff (psci_conduit s) (env_psci_system_off (trace s) (psci_conduit s)))
    (masked s) (held s).

Lemma then_hang {A} (m : K unit) s :
  stays grows m ->
  (forall a, (bind m (fun _ => hang (A:=A) SpinLoop) s).1 <> Val a) /\
  exists evs, trace (bind m (fun _ => hang (A:=A) SpinLoop) s).2 = evs ++ trace s.
Proof.
  intros Hg. specialize (Hg s). unfold bind.
  destruct (m s) as [[a|?|?|] s1]; simpl in *; done.
Qed.

(** Powering off calls the firmware first and never returns. *)
Lemma power_off_run A s :
  (forall a, (Power.power_off (A:=A) s).1 <> Val a) /\
  exists evs, trace (Power.power_off (A:=A) s).2 = evs ++ off_entry s :: trace s.
Proof.
  unfold Power.power_off, Power.smc_for_psci. run_step.
  unfold Power.system_off. run_step.
  apply (then_hang _ (set_trace (off_entry s :: trace s) s)).
  destruct env_psci_system_off; stays.
Qed.

(** What the panic handler leaves in the history, from a state [s] in which the
    console lock is free. *)
Lemma panic_handler_calls A msg s :
  uart_blocking -> LConsole ∉ held s ->
  (forall a, (Console.panic_handler (A:=A) msg s).1 <> Val a) /\
  exists evs h, trace (Console.panic_handler (A:=A) msg s).2 =
    evs ++ off_entry (set_trace h s) :: h /\ suffix (trace s) h.
Proof.
  intros Hb Hl. unfold Console.panic_handler. run_step.
  destruct (console_once s); cbn [when].
  - destruct (write_fmt_returns (panic_info_display msg +:+ nl) (in_critical LConsole s) Hb)
      as (r & evs & E).
    erewrite bind_Val; cycle 1.
    { apply critical_Val; [done|]. erewrite bind_Val by exact E. reflexivity. }
    destruct (power_off_run A (set_trace (evs ++ trace s) s)) as (Hv & evs2 & Ht).
    split; [done|]. exists evs2, (evs ++ trace s). split; [exact Ht|by exists evs].
  - run_step. destruct (power_off_run A s) as (Hv & evs2 & Ht).
    split; [done|]. exists evs2, (trace s). rewrite set_trace_id. split; [exact Ht|done].
Qed.

(** C27: a panic which happens while the console lock is free always reaches
    the firmware's [PSCI_SYSTEM_OFF], through the conduit which the device tree
    asks for, even if the UART reports errors; the handler never returns. *)
Theorem panic_powers_off A msg s :
  uart_blocking -> LConsole ∉ held s ->
  (forall a, (Console.panic_handler (A:=A) msg s).1 <> Val a) /\
  exists e r, e ∈ trace (Console.panic_handler (A:=A) msg s).2 /\
    call e = PsciSystemOff (Power.conduit (Power.fdt_uses_smc (fdt_once s))) r.
Proof.
  intros Hb Hl. destruct (panic_handler_calls A msg s Hb Hl) as (Hv & evs & h & -> & _).
  split; [done|]. exists (off_entry (set_trace h s)). eexists. split; [|reflexivity].
  apply elem_of_app. right. apply list_elem_of_here.
Qed.

(** *** A panic with the console lock held *)

Lemma write_fmt_error text e s :
  (forall h buf, env_uart_write h buf = Err e) -> bytes text <> [] ->
  exists buf, io_write_fmt uart_write text s =
    (Val (Err e), set_trace (mkEntry (UartWrite buf (Err e)) (masked s) (held s) :: trace s) s).
Proof.
  intros He Hne. rewrite write_fmt_pieces. rewrite <-fmt_pieces_concat in Hne.
  induction (fmt_pieces text) as [|p ps IH]; simpl in *; [done|].
  destruct (decide (p = [])) as [->|Hp].
  - destruct IH as [buf IH]; [done|]. exists buf.
    erewrite bind_Val by apply write_all_nil. exact IH.
  - exists p. erewrite bind_Val; cycle 1.
    { apply (write_all_err _ p e); [done|]. unfold uart_write. by rewrite ask_alone, He. }
    reflexivity.
Qed.


(** The console's interrupt handler makes exactly the driver's calls, under
    the lock, and returns; it logs nothing, so it cannot wait for the lock. *)
Lemma console_irq_runs_driver intid s evs :
  LConsole ∉ held s -> console_once s = true ->
  driver_handle_irq intid (in_critical LConsole s) =
    (Val tt, set_trace (evs ++ trace s) (in_critical LConsole s)) ->
  Console.handle_irq intid s = (Val tt, set_trace (evs ++ trace s) s).
Proof.
  intros Hl Hc Hd. unfold Console.handle_irq. run_step. rewrite Hc. run_step.
  by apply critical_Val.
Qed.
End theorems.

(** ** Witnesses *)

Lemma console_read_returns_witness :
  exists s', Console.read (B := typed) 5 1 sim_running = (Val (Ok [x61]), s') /\
    calls_only sim_running s' /\ count_wfi (trace s') = 2%nat.
Proof.
  apply (console_read_returns (B := typed) 2 5 1 sim_running [x61]).
  - apply not_elem_of_empty.
  - lia.
  - intros [|[|i]] Hi; [vm_compute; reflexivity..|lia].
  - vm_compute. reflexivity.
  - vm_compute. reflexivity.
Defined.

Lemma console_read_discipline_witness :
  exists evs, trace (Console.read (B := typed) 5 1 sim_running).2 = evs ++ [] /\
    Forall (read_discipline sim_running) evs.
Proof. apply (console_read_discipline (B := typed) 5 1 sim_running). apply not_elem_of_empty. Defined.

Lemma console_write_fmt_delivers_witness :
  exists s', io_write_fmt (Console.write (B := quiet)) "Usage:" sim_running = (Val (Ok tt), s') /\
    wrote (bytes "Usage:") sim_running s'.
Proof. apply (console_write_fmt_delivers (B := quiet) "Usage:" sim_running). apply not_elem_of_empty. Defined.

Lemma log_filters_witness :
  exists s', Logger.log (B := quiet) LInfo "hi" sim_running = (Val tt, s') /\
    wrote (bytes ("[INFO] hi" +:+ nl)) sim_running s'.
Proof. apply (log_filters (B := quiet) LInfo "hi" sim_running). apply not_elem_of_empty. Defined.

Lemma panic_powers_off_witness :
  (forall a, (Console.panic_handler (B := broken) (A := unit) "oops" sim_running).1 <> Val a) /\
  exists e r, e ∈ trace (Console.panic_handler (B := broken) (A := unit) "oops" sim_running).2 /\
    call e = PsciSystemOff Hvc r.
Proof.
  apply (panic_powers_off (B := broken) unit "oops" sim_running).
  - intros h buf _. exact Logic.I.
  - apply not_elem_of_empty.
Defined.


Lemma console_irq_runs_driver_witness :
  Console.handle_irq (D := Pl011.interrupt_driven) 33 sim_running =
    (Val tt, set_trace [mkEntry (GicEnd 33) true ({[LConsole]} ∪ ∅);
                        mkEntry UartClearInterrupts true ({[LConsole]} ∪ ∅)] sim_running).
Proof.
  apply (console_irq_runs_driver 33 sim_running
    [mkEntry (GicEnd 33) true ({[LConsole]} ∪ ∅); mkEntry UartClearInterrupts true ({[LConsole]} ∪ ∅)]).
  - apply not_elem_of_empty.
  - reflexivity.
  - reflexivity.
Defined.
