(* ===== verification/Returns.v ===== *)
(** * Returns: programs which return

    Total correctness for the programs which change no static: [returns m Q] says that
    [m] returns a value in [Q], whatever the history is, and that nothing has happened but
    calls to the outside, as long as the console's lock is free for the messages which are
    logged on the way.  [returns] proves it of a program piece by piece. *)

From S2P Require Import Prelude Text Extern Machine Sim Console.

Section returns.
Context {P : PagingCrate}.
Implicit Types s : machine.

Definition returns {A} (m : K A) (Q : A -> Prop) : Prop :=
  forall s, LConsole ∉ held s -> exists a s', m s = (Val a, s') /\ calls_only s s' /\ Q a.

Lemma calls_only_held s s' : calls_only s s' -> held s' = held s.
Proof. by intros [evs ->]. Qed.

Lemma returns_weaken {A} (m : K A) (Q Q' : A -> Prop) :
  returns m Q -> (forall a, Q a -> Q' a) -> returns m Q'.
Proof. intros Hm HQ s Hs. destruct (Hm s Hs) as (a & s' & E & Hc & Ha). eauto 6. Qed.

Lemma returns_ret {A} (a : A) (Q : A -> Prop) : Q a -> returns (ret a) Q.
Proof. intros HQ s _. exists a, s. split; [done|]. by split. Qed.

Lemma returns_bind {A B} (m : K A) (k : A -> K B) Q Q' :
  returns m Q -> (forall a, Q a -> returns (k a) Q') -> returns (bind m k) Q'.
Proof.
  intros Hm Hk s Hs. destruct (Hm s Hs) as (a & s1 & E & Hc & Ha).
  destruct (Hk a Ha s1) as (b & s2 & E2 & Hc2 & Hb).
  { by rewrite (calls_only_held _ _ Hc). }
  exists b, s2. split; [by erewrite bind_Val by exact E|]. split; [by etrans|done].
Qed.

Lemma returns_gets {A} (f : machine -> A) (Q : A -> Prop) :
  (forall s, Q (f s)) -> returns (gets f) Q.
Proof. intros HQ s _. exists (f s), s. split; [done|]. by split. Qed.

Lemma returns_ask {A} (f : history -> A) mk (Q : A -> Prop) :
  (forall h, Q (f h)) -> returns (ask f mk) Q.
Proof. intros HQ s _. eexists _, _. split; [apply ask_alone|]. split; [by eexists [_]|done]. Qed.

Lemma returns_tell e (Q : unit -> Prop) : Q tt -> returns (tell e) Q.
Proof. intros HQ. by apply returns_ask. Qed.

Lemma returns_expect {A} msg (o : option A) a (Q : A -> Prop) :
  o = Some a -> Q a -> returns (expect msg o) Q.
Proof. intros -> HQ. by apply returns_ret. Qed.

Lemma returns_unwrap_ok {A} (r : result A) a (Q : A -> Prop) :
  r = Ok a -> Q a -> returns (unwrap_ok r) Q.
Proof. intros -> HQ. by apply returns_ret. Qed.

Lemma returns_assert b msg (Q : unit -> Prop) : b = true -> Q tt -> returns (assert b msg) Q.
Proof. intros -> HQ. by apply returns_ret. Qed.

Lemma returns_when b (m : K unit) (Q : unit -> Prop) :
  (b = true -> returns m Q) -> Q tt -> returns (when b m) Q.
Proof. intros Hm HQ. destruct b; [by apply Hm|by apply returns_ret]. Qed.

Lemma returns_checked_add w a b (Q : Z -> Prop) :
  a + b < 2 ^ w -> Q (a + b) -> returns (checked_add w a b) Q.
Proof. intros H HQ. unfold checked_add. rewrite (proj2 (Z.ltb_lt _ _) H). by apply returns_ret. Qed.

Lemma returns_checked_mul w a b (Q : Z -> Prop) :
  a * b < 2 ^ w -> Q (a * b) -> returns (checked_mul w a b) Q.
Proof. intros H HQ. unfold checked_mul. rewrite (proj2 (Z.ltb_lt _ _) H). by apply returns_ret. Qed.

Lemma returns_layout size align (Q : unit -> Prop) :
  layout_ok size align = true -> Q tt -> returns (layout_from_size_align size align) Q.
Proof. intros H HQ. unfold layout_from_size_align. rewrite H. by apply returns_ret. Qed.

Lemma returns_for_each {A} (f : A -> K unit) l :
  Forall (fun x => returns (f x) (fun _ => True)) l -> returns (for_each f l) (fun _ => True).
Proof.
  induction 1 as [|x l Hx _ IH]; simpl; [by apply returns_ret|]. by eapply returns_bind.
Qed.

(** With an invariant of the local variable. *)
Lemma returns_fold {A B} (f : B -> A -> K B) (J : B -> Prop) l b :
  Forall (fun x => forall b, J b -> returns (f b x) J) l -> J b -> returns (fold_prog f b l) J.
Proof.
  intros Hl. revert b. induction Hl as [|x l Hx _ IH]; intros b Hb; simpl; [by apply returns_ret|].
  eapply returns_bind; [by apply Hx|done].
Qed.
End returns.

Section logging.
Context {P : PagingCrate} {B : BoardEnv} {I : EmbeddedIo machine} {L : EmbeddedIoLaws machine I}.
Context {UA : UartAccepts}.

Lemma returns_log level args (Q : unit -> Prop) : Q tt -> returns (Logger.log level args) Q.
Proof.
  intros HQ s Hs. destruct (log_returns level args s Hs) as (evs & E). eexists _, _.
  split; [exact E|]. split; [by exists evs|done].
Qed.

Lemma returns_log_with level (args : K string) (Q : unit -> Prop) :
  returns args (fun _ => True) -> Q tt -> returns (Logger.log_with level args) Q.
Proof.
  intros Ha HQ. unfold Logger.log_with. eapply returns_bind; [by apply (returns_gets _ (fun _ => True))|].
  intros max _. apply returns_when; [|done]. intros _. eapply returns_bind; [exact Ha|].
  intros text _ s Hs. destruct (shared_log_writes level text s Hs) as (s' & E & evs & -> & _).
  eexists _, _. split; [exact E|]. split; [by exists evs|done].
Qed.
End logging.

(** ** The first action of a program *)

Section first.
Context {P : PagingCrate}.

Lemma bind_returns {A B} (m : K A) (k : A -> K B) Q :
  returns m (fun _ => True) -> (forall a, returns (k a) Q) -> returns (bind m k) Q.
Proof. intros Hm Hk. by eapply returns_bind; [exact Hm|]. Qed.

Lemma bind_assoc {A B D} (m : K A) (k : A -> K B) (h : B -> K D) Q :
  returns (bind m (fun a => bind (k a) h)) Q -> returns (bind (bind m k) h) Q.
Proof. intros H s Hs. rewrite bind_bind. by apply H. Qed.

Lemma bind_ret {A B} (a : A) (k : A -> K B) Q : returns (k a) Q -> returns (bind (ret a) k) Q.
Proof. intros H s Hs. by apply H. Qed.

Lemma bind_expect {A B} msg (o : option A) a (k : A -> K B) Q :
  o = Some a -> returns (k a) Q -> returns (bind (expect msg o) k) Q.
Proof. intros -> Hk. eapply returns_bind; [by apply (returns_ret a (eq a))|]. by intros ? <-. Qed.

Lemma bind_unwrap_ok {A B} (r : result A) a (k : A -> K B) Q :
  r = Ok a -> returns (k a) Q -> returns (bind (unwrap_ok r) k) Q.
Proof. intros -> Hk. eapply returns_bind; [by apply (returns_ret a (eq a))|]. by intros ? <-. Qed.

Lemma bind_assert {B} b msg (k : unit -> K B) Q :
  b = true -> returns (k tt) Q -> returns (bind (assert b msg) k) Q.
Proof. intros -> Hk. eapply returns_bind; [by apply (returns_ret tt (eq tt))|]. by intros ? <-. Qed.

Lemma bind_checked_add {B} w a b (k : Z -> K B) Q :
  a + b < 2 ^ w -> returns (k (a + b)) Q -> returns (bind (checked_add w a b) k) Q.
Proof.
  intros H Hk. eapply returns_bind; [by apply (returns_checked_add w a b (eq (a + b)))|].
  by intros ? <-.
Qed.

Lemma bind_checked_mul {B} w a b (k : Z -> K B) Q :
  a * b < 2 ^ w -> returns (k (a * b)) Q -> returns (bind (checked_mul w a b) k) Q.
Proof.
  intros H Hk. eapply returns_bind; [by apply (returns_checked_mul w a b (eq (a * b)))|].
  by intros ? <-.
Qed.
End first.

Create HintDb returns.
#[export] Hint Resolve returns_tell returns_log : returns.
#[export] Hint Extern 1 (returns (gets _) _) => apply returns_gets; by intros : returns.
#[export] Hint Extern 1 (returns (ask _ _) _) => apply returns_ask; by intros : returns.

(** One step; conditions which are not in the context are left to the user. *)
Ltac returns_step :=
  lazymatch goal with
  | |- returns (bind (bind _ _) _) _ => apply bind_assoc
  | |- returns (bind (ret _) _) _ => apply bind_ret
  | |- returns (bind (expect _ _) _) _ => eapply bind_expect; [try eassumption; try reflexivity|]
  | |- returns (bind (unwrap _) _) _ => eapply bind_expect; [try eassumption; try reflexivity|]
  | |- returns (bind (unwrap_ok _) _) _ =>
      eapply bind_unwrap_ok; [try eassumption; try reflexivity|]
  | |- returns (bind (assert _ _) _) _ => apply bind_assert; [try assumption; try reflexivity|]
  | |- returns (bind (checked_add _ _ _) _) _ => apply bind_checked_add; [try assumption; try lia|]
  | |- returns (bind (checked_mul _ _ _) _) _ => apply bind_checked_mul; [try assumption; try lia|]
  | |- returns (bind (Logger.log_with _ _) _) _ =>
      apply bind_returns; [apply returns_log_with; [|done]|intros _]
  | |- returns (bind (when _ _) _) _ =>
      apply bind_returns; [apply returns_when; [intros ?|done]|intros ?]
  | |- returns (bind _ _) _ =>
      apply bind_returns; [solve [auto with returns]|];
      let v := fresh "v" in intros v; try (match type of v with unit => destruct v end)
  | |- returns (ret _) _ => apply returns_ret
  | |- returns (when _ _) _ => apply returns_when; [intros ?|try done]
  | |- returns _ _ => solve [auto with returns]
  end; cbv beta iota.
Ltac returns := repeat returns_step.
