(* ===== verification/Io.v ===== *)
(** * Io: the console as the applications see it

    The applications are generic over [impl Write + Read + ReadReady]
    ([embedded_io]).  [ConsoleDev] is that interface, [ConsoleSpec] what it
    promises: writes reach the UART in order, and reads return the bytes which
    were typed, in order.  The applications are verified against the promise;
    [Console] of [console.rs] is shown to keep it. *)

From S2P Require Import Prelude Text Extern Machine Sim Console.

Class ConsoleDev `{P : PagingCrate} := {
  con_write : list byte -> K (result nat);
  con_read : nat -> K (result (list byte));
  con_read_ready : K (result bool);
}.

Section dev.
Context {P : PagingCrate} {B : BoardEnv} {I : EmbeddedIo machine} {D : ConsoleDev}.

(** [write!(console, ..).unwrap()] and [writeln!(console, ..).unwrap()] *)
Definition write_text (text : string) : K unit :=
  let! r := io_write_fmt con_write text in unwrap_ok r.

Definition writeln (text : string) : K unit := write_text (text +:+ nl).

(** [console.write_all(buf).unwrap()] *)
Definition write_bytes (buf : list byte) : K unit :=
  let! r := io_write_all con_write buf in unwrap_ok r.

(** [console.read_exact(&mut c).unwrap()] for a buffer of one byte *)
Definition read_byte : K byte :=
  let! r := io_read_exact con_read 1 in
  let! bs := unwrap_ok r in
  unwrap (head bs).
End dev.

(** ** Views of a history, newest call first *)

(** One view: the bytes which each call contributes, in the order of the calls. *)
Fixpoint bytes_of (f : event -> list byte) (h : history) : list byte :=
  match h with
  | [] => []
  | e :: h => bytes_of f h ++ f (call e)
  end.

Lemma bytes_of_app f h1 h2 : bytes_of f (h1 ++ h2) = bytes_of f h2 ++ bytes_of f h1.
Proof. induction h1 as [|e h1 IH]; simpl; [by rewrite app_nil_r|]. by rewrite IH, app_assoc. Qed.

Lemma bytes_of_nil f h : Forall (fun e => f (call e) = []) h -> bytes_of f h = [].
Proof. induction 1 as [|e h He _ IH]; simpl; [done|]. by rewrite IH, He. Qed.

(** What was read from the console. *)
Definition typed_by (e : event) : list byte :=
  match e with UartRead _ (Ok bs) => bs | _ => [] end.

(** What was printed on the console. *)
Definition printed_by (e : event) : list byte :=
  match e with UartWrite buf (Ok n) => take n buf | _ => [] end.

Definition is_uart_read (e : entry) : bool :=
  match call e with UartRead _ _ => true | _ => false end.

(** The calls which a console may make. *)
Definition is_console_call (e : entry) : Prop :=
  match call e with
  | UartWrite _ _ | UartFlush _ | UartReadReady _ | UartRead _ _ | Wfi => True
  | _ => False
  end.

Definition console_calls `{P : PagingCrate} (s s' : machine) : Prop :=
  exists evs, s' = set_trace (evs ++ trace s) s /\ Forall is_console_call evs.

#[export] Instance console_calls_preorder `{P : PagingCrate} : PreOrder console_calls.
Proof.
  split.
  - intros s. exists []. split; [by destruct s|done].
  - intros s1 s2 s3 (e1 & -> & H1) (e2 & -> & H2). exists (e2 ++ e1). simpl.
    rewrite <-app_assoc. split; [done|by apply Forall_app].
Qed.

(** A view of the history which does not look at the console. *)
Definition ignores_console {X} (f : history -> X) : Prop :=
  forall e h, is_console_call e -> f (e :: h) = f h.

Lemma console_calls_ignored `{P : PagingCrate} {X} (f : history -> X) s s' :
  ignores_console f -> console_calls s s' -> f (trace s') = f (trace s).
Proof.
  intros Hf (evs & -> & Hevs). simpl. induction Hevs as [|e evs He _ IH]; simpl; [done|].
  by rewrite (Hf _ _ He).
Qed.

(** [pending h] are the bytes which have been typed, or will be, and were not
    read in [h]. *)
Class ConsoleSpec `{D : ConsoleDev} := {
  con_ok : machine -> Prop;
  pending : history -> list byte;
  con_ok_held s s' : held s' = held s -> con_ok s -> con_ok s';
  pending_frame e h : is_uart_read e = false -> pending (e :: h) = pending h;
  con_write_spec buf s : buf <> [] -> con_ok s ->
    exists n s', con_write buf s = (Val (Ok n), s') /\ (0 < n <= length buf)%nat /\
      wrote (take n buf) s s' /\ pending (trace s') = pending (trace s) /\ console_calls s s';
  con_read_spec len s : (0 < len)%nat -> con_ok s -> pending (trace s) <> [] ->
    exists bs s', con_read len s = (Val (Ok bs), s') /\ bs <> [] /\ (length bs <= len)%nat /\
      pending (trace s) = bs ++ pending (trace s') /\ wrote [] s s' /\ console_calls s s';
}.

Section spec.
Context {P : PagingCrate} {B : BoardEnv} {I : EmbeddedIo machine} {L : EmbeddedIoLaws machine I}.
Context {D : ConsoleDev} {CS : ConsoleSpec}.
Implicit Types s : machine.

(** [s'] is [s] after calls in which [text] was written to the console and
    [used] was read from it; in an [io_step] there were no other calls. *)
Definition app_step (text used : list byte) s s' : Prop :=
  wrote text s s' /\ pending (trace s) = used ++ pending (trace s').

Definition io_step (text used : list byte) s s' : Prop :=
  app_step text used s s' /\ console_calls s s'.

Lemma app_step_refl s : app_step [] [] s s.
Proof. split; [apply wrote_refl|done]. Qed.

Lemma app_step_trans t1 u1 t2 u2 s1 s2 s3 :
  app_step t1 u1 s1 s2 -> app_step t2 u2 s2 s3 -> app_step (t1 ++ t2) (u1 ++ u2) s1 s3.
Proof.
  intros [H1 E1] [H2 E2]. split; [by eapply wrote_trans|]. by rewrite E1, E2, app_assoc.
Qed.

Lemma io_step_refl s : io_step [] [] s s.
Proof. split; [apply app_step_refl|reflexivity]. Qed.

Lemma io_step_trans t1 u1 t2 u2 s1 s2 s3 :
  io_step t1 u1 s1 s2 -> io_step t2 u2 s2 s3 -> io_step (t1 ++ t2) (u1 ++ u2) s1 s3.
Proof. intros [H1 C1] [H2 C2]. split; [by eapply app_step_trans|by etrans]. Qed.

Lemma app_step_ok text used s s' : con_ok s -> app_step text used s s' -> con_ok s'.
Proof. intros Hok [(evs & -> & _) _]. by apply (con_ok_held s). Qed.

Lemma io_step_ok text used s s' : con_ok s -> io_step text used s s' -> con_ok s'.
Proof. intros Hok [H _]. by eapply app_step_ok. Qed.

(** The promise in the form which the loops of [embedded_io] need. *)
Lemma con_writes_prefix s0 :
  writes_prefix (fun s => con_ok s /\ pending (trace s) = pending (trace s0) /\ console_calls s0 s)
    con_write.
Proof.
  intros buf s Hne (Hok & Hp & Hc).
  destruct (con_write_spec buf s Hne Hok) as (n & s' & E & Hn & Hw & Hq & Hc').
  exists n, s'. split; [done|]. split; [done|]. split; [done|].
  split; [|split; [congruence|by etrans]]. destruct Hw as (evs & -> & _). by apply (con_ok_held s).
Qed.

Lemma write_text_spec text s :
  con_ok s -> exists s', write_text text s = (Val tt, s') /\ io_step (bytes text) [] s s'.
Proof.
  intros Hok. destruct (write_fmt_writes _ _ text s (con_writes_prefix s))
    as (s' & E & Hw & Hok' & Hp & Hc); [by split|]. exists s'. unfold write_text.
  erewrite bind_Val by exact E. by repeat split.
Qed.

Lemma writeln_spec text s :
  con_ok s -> exists s', writeln text s = (Val tt, s') /\ io_step (bytes (text +:+ nl)) [] s s'.
Proof. apply write_text_spec. Qed.

Lemma write_bytes_spec buf s :
  con_ok s -> exists s', write_bytes buf s = (Val tt, s') /\ io_step buf [] s s'.
Proof.
  intros Hok. destruct (write_all_writes _ _ buf s (con_writes_prefix s))
    as (s' & E & Hw & Hok' & Hp & Hc); [by split|]. exists s'. unfold write_bytes.
  erewrite bind_Val by exact E. by repeat split.
Qed.

Lemma read_byte_spec b rest s :
  con_ok s -> pending (trace s) = b :: rest ->
  exists s', read_byte s = (Val b, s') /\ io_step [] [b] s s' /\ pending (trace s') = rest.
Proof.
  intros Hok Hp. destruct (con_read_spec 1 s) as (bs & s' & E & Hne & Hlen & Hq & Hw & Hc);
    [lia|done|by rewrite Hp|]. destruct bs as [|b0 [|]]; [done| |simpl in Hlen; lia].
  rewrite Hp in Hq. injection Hq as <- Hq. exists s'. split; [|split; [split; [split|]|]].
  - unfold read_byte. erewrite bind_Val; cycle 1.
    { etrans; [by apply (read_exact_step _ _ [b] _ s'); [lia| | |]|].
      erewrite bind_Val by apply read_exact_zero. reflexivity. }
    reflexivity.
  - done.
  - by rewrite Hp, Hq.
  - done.
  - done.
Qed.

(** A call to the outside which is neither a read nor a write of the UART. *)
Lemma app_step_ask {A} (f : history -> A) mk s s' a :
  (forall a, match mk a with UartRead _ _ | UartWrite _ _ => False | _ => True end) ->
  ask f mk s = (Val a, s') -> app_step [] [] s s'.
Proof.
  intros Hm H. injection H as <- <-. specialize (Hm (f (trace s))). split.
  - eexists [_]. split; [reflexivity|]. simpl. rewrite app_nil_r. by destruct (mk _).
  - simpl. rewrite pending_frame; [done|]. unfold is_uart_read. simpl. by destruct (mk _).
Qed.
End spec.

(** ** [Console] keeps the promise *)

(** A UART which delivers the bytes of [upcoming], each at the latest after
    [patience] interrupts. *)
Class UartInput `{P : PagingCrate} `{B : BoardEnv} (patience : nat) := {
  upcoming : history -> list byte;
  upcoming_frame e h : is_uart_read e = false -> upcoming (e :: h) = upcoming h;
  upcoming_read e h len r : env_uart_read h len = Ok r -> call e = UartRead len (Ok r) ->
    upcoming h = r ++ upcoming (e :: h);
  upcoming_ready (s : machine) : upcoming (trace s) <> [] ->
    exists n, (n <= patience)%nat /\
      (forall i, (i < n)%nat -> env_uart_read_ready (trace (after_polls i s)) = Ok false) /\
      env_uart_read_ready (trace (after_polls n s)) = Ok true;
  upcoming_some h len : (0 < len)%nat -> upcoming h <> [] ->
    exists r, env_uart_read h len = Ok r /\ r <> [] /\ (length r <= len)%nat /\
      r `prefix_of` upcoming h;
}.

(** [impl Write, Read, ReadReady for Console]; [fuel] bounds the waits of a read. *)
Definition console_dev `{P : PagingCrate} `{Q : !Surroundings} `{B : BoardEnv} (fuel : nat)
    : ConsoleDev := {|
  con_write := Console.write;
  con_read := Console.read fuel;
  con_read_ready := Console.read_ready;
|}.

Section console.
Context {P : PagingCrate} {B : BoardEnv} {I : EmbeddedIo machine} {L : EmbeddedIoLaws machine I}.
Context {C : CrateConsts}.
Implicit Types s : machine.

Lemma output_frame e h :
  match call e with UartWrite _ _ => False | _ => True end -> uart_output (e :: h) = uart_output h.
Proof. intros He. simpl. by destruct (call e). Qed.

Lemma after_polls_wrote n s : wrote [] s (after_polls n s).
Proof.
  revert s. induction n as [|n IH]; intros s; simpl; [apply wrote_refl|].
  eapply (wrote_trans [] []); [|apply IH]. eexists [_; _]. split; [reflexivity|].
  simpl. by rewrite app_nil_r.
Qed.

Lemma after_polls_console n s : console_calls s (after_polls n s).
Proof.
  revert s. induction n as [|n IH]; intros s; simpl; [reflexivity|].
  etrans; [|apply IH]. eexists [_; _]. split; [reflexivity|]. by repeat constructor.
Qed.

Lemma after_polls_upcoming `{!UartInput patience} n s :
  upcoming (trace (after_polls n s)) = upcoming (trace s).
Proof.
  revert s. induction n as [|n IH]; intros s; simpl; [done|]. rewrite IH. simpl.
  by rewrite !upcoming_frame.
Qed.

Lemma console_read_spec `{!UartAccepts} `{!UartInput patience} fuel len s :
  (patience < fuel)%nat -> (0 < len)%nat -> LConsole ∉ held s -> upcoming (trace s) <> [] ->
  exists bs s', Console.read fuel len s = (Val (Ok bs), s') /\ bs <> [] /\ (length bs <= len)%nat /\
    upcoming (trace s) = bs ++ upcoming (trace s') /\ wrote [] s s' /\ console_calls s s'.
Proof.
  intros Hf Hlen Hl Hu. destruct (upcoming_ready s Hu) as (n & Hn & Hidle & Hready).
  set (s1 := after_polls n s).
  destruct (upcoming_some (ready_entry s1 (Ok true) :: trace s1) len Hlen) as
    (r & Er & Hr & Hrl & _); [by unfold s1; rewrite upcoming_frame, after_polls_upcoming|].
  erewrite (read_after_polls n fuel len s (Ok r)); [|done|lia|done|done|done].
  exists r, (set_trace (read_entry s1 len (Ok r) :: ready_entry s1 (Ok true) :: trace s1) s1).
  split; [done|]. split; [done|]. split; [done|]. split.
  - rewrite <-(after_polls_upcoming n s). fold s1.
    rewrite <-(upcoming_frame (ready_entry s1 (Ok true)) (trace s1)) by done.
    by apply (upcoming_read (read_entry s1 len (Ok r)) _ len).
  - split.
    + apply (wrote_trans [] [] s s1); [apply after_polls_wrote|]. eexists [_; _].
      split; [reflexivity|]. simpl. by rewrite app_nil_r.
    + etrans; [apply after_polls_console|]. eexists [_; _]. split; [reflexivity|].
      by repeat constructor.
Qed.

Lemma console_write_run buf s :
  LConsole ∉ held s ->
  Console.write buf s =
    (Val (env_uart_write (trace s) buf),
     set_trace (mkEntry (UartWrite buf (env_uart_write (trace s) buf)) true ({[LConsole]} ∪ held s)
                :: trace s) s).
Proof. intros Hl. by apply critical_Val. Qed.

Definition console_spec `{!UartAccepts} `{U : !UartInput patience} (fuel : nat)
    (Hf : (patience < fuel)%nat) : ConsoleSpec (D := console_dev fuel).
Proof.
  refine {| con_ok s := LConsole ∉ held s; pending := upcoming |}.
  - by intros s s' ->.
  - apply upcoming_frame.
  - intros buf s Hne Hl. destruct (uart_accepts (trace s) buf Hne) as (n & E & Hn).
    cbn [con_write console_dev]. rewrite console_write_run, E by done.
    eexists n, _. split; [done|]. split; [done|]. split; [by eexists [_]|].
    simpl. rewrite upcoming_frame by done. split; [done|]. eexists [_].
    split; [reflexivity|]. by repeat constructor.
  - intros len s Hlen Hl Hp. by apply console_read_spec.
Defined.

(** The history is never rewritten, whatever happens. *)
Lemma grows_con_write fuel buf : stays grows (con_write (ConsoleDev := console_dev fuel) buf).
Proof. simpl. unfold Console.write, SharedConsole.write, uart_write. stays. Qed.

Lemma grows_con_read fuel len : stays grows (con_read (ConsoleDev := console_dev fuel) len).
Proof.
  simpl. induction fuel as [|f IH]; simpl; [intros s; simpl; reflexivity|].
  unfold Console.try_read, uart_read_ready, uart_read, wait_for_irq, wfi. stays.
Qed.

Lemma grows_con_read_ready fuel : stays grows (con_read_ready (ConsoleDev := console_dev fuel)).
Proof. simpl. unfold Console.read_ready, uart_read_ready. stays. Qed.

Lemma grows_write_bytes fuel buf : stays grows (write_bytes (D := console_dev fuel) buf).
Proof. unfold write_bytes. stays. apply write_all_stays; [apply _|apply grows_con_write]. Qed.

Lemma grows_write_text fuel text : stays grows (write_text (D := console_dev fuel) text).
Proof. unfold write_text. stays. apply write_fmt_stays; [apply _|apply grows_con_write]. Qed.
End console.

(** The simulated UART delivers its input. *)
Lemma sim_consumed_frame e h : is_uart_read e = false -> uart_consumed (e :: h) = uart_consumed h.
Proof. unfold is_uart_read. simpl. by destruct (call e). Qed.

Lemma sim_consumed_polls n (s : machine (P := sim_paging)) :
  uart_consumed (trace (after_polls n s)) = uart_consumed (trace s).
Proof. revert s. induction n as [|n IH]; intros s; simpl; [done|]. by rewrite IH. Qed.

#[export] Instance sim_uart_input cfg :
  UartInput (P := sim_paging) (B := sim_env cfg) (cfg_delay cfg).
Proof.
  refine {| upcoming h := drop (uart_consumed h) (cfg_input cfg) |}.
  - intros e h He. by rewrite sim_consumed_frame.
  - intros e h len r Er He. simpl in Er. destruct (_ <? _)%nat; [|done].
    injection Er as <-. simpl. rewrite He.
    rewrite length_take, length_drop.
    destruct (Nat.le_gt_cases len (length (cfg_input cfg) - uart_consumed h)) as [Hle|Hgt].
    + rewrite Nat.min_l by done. rewrite <-(take_drop len (drop (uart_consumed h) _)) at 1.
      by rewrite drop_drop, Nat.add_comm.
    + rewrite Nat.min_r, take_ge by (rewrite ?length_drop; lia).
      rewrite (drop_ge (cfg_input cfg) (_ + _)), app_nil_r by lia. done.
  - intros s Hu. exists (cfg_delay cfg - count_wfi (trace s))%nat. split; [lia|].
    assert (uart_consumed (trace s) < length (cfg_input cfg))%nat as Hc.
    { apply Nat.nle_gt. intros Hle. apply Hu. by apply drop_ge. }
    assert (forall i, env_uart_read_ready (BoardEnv := sim_env cfg) (trace (after_polls i s)) =
      Ok (cfg_delay cfg <=? i + count_wfi (trace s))%nat) as Hready.
    { intros i. simpl. rewrite sim_consumed_polls, count_wfi_after_polls.
      rewrite (proj2 (Nat.ltb_lt _ _)) by done. by rewrite andb_true_r. }
    split; [intros i Hi|]; rewrite Hready; f_equal.
    + apply Nat.leb_gt. lia.
    + apply Nat.leb_le. lia.
  - intros h len Hlen Hu. eexists. split.
    { simpl. rewrite (proj2 (Nat.ltb_lt _ _)); [reflexivity|].
      apply Nat.nle_gt. intros Hle. apply Hu. by apply drop_ge. }
    destruct (drop (uart_consumed h) (cfg_input cfg)) as [|b l] eqn:E; [done|].
    split; [by destruct len; [lia|]|]. split; [rewrite length_take; lia|].
    apply prefix_take.
Defined.

(** ** A console with something typed, for the witnesses *)

Definition sim_typed (input : list byte) : BoardEnv :=
  sim_env (mkSimConfig input 0 false None [] []).

#[export] Instance sim_typed_accepts input : UartAccepts (B := sim_typed input).
Proof. by apply sim_accepts. Qed.

Definition sim_console (input : list byte) : ConsoleDev (P := sim_paging) :=
  console_dev (B := sim_typed input) 1.

Definition sim_console_spec (input : list byte) : ConsoleSpec (D := sim_console input) :=
  console_spec (B := sim_typed input) 1 (Nat.lt_succ_diag_r 0).
