(* ===== verification/Cpus.v ===== *)
(** * Cpus: [cpus.rs], the index of a core in the device tree, and per-core state

    [PerCoreState<T>] is [Lazy<PerCore<..>>]: a table with one slot per CPU of
    the device tree which is created, filled with defaults, when it is first
    used, and indexed by [current_cpu_index]. *)

From S2P Require Import Prelude Text Extern Machine Sim.

Definition MPIDR_AFFINITY_MASK : Z := 0xff00ffffff.

Section cpus.
Context {P : PagingCrate}.
Implicit Types s : machine.

(** [Iterator::position] with a predicate which may panic. *)
Fixpoint position {A} (f : A -> K bool) (l : list A) : K (option nat) :=
  match l with
  | [] => ret None
  | x :: l =>
      let! found := f x in
      if found then ret (Some 0%nat)
      else let! r := position f l in ret (S <$> r)
  end.

Definition mpidr_affinity : K Z := gets (fun s => Z.land (mpidr_el1 s) MPIDR_AFFINITY_MASK).

(** [cpu.ids().unwrap().next().unwrap().to_int::<u64>().unwrap()] *)
Definition cpu_id (cpu : FdtCpu) : K Z :=
  let! ids := unwrap_ok (cpu_ids cpu) in
  let! id := unwrap (head ids) in
  unwrap_ok id.

(** [FDT.get().unwrap().cpus().unwrap().cpus()] *)
Definition fdt_cpu_nodes : K (list FdtCpu) :=
  let! fdt := gets fdt_once in
  let! fdt := unwrap fdt in
  unwrap_ok (fdt_cpus fdt).

Definition mpidr_to_cpu_index (mpidr_affinity : Z) : K (option nat) :=
  let! cpus := fdt_cpu_nodes in
  position (fun cpu => let! id := cpu_id cpu in ret (id =? mpidr_affinity)) cpus.

Definition current_cpu_index : K nat :=
  let! affinity := mpidr_affinity in
  let! index := mpidr_to_cpu_index affinity in
  unwrap index.

Definition cpu_count : K nat :=
  let! cpus := fdt_cpu_nodes in
  ret (length cpus).

(** ** The device tree's CPU identifiers *)

(** The identifier which the program uses for a CPU node. *)
Definition first_id (cpu : FdtCpu) : option Z :=
  match cpu_ids cpu with
  | Ok (Ok id :: _) => Some id
  | _ => None
  end.

(** [fdt] lists exactly the CPUs [ids], in this order. *)
Definition fdt_has_cpus (fdt : option Fdt) (ids : list Z) : Prop :=
  exists f cpus, fdt = Some f /\ fdt_cpus f = Ok cpus /\ mapM first_id cpus = Some ids.

(** The position of the first occurrence of [id]. *)
Fixpoint index_of (id : Z) (ids : list Z) : option nat :=
  match ids with
  | [] => None
  | x :: ids => if x =? id then Some 0%nat else S <$> index_of id ids
  end.

Lemma index_of_lookup id ids i : index_of id ids = Some i -> ids !! i = Some id.
Proof.
  revert i. induction ids as [|x ids IH]; intros i; simpl; [done|].
  destruct (Z.eqb_spec x id) as [->|]; [by intros [= <-]|].
  destruct (index_of id ids); [|done]. intros [= <-]. by apply IH.
Qed.

Lemma index_of_inj id1 id2 ids i :
  index_of id1 ids = Some i -> index_of id2 ids = Some i -> id1 = id2.
Proof. intros H1%index_of_lookup H2%index_of_lookup. congruence. Qed.

Lemma index_of_is_Some id ids : id ∈ ids <-> is_Some (index_of id ids).
Proof.
  induction ids as [|x ids IH]; simpl.
  { split; [by intros ?%not_elem_of_nil|by intros [? ?]]. }
  rewrite elem_of_cons. destruct (Z.eqb_spec x id) as [->|Hne].
  - split; [by eexists|by left].
  - rewrite fmap_is_Some, <-IH. naive_solver.
Qed.

Lemma cpu_id_run cpu id s : first_id cpu = Some id -> cpu_id cpu s = (Val id, s).
Proof.
  unfold first_id, cpu_id. destruct (cpu_ids cpu) as [[|[id'|] ids]|]; try done.
  intros [= ->]. reflexivity.
Qed.

Lemma position_run id cpus ids s :
  mapM first_id cpus = Some ids ->
  position (fun cpu => let! id' := cpu_id cpu in ret (id' =? id)) cpus s =
    (Val (index_of id ids), s).
Proof.
  revert ids. induction cpus as [|cpu cpus IH]; intros ids; simpl; [by intros [= <-]|].
  destruct (first_id cpu) as [x|] eqn:E; [|done]. simpl.
  destruct (mapM first_id cpus) as [xs|] eqn:Exs; [|done]. simpl. intros [= <-]. simpl.
  rewrite bind_bind. erewrite bind_Val by (by apply cpu_id_run). run_step.
  destruct (x =? id); [done|]. by erewrite bind_Val by (by apply IH).
Qed.

Lemma fdt_cpu_nodes_run s ids :
  fdt_has_cpus (fdt_once s) ids ->
  exists cpus, fdt_cpu_nodes s = (Val cpus, s) /\ mapM first_id cpus = Some ids.
Proof.
  intros (f & cpus & Hf & Hc & Hm). exists cpus. split; [|done].
  unfold fdt_cpu_nodes. run_step. rewrite Hf. run_step. by rewrite Hc.
Qed.

Lemma mpidr_to_cpu_index_run id s ids :
  fdt_has_cpus (fdt_once s) ids -> mpidr_to_cpu_index id s = (Val (index_of id ids), s).
Proof.
  intros H. destruct (fdt_cpu_nodes_run s ids H) as (cpus & E & Hm).
  unfold mpidr_to_cpu_index. run_step. by apply position_run.
Qed.

(** The index of the core with affinity [mpidr_el1 s] among [ids]. *)
Definition core_index s (ids : list Z) : option nat :=
  index_of (Z.land (mpidr_el1 s) MPIDR_AFFINITY_MASK) ids.

Lemma current_cpu_index_run s ids c :
  fdt_has_cpus (fdt_once s) ids -> core_index s ids = Some c ->
  current_cpu_index s = (Val c, s).
Proof.
  intros H Hc. unfold current_cpu_index, mpidr_affinity. run_step.
  erewrite bind_Val by (by apply mpidr_to_cpu_index_run).
  unfold core_index in Hc. by rewrite Hc.
Qed.

Lemma cpu_count_run s ids :
  fdt_has_cpus (fdt_once s) ids -> cpu_count s = (Val (length ids), s).
Proof.
  intros H. destruct (fdt_cpu_nodes_run s ids H) as (cpus & E & Hm).
  unfold cpu_count. run_step. by rewrite (length_mapM _ _ _ Hm).
Qed.

Lemma core_index_bound s ids c : core_index s ids = Some c -> (c < length ids)%nat.
Proof. intros H%index_of_lookup. by eapply lookup_lt_Some. Qed.

(** The converse: an index which is returned is the one of a node with that
    identifier, whatever the rest of the device tree holds. *)

Lemma cpu_id_inv cpu id s s' : cpu_id cpu s = (Val id, s') -> first_id cpu = Some id /\ s' = s.
Proof.
  unfold cpu_id, first_id, bind. destruct (cpu_ids cpu) as [[|[id'|] ids]|]; simpl; try done.
  intros [= <- <-]. done.
Qed.

Lemma position_inv id cpus s i s' :
  position (fun cpu => let! id' := cpu_id cpu in ret (id' =? id)) cpus s = (Val (Some i), s') ->
  exists cpu, cpus !! i = Some cpu /\ first_id cpu = Some id.
Proof.
  revert i s'. induction cpus as [|cpu cpus IH]; intros i s'; simpl; [done|].
  rewrite bind_bind. intros H. inv_bind H as x s1 Hx. apply cpu_id_inv in Hx as [Hid ->].
  inv_bind H as b s2 Hb. injection Hb as <- <-. destruct (Z.eqb_spec x id) as [->|].
  - injection H as <- <-. by exists cpu.
  - inv_bind H as o s3 Ho. destruct o as [j|]; [|done]. injection H as <- <-. by eapply IH.
Qed.

Lemma current_cpu_index_inv s i s' :
  current_cpu_index s = (Val i, s') ->
  exists f cpus cpu, fdt_once s = Some f /\ fdt_cpus f = Ok cpus /\ cpus !! i = Some cpu /\
    first_id cpu = Some (Z.land (mpidr_el1 s) MPIDR_AFFINITY_MASK).
Proof.
  unfold current_cpu_index, mpidr_to_cpu_index, fdt_cpu_nodes. intros H.
  inv_bind H as aff s1 Ha. injection Ha as <- <-. inv_bind H as o s2 Ho.
  inv_bind Ho as cpus s3 Hc. inv_bind Hc as fo s4 Hf. injection Hf as <- <-.
  inv_bind Hc as f s5 Hf. destruct (fdt_once s) as [f'|] eqn:Ef; [|done].
  injection Hf as -> <-. destruct (fdt_cpus f) as [cpus'|] eqn:Ec; [|done].
  injection Hc as -> <-. destruct o as [j|]; [|done]. injection H as <- <-.
  apply position_inv in Ho as (cpu & Hl & Hi). by exists f, cpus, cpu.
Qed.

(** C33: [current_cpu_index] never returns the same index on two cores with
    different affinity, and the index is below [cpu_count]; this is what makes
    [CoresImpl] a sound implementation of [percore::Cores]. *)
Theorem current_cpu_index_unique s1 s2 i s1' s2' :
  fdt_once s1 = fdt_once s2 ->
  current_cpu_index s1 = (Val i, s1') -> current_cpu_index s2 = (Val i, s2') ->
  Z.land (mpidr_el1 s1) MPIDR_AFFINITY_MASK = Z.land (mpidr_el1 s2) MPIDR_AFFINITY_MASK /\
  exists n, cpu_count s1 = (Val n, s1) /\ (i < n)%nat.
Proof.
  intros Hf (f & cpus & cpu & Hf1 & Hc1 & Hl1 & Hi1)%current_cpu_index_inv
    (f' & cpus' & cpu' & Hf2 & Hc2 & Hl2 & Hi2)%current_cpu_index_inv.
  simplify_eq. split; [congruence|]. exists (length cpus). split.
  - unfold cpu_count, fdt_cpu_nodes. rewrite bind_bind. run_step. rewrite bind_bind, Hf1.
    run_step. by rewrite Hc1.
  - by eapply lookup_lt_Some.
Qed.
End cpus.

(** ** A device tree for the witnesses *)

Definition sim_cpu (id : Z) : FdtCpu := mkFdtCpu (Ok [Ok id]).

Definition sim_node (name : string) (compatible : list string) (reg : list Reg)
    (children : list FdtNode) : FdtNode :=
  mkFdtNode name (Some compatible) (Ok (Some reg)) (Ok None) (fun _ => None) children.

(** Four CPUs, a GIC, a UART and VirtIO devices, as on the QEMU board. *)
Definition sim_gic_node : FdtNode :=
  sim_node "intc" ["arm,gic-v3"]
    [mkReg (Ok 0x8000000) (Ok 0x10000); mkReg (Ok 0x80a0000) (Ok 0xf60000)] [].
Definition sim_uart_node : FdtNode :=
  sim_node "pl011" ["arm,pl011"; "arm,primecell"] [mkReg (Ok 0x9000000) (Ok 0x1000)] [].

Definition sim_virtio_node (base : Z) : FdtNode :=
  sim_node "virtio_mmio" ["virtio,mmio"] [mkReg (Ok base) (Ok 0x200)] [].

Definition sim_fdt : Fdt := {|
  fdt_root := mkFdtNode "/" (Some ["linux,dummy-virt"]) (Ok None) (Ok None) (fun _ => None)
                [sim_gic_node; sim_uart_node; sim_virtio_node 0xa000000; sim_virtio_node 0xa000200;
                 sim_virtio_node 0xa000400];
  fdt_memory_reg := Ok (Ok (Some [mkReg (Ok 0x40000000) (Ok 0x8000000)]));
  fdt_cpus := Ok (sim_cpu <$> [0; 1; 2; 3]);
  fdt_find_node := fun _ => None;
  fdt_find_compatible := fun c =>
    if bool_decide (c = "arm,gic-v3") then [sim_gic_node]
    else if bool_decide (c = "arm,pl011") then [sim_uart_node] else [];
  fdt_memory_reservations := [];
  fdt_data_len := 4096;
  fdt_display := "fdt";
|}.

(** Core [n] of the running kernel. *)
Definition sim_core (n : Z) : machine (P := sim_paging) :=
  mkMachine 1 (Z.lor 0x80000000 n) false ∅ ∅ true (Some 4) (Some sim_fdt) false None ∅ None
    false ∅ [].

Lemma sim_core_cpus n : fdt_has_cpus (fdt_once (sim_core n)) [0; 1; 2; 3].
Proof. by exists sim_fdt, (sim_cpu <$> [0; 1; 2; 3]). Qed.

Lemma current_cpu_index_unique_witness :
  Z.land (mpidr_el1 (sim_core 2)) MPIDR_AFFINITY_MASK =
    Z.land (mpidr_el1 (sim_core 2)) MPIDR_AFFINITY_MASK /\
  exists n, cpu_count (sim_core 2) = (Val n, sim_core 2) /\ (2 < n)%nat.
Proof.
  apply (current_cpu_index_unique (sim_core 2) (sim_core 2) 2 (sim_core 2) (sim_core 2));
    reflexivity.
Defined.
