(* ===== verification/Interrupts.v ===== *)
(** * Interrupts: [interrupts.rs], [exceptions.rs] and the [Platform] trait

    The tables of interrupt handlers (one shared by all cores and one private to
    each core), their dispatch, and the set-up of the GIC.  [Tables] is the
    abstract specification of the tables, which the four operations refine, and
    a transition system in which the cores interleave. *)

From S2P Require Import Prelude Text Extern Machine Sim Console Cpus.

(** ** [platform.rs] *)

(** The drivers which a platform provides, identified by their base address. *)
Record PlatformParts := mkParts { part_console : Z; part_rtc : Z }.

Class Platform `{P : PagingCrate} := {
  RTC_IRQ : Z;
  CONSOLE_IRQ : Z;
  create : K (option PlatformParts);
  setup_gic : K unit;
  initial_idmap : list Z;
}.

(** [parts]: [Option::take]; the first component is returned, the second stays. *)
Definition parts (p : option PlatformParts) : option PlatformParts * option PlatformParts :=
  (p, None).

(** ** [exceptions.rs] *)

Section exceptions.
Context {P : PagingCrate} {Q : Surroundings} {B : BoardEnv} {C : CrateConsts}.

Definition current_el : K Z := gets current_el_reg.

Definition init_irq_routing : K unit :=
  let! el := current_el in
  when (el =? 2)
    (let! _ := ask (fun h => Z.lor (env_hcr_el2 h) HCR_IMO) WriteHcrEl2 in ret tt).
End exceptions.

(** [esr()] and [far()] read the register of the current exception level. *)
Definition esr `{P : PagingCrate} `{Q : !Surroundings} `{B : BoardEnv} : K Z :=
  let! el := current_el in
  if el =? 2 then ask (fun h => env_esr h 2) (ReadEsr 2) else ask (fun h => env_esr h 1) (ReadEsr 1).

Definition far `{P : PagingCrate} `{Q : !Surroundings} `{B : BoardEnv} : K Z :=
  let! el := current_el in
  if el =? 2 then ask (fun h => env_far h 2) (ReadFar 2) else ask (fun h => env_far h 1) (ReadFar 1).

(** A synchronous exception taken at the current level is a panic. *)
Definition sync_current `{P : PagingCrate} `{Q : !Surroundings} `{B : BoardEnv} `{C : CrateConsts} : K unit :=
  let! e := esr in
  let! f := far in
  panic ("Unexpected sync_exception_current, esr=" +:+ fmt_hex e +:+ ", far=" +:+ fmt_hex f
         +:+ "; saved register state: " +:+ register_state_debug).

(** ** The handler tables *)

Module Irq.
Section irq.
Context {P : PagingCrate} {Q : Surroundings} {B : BoardEnv} {I : EmbeddedIo machine} {C : CrateConsts}.
Implicit Types s : machine.

(** Forces [PRIVATE_IRQ_HANDLERS] and selects this core's slot: [.get()]. *)
Definition private_handlers : K (nat * gmap Z IrqHandler) :=
  let! cur := gets private_irq in
  let! tables := match cur with
                 | Some tables => ret tables
                 | None =>
                     let! n := cpu_count in
                     do! modify (set_private_irq (Some (replicate n ∅))) in
                     ret (replicate n ∅)
                 end in
  let! c := current_cpu_index in
  let! t := expect "index out of bounds" (tables !! c) in
  ret (c, t).

(** [borrow_mut] of slot [c], then an update of it. *)
Definition update_private (c : nat) (t : gmap Z IrqHandler) : K unit :=
  let! b := gets borrowed in
  do! assert (negb (bool_decide (c ∈ b))) "already borrowed: BorrowMutError" in
  modify (fun s => set_private_irq (insert c t <$> private_irq s) s).

Definition set_shared_irq_handler (intid : Z) (handler : IrqHandler) : K (option IrqHandler) :=
  do! log_trace ("Setting shared IRQ handler for " +:+ intid_debug intid) in
  exception_free (
    let! '(_, private) := private_handlers in
    do! assert (bool_decide (private !! intid = None))
          ("Private IRQ handler already exists for " +:+ intid_debug intid) in
    with_lock LSharedIrq (
      let! shared := gets shared_irq in
      do! modify (set_shared_irq (<[intid := handler]> shared)) in
      ret (shared !! intid))).

Definition remove_shared_irq_handler (intid : Z) : K (option IrqHandler) :=
  do! log_trace ("Removing shared IRQ handler for " +:+ intid_debug intid) in
  exception_free (with_lock LSharedIrq (
    let! shared := gets shared_irq in
    do! modify (set_shared_irq (delete intid shared)) in
    ret (shared !! intid))).

Definition set_private_irq_handler (intid : Z) (handler : IrqHandler) : K (option IrqHandler) :=
  do! log_trace ("Setting private IRQ handler for " +:+ intid_debug intid) in
  exception_free (
    let! shared := with_lock LSharedIrq (gets shared_irq) in
    do! assert (bool_decide (shared !! intid = None))
          ("Private IRQ handler already exists for " +:+ intid_debug intid) in
    let! '(c, private) := private_handlers in
    do! update_private c (<[intid := handler]> private) in
    ret (private !! intid)).

Definition remove_private_irq_handler (intid : Z) : K (option IrqHandler) :=
  do! log_trace ("Removing private IRQ handler for " +:+ intid_debug intid) in
  exception_free (
    let! '(c, private) := private_handlers in
    do! update_private c (delete intid private) in
    ret (private !! intid)).

(** Runs [m] while slot [c] is borrowed. *)
Definition with_borrow (c : nat) (m : K unit) : K unit :=
  let! prev := gets borrowed in
  do! modify (set_borrowed ({[c]} ∪ prev)) in
  do! m in
  modify (set_borrowed prev).

Definition get_and_acknowledge_interrupt : K (option Z) := ask env_gic_ack GicAck.

(** [run] calls a handler. The shared table stays locked while a shared handler
    runs, and the private one borrowed while a private handler does. *)
Definition handle_irq (run : IrqHandler -> Z -> K unit) : K unit :=
  let! ack := get_and_acknowledge_interrupt in
  let! intid := expect "No pending interrupt" ack in
  do! log_trace ("IRQ: " +:+ intid_debug intid) in
  exception_free (
    let! '(c, private) := private_handlers in
    match private !! intid with
    | Some handler => with_borrow c (run handler intid)
    | None =>
        let! handled := with_lock LSharedIrq (
          let! shared := gets shared_irq in
          match shared !! intid with
          | Some handler => do! run handler intid in ret true
          | None => ret false
          end) in
        assert handled ("Unexpected IRQ " +:+ intid_debug intid +:+ " with no handler")
    end).

(** [Exceptions::irq_current], the IRQ vector at the current exception level. *)
Definition irq_current (run : IrqHandler -> Z -> K unit) : K unit :=
  do! log_trace ("irq_current, register_state: " +:+ register_state_debug) in
  handle_irq run.
End irq.
End Irq.

(** ** Abstract specification of the tables *)

Module Tables.

Record tables := mkTables {
  shared : gmap Z IrqHandler;
  private : list (gmap Z IrqHandler);  (* one per core *)
}.

Inductive op :=
| SetShared (intid : Z) (handler : IrqHandler)
| RemoveShared (intid : Z)
| SetPrivate (intid : Z) (handler : IrqHandler)
| RemovePrivate (intid : Z).

(** What an operation does on core [c]: the handler which was set before and the
    new tables, or [None] for a panic. *)
Definition step (c : nat) (o : op) (t : tables) : option (option IrqHandler * tables) :=
  match private t !! c with
  | None => None
  | Some p =>
      match o with
      | SetShared i h =>
          if decide (p !! i = None)
          then Some (shared t !! i, mkTables (<[i := h]> (shared t)) (private t)) else None
      | RemoveShared i =>
          Some (shared t !! i, mkTables (delete i (shared t)) (private t))
      | SetPrivate i h =>
          if decide (shared t !! i = None)
          then Some (p !! i, mkTables (shared t) (<[c := <[i := h]> p]> (private t))) else None
      | RemovePrivate i =>
          Some (p !! i, mkTables (shared t) (<[c := delete i p]> (private t)))
      end
  end.

(** The handler which runs on core [c] for an interrupt. *)
Definition dispatch (c : nat) (i : Z) (t : tables) : option IrqHandler :=
  match private t !! c ≫= lookup i with
  | Some h => Some h
  | None => shared t !! i
  end.

(** The cores interleave: any core may run any operation at any time. *)
Inductive steps : tables -> list (nat * op) -> tables -> Prop :=
| steps_nil t : steps t [] t
| steps_cons t c o old t' l t'' :
    step c o t = Some (old, t') -> steps t' l t'' -> steps t ((c, o) :: l) t''.

Definition empty (n : nat) : tables := mkTables ∅ (replicate n ∅).

(** No interrupt has both a shared handler and a handler private to core [c]. *)
Definition exclusive (c : nat) (t : tables) : Prop :=
  forall i p, private t !! c = Some p -> is_Some (p !! i) -> shared t !! i = None.

Lemma step_length c o t old t' :
  step c o t = Some (old, t') -> length (private t') = length (private t).
Proof.
  unfold step. destruct (private t !! c) as [p|]; [|done].
  destruct o; try case_decide; intros [=]; subst; simpl; by rewrite ?length_insert.
Qed.

(** An operation of core [c] only touches the slot of core [c]. *)
Lemma step_other c c' o t old t' :
  step c o t = Some (old, t') -> c <> c' -> private t' !! c' = private t !! c'.
Proof.
  unfold step. destruct (private t !! c) as [p|]; [|done].
  destruct o; try case_decide; intros [=] Hc; subst; simpl;
    rewrite ?list_lookup_insert_ne by done; done.
Qed.

Lemma step_exclusive c o t old t' :
  step c o t = Some (old, t') -> exclusive c t -> exclusive c t'.
Proof.
  unfold step, exclusive. destruct (private t !! c) as [p|] eqn:Ep; [|done].
  assert (c < length (private t))%nat by (by eapply lookup_lt_Some).
  intros Hs He i q Hq Hi. specialize (He i p eq_refl).
  destruct o as [j h|j|j h|j]; try case_decide; simplify_eq; simpl in *;
    rewrite ?list_lookup_insert_eq in * by done; simplify_eq.
  - destruct (decide (i = j)) as [->|]; [|rewrite lookup_insert_ne by done; auto].
    destruct Hi; congruence.
  - rewrite lookup_delete. case_decide; auto.
  - rewrite lookup_insert in Hi. case_decide; subst; auto.
  - rewrite lookup_delete in Hi. case_decide; [by destruct Hi|auto].
Qed.

Lemma steps_length t l t' : steps t l t' -> length (private t') = length (private t).
Proof.
  induction 1 as [|t c o old t1 l t2 Hs _ IH]; [done|].
  by rewrite IH, (step_length _ _ _ _ _ Hs).
Qed.

(** Operations of other cores keep the exclusion for core [c] unless they set a
    shared handler. *)
Lemma step_exclusive_other c c' o t old t' :
  step c' o t = Some (old, t') -> c' <> c -> (forall i h, o <> SetShared i h) ->
  exclusive c t -> exclusive c t'.
Proof.
  intros Hs Hc Ho He i p Hp Hi. rewrite (step_other _ _ _ _ _ _ Hs Hc) in Hp.
  specialize (He i p Hp Hi). unfold step in Hs. destruct (private t !! c') as [q|]; [|done].
  destruct o as [j h|j|j h|j]; try case_decide; simplify_eq; simpl in *; try done.
  - by destruct (Ho j h).
  - rewrite lookup_delete. by case_decide.
Qed.

Lemma steps_exclusive c t l t' :
  steps t l t' -> (forall c' i h, (c', SetShared i h) ∈ l -> c' = c) ->
  exclusive c t -> exclusive c t'.
Proof.
  induction 1 as [|t c' o old t1 l t2 Hs _ IH]; intros Hl He; [done|].
  apply IH.
  { intros c2 i h Hin. apply (Hl c2 i h). by right. }
  destruct (decide (c' = c)) as [->|Hc]; [by eapply step_exclusive|].
  eapply step_exclusive_other; [done|done| |done].
  intros i h ->. apply Hc. apply (Hl c' i h). left.
Qed.

Lemma exclusive_empty c n : exclusive c (empty n).
Proof.
  intros i p Hp Hi. simpl in Hp. apply lookup_replicate in Hp as [-> _]. by destruct Hi.
Qed.

(** Whether an operation can matter for interrupt [i] on core [c]. *)
Definition affects (c : nat) (i : Z) (co : nat * op) : bool :=
  match co.2 with
  | SetShared j _ | RemoveShared j => bool_decide (j = i)
  | SetPrivate j _ | RemovePrivate j => bool_decide (j = i /\ co.1 = c)
  end.

Lemma step_dispatch_frame c c' i o t old t' :
  step c' o t = Some (old, t') -> affects c i (c', o) = false ->
  dispatch c i t' = dispatch c i t.
Proof.
  unfold step, affects, dispatch. destruct (private t !! c') as [p|] eqn:Ep; [|done].
  assert (c' < length (private t))%nat by (by eapply lookup_lt_Some).
  assert (forall q, (c' <> c \/ q !! i = p !! i) ->
    <[c' := q]> (private t) !! c ≫= lookup i = private t !! c ≫= lookup i) as Hins.
  { intros q Hq. destruct (decide (c' = c)) as [->|Hc]; [|by rewrite list_lookup_insert_ne].
    rewrite list_lookup_insert_eq, Ep by done. simpl. by destruct Hq. }
  destruct o as [j h|j|j h|j]; simpl; intros Hs Hf; apply bool_decide_eq_false in Hf.
  - case_decide; simplify_eq; simpl. by rewrite lookup_insert_ne.
  - simplify_eq; simpl. by rewrite lookup_delete_ne.
  - case_decide; simplify_eq; simpl. rewrite Hins; [done|].
    destruct (decide (j = i)); [left; naive_solver|right; by rewrite lookup_insert_ne].
  - simplify_eq; simpl. rewrite Hins; [done|].
    destruct (decide (j = i)); [left; naive_solver|right; by rewrite lookup_delete_ne].
Qed.

Lemma steps_dispatch_frame c i t l t' :
  steps t l t' -> Forall (fun co => affects c i co = false) l ->
  dispatch c i t' = dispatch c i t.
Proof.
  induction 1 as [|t c' o old t1 l t2 Hs _ IH]; intros Hl; [done|].
  inversion_clear Hl. rewrite IH by done. by eapply step_dispatch_frame.
Qed.
End Tables.

(** ** The operations refine the specification *)

Section refinement.
Context {P : PagingCrate} {B : BoardEnv} {I : EmbeddedIo machine} {L : EmbeddedIoLaws machine I}.
Context {C : CrateConsts}.
Implicit Types s : machine.
Import Tables.

(** The tables in [s], on a board with [n] CPUs. *)
Definition tables_of (n : nat) s : tables :=
  mkTables (shared_irq s) (default (replicate n ∅) (private_irq s)).

(** [s] is a state of the core with index [c] of a board with CPUs [ids], in
    which no lock or borrow of the tables is outstanding; trace messages are
    not logged. *)
Record irq_ready (ids : list Z) (c : nat) s : Prop := {
  ready_cpus : fdt_has_cpus (fdt_once s) ids;
  ready_core : core_index s ids = Some c;
  ready_len : length (private (tables_of (length ids) s)) = length ids;
  ready_lock : LSharedIrq ∉ held s;
  ready_borrow : c ∉ borrowed s;
  ready_log : default 0 (log_max_level s) < level_num LTrace;
}.

(** The program of an operation. *)
Definition run_op (o : op) : K (option IrqHandler) :=
  match o with
  | SetShared i h => Irq.set_shared_irq_handler i h
  | RemoveShared i => Irq.remove_shared_irq_handler i
  | SetPrivate i h => Irq.set_private_irq_handler i h
  | RemovePrivate i => Irq.remove_private_irq_handler i
  end.

(** Only the tables may differ. *)
Definition same_but_tables s s' : Prop :=
  s' = set_private_irq (private_irq s') (set_shared_irq (shared_irq s') s).

(** Forcing the lazy table. *)
Definition forced (ids : list Z) s : machine :=
  set_private_irq (Some (private (tables_of (length ids) s))) s.

Lemma set_private_irq_id s t : private_irq s = t -> set_private_irq t s = s.
Proof. intros <-. by destruct s. Qed.

Lemma private_handlers_run ids c s :
  irq_ready ids c s ->
  exists p, private (tables_of (length ids) s) !! c = Some p /\
    Irq.private_handlers s = (Val (c, p), forced ids s).
Proof.
  intros [Hcpus Hcore Hlen _ _ _].
  destruct (lookup_lt_is_Some_2 (private (tables_of (length ids) s)) c) as [p Hp].
  { rewrite Hlen. by eapply core_index_bound. }
  exists p. split; [done|]. unfold Irq.private_handlers. run_step.
  unfold forced, tables_of in *. simpl in *. destruct (private_irq s) as [ts|] eqn:Ep.
  - run_step. erewrite bind_Val by (by eapply current_cpu_index_run).
    simpl in Hp. rewrite Hp. run_step. simpl. by rewrite set_private_irq_id.
  - rewrite bind_bind. erewrite bind_Val by (by apply cpu_count_run). rewrite bind_bind.
    do 2 run_step. erewrite bind_Val by (by eapply current_cpu_index_run).
    simpl in Hp. rewrite Hp. by run_step.
Qed.

Lemma update_private_run ids c s t :
  irq_ready ids c s ->
  Irq.update_private c t (forced ids s) =
    (Val tt, set_private_irq (Some (<[c := t]> (private (tables_of (length ids) s)))) s).
Proof.
  intros Hr. unfold Irq.update_private. run_step.
  rewrite bool_decide_eq_false_2 by apply Hr. by run_step.
Qed.

Lemma irq_ready_masked ids c b s : irq_ready ids c s -> irq_ready ids c (set_masked b s).
Proof. by intros []; split. Qed.

(** The tables after an operation, which leaves the rest of the state alone. *)
Lemma irq_ready_tables ids c s s' :
  irq_ready ids c s -> same_but_tables s s' ->
  length (private (tables_of (length ids) s')) = length ids -> irq_ready ids c s'.
Proof. intros [] -> Hlen. by split. Qed.

(** What the tables hold is not changed by forcing. *)
Lemma tables_of_forced ids s : tables_of (length ids) (forced ids s) = tables_of (length ids) s.
Proof. by unfold tables_of, forced. Qed.

Lemma log_trace_skip ids c s msg : irq_ready ids c s -> log_trace msg s = (Val tt, s).
Proof. intros Hr. apply log_suppressed, Hr. Qed.

(** Outcome of a program against one of the specification. *)
Definition refines (ids : list Z) s (m : K (option IrqHandler))
    (spec : option (option IrqHandler * tables)) : Prop :=
  match spec with
  | Some (old, t') =>
      exists s', m s = (Val old, s') /\ tables_of (length ids) s' = t' /\ same_but_tables s s'
  | None =>
      exists msg s', m s = (Panic msg, s') /\ tables_of (length ids) s' = tables_of (length ids) s
  end.

Lemma set_shared_refines ids c s i h :
  irq_ready ids c s ->
  refines ids s (run_op (SetShared i h)) (step c (SetShared i h) (tables_of (length ids) s)).
Proof.
  intros Hr. unfold run_op, Irq.set_shared_irq_handler, refines, step.
  destruct (private_handlers_run ids c (set_masked true s)) as (p & Hp & Erun).
  { by apply irq_ready_masked. }
  change (private (tables_of (length ids) s) !! c = Some p) in Hp. rewrite Hp.
  erewrite bind_Val by (by eapply log_trace_skip). case_decide as Hd.
  - eexists. split; [|split].
    + apply exception_free_Val. erewrite bind_Val by exact Erun. cbv beta iota.
      rewrite bool_decide_eq_true_2 by done. run_step.
      apply with_lock_run; [apply Hr|reflexivity|reflexivity].
    + reflexivity.
    + reflexivity.
  - eexists _, _. split.
    + apply exception_free_Panic. erewrite bind_Val by exact Erun. cbv beta iota.
      rewrite bool_decide_eq_false_2 by done. by run_step.
    + reflexivity.
Qed.

Lemma remove_shared_refines ids c s i :
  irq_ready ids c s ->
  refines ids s (run_op (RemoveShared i)) (step c (RemoveShared i) (tables_of (length ids) s)).
Proof.
  intros Hr. unfold run_op, Irq.remove_shared_irq_handler, refines, step.
  destruct (private_handlers_run ids c s Hr) as (p & Hp & _). rewrite Hp.
  erewrite bind_Val by (by eapply log_trace_skip). eexists. split; [|split].
  - apply exception_free_Val, with_lock_run; [apply Hr|reflexivity|reflexivity].
  - reflexivity.
  - unfold same_but_tables. simpl. by rewrite set_private_irq_id.
Qed.

Lemma set_private_refines ids c s i h :
  irq_ready ids c s ->
  refines ids s (run_op (SetPrivate i h)) (step c (SetPrivate i h) (tables_of (length ids) s)).
Proof.
  intros Hr. unfold run_op, Irq.set_private_irq_handler, refines, step.
  assert (irq_ready ids c (set_masked true s)) as Hr' by (by apply irq_ready_masked).
  destruct (private_handlers_run ids c _ Hr') as (p & Hp & Erun).
  change (private (tables_of (length ids) s) !! c = Some p) in Hp. rewrite Hp.
  erewrite bind_Val by (by eapply log_trace_skip).
  assert (with_lock LSharedIrq (gets shared_irq) (set_masked true s) =
    (Val (shared_irq s), set_masked true s)) as Elock.
  { etrans; [apply with_lock_run; [apply Hr|reflexivity|reflexivity]|]. reflexivity. }
  case_decide as Hd; simpl in Hd.
  - eexists. split; [|split].
    + apply exception_free_Val. erewrite bind_Val by exact Elock. cbv beta.
      rewrite bool_decide_eq_true_2 by done. run_step.
      erewrite bind_Val by exact Erun. cbv beta iota.
      erewrite bind_Val by (by apply update_private_run). reflexivity.
    + reflexivity.
    + reflexivity.
  - eexists _, _. split.
    + apply exception_free_Panic. erewrite bind_Val by exact Elock. cbv beta.
      rewrite bool_decide_eq_false_2 by done. by run_step.
    + reflexivity.
Qed.

Lemma remove_private_refines ids c s i :
  irq_ready ids c s ->
  refines ids s (run_op (RemovePrivate i)) (step c (RemovePrivate i) (tables_of (length ids) s)).
Proof.
  intros Hr. unfold run_op, Irq.remove_private_irq_handler, refines, step.
  assert (irq_ready ids c (set_masked true s)) as Hr' by (by apply irq_ready_masked).
  destruct (private_handlers_run ids c _ Hr') as (p & Hp & Erun).
  change (private (tables_of (length ids) s) !! c = Some p) in Hp. rewrite Hp.
  erewrite bind_Val by (by eapply log_trace_skip). eexists. split; [|split].
  - apply exception_free_Val. erewrite bind_Val by exact Erun. cbv beta iota.
    erewrite bind_Val by (by apply update_private_run). reflexivity.
  - reflexivity.
  - reflexivity.
Qed.

Lemma op_refines ids c s o :
  irq_ready ids c s -> refines ids s (run_op o) (step c o (tables_of (length ids) s)).
Proof.
  intros Hr. destruct o;
    [by apply set_shared_refines|by apply remove_shared_refines
    |by apply set_private_refines|by apply remove_private_refines].
Qed.

(** A sequence of operations on one core, with the results of each. *)
Fixpoint run_ops (l : list op) : K unit :=
  match l with
  | [] => ret tt
  | o :: l => do! run_op o in run_ops l
  end.

(** C8: every sequence of [set_]/[remove_]([shared]|[private])[_irq_handler]
    calls on one core behaves as the abstract tables do: where the specification
    allows each of them, the program runs to the end, its tables are the
    specified ones and nothing else in the kernel has changed; where it does
    not, the call panics and leaves the tables alone. *)
Theorem irq_handler_ops_refine ids c s l :
  irq_ready ids c s ->
  (forall t', steps (tables_of (length ids) s) (pair c <$> l) t' ->
     exists s', run_ops l s = (Val tt, s') /\ tables_of (length ids) s' = t' /\
       same_but_tables s s' /\ irq_ready ids c s') /\
  (forall o, step c o (tables_of (length ids) s) = None ->
     exists msg s', run_op o s = (Panic msg, s') /\
       tables_of (length ids) s' = tables_of (length ids) s).
Proof.
  intros Hr. split; cycle 1.
  { intros o Ho. pose proof (op_refines ids c s o Hr) as H. by rewrite Ho in H. }
  revert s Hr. induction l as [|o l IH]; intros s Hr t' Ht; inversion_clear Ht.
  { exists s. by destruct s. }
  pose proof (op_refines ids c s o Hr) as Ho. rewrite H in Ho. simpl in Ho.
  destruct Ho as (s1 & E1 & Ht1 & Hs1).
  assert (irq_ready ids c s1) as Hr1.
  { eapply irq_ready_tables; [done|done|]. rewrite Ht1, (step_length _ _ _ _ _ H). apply Hr. }
  destruct (IH s1 Hr1 t') as (s2 & E2 & Ht2 & Hs2 & Hr2); [by rewrite Ht1|].
  exists s2. split; [simpl; by rewrite (bind_Val _ _ _ _ _ E1)|].
  split; [done|]. split; [|done]. unfold same_but_tables in *. rewrite Hs1 in Hs2. exact Hs2.
Qed.

(** *** Dispatch *)

Definition acked s i : machine := set_trace (mkEntry (GicAck (Some i)) (masked s) (held s) :: trace s) s.

(** The state in which a private, respectively a shared, handler is called. *)
Definition entry_private ids c i s : machine :=
  set_borrowed ({[c]} ∪ borrowed s) (forced ids (set_masked true (acked s i))).
Definition entry_shared ids i s : machine :=
  set_held ({[LSharedIrq]} ∪ held s) (forced ids (set_masked true (acked s i))).

Definition handler_entry ids c i s : machine :=
  if decide (is_Some (private (tables_of (length ids) s) !! c ≫= lookup i))
  then entry_private ids c i s else entry_shared ids i s.

(** The state after a handler which ended in [s2]. *)
Definition after_irq s s2 : machine :=
  set_masked (masked s) (set_held (held s) (set_borrowed (borrowed s) s2)).

Lemma handle_irq_start ids c s i run :
  irq_ready ids c s -> env_gic_ack (trace s) = Some i ->
  exists p, private (tables_of (length ids) s) !! c = Some p /\
  Irq.handle_irq run s =
    exception_free (
      let! '(c, private) := Irq.private_handlers in
      match private !! i with
      | Some handler => Irq.with_borrow c (run handler i)
      | None =>
          let! handled := with_lock LSharedIrq (
            let! shared := gets shared_irq in
            match shared !! i with
            | Some handler => do! run handler i in ret true
            | None => ret false
            end) in
          assert handled ("Unexpected IRQ " +:+ intid_debug i +:+ " with no handler")
      end) (acked s i) /\
  Irq.private_handlers (set_masked true (acked s i)) =
    (Val (c, p), forced ids (set_masked true (acked s i))).
Proof.
  intros Hr Ha.
  assert (irq_ready ids c (set_masked true (acked s i))) as Hr' by (destruct Hr; by split).
  destruct (private_handlers_run ids c _ Hr') as (p & Hp & Erun).
  exists p. split; [exact Hp|]. split; [|exact Erun].
  unfold Irq.handle_irq, Irq.get_and_acknowledge_interrupt. run_step. rewrite Ha. run_step.
  assert (irq_ready ids c (acked s i)) as Hr2 by (destruct Hr; by split).
  by erewrite bind_Val by (by eapply log_trace_skip).
Qed.

Lemma handle_irq_private ids c s i run h s2 :
  irq_ready ids c s -> env_gic_ack (trace s) = Some i ->
  private (tables_of (length ids) s) !! c ≫= lookup i = Some h ->
  run h i (entry_private ids c i s) = (Val tt, s2) -> held s2 = held s ->
  Irq.handle_irq run s = (Val tt, after_irq s s2).
Proof.
  intros Hr Ha Hd Hrun Hh. destruct (handle_irq_start ids c s i run Hr Ha) as (p & Hp & E & Ep).
  rewrite Hp in Hd. simpl in Hd. rewrite E.
  etrans; [apply exception_free_Val; erewrite bind_Val by exact Ep; cbv beta iota;
           rewrite Hd; unfold Irq.with_borrow; do 2 run_step;
           erewrite bind_Val by exact Hrun; reflexivity|].
  unfold after_irq. destruct s2; simpl in *. by rewrite Hh.
Qed.

Lemma handle_irq_shared ids c s i run h s2 :
  irq_ready ids c s -> env_gic_ack (trace s) = Some i ->
  private (tables_of (length ids) s) !! c ≫= lookup i = None -> shared_irq s !! i = Some h ->
  run h i (entry_shared ids i s) = (Val tt, s2) ->
  held s2 = held (entry_shared ids i s) -> borrowed s2 = borrowed s ->
  Irq.handle_irq run s = (Val tt, after_irq s s2).
Proof.
  intros Hr Ha Hd Hs Hrun Hh Hb.
  destruct (handle_irq_start ids c s i run Hr Ha) as (p & Hp & E & Ep).
  rewrite Hp in Hd. simpl in Hd. rewrite E.
  assert (with_lock LSharedIrq (
      let! shared := gets shared_irq in
      match shared !! i with
      | Some handler => do! run handler i in ret true
      | None => ret false
      end) (forced ids (set_masked true (acked s i))) = (Val true, set_held (held s) s2)) as Ew.
  { refine (with_lock_run _ _ (forced ids (set_masked true (acked s i))) true s2 _ _ Hh).
    - apply Hr.
    - run_step. simpl. rewrite Hs. erewrite bind_Val by exact Hrun. reflexivity. }
  etrans; [apply exception_free_Val; erewrite bind_Val by exact Ep; cbv beta iota;
           rewrite Hd; erewrite bind_Val by exact Ew; reflexivity|].
  unfold after_irq. destruct s2; simpl in *. by rewrite Hb.
Qed.

Lemma handle_irq_none ids c s i run :
  irq_ready ids c s -> env_gic_ack (trace s) = Some i ->
  dispatch c i (tables_of (length ids) s) = None ->
  exists s', Irq.handle_irq run s =
    (Panic ("Unexpected IRQ " +:+ intid_debug i +:+ " with no handler"), s').
Proof.
  intros Hr Ha Hd. destruct (handle_irq_start ids c s i run Hr Ha) as (p & Hp & E & Ep).
  unfold dispatch in Hd. rewrite Hp in Hd. simpl in Hd.
  destruct (p !! i) as [h|] eqn:Ei; [done|].
  eexists. rewrite E. apply exception_free_Panic. erewrite bind_Val by exact Ep.
  cbv beta iota. rewrite Ei. erewrite bind_Val; cycle 1.
  { apply with_lock_run; [apply Hr|run_step; simpl; by rewrite Hd|reflexivity]. }
  reflexivity.
Qed.

(** C12: [handle_irq] acknowledges the interrupt and runs exactly the handler
    which the tables give for this core, the private one first, once, with
    exceptions masked; mask, locks and borrows are restored afterwards.  With
    no handler it panics. *)
Theorem handle_irq_dispatches ids c s i run :
  irq_ready ids c s -> env_gic_ack (trace s) = Some i ->
  match dispatch c i (tables_of (length ids) s) with
  | Some h =>
      masked (handler_entry ids c i s) = true /\
      forall s2, run h i (handler_entry ids c i s) = (Val tt, s2) ->
        held s2 = held (handler_entry ids c i s) ->
        borrowed s2 = borrowed (handler_entry ids c i s) ->
        Irq.handle_irq run s = (Val tt, after_irq s s2)
  | None => exists s', Irq.handle_irq run s =
      (Panic ("Unexpected IRQ " +:+ intid_debug i +:+ " with no handler"), s')
  end.
Proof.
  intros Hr Ha. destruct (dispatch _ _ _) as [h|] eqn:Ed; [|by eapply handle_irq_none].
  unfold handler_entry. unfold dispatch in Ed.
  destruct (private _ !! c ≫= lookup i) as [h'|] eqn:Ep; simpl.
  - injection Ed as ->. split; [done|]. intros s2 Hrun Hh _. by eapply handle_irq_private.
  - split; [done|]. intros s2 Hrun Hh Hb. by eapply handle_irq_shared.
Qed.

(** *** Several cores

    The statics are shared: an operation of another core runs in the same state
    but for the core's identity.  The operations hold their locks with
    exceptions masked, so they are atomic with respect to each other. *)

Fixpoint run_sys (l : list (Z * op)) : K unit :=
  match l with
  | [] => ret tt
  | (mpidr, o) :: l =>
      do! modify (set_mpidr_el1 mpidr) in
      do! run_op o in
      run_sys l
  end.

Record sys_ready (ids : list Z) s : Prop := {
  sys_cpus : fdt_has_cpus (fdt_once s) ids;
  sys_len : length (private (tables_of (length ids) s)) = length ids;
  sys_lock : LSharedIrq ∉ held s;
  sys_borrow : borrowed s = ∅;
  sys_log : default 0 (log_max_level s) < level_num LTrace;
}.

(** The operations with the index of the core which runs each, or [None] if one
    of the cores is not in the device tree. *)
Definition with_index (ids : list Z) (l : list (Z * op)) : option (list (nat * op)) :=
  mapM (fun mo => c ← index_of (Z.land mo.1 MPIDR_AFFINITY_MASK) ids; Some (c, mo.2)) l.

Lemma with_index_cons ids mpidr o l cl :
  with_index ids ((mpidr, o) :: l) = Some cl ->
  exists c cl', index_of (Z.land mpidr MPIDR_AFFINITY_MASK) ids = Some c /\
    with_index ids l = Some cl' /\ cl = (c, o) :: cl'.
Proof.
  unfold with_index. simpl. destruct (index_of _ ids) as [c|]; [|done]. simpl.
  destruct (mapM _ l) as [cl'|] eqn:E; [|done]. simpl. intros [= <-]. eauto.
Qed.

Lemma sys_irq_ready ids s mpidr c :
  sys_ready ids s -> index_of (Z.land mpidr MPIDR_AFFINITY_MASK) ids = Some c ->
  irq_ready ids c (set_mpidr_el1 mpidr s).
Proof.
  intros [] Hc. split; simpl; try done. rewrite sys_borrow0. apply not_elem_of_empty.
Qed.

Lemma run_sys_steps ids s l cl s' :
  sys_ready ids s -> with_index ids l = Some cl -> run_sys l s = (Val tt, s') ->
  steps (tables_of (length ids) s) cl (tables_of (length ids) s').
Proof.
  revert s cl. induction l as [|[mpidr o] l IH]; intros s cl Hr Hcl Hrun; simpl in *.
  { injection Hrun as <-. injection Hcl as <-. constructor. }
  apply with_index_cons in Hcl as (c & cl' & Ec & Ecl & ->).
  pose proof (sys_irq_ready ids s mpidr c Hr Ec) as Hir.
  inv_bind Hrun as u s0 H0. injection H0 as <- <-. inv_bind Hrun as old s1 Ho.
  pose proof (op_refines ids c _ o Hir) as Href. unfold refines in Href.
  change (tables_of (length ids) (set_mpidr_el1 mpidr s)) with (tables_of (length ids) s) in Href.
  destruct (step c o (tables_of (length ids) s)) as [[old' t']|] eqn:Est.
  - destruct Href as (s1' & E1 & Ht1 & Hs1). rewrite E1 in Ho. injection Ho as -> ->.
    econstructor; [exact Est|]. rewrite <-Ht1. eapply IH; [|exact Ecl|exact Hrun].
    pose proof (step_length _ _ _ _ _ Est) as Hlen.
    destruct Hr. rewrite Hs1. split; simpl; try done.
    change (length (private (tables_of (length ids) s1)) = length ids).
    rewrite Ht1. by rewrite Hlen.
  - destruct Href as (msg & s1' & E1 & _). rewrite E1 in Ho. done.
Qed.

(** C21: from empty tables, whatever sequence of handler operations the cores
    of the board run, interleaved in any order, an interrupt never has both a
    shared handler and one private to core [c], provided shared handlers are
    only set from core [c] (as this kernel does, from the boot core). *)
Theorem irq_handlers_exclusive ids c s l cl s' :
  sys_ready ids s -> shared_irq s = ∅ -> private_irq s = None ->
  with_index ids l = Some cl ->
  (forall c' i h, (c', SetShared i h) ∈ cl -> c' = c) ->
  run_sys l s = (Val tt, s') ->
  exclusive c (tables_of (length ids) s').
Proof.
  intros Hr Hs Hp Hcl Hset Hrun. eapply steps_exclusive; [by eapply run_sys_steps|done|].
  unfold tables_of. rewrite Hs, Hp. apply exclusive_empty.
Qed.

(** What the cores do with other interrupts, or with their own private
    tables, cannot change which handler runs for interrupt [i] on core [c]. *)
Theorem irq_dispatch_isolated ids c i s l cl s' :
  sys_ready ids s -> with_index ids l = Some cl ->
  Forall (fun co => affects c i co = false) cl ->
  run_sys l s = (Val tt, s') ->
  dispatch c i (tables_of (length ids) s') = dispatch c i (tables_of (length ids) s).
Proof.
  intros Hr Hcl Hf Hrun. eapply steps_dispatch_frame; [by eapply run_sys_steps|done].
Qed.

(** C39: [set_shared_irq_handler] only checks the private table of the core it
    runs on.  If another core has a private handler for the interrupt, then the
    call succeeds and that core still runs its private handler, although the
    handler was set on all cores. *)
Theorem shared_handler_shadowed ids s m0 m1 c0 c1 i h0 h1 :
  sys_ready ids s -> shared_irq s = ∅ -> private_irq s = None ->
  index_of (Z.land m0 MPIDR_AFFINITY_MASK) ids = Some c0 ->
  index_of (Z.land m1 MPIDR_AFFINITY_MASK) ids = Some c1 -> c0 <> c1 ->
  exists s', run_sys [(m1, SetPrivate i h1); (m0, SetShared i h0)] s = (Val tt, s') /\
    dispatch c0 i (tables_of (length ids) s') = Some h0 /\
    dispatch c1 i (tables_of (length ids) s') = Some h1.
Proof.
  intros Hr Hs Hp H0 H1 Hne.
  assert (c0 < length ids /\ c1 < length ids)%nat as [Hb0 Hb1].
  { split; eapply lookup_lt_Some, index_of_lookup; eassumption. }
  pose proof (op_refines ids c1 _ (SetPrivate i h1) (sys_irq_ready _ _ _ _ Hr H1)) as R1.
  unfold refines, step, tables_of in R1. simpl in R1. rewrite Hs, Hp in R1. simpl in R1.
  rewrite lookup_replicate_2, decide_True in R1 by done. destruct R1 as (s1 & E1 & Ht1 & Hs1).
  assert (sys_ready ids s1) as Hr1.
  { destruct Hr. rewrite Hs1. split; simpl; try done.
    unfold tables_of. simpl. injection Ht1 as _ Hpr. rewrite Hpr.
    by rewrite length_insert, length_replicate. }
  pose proof (op_refines ids c0 _ (SetShared i h0) (sys_irq_ready _ _ _ _ Hr1 H0)) as R2.
  change (tables_of (length ids) (set_mpidr_el1 m0 s1)) with (tables_of (length ids) s1) in R2.
  unfold tables_of in R2. rewrite Ht1 in R2. unfold refines, step in R2. simpl in R2.
  rewrite list_lookup_insert_ne, lookup_replicate_2, decide_True in R2 by done.
  destruct R2 as (s2 & E2 & Ht2 & Hs2). exists s2. split; [|split].
  - unfold run_sys. run_step. erewrite bind_Val by exact E1. run_step.
    by erewrite bind_Val by exact E2.
  - rewrite Ht2. unfold dispatch. simpl.
    rewrite list_lookup_insert_ne, lookup_replicate_2 by done. simpl.
    by rewrite lookup_empty, lookup_insert_eq.
  - rewrite Ht2. unfold dispatch. simpl.
    rewrite list_lookup_insert_eq by (by rewrite length_replicate). simpl.
    by rewrite lookup_insert_eq.
Qed.
End refinement.

(** ** The GIC *)

Module Gic.
Section gic.
Context {P : PagingCrate} {Q : Surroundings} {B : BoardEnv} {I : EmbeddedIo machine} {C : CrateConsts}.
Implicit Types s : machine.

Definition set_interrupt_priority (intid : Z) (cpu : option Z) (priority : Z) : K (result unit) :=
  ask (fun h => env_gic_set_priority h intid cpu priority) (GicSetPriority intid cpu priority).
Definition set_trigger (intid : Z) (cpu : option Z) (trigger : Trigger) : K (result unit) :=
  ask (fun h => env_gic_set_trigger h intid cpu trigger) (GicSetTrigger intid cpu trigger).
Definition enable_interrupt (intid : Z) (cpu : option Z) (enable : bool) : K (result unit) :=
  ask (fun h => env_gic_enable_interrupt h intid cpu enable) (GicEnableInterrupt intid cpu enable).

(** [NonNull::new(address as _).unwrap()] *)
Definition non_null (address : Z) : K Z :=
  unwrap (if address =? 0 then None else Some address).

(** [None] if there is no GIC in the device tree. *)
Definition make_gic (fdt : Fdt) : K (option unit) :=
  let! cpus := unwrap_ok (fdt_cpus fdt) in
  let cpu_count := Z.of_nat (length cpus) in
  match head (fdt_find_compatible fdt "arm,gic-v3") with
  | None => ret None
  | Some node =>
      do! info ("Found GIC FDT node " +:+ node_name node) in
      let! reg := unwrap_ok (node_reg node) in
      let! reg := unwrap reg in
      let! gicd_region := expect "GICD region missing" (reg !! 0%nat) in
      let! gicr_region := expect "GICR region missing" (reg !! 1%nat) in
      do! info ("  GICD: " +:+ reg_debug gicd_region) in
      do! info ("  GICR: " +:+ reg_debug gicr_region) in
      let! gicr_region_size := unwrap_ok (reg_size gicr_region) in
      let! gicd_region_size := unwrap_ok (reg_size gicd_region) in
      do! info ("  GICR space for " +:+ fmt_dec (gicr_region_size / size_of_GicrSgi) +:+ " CPUs") in
      do! assert (gicd_region_size =? size_of_Gicd) "assertion `left == right` failed" in
      let! needed := checked_mul 64 size_of_GicrSgi cpu_count in
      do! assert (needed <=? gicr_region_size)
            "assertion failed: gicr_region_size >= size_of::<GicrSgi>() * cpu_count" in
      let! gicd_address := unwrap_ok (reg_address gicd_region) in
      let! gicd := non_null gicd_address in
      let! gicr_address := unwrap_ok (reg_address gicr_region) in
      let! gicr := non_null gicr_address in
      do! debug ("GICD: " +:+ fmt_hex gicd +:+ " GICR: " +:+ fmt_hex gicr +:+
                 " cpu_count " +:+ fmt_dec cpu_count) in
      do! tell (GicNew gicd gicr cpu_count) in
      ret (Some tt)
  end.

(** [init_irq_routing], then [GIC.call_once]. *)
Definition init_gic `{!Platform} (fdt : Fdt) : K unit :=
  do! init_irq_routing in
  let! set := gets gic_once in
  when (negb set)
    (let! gic := make_gic fdt in
     do! expect "No GIC found in FDT" gic in
     do! debug "gic.setup..." in
     do! tell (GicSetup 0) in
     do! debug "Platform GIC setup" in
     do! setup_gic in
     modify (set_gic_once true)).

(** [GIC.get().unwrap().lock()] around [m]. *)
Definition with_gic {A} (m : K A) : K A :=
  let! set := gets gic_once in
  do! unwrap (if set then Some tt else None) in
  with_lock LGic m.

Definition secondary_init_gic : K unit :=
  do! init_irq_routing in
  let! cpu := current_cpu_index in
  do! with_gic (tell (GicInitCpu (Z.of_nat cpu))) in
  do! tell (GicEnableGroup1 true) in
  tell (GicSetPriorityMask 0xff).
End gic.
End Gic.

(** What a GIC driver which was constructed relies on: redistributor space for
    every CPU of the device tree, and non-null register blocks. *)
Section gic_facts.
Context {P : PagingCrate} {B : BoardEnv} {I : EmbeddedIo machine} {L : EmbeddedIoLaws machine I}.
Context {C : CrateConsts}.
Implicit Types s : machine.

(** The regions of the GIC node of [fdt]. *)
Definition gic_regions (fdt : Fdt) : option (Reg * Reg) :=
  node ← head (fdt_find_compatible fdt "arm,gic-v3");
  match node_reg node with
  | Ok (Some (gicd :: gicr :: _)) => Some (gicd, gicr)
  | _ => None
  end.

(** C31: if [make_gic] returns a driver, then it was constructed for exactly the
    CPUs of the device tree, with the distributor and redistributor blocks of
    the first GICv3 node, which are not null, the distributor's region has
    exactly the size of the register block, and the redistributor's region has
    room for every CPU. *)
Theorem make_gic_covers_cpus fdt s s' :
  Gic.make_gic fdt s = (Val (Some tt), s') ->
  exists cpus gicd gicr gicd_addr gicr_addr gicr_size m h rest,
    fdt_cpus fdt = Ok cpus /\ gic_regions fdt = Some (gicd, gicr) /\
    reg_address gicd = Ok gicd_addr /\ reg_address gicr = Ok gicr_addr /\
    reg_size gicd = Ok size_of_Gicd /\ reg_size gicr = Ok gicr_size /\
    gicd_addr <> 0 /\ gicr_addr <> 0 /\
    size_of_GicrSgi * Z.of_nat (length cpus) <= gicr_size /\
    trace s' = mkEntry (GicNew gicd_addr gicr_addr (Z.of_nat (length cpus))) m h :: rest.
Proof.
  intros H. unfold Gic.make_gic in H. inv_step H as cpus. unfold gic_regions.
  destruct (head (fdt_find_compatible fdt "arm,gic-v3")) as [node|]; [|done].
  inv_step H. inv_step H as ro. inv_step H as reg. inv_step H as gicd. inv_step H as gicr.
  do 2 inv_step H. inv_step H as rsize. inv_step H as dsize. inv_step H. inv_step H. inv_step H.
  inv_step H. inv_step H as da. unfold Gic.non_null in H. inv_step H as gd. inv_step H as ra.
  inv_step H as gr. inv_step H. injection H as <-.
  destruct (Z.eqb_spec da 0); [done|]. destruct (Z.eqb_spec ra 0); [done|]. simplify_eq.
  destruct reg as [|? [|? reg]]; simplify_eq/=.
  match goal with E : (_ =? size_of_Gicd) = true |- _ => apply Z.eqb_eq in E as -> end.
  match goal with E : node_reg node = _ |- _ => rewrite E end.
  eexists cpus, gicd, gicr, gd, gr, rsize, _, _, _. repeat split; try done; lia.
Qed.
End gic_facts.

(** ** Witnesses *)

Section witnesses.
#[local] Existing Instance quiet.
Import Tables.

Lemma sim_sys_ready n : sys_ready [0; 1; 2; 3] (sim_core n).
Proof. split; [apply sim_core_cpus|done|apply not_elem_of_empty|done|done]. Qed.

Lemma sim_irq_ready n c :
  core_index (sim_core n) [0; 1; 2; 3] = Some c -> irq_ready [0; 1; 2; 3] c (sim_core n).
Proof.
  intros H. split; [apply sim_core_cpus|done|done|apply not_elem_of_empty| |done].
  apply not_elem_of_empty.
Qed.

Lemma irq_handler_ops_refine_witness :
  exists s', run_ops [SetShared 34 AlarmIrqHandle; RemoveShared 34] (sim_core 0) = (Val tt, s') /\
    tables_of 4 s' = mkTables (delete 34 (<[34 := AlarmIrqHandle]> ∅)) (replicate 4 ∅) /\
    same_but_tables (sim_core 0) s' /\ irq_ready [0; 1; 2; 3] 0 s'.
Proof.
  apply (irq_handler_ops_refine [0; 1; 2; 3] 0 (sim_core 0)
           [SetShared 34 AlarmIrqHandle; RemoveShared 34] (sim_irq_ready 0 0 eq_refl)).
  econstructor; [reflexivity|]. econstructor; [reflexivity|]. constructor.
Defined.

Lemma handle_irq_dispatches_witness :
  exists s', Irq.handle_irq (fun _ _ => ret tt) (sim_core 1) =
    (Panic ("Unexpected IRQ " +:+ intid_debug 33 +:+ " with no handler"), s').
Proof.
  apply (handle_irq_dispatches [0; 1; 2; 3] 1 (sim_core 1) 33 (fun _ _ => ret tt)
           (sim_irq_ready 1 1 eq_refl)).
  reflexivity.
Defined.

(** The same interrupt with a shared handler, which runs. *)
Lemma handle_irq_shared_example :
  (Irq.handle_irq (fun _ _ => tell IrqEnable)
     (set_shared_irq {[33 := ConsoleHandleIrq]} (sim_core 1))).1 = Val tt.
Proof. vm_compute. reflexivity. Qed.

Definition sim_run1 : machine :=
  (run_sys [(1, SetPrivate 3 SecondaryIrqHandler); (0, SetShared 34 AlarmIrqHandle)]
     (sim_core 0)).2.

Lemma irq_handlers_exclusive_witness : exclusive 0 (tables_of 4 sim_run1).
Proof.
  apply (irq_handlers_exclusive [0; 1; 2; 3] 0 (sim_core 0)
            [(1, SetPrivate 3 SecondaryIrqHandler); (0, SetShared 34 AlarmIrqHandle)]
            [(1%nat, SetPrivate 3 SecondaryIrqHandler); (0%nat, SetShared 34 AlarmIrqHandle)]).
  - apply sim_sys_ready.
  - reflexivity.
  - reflexivity.
  - reflexivity.
  - intros c' i h Hin. repeat (apply elem_of_cons in Hin as [Hin|Hin]; [by simplify_eq|]).
    by apply not_elem_of_nil in Hin.
  - unfold sim_run1. apply run_fst. vm_compute. reflexivity.
Defined.

Definition sim_run2 : machine :=
  (run_sys [(1, SetPrivate 3 SecondaryIrqHandler)] (sim_core 0)).2.

Lemma irq_dispatch_isolated_witness :
  dispatch 0 3 (tables_of 4 sim_run2) = dispatch 0 3 (tables_of 4 (sim_core 0)).
Proof.
  apply (irq_dispatch_isolated [0; 1; 2; 3] 0 3 (sim_core 0)
            [(1, SetPrivate 3 SecondaryIrqHandler)] [(1%nat, SetPrivate 3 SecondaryIrqHandler)]).
  - apply sim_sys_ready.
  - reflexivity.
  - by repeat constructor.
  - unfold sim_run2. apply run_fst. vm_compute. reflexivity.
Defined.

Lemma shared_handler_shadowed_witness :
  exists s', run_sys [(1, SetPrivate 3 SecondaryIrqHandler); (0, SetShared 3 AlarmIrqHandle)]
      (sim_core 0) = (Val tt, s') /\
    dispatch 0 3 (tables_of 4 s') = Some AlarmIrqHandle /\
    dispatch 1 3 (tables_of 4 s') = Some SecondaryIrqHandler.
Proof.
  apply (shared_handler_shadowed [0; 1; 2; 3] (sim_core 0) 0 1 0 1 3
           AlarmIrqHandle SecondaryIrqHandler (sim_sys_ready 0)
           eq_refl eq_refl eq_refl eq_refl).
  lia.
Defined.

Lemma make_gic_covers_cpus_witness :
  exists cpus gicd gicr gicd_addr gicr_addr gicr_size m h rest,
    fdt_cpus sim_fdt = Ok cpus /\ gic_regions sim_fdt = Some (gicd, gicr) /\
    reg_address gicd = Ok gicd_addr /\ reg_address gicr = Ok gicr_addr /\
    reg_size gicd = Ok size_of_Gicd /\ reg_size gicr = Ok gicr_size /\
    gicd_addr <> 0 /\ gicr_addr <> 0 /\
    size_of_GicrSgi * Z.of_nat (length cpus) <= gicr_size /\
    trace (Gic.make_gic sim_fdt (sim_core 0)).2 =
      mkEntry (GicNew gicd_addr gicr_addr (Z.of_nat (length cpus))) m h :: rest.
Proof.
  apply (make_gic_covers_cpus sim_fdt (sim_core 0)). apply run_fst. vm_compute. reflexivity.
Defined.
End witnesses.
