(* ===== verification/Pagetable.v ===== *)
(** * Pagetable: [pagetable.rs], the identity map

    [IdTranslation] are the callbacks by which [aarch64_paging] gets memory for
    tables; [IdMap] is the map itself, at EL1 or EL2.  A map is a value which the
    operations take and return ([&mut self]). *)

From S2P Require Import Prelude Text Extern Machine Sim Console Interrupts.

Definition ASID : Z := 0.
Definition ROOT_LEVEL : Z := 1.

Section attributes.
Context {P : PagingCrate}.

Definition EL1_DEVICE_ATTRIBUTES : Z :=
  Z.lor (Z.lor (Z.lor El1_VALID El1_ATTRIBUTE_INDEX_0) El1_ACCESSED) El1_UXN.
Definition EL1_MEMORY_ATTRIBUTES : Z :=
  Z.lor (Z.lor (Z.lor (Z.lor El1_VALID El1_ATTRIBUTE_INDEX_1) El1_INNER_SHAREABLE) El1_ACCESSED)
    El1_NON_GLOBAL.
Definition EL2_DEVICE_ATTRIBUTES : Z :=
  Z.lor (Z.lor (Z.lor El23_VALID El23_ATTRIBUTE_INDEX_0) El23_ACCESSED) El23_XN.
Definition EL2_MEMORY_ATTRIBUTES : Z :=
  Z.lor (Z.lor (Z.lor (Z.lor El23_VALID El23_ATTRIBUTE_INDEX_1) El23_INNER_SHAREABLE)
    El23_ACCESSED) El23_NON_GLOBAL.
End attributes.

(** ** [IdTranslation]: memory for page tables *)

Module IdTranslation.
Section id_translation.
Context {P : PagingCrate} {Q : Surroundings} {B : BoardEnv} {C : CrateConsts}.

Definition virtual_to_physical (va : Z) : Z := va.

(** The table's pointer and its physical address. *)
Definition allocate_table : K (Z * Z) :=
  let '(size, align) := layout_PageTable in
  let! r := ask (fun h => env_page_alloc h size align) (PageAlloc size align) in
  let! pointer := expect "Failed to allocate page for pagetable" r in
  do! tell (WriteBytes pointer 0 size) in
  ret (pointer, pointer).

Definition deallocate_table (page_table : Z) : K unit :=
  let '(size, align) := layout_PageTable in tell (PageDealloc page_table size align).

Definition physical_to_virtual (pa : Z) : K Z :=
  expect "Got physical address 0 for pagetable" (if pa =? 0 then None else Some pa).

(** [impl Translation for IdTranslation] *)
Definition translation : Translation machine :=
  mkTranslation allocate_table deallocate_table physical_to_virtual.
End id_translation.
End IdTranslation.

(** ** [IdMap] *)

Module IdMap.
Section idmap.
Context {P : PagingCrate} {Q : Surroundings} {B : BoardEnv} {C : CrateConsts}.

Definition new : K IdMap :=
  let! el := current_el in
  if el =? 2 then
    let! mapping := mapping_new_el2 IdTranslation.translation ROOT_LEVEL in ret (IdMapEl2 mapping)
  else
    let! mapping := mapping_new_el1 IdTranslation.translation ASID ROOT_LEVEL in ret (IdMapEl1 mapping).

Definition size (idmap : IdMap) : Z :=
  match idmap with
  | IdMapEl1 mapping => mapping_size mapping
  | IdMapEl2 mapping => mapping_size mapping
  end.

(** [mapping.map_range(range, pa, attributes, Constraints::empty())] *)
Definition map_range (mapping : Mapping) (range : MemoryRegion) (pa attributes : Z)
    : K (result unit * Mapping) :=
  mapping_map_range IdTranslation.translation mapping range pa attributes.

Definition map_memory (idmap : IdMap) (range : MemoryRegion) : K (result unit * IdMap) :=
  let pa := IdTranslation.virtual_to_physical (region_start range) in
  match idmap with
  | IdMapEl1 mapping =>
      let! '(r, mapping') := map_range mapping range pa EL1_MEMORY_ATTRIBUTES in
      ret (r, IdMapEl1 mapping')
  | IdMapEl2 mapping =>
      let! '(r, mapping') := map_range mapping range pa EL2_MEMORY_ATTRIBUTES in
      ret (r, IdMapEl2 mapping')
  end.

Definition map_device (idmap : IdMap) (range : MemoryRegion) : K (result unit * IdMap) :=
  let pa := IdTranslation.virtual_to_physical (region_start range) in
  match idmap with
  | IdMapEl1 mapping =>
      let! '(r, mapping') := map_range mapping range pa EL1_DEVICE_ATTRIBUTES in
      ret (r, IdMapEl1 mapping')
  | IdMapEl2 mapping =>
      let! '(r, mapping') := map_range mapping range pa EL2_DEVICE_ATTRIBUTES in
      ret (r, IdMapEl2 mapping')
  end.

(** [&self]: the map remembers that it is active. *)
Definition activate (idmap : IdMap) : K IdMap :=
  do! tell ActivateMapping in
  ret (match idmap with
       | IdMapEl1 mapping => IdMapEl1 (mapping_activate mapping)
       | IdMapEl2 mapping => IdMapEl2 (mapping_activate mapping)
       end).

Definition active (idmap : IdMap) : bool :=
  match idmap with
  | IdMapEl1 mapping => mapping_active mapping
  | IdMapEl2 mapping => mapping_active mapping
  end.

Definition activate_secondary (idmap : IdMap) : K IdMap :=
  do! assert (active idmap) "assertion failed: mapping.active()" in
  activate idmap.
End idmap.
End IdMap.

(** ** What the crate promises

    [walk m va] is the physical address and the attributes which [va] is mapped
    to. *)

Class PagingLaws `{P : PagingCrate} := {
  walk : Mapping -> Z -> option (Z * Z);
  walk_new_el1 {S} (t : Translation S) asid level s m s' :
    mapping_new_el1 t asid level s = (Val m, s') -> forall va, walk m va = None;
  walk_new_el2 {S} (t : Translation S) level s m s' :
    mapping_new_el2 t level s = (Val m, s') -> forall va, walk m va = None;
  walk_map_range {S} (t : Translation S) m r pa attrs s m' s' :
    mapping_map_range t m r pa attrs s = (Val (Ok tt, m'), s') ->
    forall va, walk m' va =
      if (region_start r <=? va) && (va <? region_end r)
      then Some (pa + (va - region_start r), attrs) else walk m va;
  size_map_range {S} (t : Translation S) m r pa attrs s o m' s' :
    mapping_map_range t m r pa attrs s = (Val (o, m'), s') -> mapping_size m' = mapping_size m;
  walk_activate m va : walk (mapping_activate m) va = walk m va;
  active_activate m : mapping_active (mapping_activate m) = true;
  (** [MemoryRegion::new] rounds outwards to whole pages *)
  region_new_start a b : region_start (region_new a b) <= a;
  region_new_end a b : b <= region_end (region_new a b);
}.

(** It has no effects but those of the callbacks. *)
Class PagingCalls `{P : PagingCrate} : Prop := {
  new_el1_calls {S} (t : Translation S) asid level :
    composed (is_callback t) Mapping (mapping_new_el1 t asid level);
  new_el2_calls {S} (t : Translation S) level :
    composed (is_callback t) Mapping (mapping_new_el2 t level);
  map_range_calls {S} (t : Translation S) m r pa attrs :
    composed (is_callback t) (result unit * Mapping) (mapping_map_range t m r pa attrs);
}.

(** The callbacks return, in the states [J], and the tables which they give are [good]. *)
Record serves {S} (t : Translation S) (J : S -> Prop) (good : Z -> Prop) : Prop := {
  serves_allocate s : J s ->
    exists p pa s', tr_allocate_table t s = (Val (p, pa), s') /\ J s' /\ good pa;
  serves_deallocate p s : J s -> exists s', tr_deallocate_table t p s = (Val tt, s') /\ J s';
  serves_translate pa s : good pa -> J s ->
    exists p s', tr_physical_to_virtual t pa s = (Val p, s') /\ J s';
}.

(** It succeeds, given tables, unless one of the errors applies which are documented: the
    region is backwards or exceeds the address space of the root table, the attributes are
    not supported, or the table is in use. *)
Class PagingSucceeds `{P : PagingCrate} := {
  (** the physical addresses of the tables of a mapping *)
  tables : Mapping -> list Z;
  (** the size of the address space, by the level of the root table *)
  root_size : Z -> Z;
  new_el1_succeeds {S} (t : Translation S) J good asid level s :
    serves t J good -> J s -> exists m s', mapping_new_el1 t asid level s = (Val m, s') /\ J s' /\
      Forall good (tables m) /\ mapping_active m = false /\ mapping_size m = root_size level;
  new_el2_succeeds {S} (t : Translation S) J good level s :
    serves t J good -> J s -> exists m s', mapping_new_el2 t level s = (Val m, s') /\ J s' /\
      Forall good (tables m) /\ mapping_active m = false /\ mapping_size m = root_size level;
  map_range_succeeds {S} (t : Translation S) J good m r pa attrs s :
    serves t J good -> J s -> Forall good (tables m) -> mapping_active m = false ->
    0 <= region_start r <= region_end r -> region_end r <= mapping_size m ->
    attrs ∈ [EL1_DEVICE_ATTRIBUTES; EL1_MEMORY_ATTRIBUTES;
             EL2_DEVICE_ATTRIBUTES; EL2_MEMORY_ATTRIBUTES] ->
    exists m' s', mapping_map_range t m r pa attrs s = (Val (Ok tt, m'), s') /\ J s' /\
      Forall good (tables m') /\ mapping_active m' = false /\ mapping_size m' = mapping_size m;
}.

Section facts.
Context {P : PagingCrate} {B : BoardEnv} {C : CrateConsts} {W : PagingLaws} {PC : PagingCalls}.
Implicit Types s : machine.

Definition idmap_walk (idmap : IdMap) (va : Z) : option (Z * Z) :=
  match idmap with IdMapEl1 m | IdMapEl2 m => walk m va end.

Definition device_attributes (idmap : IdMap) : Z :=
  match idmap with IdMapEl1 _ => EL1_DEVICE_ATTRIBUTES | IdMapEl2 _ => EL2_DEVICE_ATTRIBUTES end.
Definition memory_attributes (idmap : IdMap) : Z :=
  match idmap with IdMapEl1 _ => EL1_MEMORY_ATTRIBUTES | IdMapEl2 _ => EL2_MEMORY_ATTRIBUTES end.

(** Every address which is mapped is mapped to itself, as memory or as device. *)
Definition identity (idmap : IdMap) : Prop := forall va pa attrs,
  idmap_walk idmap va = Some (pa, attrs) ->
  pa = va /\ (attrs = device_attributes idmap \/ attrs = memory_attributes idmap).

Definition in_region (va : Z) (r : MemoryRegion) : bool :=
  (region_start r <=? va) && (va <? region_end r).

(** The exception level of a map. *)
Definition idmap_el2 (idmap : IdMap) : bool :=
  match idmap with IdMapEl1 _ => false | IdMapEl2 _ => true end.

Lemma callback_calls {A} (m : K A) :
  is_callback IdTranslation.translation A m -> stays calls_only m.
Proof.
  destruct 1; simpl; unfold IdTranslation.allocate_table, IdTranslation.deallocate_table,
    IdTranslation.physical_to_virtual, tell; try destruct layout_PageTable; stays.
Qed.

Lemma map_range_only m r pa attrs : stays calls_only (IdMap.map_range m r pa attrs).
Proof. eapply composed_stays; [apply _|apply @callback_calls|apply map_range_calls]. Qed.

(** What a successful mapping operation with attributes [attrs] does. *)
Definition maps_as (idmap idmap' : IdMap) (r : MemoryRegion) (attrs : Z) : Prop :=
  idmap_el2 idmap' = idmap_el2 idmap /\ IdMap.size idmap' = IdMap.size idmap /\
  forall va, idmap_walk idmap' va =
    if in_region va r then Some (va, attrs) else idmap_walk idmap va.

Lemma map_range_maps m r attrs s m' s' :
  IdMap.map_range m r (IdTranslation.virtual_to_physical (region_start r)) attrs s =
    (Val (Ok tt, m'), s') ->
  mapping_size m' = mapping_size m /\
  (forall va, walk m' va = if in_region va r then Some (va, attrs) else walk m va) /\
  calls_only s s'.
Proof.
  intros E. split; [by eapply size_map_range|].
  split; [|exact (stays_run _ _ _ _ _ (map_range_only _ _ _ _) E)].
  intros va. rewrite (walk_map_range _ _ _ _ _ _ _ _ E). unfold in_region, IdTranslation.virtual_to_physical.
  destruct (_ && _); [|done]. do 2 f_equal. lia.
Qed.

Lemma map_device_maps idmap r s idmap' s' :
  IdMap.map_device idmap r s = (Val (Ok tt, idmap'), s') ->
  maps_as idmap idmap' r (device_attributes idmap) /\ calls_only s s'.
Proof.
  intros H. destruct idmap as [m|m]; unfold IdMap.map_device in H;
    inv_step H as p; destruct p as [res m1]; injection H as -> <- <-;
    apply map_range_maps in Hrun as (Hs & Hw & Hc); by repeat split.
Qed.

Lemma map_memory_maps idmap r s idmap' s' :
  IdMap.map_memory idmap r s = (Val (Ok tt, idmap'), s') ->
  maps_as idmap idmap' r (memory_attributes idmap) /\ calls_only s s'.
Proof.
  intros H. destruct idmap as [m|m]; unfold IdMap.map_memory in H;
    inv_step H as p; destruct p as [res m1]; injection H as -> <- <-;
    apply map_range_maps in Hrun as (Hs & Hw & Hc); by repeat split.
Qed.

Lemma attributes_el2 i1 i2 :
  idmap_el2 i1 = idmap_el2 i2 ->
  device_attributes i1 = device_attributes i2 /\ memory_attributes i1 = memory_attributes i2.
Proof. by destruct i1, i2. Qed.

Lemma identity_maps_as idmap idmap' r attrs :
  attrs = device_attributes idmap \/ attrs = memory_attributes idmap ->
  maps_as idmap idmap' r attrs -> identity idmap -> identity idmap'.
Proof.
  intros Ha (He & _ & Hw) Hi va pa at' H. destruct (attributes_el2 _ _ He) as [-> ->].
  rewrite Hw in H. destruct (in_region va r).
  - by injection H as <- <-.
  - by apply (Hi va).
Qed.

(** ** Sequences of mappings *)

(** The kind of a mapping, with the operation which makes it. *)
Inductive kind := AsMemory | AsDevice.

Definition map_kind (k : kind) (idmap : IdMap) (r : MemoryRegion) : K (result unit * IdMap) :=
  match k with
  | AsMemory => IdMap.map_memory idmap r
  | AsDevice => IdMap.map_device idmap r
  end.

(** [idmap.map_kind(&region).unwrap()] for each region. *)
Definition map_all (idmap : IdMap) (l : list (kind * MemoryRegion)) : K IdMap :=
  fold_prog (fun idmap kr =>
    let! '(r, idmap') := map_kind kr.1 idmap kr.2 in
    do! unwrap_ok r in
    ret idmap') idmap l.

Definition kind_attributes (k : kind) (idmap : IdMap) : Z :=
  match k with AsMemory => memory_attributes idmap | AsDevice => device_attributes idmap end.

(** Abstract specification: the kind of the last region which contains [va]. *)
Fixpoint last_kind (l : list (kind * MemoryRegion)) (va : Z) : option kind :=
  match l with
  | [] => None
  | (k, r) :: l =>
      match last_kind l va with
      | Some k' => Some k'
      | None => if in_region va r then Some k else None
      end
  end.

Lemma map_kind_maps k idmap r s idmap' s' :
  map_kind k idmap r s = (Val (Ok tt, idmap'), s') ->
  maps_as idmap idmap' r (kind_attributes k idmap) /\ calls_only s s'.
Proof. destruct k; [apply map_memory_maps|apply map_device_maps]. Qed.

Lemma kind_attributes_el2 k i1 i2 :
  idmap_el2 i1 = idmap_el2 i2 -> kind_attributes k i1 = kind_attributes k i2.
Proof. intros H. destruct (attributes_el2 _ _ H). by destruct k. Qed.

Lemma map_all_cons_inv idmap k r l s idmap' s' :
  map_all idmap ((k, r) :: l) s = (Val idmap', s') ->
  exists idmap1 s1, maps_as idmap idmap1 r (kind_attributes k idmap) /\ calls_only s s1 /\
    map_all idmap1 l s1 = (Val idmap', s').
Proof.
  unfold map_all. simpl. intros H. inv_step H as i1. inv_step Hrun as p. destruct p as [res i2].
  inv_step Hrun. inv_prim Hrun. subst. destruct x.
  apply map_kind_maps in Hrun0 as [Hm Hc]. eauto.
Qed.

Lemma map_all_walk idmap l s idmap' s' :
  map_all idmap l s = (Val idmap', s') ->
  idmap_el2 idmap' = idmap_el2 idmap /\ calls_only s s' /\
  forall va, idmap_walk idmap' va =
    match last_kind l va with
    | Some k => Some (va, kind_attributes k idmap)
    | None => idmap_walk idmap va
    end.
Proof.
  revert idmap s. induction l as [|[k r] l IH]; intros idmap s H.
  { unfold map_all in H. simpl in H. inv_prim H. by repeat split. }
  apply map_all_cons_inv in H as (i1 & s1 & (He & _ & Hw) & Hc & H).
  apply IH in H as (He' & Hc' & Hw'). split; [congruence|]. split; [by etrans|].
  intros va. rewrite Hw', Hw. simpl. destruct (last_kind l va) as [k'|].
  - by rewrite (kind_attributes_el2 k' _ _ He).
  - by destruct (in_region va r).
Qed.

(** [idmap'] is [idmap] after the regions [l] were mapped, in this order. *)
Definition mapped_as (idmap : IdMap) (l : list (kind * MemoryRegion)) (idmap' : IdMap) : Prop :=
  idmap_el2 idmap' = idmap_el2 idmap /\ IdMap.size idmap' = IdMap.size idmap /\
  forall va, idmap_walk idmap' va =
    match last_kind l va with
    | Some k => Some (va, kind_attributes k idmap)
    | None => idmap_walk idmap va
    end.

Lemma mapped_as_nil idmap : mapped_as idmap [] idmap.
Proof. done. Qed.

Lemma last_kind_app l1 l2 va :
  last_kind (l1 ++ l2) va =
    match last_kind l2 va with Some k => Some k | None => last_kind l1 va end.
Proof.
  induction l1 as [|[k r] l1 IH]; simpl; [by destruct (last_kind l2 va)|].
  rewrite IH. by destruct (last_kind l2 va).
Qed.

Lemma mapped_as_app i1 l1 i2 l2 i3 :
  mapped_as i1 l1 i2 -> mapped_as i2 l2 i3 -> mapped_as i1 (l1 ++ l2) i3.
Proof.
  intros (E1 & S1 & W1) (E2 & S2 & W2). split; [congruence|]. split; [congruence|].
  intros va. rewrite W2, W1, last_kind_app. destruct (last_kind l2 va) as [k|]; [|done].
  by rewrite (kind_attributes_el2 k _ _ E1).
Qed.

Lemma new_walk s idmap s' va : IdMap.new s = (Val idmap, s') -> idmap_walk idmap va = None.
Proof.
  unfold IdMap.new, current_el. intros H. inv_step H as el.
  destruct (_ =? 2); inv_bind H as m s1 Hm; injection H as <- <-;
    [by eapply walk_new_el2|by eapply walk_new_el1].
Qed.

(** [idmap.map_kind(&region).unwrap()] *)
Lemma map_unwrap_mapped k idmap r s idmap' s' :
  (let! '(res, idmap') := map_kind k idmap r in do! unwrap_ok res in ret idmap') s =
    (Val idmap', s') ->
  mapped_as idmap [(k, r)] idmap' /\ calls_only s s'.
Proof.
  intros H. inv_bind H as p s1 Hm. destruct p as [res i]. inv_bind H as u s2 Hu. inv_prim Hu.
  inv_prim H. subst res. destruct u. apply map_kind_maps in Hm as [(He & Hs & Hw) Hc].
  split; [|done]. split; [done|]. split; [done|]. intros va. rewrite Hw. simpl.
  by destruct (in_region va r).
Qed.

(** C26: after any sequence of [map_memory] and [map_device] calls on a new map,
    an address is mapped exactly if one of the regions contains it, then to
    itself, with the attributes of the last such region: normal memory or device. *)
Theorem idmap_maps_last_kind s idmap s1 l idmap' s' va :
  IdMap.new s = (Val idmap, s1) -> map_all idmap l s1 = (Val idmap', s') ->
  idmap_walk idmap' va =
    match last_kind l va with
    | Some k => Some (va, kind_attributes k idmap')
    | None => None
    end.
Proof.
  intros Hn Hm. apply map_all_walk in Hm as (He & _ & ->).
  assert (idmap_walk idmap va = None) as ->.
  { by eapply new_walk. }
  destruct (last_kind l va) as [k|]; [|done]. by rewrite (kind_attributes_el2 k _ _ He).
Qed.

(** Mapping a range as memory or as device keeps the map an identity map
    (which is what makes [virtual_to_physical] and the secondary cores' use of
    physical addresses right), whatever was mapped before. *)
Lemma idmap_stays_identity k idmap r s idmap' s' :
  map_kind k idmap r s = (Val (Ok tt, idmap'), s') -> identity idmap -> identity idmap'.
Proof.
  intros [Hm _]%map_kind_maps. eapply identity_maps_as; [|exact Hm]. destruct k; auto.
Qed.

(** A table from [allocate_table] is at a virtual address equal to its
    physical one, has been zeroed over its whole size before it is used, and
    [physical_to_virtual] gives it back. *)
Theorem allocate_table_roundtrip s table pa s' :
  (forall h size align, env_page_alloc h size align <> Some 0) ->
  IdTranslation.allocate_table s = (Val (table, pa), s') ->
  IdTranslation.physical_to_virtual pa s' = (Val table, s') /\
  trace s' = [mkEntry (WriteBytes table 0 layout_PageTable.1) (masked s) (held s);
              mkEntry (PageAlloc layout_PageTable.1 layout_PageTable.2 (Some table))
                (masked s) (held s)] ++ trace s.
Proof.
  intros Hnn H. unfold IdTranslation.allocate_table in H.
  destruct layout_PageTable as [size align]. inv_step H as r. injection Hrun as <- <-.
  inv_step H as ptr. inv_step H. injection Hrun0 as <- <-. injection H as <- <- <-.
  specialize (Hnn (trace s) size align). rewrite Hrun in Hnn.
  unfold IdTranslation.physical_to_virtual.
  destruct (Z.eqb_spec ptr 0) as [->|]; [done|]. simpl. by rewrite Hrun.
Qed.

End facts.

(** ** The simulated page table satisfies the laws *)

Fixpoint sim_walk (l : list (Z * Z * Z * Z)) (va : Z) : option (Z * Z) :=
  match l with
  | [] => None
  | (start, stop, pa, attrs) :: l =>
      if (start <=? va) && (va <? stop) then Some (pa + (va - start), attrs) else sim_walk l va
  end.

Lemma sim_new_calls {S} (t : Translation S) level :
  composed (is_callback t) sim_mapping (sim_new_mapping t level).
Proof.
  apply composed_bind; [apply composed_base, callback_allocate|]. intros []. apply composed_ret.
Qed.

#[export] Instance sim_paging_calls : PagingCalls (P := sim_paging).
Proof.
  split; [intros; apply sim_new_calls..|]. intros S t m r pa attrs. simpl. unfold sim_map_range.
  destruct (_ <=? _); [|apply composed_ret].
  apply composed_bind; [apply composed_base, callback_translate|]. intros _.
  apply composed_bind; [apply composed_base, callback_allocate|]. intros []. apply composed_ret.
Qed.

#[export] Instance sim_paging_laws : PagingLaws (P := sim_paging).
Proof.
  refine {| walk (m : @Mapping sim_paging) va := sim_walk (sm_ranges m) va |}.
  - intros S t asid level s m s' H va. inv_bind H as p s1 Hp. destruct p. by injection H as <- <-.
  - intros S t level s m s' H va. inv_bind H as p s1 Hp. destruct p. by injection H as <- <-.
  - intros S t m r pa attrs s m' s'. simpl. unfold sim_map_range.
    destruct (_ <=? sm_size m); intros H va; [|done]. inv_bind H as v s1 Hv.
    inv_bind H as p s2 Hp. destruct p. by injection H as <- <-.
  - intros S t m r pa attrs s o m' s'. simpl. unfold sim_map_range.
    destruct (_ <=? sm_size m); intros H; [|by injection H as <- <- <-]. inv_bind H as v s1 Hv.
    inv_bind H as p s2 Hp. destruct p. by injection H as <- <- <-.
  - done.
  - done.
  - intros a b. simpl. unfold align_down. pose proof (Z.mod_pos_bound a 4096). lia.
  - intros a b. simpl. unfold align_up, align_down.
    pose proof (Z.mod_pos_bound (b + 4096 - 1) 4096). lia.
Defined.

Lemma sim_new_succeeds {S} (t : Translation S) J good level s :
  serves t J good -> J s -> exists m s', sim_new_mapping t level s = (Val m, s') /\ J s' /\
    Forall good (sm_root m :: sm_tables m) /\ sm_active m = false /\ sm_size m = 2 ^ (48 - 9 * level).
Proof.
  intros Ht Hs. destruct (serves_allocate _ _ _ Ht s Hs) as (p & pa & s' & E & Hs' & Hg).
  unfold sim_new_mapping. eexists _, s'. split; [by erewrite bind_Val by exact E|].
  simpl. by rewrite Forall_singleton.
Qed.

#[export] Instance sim_paging_succeeds : PagingSucceeds (P := sim_paging).
Proof.
  refine {| tables (m : @Mapping sim_paging) := sm_root m :: sm_tables m;
            root_size level := 2 ^ (48 - 9 * level) |}.
  - intros S t J good asid level s. apply sim_new_succeeds.
  - intros S t J good level s. apply sim_new_succeeds.
  - intros S t J good m r pa attrs s Ht Hs [Hr Hg]%Forall_cons Ha _ Hle _. simpl in *.
    unfold sim_map_range. rewrite (proj2 (Z.leb_le _ _) Hle).
    destruct (serves_translate _ _ _ Ht _ s Hr Hs) as (v & s1 & E1 & Hs1).
    destruct (serves_allocate _ _ _ Ht s1 Hs1) as (p & table & s2 & E2 & Hs2 & Hgt).
    eexists _, s2. split; [erewrite bind_Val by exact E1; by erewrite bind_Val by exact E2|].
    simpl. by rewrite !Forall_cons.
Defined.

(** ** Witnesses *)

Section witnesses.
#[local] Existing Instance quiet.

(** A map of 128 MiB of memory at 1 GiB and a UART, on the simulated board. *)
Definition sim_regions : list (kind * MemoryRegion) :=
  [(AsMemory, region_new 0x40000000 0x48000000); (AsDevice, region_new 0x9000000 0x9001000)].

Definition sim_idmap : IdMap := IdMapEl1 (mkSimMapping [] (2 ^ 39) false 0x40100000 []).
Definition sim_with_idmap : machine := (IdMap.new sim_running).2.

Definition sim_mapped : IdMap :=
  match (map_all sim_idmap sim_regions sim_with_idmap).1 with Val i => i | _ => sim_idmap end.

Lemma idmap_maps_last_kind_witness :
  idmap_walk sim_mapped 0x9000010 = Some (0x9000010, EL1_DEVICE_ATTRIBUTES).
Proof.
  apply (idmap_maps_last_kind sim_running sim_idmap sim_with_idmap sim_regions sim_mapped
           (map_all sim_idmap sim_regions sim_with_idmap).2 0x9000010).
  - reflexivity.
  - reflexivity.
Defined.

Definition sim_uart_map : IdMap :=
  match (map_kind AsDevice sim_idmap (region_new 0x9000000 0x9001000) sim_running).1 with
  | Val (_, i) => i | _ => sim_idmap end.

Lemma idmap_stays_identity_witness : identity sim_uart_map.
Proof.
  apply (idmap_stays_identity AsDevice sim_idmap (region_new 0x9000000 0x9001000) sim_running
           sim_uart_map
           (map_kind AsDevice sim_idmap (region_new 0x9000000 0x9001000) sim_running).2).
  - reflexivity.
  - intros va pa attrs H. discriminate H.
Defined.

Lemma allocate_table_roundtrip_witness :
  let s' := (IdTranslation.allocate_table sim_running).2 in
  IdTranslation.physical_to_virtual 0x40100000 s' = (Val 0x40100000, s') /\
  trace s' = [mkEntry (WriteBytes 0x40100000 0 4096) false ∅;
              mkEntry (PageAlloc 4096 4096 (Some 0x40100000)) false ∅].
Proof.
  refine (allocate_table_roundtrip sim_running 0x40100000 0x40100000
           (IdTranslation.allocate_table sim_running).2 _ _).
  - intros h size align [= H]. lia.
  - reflexivity.
Defined.
End witnesses.
