(* ===== verification/Platform.v ===== *)
(** * Platform: [platform/qemu.rs] and [platform/crosvm.rs]

    The two instances of the [Platform] trait, with the page table which is
    active before any Rust code runs and the set-up of the console interrupt. *)

From S2P Require Import Prelude Text Extern Machine Sim Console Cpus Interrupts Pagetable.

(** [PlatformImpl] is one of them, by the [platform] configuration of the build. *)
Module Qemu.
Section qemu.
Context {P : PagingCrate} {Q : Surroundings} {B : BoardEnv} {I : EmbeddedIo machine} {C : CrateConsts}.

Definition UART_BASE_ADDRESS : Z := 0x9000000.
Definition PL031_BASE_ADDRESS : Z := 0x9010000.
Definition CONSOLE_IRQ : Z := IntId_spi 1.
Definition RTC_IRQ : Z := IntId_spi 2.

(** [linker/qemu.ld] *)
Definition IMAGE_ORIGIN : Z := 0x40080000.
Definition IMAGE_LENGTH : Z := 2 * 2 ^ 20.

Definition initial_idmap : list Z :=
  let idmap := replicate 512 0 in
  let idmap := <[0%nat := EL1_DEVICE_ATTRIBUTES]> idmap in
  let idmap := <[1%nat := Z.lor EL1_MEMORY_ATTRIBUTES 0x40000000]> idmap in
  <[256%nat := Z.lor EL1_DEVICE_ATTRIBUTES 0x4000000000]> idmap.

Definition create : K (option PlatformParts) :=
  do! Gic.non_null UART_BASE_ADDRESS in
  do! tell (UartSetInterruptMasks UART_BASE_ADDRESS) in
  ret (Some (mkParts UART_BASE_ADDRESS PL031_BASE_ADDRESS)).

Definition setup_gic : K unit :=
  let! r := Gic.set_interrupt_priority CONSOLE_IRQ None 0x10 in
  do! unwrap_ok r in
  let! r := Gic.set_trigger CONSOLE_IRQ None Level in
  do! unwrap_ok r in
  let! r := Gic.enable_interrupt CONSOLE_IRQ None true in
  do! unwrap_ok r in
  let! _ := Irq.set_shared_irq_handler CONSOLE_IRQ ConsoleHandleIrq in
  ret tt.

Definition platform : Platform := {|
  Interrupts.RTC_IRQ := RTC_IRQ;
  Interrupts.CONSOLE_IRQ := CONSOLE_IRQ;
  Interrupts.create := create;
  Interrupts.setup_gic := setup_gic;
  Interrupts.initial_idmap := initial_idmap;
|}.
End qemu.
End Qemu.

Module Crosvm.
Section crosvm.
Context {P : PagingCrate} {Q : Surroundings} {B : BoardEnv} {I : EmbeddedIo machine} {C : CrateConsts}.

Definition UART_BASE_ADDRESS : Z := 0x03f8.
Definition PL030_BASE_ADDRESS : Z := 0x2000.
Definition CONSOLE_IRQ : Z := IntId_spi 0.
Definition RTC_IRQ : Z := IntId_spi 1.

(** [linker/crosvm.ld] *)
Definition IMAGE_ORIGIN : Z := 0x80200000.
Definition IMAGE_LENGTH : Z := 32 * 2 ^ 20.

Definition initial_idmap : list Z :=
  let idmap := replicate 512 0 in
  let idmap := <[0%nat := EL1_DEVICE_ATTRIBUTES]> idmap in
  let idmap := <[1%nat := Z.lor EL1_DEVICE_ATTRIBUTES 0x40000000]> idmap in
  <[2%nat := Z.lor EL1_MEMORY_ATTRIBUTES 0x80000000]> idmap.

Definition create : K (option PlatformParts) :=
  let! r := ask (fun h => env_uart_new_mmio h UART_BASE_ADDRESS) (UartNewMmio UART_BASE_ADDRESS) in
  do! unwrap_ok r in
  let! r := ask (fun h => env_uart_init h UART_BASE_ADDRESS) (UartInit UART_BASE_ADDRESS) in
  do! unwrap_ok r in
  ret (Some (mkParts UART_BASE_ADDRESS PL030_BASE_ADDRESS)).

Definition setup_gic : K unit :=
  let! r := Gic.set_interrupt_priority CONSOLE_IRQ None 0x10 in
  do! unwrap_ok r in
  let! r := Gic.set_trigger CONSOLE_IRQ None Edge in
  do! unwrap_ok r in
  let! r := Gic.enable_interrupt CONSOLE_IRQ None true in
  do! unwrap_ok r in
  let! _ := Irq.set_shared_irq_handler CONSOLE_IRQ ConsoleHandleIrq in
  ret tt.

Definition platform : Platform := {|
  Interrupts.RTC_IRQ := RTC_IRQ;
  Interrupts.CONSOLE_IRQ := CONSOLE_IRQ;
  Interrupts.create := create;
  Interrupts.setup_gic := setup_gic;
  Interrupts.initial_idmap := initial_idmap;
|}.
End crosvm.
End Crosvm.

(** ** The initial page table

    A block descriptor of the architecture: bits 30 to 47 are the address of the
    1 GiB block, the other bits are attributes. *)

Definition BLOCK_ADDRESS : Z := Z.shiftl (Z.ones 18) 30.

(** Documented encoding of the attributes: none of them is an address bit, and
    [VALID] is bit 0. *)
Class AttributeLayout `{P : PagingCrate} : Prop := {
  El1_VALID_bit : El1_VALID = 1;
  El1_attribute_bits :
    Z.land (Z.lor (Z.lor (Z.lor El1_ATTRIBUTE_INDEX_0 El1_ATTRIBUTE_INDEX_1)
              (Z.lor El1_INNER_SHAREABLE El1_ACCESSED))
            (Z.lor El1_NON_GLOBAL El1_UXN)) BLOCK_ADDRESS = 0;
}.

#[export] Instance sim_attribute_layout : AttributeLayout (P := sim_paging).
Proof. split; reflexivity. Qed.

(** What the hardware does with a virtual address below 512 GiB. *)
Definition initial_walk (idmap : list Z) (va : Z) : option (Z * Z) :=
  e ← idmap !! Z.to_nat (va / 2 ^ 30);
  if Z.testbit e 0 then Some (Z.land e BLOCK_ADDRESS + va mod 2 ^ 30, Z.ldiff e BLOCK_ADDRESS)
  else None.

Section layout.
Context {P : PagingCrate} {A : AttributeLayout}.

Lemma land_lor_zero a b m : Z.land (Z.lor a b) m = 0 <-> Z.land a m = 0 /\ Z.land b m = 0.
Proof. rewrite Z.land_lor_distr_l. apply Z.lor_eq_0_iff. Qed.

Lemma device_attribute_bits : Z.land EL1_DEVICE_ATTRIBUTES BLOCK_ADDRESS = 0.
Proof.
  pose proof El1_attribute_bits as H. rewrite !land_lor_zero in H.
  unfold EL1_DEVICE_ATTRIBUTES. rewrite !land_lor_zero, El1_VALID_bit. tauto.
Qed.

Lemma memory_attribute_bits : Z.land EL1_MEMORY_ATTRIBUTES BLOCK_ADDRESS = 0.
Proof.
  pose proof El1_attribute_bits as H. rewrite !land_lor_zero in H.
  unfold EL1_MEMORY_ATTRIBUTES. rewrite !land_lor_zero, El1_VALID_bit. tauto.
Qed.

(** Both attribute sets are valid descriptors. *)
Lemma device_valid e : Z.testbit (Z.lor EL1_DEVICE_ATTRIBUTES e) 0 = true.
Proof. unfold EL1_DEVICE_ATTRIBUTES. by rewrite !Z.lor_spec, El1_VALID_bit. Qed.
Lemma memory_valid e : Z.testbit (Z.lor EL1_MEMORY_ATTRIBUTES e) 0 = true.
Proof. unfold EL1_MEMORY_ATTRIBUTES. by rewrite !Z.lor_spec, El1_VALID_bit. Qed.

(** A descriptor of block [i] is decoded to the block's address and the
    attributes. *)
Lemma descriptor_decode attrs i :
  Z.land attrs BLOCK_ADDRESS = 0 -> 0 <= i < 2 ^ 18 ->
  Z.land (Z.lor attrs (i * 2 ^ 30)) BLOCK_ADDRESS = i * 2 ^ 30 /\
  Z.ldiff (Z.lor attrs (i * 2 ^ 30)) BLOCK_ADDRESS = attrs.
Proof.
  intros Ha Hi. rewrite <-(Z.shiftl_mul_pow2 i 30) by lia.
  assert (Z.land (Z.shiftl i 30) BLOCK_ADDRESS = Z.shiftl i 30) as Hb.
  { unfold BLOCK_ADDRESS. rewrite <-Z.shiftl_land, Z.land_ones by lia.
    by rewrite Z.mod_small by lia. }
  split.
  - by rewrite Z.land_lor_distr_l, Ha, Hb, Z.lor_0_l.
  - apply Z.bits_inj'. intros n Hn. rewrite Z.ldiff_spec, Z.lor_spec.
    apply (f_equal (fun x => Z.testbit x n)) in Ha, Hb.
    rewrite Z.land_spec in Ha, Hb. rewrite Z.bits_0 in Ha.
    by destruct (Z.testbit attrs n), (Z.testbit (Z.shiftl i 30) n), (Z.testbit BLOCK_ADDRESS n).
Qed.

(** The kinds of the blocks which a platform maps before it starts. *)
Definition kind_descriptor (k : kind) (i : Z) : Z :=
  Z.lor (match k with AsMemory => EL1_MEMORY_ATTRIBUTES | AsDevice => EL1_DEVICE_ATTRIBUTES end)
    (i * 2 ^ 30).

Definition descriptors (blocks : Z -> option kind) (idmap : list Z) : Prop :=
  forall i, (i < 512)%nat ->
    idmap !! i = Some (from_option (fun k => kind_descriptor k (Z.of_nat i)) 0
                         (blocks (Z.of_nat i))).

Lemma initial_walk_blocks blocks idmap va :
  descriptors blocks idmap -> 0 <= va < 2 ^ 39 ->
  initial_walk idmap va =
    match blocks (va / 2 ^ 30) with
    | Some AsMemory => Some (va, EL1_MEMORY_ATTRIBUTES)
    | Some AsDevice => Some (va, EL1_DEVICE_ATTRIBUTES)
    | None => None
    end.
Proof.
  intros Hd Hva. unfold initial_walk.
  assert (0 <= va / 2 ^ 30 < 512) as Hi.
  { split; [apply Z.div_pos; lia|]. apply Z.div_lt_upper_bound; lia. }
  rewrite (Hd (Z.to_nat (va / 2 ^ 30))) by lia. rewrite Z2Nat.id by lia. cbn [mbind option_bind].
  pose proof (Z.div_mod va (2 ^ 30) ltac:(lia)) as Hdm.
  destruct (blocks (va / 2 ^ 30)) as [k|]; [|done]. cbn [from_option].
  unfold kind_descriptor. destruct k.
  - destruct (descriptor_decode EL1_MEMORY_ATTRIBUTES (va / 2 ^ 30)) as [-> ->];
      [apply memory_attribute_bits|lia|]. rewrite memory_valid. do 2 f_equal. lia.
  - destruct (descriptor_decode EL1_DEVICE_ATTRIBUTES (va / 2 ^ 30)) as [-> ->];
      [apply device_attribute_bits|lia|]. rewrite device_valid. do 2 f_equal. lia.
Qed.

(** The memory maps of the two virtual machines. *)
Definition qemu_blocks (i : Z) : option kind :=
  if i =? 0 then Some AsDevice else if i =? 1 then Some AsMemory
  else if i =? 256 then Some AsDevice else None.

Definition crosvm_blocks (i : Z) : option kind :=
  if i =? 0 then Some AsDevice else if i =? 1 then Some AsDevice
  else if i =? 2 then Some AsMemory else None.

(** A table of three blocks. *)
Lemma three_descriptors i0 i1 i2 e0 e1 e2 blocks :
  (i0 < i1)%nat -> (i1 < i2)%nat -> (i2 < 512)%nat ->
  Forall (fun ie => exists k, blocks (Z.of_nat ie.1) = Some k /\
      ie.2 = kind_descriptor k (Z.of_nat ie.1)) [(i0, e0); (i1, e1); (i2, e2)] ->
  (forall i, i <> Z.of_nat i0 -> i <> Z.of_nat i1 -> i <> Z.of_nat i2 -> blocks i = None) ->
  descriptors blocks (<[i2 := e2]> (<[i1 := e1]> (<[i0 := e0]> (replicate 512 0)))).
Proof.
  intros H01 H12 H2 H Hn i Hi. rewrite !Forall_cons in H. cbn [fst snd] in H.
  destruct H as ((k0 & E0 & ->) & (k1 & E1 & ->) & (k2 & E2 & ->) & _).
  destruct (decide (i = i2)) as [->|]; [|destruct (decide (i = i1)) as [->|];
    [|destruct (decide (i = i0)) as [->|]]].
  - rewrite list_lookup_insert_eq by (rewrite !length_insert, length_replicate; lia).
    by rewrite E2.
  - rewrite list_lookup_insert_ne, list_lookup_insert_eq by
      (rewrite ?length_insert, ?length_replicate; lia).
    by rewrite E1.
  - rewrite !list_lookup_insert_ne, list_lookup_insert_eq by (rewrite ?length_replicate; lia).
    by rewrite E0.
  - rewrite !list_lookup_insert_ne, lookup_replicate_2, Hn by lia. done.
Qed.

Lemma qemu_descriptors : descriptors qemu_blocks Qemu.initial_idmap.
Proof.
  apply three_descriptors; [lia..| |].
  - repeat constructor; (eexists; split; [reflexivity|]); unfold kind_descriptor; simpl;
      by rewrite ?Z.lor_0_r.
  - intros i H0 H1 H2. unfold qemu_blocks. repeat (case_match; try lia). done.
Qed.

Lemma crosvm_descriptors : descriptors crosvm_blocks Crosvm.initial_idmap.
Proof.
  apply three_descriptors; [lia..| |].
  - repeat constructor; (eexists; split; [reflexivity|]); unfold kind_descriptor; simpl;
      by rewrite ?Z.lor_0_r.
  - intros i H0 H1 H2. unfold crosvm_blocks. repeat (case_match; try lia). done.
Qed.
End layout.

(** ** Properties *)

Section theorems.
Context {P : PagingCrate} {B : BoardEnv} {I : EmbeddedIo machine} {L : EmbeddedIoLaws machine I}.
Context {C : CrateConsts}.
Implicit Types s : machine.

(** What must hold of the table which is active when [main] starts: it is an
    identity map, the registers of the UART and of the clock are device memory,
    and the whole image is normal memory. *)
Definition covers_boot (idmap : list Z) (uart rtc origin len : Z) : Prop :=
  (forall va pa attrs, 0 <= va < 2 ^ 39 -> initial_walk idmap va = Some (pa, attrs) -> pa = va) /\
  initial_walk idmap uart = Some (uart, EL1_DEVICE_ATTRIBUTES) /\
  initial_walk idmap rtc = Some (rtc, EL1_DEVICE_ATTRIBUTES) /\
  forall va, origin <= va < origin + len ->
    initial_walk idmap va = Some (va, EL1_MEMORY_ATTRIBUTES).

Lemma blocks_cover_boot `{!AttributeLayout} blocks idmap uart rtc origin len i :
  descriptors blocks idmap -> 0 <= uart < 2 ^ 30 -> 0 <= rtc < 2 ^ 30 ->
  blocks 0 = Some AsDevice -> blocks i = Some AsMemory -> 0 <= i < 512 ->
  i * 2 ^ 30 <= origin -> origin + len <= (i + 1) * 2 ^ 30 ->
  covers_boot idmap uart rtc origin len.
Proof.
  intros Hd Hu Hr H0 Hi Hb Ho He. split; [|split; [|split]].
  - intros va pa attrs Hva. rewrite (initial_walk_blocks blocks) by done.
    destruct (blocks (va / 2 ^ 30)) as [[]|]; intros [=]; done.
  - rewrite (initial_walk_blocks blocks) by (done || lia). by rewrite Z.div_small, H0.
  - rewrite (initial_walk_blocks blocks) by (done || lia). by rewrite Z.div_small, H0.
  - intros va Hva. rewrite (initial_walk_blocks blocks) by (done || lia).
    assert (va / 2 ^ 30 = i) as ->.
    { symmetry. apply (Z.div_unique va (2 ^ 30) i (va - i * 2 ^ 30)); lia. }
    by rewrite Hi.
Qed.

(** C25: on both platforms the hard-coded initial page table is an identity map
    which maps the UART and the real-time clock as device memory and the whole
    image, as the linker script places it, as normal memory. *)
Theorem initial_idmap_covers_boot `{!AttributeLayout} :
  covers_boot Qemu.initial_idmap Qemu.UART_BASE_ADDRESS Qemu.PL031_BASE_ADDRESS
    Qemu.IMAGE_ORIGIN Qemu.IMAGE_LENGTH /\
  covers_boot Crosvm.initial_idmap Crosvm.UART_BASE_ADDRESS Crosvm.PL030_BASE_ADDRESS
    Crosvm.IMAGE_ORIGIN Crosvm.IMAGE_LENGTH.
Proof.
  split.
  - apply (blocks_cover_boot qemu_blocks) with (i := 1); try done. apply qemu_descriptors.
  - apply (blocks_cover_boot crosvm_blocks) with (i := 2); try done. apply crosvm_descriptors.
Qed.

(** The calls of a set-up of the console interrupt, newest first. *)
Definition setup_calls (irq : Z) (trigger : Trigger) s : history :=
  let at_s e := mkEntry e (masked s) (held s) in
  [at_s (GicEnableInterrupt irq None true (Ok tt));
   at_s (GicSetTrigger irq None trigger (Ok tt));
   at_s (GicSetPriority irq None 0x10 (Ok tt))].

(** The GIC driver accepts interrupt [irq]. *)
Definition gic_accepts (irq : Z) : Prop :=
  (forall h cpu p, env_gic_set_priority h irq cpu p = Ok tt) /\
  (forall h cpu t, env_gic_set_trigger h irq cpu t = Ok tt) /\
  (forall h cpu e, env_gic_enable_interrupt h irq cpu e = Ok tt).

Lemma console_setup_run irq trigger ids c s p :
  irq_ready ids c s -> gic_accepts irq ->
  Tables.private (tables_of (length ids) s) !! c = Some p -> p !! irq = None ->
  exists s',
    (let! r := Gic.set_interrupt_priority irq None 0x10 in
     do! unwrap_ok r in
     let! r := Gic.set_trigger irq None trigger in
     do! unwrap_ok r in
     let! r := Gic.enable_interrupt irq None true in
     do! unwrap_ok r in
     let! _ := Irq.set_shared_irq_handler irq ConsoleHandleIrq in
     ret tt) s = (Val tt, s') /\
    shared_irq s' = <[irq := ConsoleHandleIrq]> (shared_irq s) /\
    trace s' = setup_calls irq trigger s ++ trace s /\ held s' = held s.
Proof.
  intros Hr (Hp & Ht & He) Hpriv Hnone.
  unfold Gic.set_interrupt_priority, Gic.set_trigger, Gic.enable_interrupt, ask.
  do 2 (unfold bind at 1; rewrite ?Hp; simpl). do 2 (unfold bind at 1; rewrite ?Ht; simpl).
  do 2 (unfold bind at 1; rewrite ?He; simpl).
  set (s1 := set_trace _ _).
  assert (irq_ready ids c s1) as Hr1 by (destruct Hr; by split).
  pose proof (set_shared_refines ids c s1 irq ConsoleHandleIrq Hr1) as Href.
  unfold refines, Tables.step in Href. change (tables_of (length ids) s1) with
    (tables_of (length ids) s) in Href. rewrite Hpriv, decide_True in Href by done.
  destruct Href as (s' & E & Htab & Hsame). exists s'. unfold run_op in E.
  erewrite bind_Val by exact E. split; [done|]. split.
  - by apply (f_equal Tables.shared) in Htab.
  - by rewrite Hsame.
Qed.

(** C32: on both platforms [setup_gic] returns with the console's handler in the
    shared table and the rest of the table unchanged; the interrupt is enabled
    last, after its priority and its trigger are set. *)
Theorem setup_gic_installs_console ids c s p :
  irq_ready ids c s -> Tables.private (tables_of (length ids) s) !! c = Some p ->
  (gic_accepts Qemu.CONSOLE_IRQ -> p !! Qemu.CONSOLE_IRQ = None ->
   exists s', Qemu.setup_gic s = (Val tt, s') /\
     shared_irq s' = <[Qemu.CONSOLE_IRQ := ConsoleHandleIrq]> (shared_irq s) /\
     trace s' = setup_calls Qemu.CONSOLE_IRQ Level s ++ trace s) /\
  (gic_accepts Crosvm.CONSOLE_IRQ -> p !! Crosvm.CONSOLE_IRQ = None ->
   exists s', Crosvm.setup_gic s = (Val tt, s') /\
     shared_irq s' = <[Crosvm.CONSOLE_IRQ := ConsoleHandleIrq]> (shared_irq s) /\
     trace s' = setup_calls Crosvm.CONSOLE_IRQ Edge s ++ trace s).
Proof.
  intros Hr Hp. split; intros Ha Hn;
    [destruct (console_setup_run Qemu.CONSOLE_IRQ Level ids c s p) as (s' & E & Hs & Ht & _)
    |destruct (console_setup_run Crosvm.CONSOLE_IRQ Edge ids c s p) as (s' & E & Hs & Ht & _)];
    eauto.
Qed.
End theorems.

(** ** Witnesses *)

Section witnesses.
#[local] Existing Instance quiet.

Lemma initial_idmap_covers_boot_witness :
  covers_boot Qemu.initial_idmap 0x9000000 0x9010000 0x40080000 (2 * 2 ^ 20) /\
  covers_boot Crosvm.initial_idmap 0x3f8 0x2000 0x80200000 (32 * 2 ^ 20).
Proof. exact initial_idmap_covers_boot. Defined.

Lemma setup_gic_installs_console_witness :
  exists s', Qemu.setup_gic (sim_core 0) = (Val tt, s') /\
     shared_irq s' = <[33 := ConsoleHandleIrq]> ∅ /\
     trace s' = setup_calls 33 Level (sim_core 0).
Proof.
  refine (proj1 (setup_gic_installs_console [0; 1; 2; 3] 0 (sim_core 0) ∅ _ _) _ _).
  - by apply sim_irq_ready.
  - reflexivity.
  - by split; [|split].
  - apply lookup_empty.
Defined.
End witnesses.
