(* ===== verification/Alarm.v ===== *)
(** * Alarm: [apps/alarm.rs], the real-time clock's alarm

    The interrupt handler only records that the alarm fired; the interrupt is
    cleared and ended later, by [irq_finish], when the next alarm is set. *)

From S2P Require Import Prelude Text Extern Machine Sim Console Io Cpus Interrupts Pagetable.
From S2P Require Import Platform.

Module Alarm.
Section alarm.
Context {P : PagingCrate} {Q : Surroundings} {B : BoardEnv} {I : EmbeddedIo machine} {C : CrateConsts}.
Context {D : ConsoleDev} {PL : Platform}.

Definition irq_setup : K unit :=
  Gic.with_gic (
    let! _ := Irq.set_shared_irq_handler RTC_IRQ AlarmIrqHandle in
    let! r := Gic.set_interrupt_priority RTC_IRQ None 0x80 in
    do! unwrap_ok r in
    let! r := Gic.set_trigger RTC_IRQ None Level in
    do! unwrap_ok r in
    let! r := Gic.enable_interrupt RTC_IRQ None true in
    unwrap_ok r).

Definition irq_remove : K unit :=
  let! _ := Irq.remove_shared_irq_handler RTC_IRQ in ret tt.

Definition irq_handle (intid : Z) : K unit :=
  do! info "RTC alarm" in
  modify (set_alarm_fired true).

(** [ALARM_FIRED.swap(false)] *)
Definition irq_finish : K unit :=
  let! fired := gets alarm_fired in
  do! modify (set_alarm_fired false) in
  when fired
    (do! tell RtcClearInterrupt in
     do! end_interrupt RTC_IRQ in
     info "Alarm fired, clearing").

Definition rtc_get_time : K Z := ask env_rtc_get_time RtcGetTime.
Definition rtc_set_match (t : Z) : K (result unit) :=
  ask (fun h => env_rtc_set_match h t) (RtcSetMatch t).

Definition alarm (args : list string) : K unit :=
  do! irq_finish in
  match args with
  | [] =>
      do! writeln "Usage:" in
      writeln "  alarm <delay>"
  | delay :: _ =>
      match parse_signed 64 delay with
      | None => writeln "Invalid delay time"
      | Some delay =>
          let! timestamp := rtc_get_time in
          let! duration := expect "TimeDelta::seconds out of bounds" (duration_seconds delay) in
          let! alarm_time := expect "`DateTime + TimeDelta` overflowed"
                               (datetime_add timestamp duration) in
          let! r := rtc_set_match alarm_time in
          do! unwrap_ok r in
          do! tell (RtcEnableInterrupt true) in
          writeln ("Set alarm for " +:+ datetime_display alarm_time)
      end
  end.
End alarm.
End Alarm.

(** ** Views of the history *)

(** The calls which change the clock, newest first. *)
Fixpoint rtc_calls (h : history) : list event :=
  match h with
  | [] => []
  | e :: h =>
      match call e with
      | RtcSetMatch _ _ | RtcEnableInterrupt _ | RtcClearInterrupt => call e :: rtc_calls h
      | _ => rtc_calls h
      end
  end.

(** How often interrupt [irq] was ended. *)
Fixpoint ends (irq : Z) (h : history) : nat :=
  match h with
  | [] => 0
  | e :: h =>
      match call e with
      | GicEnd i => (if i =? irq then 1 else 0) + ends irq h
      | _ => ends irq h
      end
  end.

Lemma rtc_calls_ignores : ignores_console rtc_calls.
Proof. intros e h He. unfold is_console_call in He. simpl. by destruct (call e). Qed.

Lemma ends_ignores_uart irq : ignores_uart (ends irq).
Proof. intros e h (buf & r & He). simpl. by rewrite He. Qed.

Section facts.
Context {P : PagingCrate} {B : BoardEnv} {I : EmbeddedIo machine} {L : EmbeddedIoLaws machine I}.
Context {C : CrateConsts} {D : ConsoleDev} {CS : ConsoleSpec} {PL : Platform}.
Implicit Types s : machine.

(** [irq_finish] when no alarm fired does nothing. *)
Lemma irq_finish_idle s : alarm_fired s = false -> Alarm.irq_finish s = (Val tt, s).
Proof.
  intros Hf. unfold Alarm.irq_finish. do 2 run_step. rewrite Hf. cbn [when].
  unfold ret. f_equal. destruct s; simpl in *; by subst.
Qed.

(** *** Handling an interrupt and finishing it *)

Inductive alarm_op := Fire | Finish.

Definition run_alarm_op (o : alarm_op) : K unit :=
  match o with Fire => Alarm.irq_handle RTC_IRQ | Finish => Alarm.irq_finish end.

Definition run_alarm (l : list alarm_op) : K unit := for_each run_alarm_op l.

(** While the interrupt is active it is not delivered again: between two firings
    it was finished. *)
Fixpoint alternating (active : bool) (l : list alarm_op) : Prop :=
  match l with
  | [] => True
  | Fire :: l => active = false /\ alternating true l
  | Finish :: l => alternating false l
  end.

Definition fired_count (s : machine) : nat := if alarm_fired s then 1 else 0.

Fixpoint firings (l : list alarm_op) : nat :=
  match l with [] => 0 | Fire :: l => S (firings l) | Finish :: l => firings l end.

Lemma irq_handle_inv i s u s' :
  Alarm.irq_handle i s = (Val u, s') ->
  alarm_fired s' = true /\ ends RTC_IRQ (trace s') = ends RTC_IRQ (trace s).
Proof.
  unfold Alarm.irq_handle. intros H. inv_step H. injection H as _ <-. split; [done|].
  exact (uart_calls_ignored _ _ _ (ends_ignores_uart _) Hrun).
Qed.

Lemma irq_finish_inv s u s' :
  Alarm.irq_finish s = (Val u, s') ->
  alarm_fired s' = false /\
  ends RTC_IRQ (trace s') = (fired_count s + ends RTC_IRQ (trace s))%nat.
Proof.
  unfold Alarm.irq_finish, fired_count. intros H. inv_step H.
  inv_bind H as v s1 Hm. injection Hm as _ <-. destruct (alarm_fired s); simpl in H.
  - inv_bind H as v1 s1 Hm. injection Hm as _ <-. inv_bind H as v2 s2 Hm. injection Hm as _ <-.
    inv_prim H. rewrite (uart_calls_ignored _ _ _ (ends_ignores_uart _) H).
    destruct H as (evs & -> & _). split; [done|]. simpl. by rewrite Z.eqb_refl.
  - by inv_prim H.
Qed.

(** C20: every alarm interrupt is ended exactly once: after any sequence of
    firings and [irq_finish] calls in which a firing is finished before the next,
    as many interrupts have been ended as were handled, but for the last one if it
    is still to be finished. *)
Theorem alarm_ended_exactly_once l s u s' :
  run_alarm l s = (Val u, s') -> alternating (alarm_fired s) l ->
  (fired_count s' + ends RTC_IRQ (trace s') =
     firings l + fired_count s + ends RTC_IRQ (trace s))%nat.
Proof.
  unfold run_alarm. revert s. induction l as [|o l IH]; intros s H Hal; simpl in H.
  { by inv_prim H. }
  inv_bind H as v s1 H1. destruct o; simpl in *.
  - destruct Hal as [Hf Hal]. apply irq_handle_inv in H1 as [Hf1 He1].
    rewrite (IH s1 H) by (by rewrite Hf1). unfold fired_count. rewrite Hf, Hf1, He1. lia.
  - apply irq_finish_inv in H1 as [Hf1 He1].
    rewrite (IH s1 H) by (by rewrite Hf1). rewrite He1. unfold fired_count at 1. rewrite Hf1. lia.
Qed.

(** *** The command *)

End facts.

(** ** Witnesses *)

Section witnesses.
#[local] Instance sim_dev : ConsoleDev := sim_console [].
#[local] Instance sim_dev_spec : ConsoleSpec := sim_console_spec [].
#[local] Instance sim_qemu : Platform := Qemu.platform (B := sim_typed []).

(** The alarm fires twice, and is finished in between. *)
Definition sim_alarms : list alarm_op := [Fire; Finish; Finish; Fire].

Lemma alarm_ended_exactly_once_witness :
  let s' := (run_alarm (B := sim_typed []) sim_alarms sim_machine).2 in
  (fired_count s' + ends 34 (trace s') = 2)%nat.
Proof.
  refine (alarm_ended_exactly_once (B := sim_typed []) sim_alarms sim_machine tt
           (run_alarm (B := sim_typed []) sim_alarms sim_machine).2 _ _).
  - apply run_fst. reflexivity.
  - by repeat split.
Defined.

End witnesses.
