(* ===== verification/Secondary.v ===== *)
(** * Secondary: [secondary_entry.rs] and [apps/cpus.rs], starting other cores

    A core is started with a stack of its own, which is allocated when the core
    is started for the first time and never freed, and then runs
    [secondary_main]. *)

From S2P Require Import Prelude Text Extern Machine Sim Console Io Cpus Interrupts Pagetable.

Module SecondaryEntry.
Section secondary_entry.
Context {P : PagingCrate} {Q : Surroundings} {B : BoardEnv} {I : EmbeddedIo machine} {C : CrateConsts}.

Definition SECONDARY_STACK_PAGE_COUNT : Z := 4.

(** [Box::new(Stack::new())]: a failed allocation aborts. *)
Definition new_stack : K Z :=
  let '(size, align) := layout_Stack SECONDARY_STACK_PAGE_COUNT in
  let! r := ask (fun h => env_heap_alloc h size align) (HeapAlloc size align) in
  expect "memory allocation failed" r.

(** [SECONDARY_STACKS.lock().entry(mpidr).or_default().ptr()] *)
Definition get_secondary_stack (mpidr : Z) : K Z :=
  with_lock LStacks (
    let! stacks := gets secondary_stacks in
    match stacks !! mpidr with
    | Some stack => ret stack
    | None =>
        let! stack := new_stack in
        do! modify (set_secondary_stacks (<[mpidr := stack]> stacks)) in
        ret stack
    end).

(** [arg] is what the closure [entry] captures. *)
Definition start_core_with_stack (mpidr arg : Z) : K (result unit) :=
  let! stack := get_secondary_stack mpidr in
  let! smc := Power.smc_for_psci in
  ask (fun h => env_start_core h (Power.conduit smc) mpidr stack arg)
    (StartCore (Power.conduit smc) mpidr stack arg).

Definition secondary_init : K unit :=
  let! pagetable := gets pagetable_once in
  let! idmap := unwrap pagetable in
  let! idmap := IdMap.activate_secondary idmap in
  do! modify (set_pagetable_once (Some idmap)) in
  do! debug "Page table activated on secondary CPU." in
  Gic.secondary_init_gic.
End secondary_entry.
End SecondaryEntry.

Module CpusApp.
Section cpus_app.
Context {P : PagingCrate} {Q : Surroundings} {B : BoardEnv} {I : EmbeddedIo machine} {C : CrateConsts}.
Context {D : ConsoleDev}.

Definition affinity_info (c : Conduit) (id : Z) (level : LowestAffinityLevel)
    : K (result AffinityState) :=
  ask (fun h => env_psci_affinity_info h c id level) (PsciAffinityInfo c id level).

Definition start_cpu_usage : K unit :=
  do! writeln "Usage:" in
  writeln "  start_cpu <cpu_index> <arg>".

Definition start_cpu (fdt : Fdt) (args : list string) : K unit :=
  match args with
  | [] => start_cpu_usage
  | cpu_index :: args =>
      match parse_unsigned 64 cpu_index with
      | None => writeln "Invalid cpu_index"
      | Some cpu_index =>
          match args with
          | [] => start_cpu_usage
          | arg :: _ =>
              match parse_unsigned 64 arg with
              | None => writeln "Invalid arg"
              | Some arg =>
                  let! cpus := unwrap_ok (fdt_cpus fdt) in
                  match cpus !! Z.to_nat cpu_index with
                  | None => writeln "cpu_index out of bounds"
                  | Some cpu =>
                      let! id := cpu_id cpu in
                      do! writeln ("CPU " +:+ fmt_dec cpu_index +:+ ": ID " +:+ fmt_hex_012 id) in
                      let! smc := Power.smc_for_psci in
                      let! state := affinity_info (Power.conduit smc) id AffAll in
                      let! state := unwrap_ok state in
                      if decide (state = AffOff) then
                        let! result := SecondaryEntry.start_core_with_stack id arg in
                        writeln (" => " +:+ match result with
                                            | Ok _ => "Ok(())"
                                            | Err e => "Err(" +:+ e +:+ ")"
                                            end)
                      else writeln (" already " +:+ affinity_debug state)
                  end
              end
          end
      end
  end.

(** [0..IntId::SGI_COUNT] *)
Definition sgis : list Z := seqZ 0 SGI_COUNT.

Definition enable_sgi (cpu i : Z) : K unit :=
  let! r := Gic.enable_interrupt (IntId_sgi i) (Some cpu) true in
  do! unwrap_ok r in
  let! r := Gic.set_interrupt_priority (IntId_sgi i) (Some cpu) 0x80 in
  unwrap_ok r.

Definition psci_cpu_off (c : Conduit) : K (result unit) :=
  ask (fun h => env_psci_cpu_off h c) (PsciCpuOff c).

(** The parts of [secondary_entry]: until interrupts are enabled, the wait, and
    the way back. *)
Definition install_sgi_handlers : K unit :=
  for_each (fun sgi =>
    let! _ := Irq.set_private_irq_handler (IntId_sgi sgi) SecondaryIrqHandler in ret tt) sgis.

Definition prepare_core (cpu : nat) (arg : Z) : K unit :=
  do! info ("Secondary CPU " +:+ fmt_dec (Z.of_nat cpu) +:+ " started with arg " +:+ fmt_dec arg) in
  do! Gic.with_gic (for_each (enable_sgi (Z.of_nat cpu)) sgis) in
  do! install_sgi_handlers in
  irq_enable.

Definition wait_core : K unit :=
  do! info "Waiting for interrupt..." in
  do! wfi in
  info "Finished waiting".

Definition remove_sgi_handlers : K unit :=
  for_each (fun sgi =>
    let! _ := Irq.remove_private_irq_handler (IntId_sgi sgi) in ret tt) sgis.

Definition stop_core {A} : K A :=
  let! smc := Power.smc_for_psci in
  let! r := psci_cpu_off (Power.conduit smc) in
  do! unwrap_ok r in
  do! error "PSCI_CPU_OFF returned unexpectedly" in
  hang SpinLoop.

Definition secondary_entry {A} (arg : Z) : K A :=
  let! cpu := current_cpu_index in
  do! prepare_core cpu arg in
  do! wait_core in
  do! remove_sgi_handlers in
  stop_core.

(** What a started core runs: the closure given to [start_core]. *)
Definition secondary_main {A} (arg : Z) : K A :=
  do! SecondaryEntry.secondary_init in
  secondary_entry arg.

Definition secondary_irq_handler (intid : Z) : K unit :=
  Logger.log_with LInfo
    (let! cpu := current_cpu_index in
     ret ("Secondary CPU " +:+ fmt_dec (Z.of_nat cpu) +:+ " IRQ handler " +:+ intid_debug intid)).

Definition psci_version (c : Conduit) : K (result string) :=
  ask (fun h => env_psci_version h c) (PsciVersion c).

(** [mpidr.contains(flag)] *)
Definition contains (bits flag : Z) : bool := Z.land bits flag =? flag.

Definition bool_display (b : bool) : string := if b then "true" else "false".

Definition unwrapped_affinity (c : Conduit) (id : Z) (level : LowestAffinityLevel)
    : K AffinityState :=
  let! r := affinity_info c id level in unwrap_ok r.

Definition list_cpu (c : Conduit) (cpu : nat * FdtCpu) : K unit :=
  let! id := cpu_id cpu.2 in
  do! writeln ("CPU " +:+ fmt_dec (Z.of_nat cpu.1) +:+ ": ID " +:+ fmt_hex_012 id) in
  let! a := unwrapped_affinity c id AffAll in
  let! a0 := unwrapped_affinity c id Aff0Ignored in
  let! a1 := unwrapped_affinity c id Aff0Aff1Ignored in
  let! a2 := unwrapped_affinity c id Aff0Aff1Aff2Ignored in
  writeln ("  affinity state " +:+ affinity_debug a +:+ " " +:+ affinity_debug a0 +:+ " "
           +:+ affinity_debug a1 +:+ " " +:+ affinity_debug a2).

Definition cpus (fdt : Fdt) : K unit :=
  let! smc := Power.smc_for_psci in
  let c := Power.conduit smc in
  let! version := psci_version c in
  let! version := unwrap_ok version in
  do! writeln ("PSCI version " +:+ version) in
  let! mpidr := gets mpidr_el1 in
  let current_cpu := Z.land mpidr MPIDR_AFFINITY_MASK in
  do! writeln ("MPIDR " +:+ fmt_hex_012 mpidr +:+ ": uniprocessor "
               +:+ bool_display (contains mpidr MPIDR_U) +:+ ", multithreading "
               +:+ bool_display (contains mpidr MPIDR_MT)) in
  let! a := unwrapped_affinity c current_cpu AffAll in
  do! writeln ("Current CPU " +:+ fmt_hex_012 current_cpu +:+ " affinity state "
               +:+ affinity_debug a) in
  let! nodes := unwrap_ok (fdt_cpus fdt) in
  for_each (list_cpu c) (zip (seq 0 (length nodes)) nodes).

Definition send_sgi (intid : Z) : K (result unit) :=
  ask (fun h => env_gic_send_sgi h intid) (GicSendSgi intid).

Definition sgi (args : list string) : K unit :=
  match args with
  | [] =>
      do! writeln "Usage:" in
      writeln "  sgi <id>"
  | id :: _ =>
      match parse_unsigned 32 id with
      | None => writeln "Invalid id"
      | Some id =>
          if SGI_COUNT <=? id then
            writeln ("Invalid SGI, must be less than " +:+ fmt_dec SGI_COUNT)
          else
            let intid := IntId_sgi id in
            do! writeln ("Sending " +:+ intid_debug intid +:+ " to all CPUs") in
            let! r := send_sgi intid in
            unwrap_ok r
      end
  end.
End cpus_app.
End CpusApp.

(** ** Stacks of the secondary cores *)

(** The contract of [GlobalAlloc]: a new block does not overlap a live one. *)
Class HeapFresh `{B : BoardEnv} : Prop := heap_fresh h size align p :
  0 < size -> 0 < align -> env_heap_alloc h size align = Some p ->
  forall q n, (q, n) ∈ heap_live h -> q + n <= p \/ p + size <= q.

Section stacks.
Context {P : PagingCrate} {B : BoardEnv} {I : EmbeddedIo machine} {C : CrateConsts}.
Implicit Types s : machine.
Import SecondaryEntry.

Definition stack_size : Z := (layout_Stack SECONDARY_STACK_PAGE_COUNT).1.
Definition stack_align : Z := (layout_Stack SECONDARY_STACK_PAGE_COUNT).2.

(** A call of other code: it starts no core and frees no stack. *)
Definition other_call s (e : entry) : Prop :=
  match call e with
  | StartCore _ _ _ _ _ => False
  | HeapDealloc p _ _ => forall m, secondary_stacks s !! m <> Some p
  | _ => True
  end.

(** The states which starting cores, interleaved with other code, reaches. *)
Inductive reach : machine -> Prop :=
| reach_init s :
    secondary_stacks s = ∅ -> Forall (other_call s) (trace s) -> reach s
| reach_start s mpidr arg r s' :
    reach s -> start_core_with_stack mpidr arg s = (Val r, s') -> reach s'
| reach_other s s' evs :
    reach s -> secondary_stacks s' = secondary_stacks s -> trace s' = evs ++ trace s ->
    Forall (other_call s) evs -> reach s'.

(** Every recorded stack is live, no two cores share one, and every core was
    started with the stack which is recorded for it. *)
Record stacks_inv s : Prop := mkStacksInv {
  inv_live m p : secondary_stacks s !! m = Some p -> (p, stack_size) ∈ heap_live (trace s);
  inv_inj m1 m2 p :
    secondary_stacks s !! m1 = Some p -> secondary_stacks s !! m2 = Some p -> m1 = m2;
  inv_started e c m p a r :
    e ∈ trace s -> call e = StartCore c m p a r -> secondary_stacks s !! m = Some p;
}.

Lemma heap_live_other s e h p n :
  other_call s e -> (exists m, secondary_stacks s !! m = Some p) -> (p, n) ∈ heap_live h ->
  (p, n) ∈ heap_live (e :: h).
Proof.
  unfold other_call. intros Ho [m Hm] Hl. simpl. destruct (call e); try done.
  - destruct r; [by apply list_elem_of_further|done].
  - apply list_elem_of_In, filter_In. split; [by apply list_elem_of_In|].
    simpl. destruct (Z.eqb_spec p ptr) as [->|]; [by destruct (Ho m)|done].
Qed.

Lemma heap_live_others s evs h p n :
  Forall (other_call s) evs -> (exists m, secondary_stacks s !! m = Some p) ->
  (p, n) ∈ heap_live h -> (p, n) ∈ heap_live (evs ++ h).
Proof. intros Hf Hm Hl. induction Hf; [done|]. by eapply heap_live_other. Qed.

Lemma stacks_inv_other s s' evs :
  stacks_inv s -> secondary_stacks s' = secondary_stacks s -> trace s' = evs ++ trace s ->
  Forall (other_call s) evs -> stacks_inv s'.
Proof.
  intros [Hl Hi Hs] Es Et Hf. split; rewrite Es.
  - intros m p Hm. rewrite Et. eapply heap_live_others; eauto.
  - done.
  - intros e c m p a r He Hc. rewrite Et in He. apply elem_of_app in He as [He|He].
    + rewrite Forall_forall in Hf. specialize (Hf e He). unfold other_call in Hf.
      by rewrite Hc in Hf.
    + by eapply Hs.
Qed.

Lemma new_stack_inv s p s' :
  new_stack s = (Val p, s') ->
  env_heap_alloc (trace s) stack_size stack_align = Some p /\
  s' = set_trace (mkEntry (HeapAlloc stack_size stack_align (Some p)) (masked s) (held s)
                  :: trace s) s.
Proof.
  unfold new_stack, stack_size, stack_align. destruct (layout_Stack _) as [size align].
  intros H. inv_bind H as r s1 Hr. injection Hr as <- <-. inv_prim H. by rewrite H.
Qed.

(** The stack which is returned is recorded, and is the old one if there was one. *)
Lemma get_stack_inv `{HF : !HeapFresh} mpidr s p s' :
  0 < stack_size -> 0 < stack_align -> stacks_inv s ->
  get_secondary_stack mpidr s = (Val p, s') ->
  stacks_inv s' /\ secondary_stacks s' !! mpidr = Some p /\ fdt_once s' = fdt_once s.
Proof.
  intros Hsz Hal Hinv H. apply with_lock_inv in H as (_ & s1 & H & ->).
  inv_step H. simpl in H. destruct (secondary_stacks s !! mpidr) as [q|] eqn:Em.
  { injection H as <- <-. split; [|done]. by apply (stacks_inv_other s _ []). }
  inv_bind H as q s2 Hq. apply new_stack_inv in Hq as [Ha ->].
  inv_bind H as u s3 Hm. injection Hm as _ <-. injection H as <- <-. simpl in *.
  destruct Hinv as [Hl Hi Hs]. split; [|by rewrite lookup_insert_eq].
  assert (forall m, secondary_stacks s !! m <> Some q) as Hnew.
  { intros m Hm. pose proof (heap_fresh _ _ _ _ Hsz Hal Ha _ _ (Hl m q Hm)). lia. }
  split; simpl.
  - intros m p. rewrite lookup_insert_Some. intros [[<- <-]|[_ Hm]]; [by left|].
    right. by apply (Hl m).
  - intros m1 m2 p. rewrite !lookup_insert_Some. naive_solver.
  - intros e c m p a r [->|He]%elem_of_cons Hc; [done|].
    rewrite lookup_insert_ne; [by eapply Hs|]. intros <-. specialize (Hs _ _ _ _ _ _ He Hc).
    congruence.
Qed.

Lemma start_core_inv `{HF : !HeapFresh} mpidr arg s r s' :
  0 < stack_size -> 0 < stack_align -> stacks_inv s ->
  start_core_with_stack mpidr arg s = (Val r, s') -> stacks_inv s'.
Proof.
  intros Hsz Hal Hinv H. unfold start_core_with_stack in H. inv_bind H as p s1 Hp.
  destruct (get_stack_inv _ _ _ _ Hsz Hal Hinv Hp) as ([Hl Hi Hs] & Hm & _).
  inv_bind H as smc s2 Hsmc. injection Hsmc as _ <-. injection H as _ <-. split; simpl.
  - intros m q Hq. by apply (Hl m).
  - done.
  - intros e c m q a r' [->|He]%elem_of_cons Hc; [|by eapply Hs]. simpl in Hc. congruence.
Qed.

Lemma reach_inv `{HF : !HeapFresh} s :
  0 < stack_size -> 0 < stack_align -> reach s -> stacks_inv s.
Proof.
  intros Hsz Hal. induction 1 as [s Hs Ht|s m a r s' _ IH H|s s' evs _ IH Es Et Hf].
  - split; rewrite Hs.
    + intros m p Hm. by rewrite lookup_empty in Hm.
    + intros m1 m2 p Hm. by rewrite lookup_empty in Hm.
    + intros e c m p a r He Hc. rewrite Forall_forall in Ht. specialize (Ht e He).
      unfold other_call in Ht. by rewrite Hc in Ht.
  - by eapply start_core_inv.
  - by eapply stacks_inv_other.
Qed.

(** C9: in every reachable state, two calls which started a core used the same
    stack exactly if they were for the same core, and the stack of every core which
    was ever started is still allocated: what the safety comments of
    [start_core_with_stack] promise. *)
Theorem stacks_unique_and_kept `{HF : !HeapFresh} s e1 e2 c1 c2 m1 m2 p1 p2 a1 a2 r1 r2 :
  0 < stack_size -> 0 < stack_align -> reach s ->
  e1 ∈ trace s -> call e1 = StartCore c1 m1 p1 a1 r1 ->
  e2 ∈ trace s -> call e2 = StartCore c2 m2 p2 a2 r2 ->
  (p1 = p2 <-> m1 = m2) /\ (p1, stack_size) ∈ heap_live (trace s).
Proof.
  intros Hsz Hal Hr He1 Hc1 He2 Hc2. destruct (reach_inv s Hsz Hal Hr) as [Hl Hi Hs].
  specialize (Hs _ _ _ _ _ _ He1 Hc1) as H1. specialize (Hs _ _ _ _ _ _ He2 Hc2) as H2.
  split; [|by apply (Hl m1)]. split; [|congruence]. intros ->. by apply (Hi m1 m2 p2).
Qed.
End stacks.

(** ** The commands *)

(** The cores which were started, newest first, with their argument. *)
Fixpoint core_starts (h : history) : list (Z * Z) :=
  match h with
  | [] => []
  | e :: h =>
      match call e with
      | StartCore _ mpidr _ arg _ => (mpidr, arg) :: core_starts h
      | _ => core_starts h
      end
  end.

Fixpoint sgis_sent (h : history) : list Z :=
  match h with
  | [] => []
  | e :: h =>
      match call e with
      | GicSendSgi intid _ => intid :: sgis_sent h
      | _ => sgis_sent h
      end
  end.

Lemma core_starts_ignores : ignores_console core_starts.
Proof. intros e h He. unfold is_console_call in He. simpl. by destruct (call e). Qed.
Lemma sgis_sent_ignores : ignores_console sgis_sent.
Proof. intros e h He. unfold is_console_call in He. simpl. by destruct (call e). Qed.

Section commands.
Context {P : PagingCrate} {B : BoardEnv} {I : EmbeddedIo machine} {L : EmbeddedIoLaws machine I}.
Context {C : CrateConsts} {D : ConsoleDev} {CS : ConsoleSpec}.
Implicit Types s : machine.

(** What the arguments of [start_cpu] ask for: a CPU of [ids] and an argument. *)
Definition start_request (ids : list Z) (args : list string) : option (Z * Z) :=
  match args with
  | cpu_index :: arg :: _ =>
      i ← parse_unsigned 64 cpu_index;
      a ← parse_unsigned 64 arg;
      id ← ids !! Z.to_nat i;
      Some (id, a)
  | _ => None
  end.

(** A message leaves such views of the history alone. *)
Lemma writeln_view {X} (f : history -> X) text s :
  ignores_console f -> con_ok s ->
  exists s', writeln text s = (Val tt, s') /\ f (trace s') = f (trace s) /\
    console_calls s s' /\ con_ok s'.
Proof.
  intros Hf Hok. destruct (writeln_spec text s Hok) as (s' & E & Ha & Hc). exists s'.
  split; [done|]. split; [by apply console_calls_ignored|]. split; [done|].
  by eapply app_step_ok.
Qed.

Lemma start_core_run id arg s :
  LStacks ∉ held s ->
  is_Some (env_heap_alloc (trace s) stack_size stack_align) ->
  exists r s', SecondaryEntry.start_core_with_stack id arg s = (Val r, s') /\
    core_starts (trace s') = (id, arg) :: core_starts (trace s) /\ held s' = held s.
Proof.
  intros Hl [p Hp].
  assert (exists q s1, SecondaryEntry.get_secondary_stack id s = (Val q, s1) /\
    core_starts (trace s1) = core_starts (trace s) /\ held s1 = held s) as (q & s1 & Eq & Hc & Hh).
  { unfold SecondaryEntry.get_secondary_stack, SecondaryEntry.new_stack.
    unfold stack_size, stack_align in Hp. destruct (layout_Stack _) as [size align].
    destruct (secondary_stacks s !! id) as [q|] eqn:Es.
    - exists q, (set_held (held s) (set_held ({[LStacks]} ∪ held s) s)). split; [|done].
      apply with_lock_run; [done| |done]. run_step. simpl. by rewrite Es.
    - eexists p, _. split; [apply with_lock_run; [done| |]|].
      + run_step. simpl. rewrite Es. rewrite bind_bind. unfold ask at 1. erewrite bind_Val by reflexivity. simpl in *.
        rewrite Hp. run_step. run_step. reflexivity.
      + reflexivity.
      + done. }
  unfold SecondaryEntry.start_core_with_stack. erewrite bind_Val by exact Eq.
  unfold Power.smc_for_psci. run_step. eexists _, _. split; [reflexivity|].
  split; [|done]. simpl. by rewrite Hc.
Qed.

Lemma cpu_lookup ids cpus i :
  mapM first_id cpus = Some ids ->
  match cpus !! i, ids !! i with
  | Some cpu, Some id => first_id cpu = Some id
  | None, None => True
  | _, _ => False
  end.
Proof.
  intros Hm. apply mapM_Some_1 in Hm. destruct (cpus !! i) as [cpu|] eqn:Ec.
  - destruct (Forall2_lookup_l _ _ _ _ _ Hm Ec) as (id & -> & Hid). done.
  - destruct (ids !! i) as [id|] eqn:Ei; [|done].
    destruct (Forall2_lookup_r _ _ _ _ _ Hm Ei) as (cpu & Hcpu & _). congruence.
Qed.
(** The part of [start_cpu] after its arguments were checked. *)
Lemma start_known_cpu_run st cpu id i arg s :
  con_ok s -> LStacks ∉ held s -> first_id cpu = Some id ->
  (forall h c id' level, env_psci_affinity_info h c id' level = Ok (st id')) ->
  (forall h, is_Some (env_heap_alloc h stack_size stack_align)) ->
  exists s',
    (let! id := cpu_id cpu in
     do! writeln ("CPU " +:+ fmt_dec i +:+ ": ID " +:+ fmt_hex_012 id) in
     let! smc := Power.smc_for_psci in
     let! state := CpusApp.affinity_info (Power.conduit smc) id AffAll in
     let! state := unwrap_ok state in
     if decide (state = AffOff) then
       let! result := SecondaryEntry.start_core_with_stack id arg in
       writeln (" => " +:+ match result with
                           | Ok _ => "Ok(())"
                           | Err e => "Err(" +:+ e +:+ ")"
                           end)
     else writeln (" already " +:+ affinity_debug state)) s = (Val tt, s') /\
    core_starts (trace s') =
      (if decide (st id = AffOff) then [(id, arg)] else []) ++ core_starts (trace s).
Proof.
  intros Hok Hl Hid Hst Hheap. erewrite bind_Val by (by apply cpu_id_run).
  destruct (writeln_view core_starts ("CPU " +:+ fmt_dec i +:+ ": ID " +:+ fmt_hex_012 id) s
    core_starts_ignores Hok) as (s1 & E1 & V1 & C1 & Hok1).
  assert (held s1 = held s) as Hh1 by (by destruct C1 as (evs & -> & _)).
  erewrite bind_Val by exact E1. unfold Power.smc_for_psci. run_step.
  unfold CpusApp.affinity_info, ask. erewrite bind_Val by reflexivity. rewrite Hst. run_step.
  set (s2 := set_trace _ s1).
  assert (con_ok s2) as Hok2 by (by apply (con_ok_held s1)).
  case_decide as Hd.
  - destruct (start_core_run id arg s2) as (r & s3 & E3 & V3 & Hh3).
    { simpl. by rewrite Hh1. } { apply Hheap. }
    destruct (writeln_view core_starts (" => " +:+ match r with
      | Ok _ => "Ok(())" | Err e => "Err(" +:+ e +:+ ")" end) s3 core_starts_ignores)
      as (s4 & E4 & V4 & _); [by apply (con_ok_held s2)|].
    exists s4. erewrite bind_Val by exact E3. split; [done|]. rewrite V4, V3. simpl.
    by rewrite V1.
  - destruct (writeln_view core_starts (" already " +:+ affinity_debug (st id)) s2
      core_starts_ignores Hok2) as (s3 & E3 & V3 & _).
    exists s3. split; [done|]. rewrite V3. simpl. by rewrite V1.
Qed.


(** [sgi <id>] with an identifier below the number of software-generated
    interrupts sends exactly that interrupt; any other argument sends none. *)
Theorem sgi_sends_requested args s :
  con_ok s -> (forall h i, env_gic_send_sgi h i = Ok tt) ->
  exists s', CpusApp.sgi args s = (Val tt, s') /\
    sgis_sent (trace s') =
      match args with
      | id :: _ =>
          match parse_unsigned 32 id with
          | Some n => if n <? SGI_COUNT then [IntId_sgi n] else []
          | None => []
          end
      | [] => []
      end ++ sgis_sent (trace s).
Proof.
  intros Hok Hsend.
  assert (forall text, exists s', writeln text s = (Val tt, s') /\
    sgis_sent (trace s') = sgis_sent (trace s) /\ con_ok s') as Hmsg.
  { intros text. destruct (writeln_view sgis_sent text s sgis_sent_ignores Hok) as (s' & H).
    exists s'. naive_solver. }
  unfold CpusApp.sgi. destruct args as [|id rest].
  { destruct (Hmsg "Usage:") as (s1 & E1 & V1 & Hok1).
    destruct (writeln_view sgis_sent "  sgi <id>" s1 sgis_sent_ignores Hok1) as (s2 & E2 & V2 & _).
    exists s2. erewrite bind_Val by exact E1. split; [done|]. simpl. congruence. }
  destruct (parse_unsigned 32 id) as [n|].
  2: { destruct (Hmsg "Invalid id") as (s1 & E1 & V1 & _). eauto. }
  destruct (Z.leb_spec SGI_COUNT n), (Z.ltb_spec n SGI_COUNT); try lia.
  { edestruct Hmsg as (s1 & E1 & V1 & _). eauto. }
  destruct (Hmsg ("Sending " +:+ intid_debug (IntId_sgi n) +:+ " to all CPUs"))
    as (s1 & E1 & V1 & _).
  erewrite bind_Val by exact E1. unfold CpusApp.send_sgi, ask. erewrite bind_Val by reflexivity.
  rewrite Hsend. eexists. split; [reflexivity|]. simpl. by rewrite V1.
Qed.
End commands.

(** ** Witnesses *)

#[export] Instance sim_heap_fresh cfg : HeapFresh (B := sim_env cfg).
Proof.
  intros h size align p Hsz Hal [= <-] q n Hin. left.
  assert (forall l, (q, n) ∈ l ->
    q + n <= foldr (fun b top => Z.max (b.1 + b.2) top) 0x40200000 l) as Htop.
  { induction l as [|b l IH]; [by intros ?%elem_of_nil|].
    intros [<-|?]%elem_of_cons; cbn [foldr fst snd]; [lia|specialize (IH ltac:(done)); lia]. }
  specialize (Htop _ Hin). set (top := foldr _ _ _) in *.
  unfold align_up, align_down. pose proof (Z.mod_pos_bound (top + align - 1) align Hal). lia.
Qed.

Section witnesses.
#[local] Instance sim_board : BoardEnv := sim_typed [].
#[local] Instance sim_dev : ConsoleDev := sim_console [].
#[local] Instance sim_dev_spec : ConsoleSpec := sim_console_spec [].

Definition sim_started1 : machine :=
  (SecondaryEntry.start_core_with_stack 2 5 (sim_core 0)).2.
Definition sim_started : machine := (SecondaryEntry.start_core_with_stack 3 7 sim_started1).2.

Lemma sim_started_reach : reach sim_started.
Proof.
  apply (reach_start sim_started1 3 7 (Ok tt)).
  - apply (reach_start (sim_core 0) 2 5 (Ok tt)).
    + by apply reach_init.
    + exact (run_fst (SecondaryEntry.start_core_with_stack 2 5) (sim_core 0) (Val (Ok tt)) eq_refl).
  - exact (run_fst (SecondaryEntry.start_core_with_stack 3 7) sim_started1 (Val (Ok tt)) eq_refl).
Qed.

Lemma stacks_unique_and_kept_witness :
  (0x40200000 = 0x40204000 <-> 2 = 3) /\ (0x40200000, stack_size) ∈ heap_live (trace sim_started).
Proof.
  eapply (stacks_unique_and_kept sim_started).
  - reflexivity.
  - reflexivity.
  - exact sim_started_reach.
  - apply list_elem_of_further, list_elem_of_further, list_elem_of_here.
  - reflexivity.
  - apply list_elem_of_here.
  - reflexivity.
Defined.


Lemma sgi_sends_requested_witness :
  exists s', CpusApp.sgi ["15"] (sim_core 0) = (Val tt, s') /\ sgis_sent (trace s') = [15].
Proof.
  refine (sgi_sends_requested ["15"] (sim_core 0) _ _).
  - apply not_elem_of_empty.
  - reflexivity.
Defined.
End witnesses.
