(* ===== verification/Pci.v ===== *)
(** * Pci: [pci.rs], finding PCI roots and allocating BARs

    Ranges of the device tree are decoded, trimmed to the page table and turned
    into three pools of addresses, from which every memory BAR of every function
    of the root gets a naturally aligned block. *)

From S2P Require Import Prelude Text Extern Machine Sim Console Pagetable.

Definition PCI_COMPATIBLE : string := "pci-host-cam-generic".
Definition PCIE_COMPATIBLE : string := "pci-host-ecam-generic".

Definition U32_MAX : Z := 2 ^ 32 - 1.

(** ** Flags of a range *)

Inductive PciRangeType := ConfigurationSpace | IoSpace | Memory32 | Memory64.

#[export] Instance PciRangeType_eq_dec : EqDecision PciRangeType.
Proof. solve_decision. Defined.

(** [impl From<u32> for PciRangeType]; [None] is the panic. *)
Definition range_type_from (value : Z) : option PciRangeType :=
  if value =? 0 then Some ConfigurationSpace
  else if value =? 1 then Some IoSpace
  else if value =? 2 then Some Memory32
  else if value =? 3 then Some Memory64
  else None.

(** [PciMemoryFlags(pub u32)] *)
Module PciMemoryFlags.
Definition relocatable (flags : Z) : bool := Z.land flags 0x80000000 =? 0.
Definition prefetchable (flags : Z) : bool := negb (Z.land flags 0x40000000 =? 0).

Definition range_type {S} (flags : Z) : prog S PciRangeType :=
  let value := Z.shiftr (Z.land flags 0x03000000) 24 in
  expect ("Tried to convert invalid range type " +:+ fmt_dec value) (range_type_from value).

(** The type which [range_type] returns: it never panics (below). *)
Definition flags_type (flags : Z) : PciRangeType :=
  default ConfigurationSpace (range_type_from (Z.shiftr (Z.land flags 0x03000000) 24)).

Definition debug (t : PciRangeType) : string :=
  match t with
  | ConfigurationSpace => "ConfigurationSpace" | IoSpace => "IoSpace"
  | Memory32 => "Memory32" | Memory64 => "Memory64"
  end.

Definition display (f : Z) : string :=
  fmt_hex f +:+ " (" +:+ (if prefetchable f then "prefetchable" else "non-prefetchable")
  +:+ " " +:+ debug (flags_type f) +:+ ")".
End PciMemoryFlags.

(** [matches!(.., PciRangeType::Memory32 | PciRangeType::Memory64)] *)
Definition is_memory (t : PciRangeType) : bool :=
  match t with Memory32 | Memory64 => true | _ => false end.

(** ** Ranges *)

Module PciRange.
Record t := mk {
  cpu_physical : Z;
  bus_address : Z;
  size : Z;
  flags : Z;
}.

Definition display (r : t) : string :=
  "PCI range CPU physical " +:+ fmt_hex (cpu_physical r) +:+ ", bus_address "
  +:+ fmt_hex (bus_address r) +:+ ", size " +:+ fmt_hex (size r) +:+ ", flags "
  +:+ PciMemoryFlags.display (flags r).

Section range.
Context {P : PagingCrate}.

(** [impl From<Range> for PciRange]: [as usize] and [as u32] truncate. *)
Definition from (range : Range) : K t :=
  let! child := unwrap_ok (range_child_bus_address range) in
  let! parent := unwrap_ok (range_parent_bus_address range) in
  let! length := unwrap_ok (range_length range) in
  ret (mk parent (child mod 2 ^ 64) length ((Z.shiftr child 64) mod 2 ^ 32)).

Definition memory_region (r : t) : K MemoryRegion :=
  let! stop := checked_add 64 (cpu_physical r) (size r) in
  ret (region_new (cpu_physical r) stop).
End range.
End PciRange.

(** ** PCI roots *)

Inductive Cam := MmioCam | Ecam.

Definition cam_size `{C : CrateConsts} (c : Cam) : Z :=
  match c with MmioCam => cam_mmio_size | Ecam => cam_ecam_size end.

Module PciRootInfo.
Import PciRange PciMemoryFlags.

Record t := mkInfo {
  cam : Cam;
  mmio_base : Z;
  ranges : list PciRange.t;
}.

Section roots.
Context {P : PagingCrate} {Q : Surroundings} {B : BoardEnv} {I : EmbeddedIo machine} {C : CrateConsts}.

(** One iteration over the ranges of the node; [acc] is [ranges]. *)
Definition add_range (bar_range_limit : Z) (acc : list PciRange.t) (range : Range)
    : K (list PciRange.t) :=
  let! range := PciRange.from range in
  do! info ("PCI range " +:+ PciRange.display range) in
  let! t := range_type (flags range) in
  if is_memory t then
    if bar_range_limit <=? cpu_physical range then
      do! warn ("Ignoring range outside page table size (" +:+ fmt_hex (cpu_physical range)
                +:+ " >= " +:+ fmt_hex bar_range_limit +:+ ").") in
      ret acc
    else
      ret (acc ++ [PciRange.mk (cpu_physical range) (bus_address range)
                     (Z.min (size range) (bar_range_limit - cpu_physical range)) (flags range)])
  else ret (acc ++ [range]).

Definition for_fdt_node (pci_node : FdtNode) (cam : Cam) (bar_range_limit : Z) : K t :=
  let! reg := unwrap_ok (node_reg pci_node) in
  let! reg := unwrap reg in
  let! region := unwrap (head reg) in
  let! address := unwrap_ok (reg_address region) in
  let! size := unwrap_ok (reg_size region) in
  do! Logger.log_with LInfo
        (let! stop := checked_add 64 address size in
         ret ("Reg: " +:+ fmt_hex address +:+ "-" +:+ fmt_hex stop)) in
  do! assert (size =? cam_size cam) "assertion `left == right` failed" in
  let! node_ranges := unwrap_ok (node_ranges pci_node) in
  let! node_ranges := unwrap node_ranges in
  let! ranges := fold_prog (add_range bar_range_limit) [] node_ranges in
  ret (mkInfo cam address ranges).

(** Maps the memory ranges as device memory. *)
Definition map_ranges (self : t) (idmap : IdMap) : K IdMap :=
  fold_prog (fun idmap range =>
    let! t := range_type (flags range) in
    if is_memory t then
      let! region := memory_region range in
      do! info ("Mappping " +:+ region_display region) in
      let! '(r, idmap') := IdMap.map_device idmap region in
      do! unwrap_ok r in
      ret idmap'
    else ret idmap) idmap (ranges self).
End roots.
End PciRootInfo.

Section find_roots.
Context {P : PagingCrate} {Q : Surroundings} {B : BoardEnv} {I : EmbeddedIo machine} {C : CrateConsts}.

Definition find_roots_of (fdt : Fdt) (compatible label : string) (cam : Cam) (limit : Z)
    (acc : list PciRootInfo.t) : K (list PciRootInfo.t) :=
  fold_prog (fun acc node =>
    do! info (label +:+ " node: " +:+ node_name node) in
    let! root := PciRootInfo.for_fdt_node node cam limit in
    ret (acc ++ [root])) acc (fdt_find_compatible fdt compatible).

Definition find_pci_roots (fdt : Fdt) (bar_range_limit : Z) : K (list PciRootInfo.t) :=
  let! pci_roots := find_roots_of fdt PCI_COMPATIBLE "PCI" MmioCam bar_range_limit [] in
  find_roots_of fdt PCIE_COMPATIBLE "PCIE" Ecam bar_range_limit pci_roots.
End find_roots.

(** ** The BAR allocator *)

(** [buddy_system_allocator::FrameAllocator<ORDER>], of frames of one byte. *)
Class FrameAllocator := {
  frames : Type;
  frames_new : Z -> frames;                               (* by [ORDER] *)
  add_frame : Z -> Z -> frames -> frames;                 (* [add_frame(start, end)] *)
  alloc_aligned : Z -> Z -> frames -> option Z * frames;  (* by size and alignment *)
}.

Module PciBarAllocator.
Import PciRange PciMemoryFlags.

Section allocator.
Context {P : PagingCrate} {Q : Surroundings} {B : BoardEnv} {I : EmbeddedIo machine} {C : CrateConsts}.
Context {F : FrameAllocator}.

Record t := mkAllocator {
  memory32 : frames;
  memory64 : frames;
  prefetchable_memory64 : frames;
}.

(** [FrameAllocator::add_frame(range.cpu_physical, range.cpu_physical + range.size)] *)
Definition add_range_frame (range : PciRange.t) (f : frames) : K frames :=
  let! stop := checked_add 64 (cpu_physical range) (size range) in
  ret (add_frame (cpu_physical range) stop f).

Definition add (al : t) (range : PciRange.t) : K t :=
  let! t := range_type (flags range) in
  match t with
  | Memory32 =>
      do! assert (cpu_physical range =? bus_address range) "assertion `left == right` failed" in
      do! when (prefetchable (flags range))
            (warn "32-bit PCI range was marked as prefetchable") in
      let! f := add_range_frame range (memory32 al) in
      ret (mkAllocator f (memory64 al) (prefetchable_memory64 al))
  | Memory64 =>
      do! assert (cpu_physical range =? bus_address range) "assertion `left == right` failed" in
      let! stop := checked_add 64 (bus_address range) (size range) in
      if stop <? U32_MAX then
        let! f := add_range_frame range (memory32 al) in
        ret (mkAllocator f (memory64 al) (prefetchable_memory64 al))
      else if prefetchable (flags range) then
        let! f := add_range_frame range (prefetchable_memory64 al) in
        ret (mkAllocator (memory32 al) (memory64 al) f)
      else
        let! f := add_range_frame range (memory64 al) in
        ret (mkAllocator (memory32 al) f (prefetchable_memory64 al))
  | _ => ret al
  end.

Definition new (ranges : list PciRange.t) : K t :=
  fold_prog add (mkAllocator (frames_new 32) (frames_new 64) (frames_new 64)) ranges.

(** A block of [sz] bytes at a multiple of [sz], with [try_into::<u32>]. *)
Definition allocate32 (sz : Z) (al : t) : K (Z * t) :=
  let '(r, f) := alloc_aligned sz sz (memory32 al) in
  let! a := expect "Failed to allocate PCI BAR" r in
  let! a := unwrap_ok (if a <=? U32_MAX then Ok a else Err "TryFromIntError(())") in
  ret (a, mkAllocator f (memory64 al) (prefetchable_memory64 al)).

(** [usize] to [u64] never fails.  Falls back from prefetchable to
    non-prefetchable 64-bit memory, and from there to the 32-bit pool. *)
Definition allocate64_or_32 (sz : Z) (al : t) : K (Z * t) :=
  let '(r, f) := alloc_aligned sz sz (memory64 al) in
  let al := mkAllocator (memory32 al) f (prefetchable_memory64 al) in
  match r with
  | Some a => ret (a, al)
  | None => allocate32 sz al
  end.

Definition allocate64 (sz : Z) (prefetchable : bool) (al : t) : K (Z * t) :=
  if prefetchable then
    let '(r, f) := alloc_aligned sz sz (prefetchable_memory64 al) in
    let al := mkAllocator (memory32 al) (memory64 al) f in
    match r with
    | Some a => ret (a, al)
    | None => allocate64_or_32 sz al
    end
  else allocate64_or_32 sz al.
End allocator.
End PciBarAllocator.

Section bars.
Context {P : PagingCrate} {Q : Surroundings} {B : BoardEnv} {I : EmbeddedIo machine} {C : CrateConsts}.
Context {F : FrameAllocator}.

(** One iteration of [allocate_bars]. *)
Definition allocate_bar (root df : Z) (al : PciBarAllocator.t) (bar : nat * option BarInfo)
    : K PciBarAllocator.t :=
  match bar.2 with
  | None => ret al
  | Some bar_info =>
      let bar_index := Z.of_nat bar.1 in
      do! info ("BAR " +:+ fmt_dec bar_index +:+ ": " +:+ bar_display bar_info) in
      match bar_info with
      | BarMemory address_type pf _ sz =>
          if 0 <? sz then
            do! layout_from_size_align sz sz in
            match address_type with
            | Width32 =>
                do! when pf (warn "  32-bit BAR should not be marked prefetchable.") in
                let! '(a, al) := PciBarAllocator.allocate32 sz al in
                do! info ("  allocated " +:+ fmt_hex a) in
                do! tell (PciSetBar32 root df bar_index a) in
                ret al
            | Width64 =>
                let! '(a, al) := PciBarAllocator.allocate64 sz pf al in
                do! info ("  allocated " +:+ fmt_hex a) in
                do! tell (PciSetBar64 root df bar_index a) in
                ret al
            | Below1MiB => panic "not implemented: Below 1MiB BARs not supported."
            end
          else ret al
      | BarIO _ _ =>
          do! warn "Ignoring IO BAR" in
          ret al
      end
  end.

Definition pci_bars (root df : Z) : K (result (list (option BarInfo))) :=
  ask (fun h => env_pci_bars h root df) (PciBars root df).

Definition allocate_bars (root : Z) (al : PciBarAllocator.t) (df : Z) : K PciBarAllocator.t :=
  let! bars := pci_bars root df in
  let! bars := unwrap_ok bars in
  let! al := fold_prog (allocate_bar root df) al (zip (seq 0 (length bars)) bars) in
  do! tell (PciSetCommand root df
              (Z.lor (Z.lor CMD_IO_SPACE CMD_MEMORY_SPACE) CMD_BUS_MASTER)) in
  ret al.

Definition bus_next (root : Z) (n : nat) : K (option (Z * string)) :=
  ask (fun h => env_pci_bus_next h root n) (PciBusNext root n).

(** [for (device_function, info) in pci_root.enumerate_bus(0)], from the [n]-th function
    on.  The iterator is lazy: the bus is read between the iterations. *)
Fixpoint for_function {A} (root : Z) (f : A -> Z * string -> K A) (fuel n : nat) (acc : A) : K A :=
  match fuel with
  | O => out_of_fuel
  | S fuel =>
      let! next := bus_next root n in
      match next with
      | None => ret acc
      | Some function =>
          let! acc := f acc function in
          for_function root f fuel (S n) acc
      end
  end.

(** A bus has 32 devices of 8 functions, and the last call of [next] returns [None]. *)
Definition bus_calls : nat := 257.

Definition enumerate_bus {A} (root : Z) (f : A -> Z * string -> K A) (acc : A) : K A :=
  for_function root f bus_calls 0 acc.

(** Returns the root, which is identified by its base address. *)
Definition init_pci (self : PciRootInfo.t) : K Z :=
  let root := PciRootInfo.mmio_base self in
  let! al := PciBarAllocator.new (PciRootInfo.ranges self) in
  let! _ := enumerate_bus root (fun al '(df, text) =>
    do! info ("Initialising bars for " +:+ df_display df +:+ " " +:+ text) in
    allocate_bars root al df) al in
  ret root.
End bars.

(** ** What the crate promises

    [free f x]: address [x] can be handed out by [f]. *)

Class FrameAllocatorLaws `{F : FrameAllocator} := {
  free : frames -> Z -> Prop;
  free_new order x : ~ free (frames_new order) x;
  (** an added frame is free, if it did not overlap with what was free *)
  free_add f start stop :
    start <= stop -> (forall x, start <= x < stop -> ~ free f x) ->
    forall x, free (add_frame start stop f) x <-> free f x \/ start <= x < stop;
  (** an allocation is aligned, was free, and is not free any more *)
  alloc_aligned_some f sz align a f' :
    0 < sz -> 0 < align -> alloc_aligned sz align f = (Some a, f') ->
    a mod align = 0 /\
    (forall x, a <= x < a + sz -> free f x) /\
    (forall x, free f' x -> free f x /\ ~ (a <= x < a + sz));
  alloc_aligned_none f sz align f' :
    alloc_aligned sz align f = (None, f') -> forall x, free f' x -> free f x;
}.

(** ** Facts about flags and ranges *)

Lemma range_type_bits flags : Z.shiftr (Z.land flags 0x03000000) 24 = Z.shiftr flags 24 mod 4.
Proof.
  rewrite Z.shiftr_land. change (Z.shiftr 0x03000000 24) with (Z.ones 2).
  by rewrite Z.land_ones by lia.
Qed.

Lemma range_type_run {S} flags (s : S) :
  PciMemoryFlags.range_type flags s = (Val (PciMemoryFlags.flags_type flags), s).
Proof.
  unfold PciMemoryFlags.range_type, PciMemoryFlags.flags_type. rewrite range_type_bits.
  pose proof (Z.mod_pos_bound (Z.shiftr flags 24) 4 ltac:(lia)) as Hb.
  assert (Z.shiftr flags 24 mod 4 = 0 \/ Z.shiftr flags 24 mod 4 = 1 \/
    Z.shiftr flags 24 mod 4 = 2 \/ Z.shiftr flags 24 mod 4 = 3) as [->|[->|[->| ->]]] by lia;
    reflexivity.
Qed.

Definition in_range (r : PciRange.t) (x : Z) : Prop :=
  PciRange.cpu_physical r <= x < PciRange.cpu_physical r + PciRange.size r.

Definition memory_range (r : PciRange.t) : bool :=
  is_memory (PciMemoryFlags.flags_type (PciRange.flags r)).

#[global] Arguments memory_range : simpl never.
#[global] Arguments PciMemoryFlags.flags_type : simpl never.

(** ** Facts about the pools *)

Inductive pool := Pool32 | Pool64 | PoolPrefetchable.

#[export] Instance pool_eq_dec : EqDecision pool.
Proof. solve_decision. Defined.

(** The pool a range belongs to. *)
Definition pool_of (r : PciRange.t) : option pool :=
  match PciMemoryFlags.flags_type (PciRange.flags r) with
  | Memory32 => Some Pool32
  | Memory64 =>
      Some (if PciRange.bus_address r + PciRange.size r <? U32_MAX then Pool32
            else if PciMemoryFlags.prefetchable (PciRange.flags r) then PoolPrefetchable
            else Pool64)
  | _ => None
  end.

(** The addresses which [ranges] put into pool [p]. *)
Definition pool_range (ranges : list PciRange.t) (p : pool) (x : Z) : Prop :=
  exists r, r ∈ ranges /\ pool_of r = Some p /\ in_range r x.

Lemma pool_range_nil p x : ~ pool_range [] p x.
Proof. by intros (r & Hr%elem_of_nil & _). Qed.

Lemma pool_range_cons r ranges p x :
  pool_range (r :: ranges) p x <->
  (pool_of r = Some p /\ in_range r x) \/ pool_range ranges p x.
Proof.
  unfold pool_range. split.
  - intros (r' & [->|Hr]%elem_of_cons & H); [by left|right; eauto].
  - intros [H|(r' & Hr & H)]; [exists r|exists r']; (split; [|done]); apply elem_of_cons; auto.
Qed.

(** No address is in two of the memory ranges. *)
Fixpoint ranges_apart (ranges : list PciRange.t) : Prop :=
  match ranges with
  | [] => True
  | r :: ranges =>
      0 <= PciRange.size r /\
      (memory_range r = true ->
         forall r' x, r' ∈ ranges -> memory_range r' = true -> in_range r x -> ~ in_range r' x) /\
      ranges_apart ranges
  end.

Section pools.
Context {P : PagingCrate} {B : BoardEnv} {I : EmbeddedIo machine} {L : EmbeddedIoLaws machine I}.
Context {C : CrateConsts} {F : FrameAllocator} {FL : FrameAllocatorLaws}.
Implicit Types s : machine.
Implicit Types al : PciBarAllocator.t.

Definition get_pool (p : pool) al : frames :=
  match p with
  | Pool32 => PciBarAllocator.memory32 al
  | Pool64 => PciBarAllocator.memory64 al
  | PoolPrefetchable => PciBarAllocator.prefetchable_memory64 al
  end.

Definition pool_free al (p : pool) (x : Z) : Prop := free (get_pool p al) x.

Definition pools_disjoint al : Prop :=
  forall p q x, pool_free al p x -> pool_free al q x -> p = q.

Lemma pool_of_memory r : memory_range r = bool_decide (is_Some (pool_of r)).
Proof. unfold memory_range, pool_of. by destruct (PciMemoryFlags.flags_type _). Qed.

Definition set_pool (p : pool) (f : frames) al : PciBarAllocator.t :=
  match p with
  | Pool32 => PciBarAllocator.mkAllocator f (PciBarAllocator.memory64 al)
                (PciBarAllocator.prefetchable_memory64 al)
  | Pool64 => PciBarAllocator.mkAllocator (PciBarAllocator.memory32 al) f
                (PciBarAllocator.prefetchable_memory64 al)
  | PoolPrefetchable => PciBarAllocator.mkAllocator (PciBarAllocator.memory32 al)
                (PciBarAllocator.memory64 al) f
  end.

Lemma get_set_pool p q f al :
  get_pool q (set_pool p f al) = if decide (q = p) then f else get_pool q al.
Proof. by destruct p, q. Qed.

Definition range_frame (r : PciRange.t) (f : frames) : frames :=
  add_frame (PciRange.cpu_physical r) (PciRange.cpu_physical r + PciRange.size r) f.

Lemma add_range_frame_inv r f s f' s' :
  PciBarAllocator.add_range_frame r f s = (Val f', s') -> f' = range_frame r f /\ s' = s.
Proof. unfold PciBarAllocator.add_range_frame. intros H. inv_step H. by inv_prim H. Qed.

Ltac inv_add H :=
  let f := fresh "f" in let s1 := fresh "s" in let E := fresh "E" in
  inv_bind H as f s1 E; apply add_range_frame_inv in E as [-> ->]; inv_prim H.

(** One iteration of [PciBarAllocator::new]. *)
Lemma add_inv al r s al' s' :
  PciBarAllocator.add al r s = (Val al', s') ->
  uart_calls s s' /\
  al' = match pool_of r with
        | Some p => set_pool p (range_frame r (get_pool p al)) al
        | None => al
        end.
Proof.
  intros H. unfold PciBarAllocator.add in H. erewrite bind_Val in H by apply range_type_run.
  unfold pool_of. destruct (PciMemoryFlags.flags_type _).
  - by inv_prim H.
  - by inv_prim H.
  - inv_step H. inv_bind H as u s1 Hw. inv_add H. split; [|done].
    destruct (PciMemoryFlags.prefetchable _); simpl in Hw; by inv_prim Hw.
  - inv_step H. inv_step H as stop. destruct (_ <? _); [by inv_add H|].
    destruct (PciMemoryFlags.prefetchable _); by inv_add H.
Qed.

Lemma add_free al r s al' s' :
  PciBarAllocator.add al r s = (Val al', s') -> 0 <= PciRange.size r ->
  (memory_range r = true -> forall q x, in_range r x -> ~ pool_free al q x) ->
  forall q x, pool_free al' q x <-> pool_free al q x \/ (pool_of r = Some q /\ in_range r x).
Proof.
  intros [_ ->]%add_inv Hsz Hout q x. rewrite pool_of_memory in Hout. unfold pool_free in *.
  destruct (pool_of r) as [p|]; [|naive_solver]. rewrite get_set_pool.
  destruct (decide (q = p)) as [->|Hne]; [|naive_solver].
  unfold range_frame. rewrite free_add; [unfold in_range; naive_solver|lia|].
  intros y Hy. by apply Hout; [apply bool_decide_true; eauto|].
Qed.

Lemma fold_add_free l al s al' s' :
  fold_prog PciBarAllocator.add al l s = (Val al', s') -> ranges_apart l ->
  (forall r q x, r ∈ l -> memory_range r = true -> in_range r x -> ~ pool_free al q x) ->
  uart_calls s s' /\
  forall q x, pool_free al' q x <-> pool_free al q x \/ pool_range l q x.
Proof.
  revert al s. induction l as [|r l IH]; intros al s H Hap Hout; simpl in H.
  { inv_prim H. split; [reflexivity|]. intros q x. pose proof (pool_range_nil q x). tauto. }
  destruct Hap as (Hsz & Hr & Hap). inv_bind H as al1 s1 H1.
  pose proof (add_free _ _ _ _ _ H1 Hsz) as Hf. specialize (Hf ltac:(intros; eapply Hout; eauto; apply list_elem_of_here)).
  apply add_inv in H1 as [Hu _].
  apply IH in H as [Hu' Hf']; [|done|].
  - split; [by etrans|]. intros q x. rewrite Hf', Hf, pool_range_cons. tauto.
  - intros r' q x Hr' Hm' Hx. rewrite Hf. intros [Hfr|[Hp Hx']].
    + eapply Hout; [|done..]. by apply list_elem_of_further.
    + eapply Hr; [|done..]. rewrite pool_of_memory. apply bool_decide_true. eauto.
Qed.

(** The pools of a new allocator are exactly the ranges of their class. *)
Lemma new_free ranges s al s' :
  PciBarAllocator.new ranges s = (Val al, s') -> ranges_apart ranges ->
  uart_calls s s' /\ forall q x, pool_free al q x <-> pool_range ranges q x.
Proof.
  intros H Hap. apply fold_add_free in H as [Hu Hf]; [|done|].
  - split; [done|]. intros q x. rewrite Hf. unfold pool_free. split; [|by right].
    intros [Hn|?]; [|done]. destruct q; by apply free_new in Hn.
  - intros r q x _ _ _ Hn. destruct q; by apply free_new in Hn.
Qed.

Lemma pool_range_unique ranges p q x :
  ranges_apart ranges -> pool_range ranges p x -> pool_range ranges q x -> p = q.
Proof.
  intros Hap (r1 & H1 & Hp1 & Hx1) (r2 & H2 & Hp2 & Hx2).
  assert (memory_range r1 = true /\ memory_range r2 = true) as [Hm1 Hm2].
  { rewrite !pool_of_memory. split; apply bool_decide_true; eauto. }
  induction ranges as [|r l IH]; [set_solver|]. destruct Hap as (_ & Hr & Hap).
  apply elem_of_cons in H1 as [->|H1], H2 as [->|H2]; [congruence|..|auto]; exfalso.
  - by eapply (Hr Hm1).
  - by eapply (Hr Hm2).
Qed.

(** ** Allocations *)

(** [sz] bytes at [a] were taken from pool [p]. *)
Definition took (p : pool) al (a sz : Z) al' : Prop :=
  a mod sz = 0 /\ (forall x, a <= x < a + sz -> pool_free al p x) /\
  forall q x, pool_free al' q x -> pool_free al q x /\ (q = p -> ~ (a <= x < a + sz)).

Lemma took_set p al a sz f :
  0 < sz -> alloc_aligned sz sz (get_pool p al) = (Some a, f) -> took p al a sz (set_pool p f al).
Proof.
  intros Hsz (Ha & Hin & Hf)%alloc_aligned_some; [|done..]. split; [done|]. split; [done|].
  intros q x. unfold pool_free. rewrite get_set_pool.
  destruct (decide (q = p)) as [->|]; [|done]. naive_solver.
Qed.

Lemma failed_set p al sz f q x :
  alloc_aligned sz sz (get_pool p al) = (None, f) ->
  pool_free (set_pool p f al) q x -> pool_free al q x.
Proof.
  intros Hn. unfold pool_free. rewrite get_set_pool. destruct (decide (q = p)) as [->|]; [|done].
  by eapply alloc_aligned_none.
Qed.

Lemma took_weaken p al al1 a sz al' :
  (forall q x, pool_free al1 q x -> pool_free al q x) -> took p al1 a sz al' -> took p al a sz al'.
Proof. intros Hw (Ha & Hin & Hf). split; [done|]. split; [auto|]. intros q x Hx. naive_solver. Qed.

Lemma allocate32_took sz al s a al' s' :
  0 < sz -> PciBarAllocator.allocate32 sz al s = (Val (a, al'), s') ->
  s' = s /\ a <= U32_MAX /\ took Pool32 al a sz al'.
Proof.
  intros Hsz H. unfold PciBarAllocator.allocate32 in H.
  destruct (alloc_aligned sz sz (PciBarAllocator.memory32 al)) as [r f] eqn:E.
  inv_step H as a1. inv_step H as a2. injection H as <- <- <-. subst r.
  destruct (Z.leb_spec a1 U32_MAX); [|done]. simplify_eq. split; [done|]. split; [done|].
  by apply (took_set Pool32).
Qed.

(** Non-prefetchable memory is preferred for a 64-bit BAR in the same way. *)
Lemma allocate64_or_32_took sz al s a al' s' :
  0 < sz -> PciBarAllocator.allocate64_or_32 sz al s = (Val (a, al'), s') ->
  s' = s /\ exists p, p <> PoolPrefetchable /\ took p al a sz al'.
Proof.
  intros Hsz H. unfold PciBarAllocator.allocate64_or_32 in H.
  destruct (alloc_aligned sz sz (PciBarAllocator.memory64 al)) as [[a1|] f] eqn:E.
  - injection H as <- <- <-. split; [done|]. exists Pool64. split; [done|].
    by apply (took_set Pool64).
  - apply allocate32_took in H as (-> & _ & Ht); [|done]. split; [done|].
    exists Pool32. split; [done|]. eapply took_weaken; [|exact Ht].
    intros q x. by apply (failed_set Pool64 _ sz).
Qed.

Lemma allocate64_took sz pf al s a al' s' :
  0 < sz -> PciBarAllocator.allocate64 sz pf al s = (Val (a, al'), s') ->
  s' = s /\ exists p, (p = PoolPrefetchable -> pf = true) /\ took p al a sz al'.
Proof.
  intros Hsz H. unfold PciBarAllocator.allocate64 in H. destruct pf.
  2: { apply allocate64_or_32_took in H as (-> & p & Hp & Ht); [|done].
       split; [done|]. exists p. done. }
  destruct (alloc_aligned sz sz (PciBarAllocator.prefetchable_memory64 al)) as [[a1|] f] eqn:E.
  - injection H as <- <- <-. split; [done|]. exists PoolPrefetchable. split; [done|].
    by apply (took_set PoolPrefetchable).
  - apply allocate64_or_32_took in H as (-> & p & Hp & Ht); [|done]. split; [done|].
    exists p. split; [done|]. eapply took_weaken; [|exact Ht].
    intros q x. by apply (failed_set PoolPrefetchable _ sz).
Qed.
End pools.

(** ** Assignments of BARs *)

(** A BAR of function [asg_df] and the block of addresses it was given. *)
Record assignment := mkAssignment {
  asg_df : Z;
  asg_index : Z;
  asg_type : MemoryBarType;
  asg_prefetchable : bool;
  asg_base : Z;
  asg_size : Z;
}.

Definition in_block (a : assignment) (x : Z) : Prop := asg_base a <= x < asg_base a + asg_size a.

(** The memory BARs of function [df] which need an address. *)
Definition request (root df : Z) (bar : nat * option BarInfo)
    : option (Z * Z * Z * MemoryBarType * bool * Z) :=
  match bar.2 with
  | Some (BarMemory address_type pf _ sz) =>
      if 0 <? sz then Some (root, df, Z.of_nat bar.1, address_type, pf, sz) else None
  | _ => None
  end.

Definition requests (root df : Z) (bars : list (nat * option BarInfo)) :=
  omap (request root df) bars.

(** What the history says: the BARs which need an address, and the addresses
    which were written, newest first. *)
Fixpoint wanted (h : history) : list (Z * Z * Z * MemoryBarType * bool * Z) :=
  match h with
  | [] => []
  | e :: h =>
      match call e with
      | PciBars root df (Ok bars) =>
          reverse (requests root df (zip (seq 0 (length bars)) bars)) ++ wanted h
      | _ => wanted h
      end
  end.

Fixpoint bar_writes (h : history) : list (Z * Z * Z * MemoryBarType * Z) :=
  match h with
  | [] => []
  | e :: h =>
      match call e with
      | PciSetBar32 root df index value => (root, df, index, Width32, value) :: bar_writes h
      | PciSetBar64 root df index value => (root, df, index, Width64, value) :: bar_writes h
      | _ => bar_writes h
      end
  end.

Definition want_of (root : Z) (a : assignment) : Z * Z * Z * MemoryBarType * bool * Z :=
  (root, asg_df a, asg_index a, asg_type a, asg_prefetchable a, asg_size a).
Definition write_of (root : Z) (a : assignment) : Z * Z * Z * MemoryBarType * Z :=
  (root, asg_df a, asg_index a, asg_type a, asg_base a).

(** Which pools a BAR may be placed in. *)
Definition allowed (a : assignment) (p : pool) : Prop :=
  match asg_type a with
  | Width32 => p = Pool32 /\ asg_base a <= U32_MAX
  | Width64 => p = PoolPrefetchable -> asg_prefetchable a = true
  | Below1MiB => False
  end.

(** An assignment which is naturally aligned and lies in a range of [ranges]
    that suits its type. *)
Definition good_assignment (ranges : list PciRange.t) (a : assignment) : Prop :=
  0 < asg_size a /\ asg_base a mod asg_size a = 0 /\
  exists p, allowed a p /\ forall x, in_block a x -> pool_range ranges p x.

Fixpoint blocks_apart (l : list assignment) : Prop :=
  match l with
  | [] => True
  | a :: l => (forall b x, b ∈ l -> in_block a x -> ~ in_block b x) /\ blocks_apart l
  end.

Lemma wanted_ignores_uart : ignores_uart wanted.
Proof. intros e h (buf & r & He). simpl. by rewrite He. Qed.
Lemma bar_writes_ignores_uart : ignores_uart bar_writes.
Proof. intros e h (buf & r & He). simpl. by rewrite He. Qed.

Section assignments.
Context {P : PagingCrate} {B : BoardEnv} {I : EmbeddedIo machine} {L : EmbeddedIoLaws machine I}.
Context {C : CrateConsts} {F : FrameAllocator} {FL : FrameAllocatorLaws}.
Implicit Types s : machine.
Implicit Types al : PciBarAllocator.t.

(** The invariant of the allocation: what is free is in the ranges, in one pool
    only, and apart from what is assigned. *)
Record placed (ranges : list PciRange.t) al (l : list assignment) : Prop := mkPlaced {
  placed_disjoint : pools_disjoint al;
  placed_free p x : pool_free al p x ->
    pool_range ranges p x /\ forall a, a ∈ l -> ~ in_block a x;
  placed_good : Forall (good_assignment ranges) l;
  placed_apart : blocks_apart l;
}.

Lemma placed_took ranges al l p a al' :
  placed ranges al l -> 0 < asg_size a -> allowed a p ->
  took p al (asg_base a) (asg_size a) al' -> placed ranges al' (a :: l).
Proof.
  intros [Hd Hfree Hg Hap] Hsz Hal (Hmod & Hin & Hf). split.
  - intros q1 q2 x [H1 _]%Hf [H2 _]%Hf. by eapply Hd.
  - intros q x [Hx Hne]%Hf. destruct (Hfree q x Hx) as [Hr Hl]. split; [done|].
    intros b [->|Hb]%elem_of_cons; [|auto]. intros Hxa.
    apply Hne; [|done]. by apply (Hd q p x); [|apply Hin].
  - constructor; [|done]. split; [done|]. split; [done|]. exists p. split; [done|].
    intros x Hx. by apply Hfree, Hin.
  - split; [|done]. intros b x Hb Hx. apply (Hfree p x); [by apply Hin|done].
Qed.

(** The effect of one BAR on the history and on the assignments. *)
Definition assigned (root : Z) s s' (new : list assignment) : Prop :=
  bar_writes (trace s') = (write_of root <$> new) ++ bar_writes (trace s) /\
  wanted (trace s') = wanted (trace s).

Lemma assigned_uart root s s1 s' new :
  uart_calls s s1 -> assigned root s1 s' new -> assigned root s s' new.
Proof.
  intros Hu [Hb Hw]. unfold assigned.
  rewrite Hb, Hw, (uart_calls_ignored _ _ _ bar_writes_ignores_uart Hu),
    (uart_calls_ignored _ _ _ wanted_ignores_uart Hu). done.
Qed.

Lemma assigned_refl root s : assigned root s s [].
Proof. done. Qed.

Lemma assigned_trans root s1 s2 s3 new1 new2 :
  assigned root s1 s2 new1 -> assigned root s2 s3 new2 -> assigned root s1 s3 (new2 ++ new1).
Proof.
  intros [Hb1 Hw1] [Hb2 Hw2]. unfold assigned.
  by rewrite Hb2, Hb1, Hw2, Hw1, fmap_app, app_assoc.
Qed.

Lemma assigned_none root s s' : uart_calls s s' -> assigned root s s' [].
Proof. intros Hu. by eapply assigned_uart; [|apply assigned_refl]. Qed.

Definition bar_event (root : Z) (a : assignment) : event :=
  match asg_type a with
  | Width32 => PciSetBar32 root (asg_df a) (asg_index a) (asg_base a)
  | _ => PciSetBar64 root (asg_df a) (asg_index a) (asg_base a)
  end.

(** The end of both memory cases of [allocate_bars]. *)
Lemma write_bar_spec root a p ranges al l s msg al1 al' s' :
  placed ranges al l -> 0 < asg_size a -> allowed a p ->
  took p al (asg_base a) (asg_size a) al1 ->
  (do! info msg in do! tell (bar_event root a) in ret al1) s = (Val al', s') ->
  placed ranges al' (a :: l) /\ assigned root s s' [a].
Proof.
  intros Hp Hsz Hal Ht H. inv_step H. inv_bind H as u2 s4 Htell. injection Htell as _ <-.
  inv_prim H. split; [by eapply placed_took|]. eapply assigned_uart; [eassumption|].
  unfold bar_event, allowed in *. split; simpl; by destruct a as [? ? []].
Qed.

Lemma allocate_bar_spec root df ranges al l bar s al' s' :
  placed ranges al l -> allocate_bar root df al bar s = (Val al', s') ->
  exists new, placed ranges al' (new ++ l) /\ assigned root s s' new /\
    want_of root <$> new = option_list (request root df bar).
Proof.
  intros Hp H. destruct bar as [i [info|]]; unfold allocate_bar, request in *; simpl in *.
  2: { inv_prim H. exists []. by split. }
  inv_step H. destruct info as [ty pf addr sz|].
  2: { inv_step H. inv_prim H. exists []. split; [done|]. split; [|done].
       apply assigned_none. by etrans. }
  destruct (Z.ltb_spec 0 sz) as [Hsz|].
  2: { inv_prim H. exists []. split; [done|]. split; [|done]. by apply assigned_none. }
  inv_step H. destruct ty; [..|done].
  - inv_bind H as u s1 Hw. inv_bind H as q s2 Ha. destruct q as [a al1].
    apply allocate32_took in Ha as (-> & Hle & Ht); [|done].
    assert (uart_calls s0 s1) by (by destruct pf; simpl in Hw; inv_prim Hw).
    exists [mkAssignment df (Z.of_nat i) Width32 pf a sz].
    edestruct (write_bar_spec root (mkAssignment df (Z.of_nat i) Width32 pf a sz) Pool32)
      as [Hp' Ha']; [done..|]. split; [done|]. split; [|done].
    by do 2 (eapply assigned_uart; [eassumption|]).
  - inv_bind H as q s2 Ha. destruct q as [a al1].
    apply allocate64_took in Ha as (-> & p & Hpf & Ht); [|done].
    exists [mkAssignment df (Z.of_nat i) Width64 pf a sz].
    edestruct (write_bar_spec root (mkAssignment df (Z.of_nat i) Width64 pf a sz) p)
      as [Hp' Ha']; [done..|]. split; [done|]. split; [|done].
    by eapply assigned_uart.
Qed.

Lemma fold_bars_spec root df ranges bars al l s al' s' :
  placed ranges al l -> fold_prog (allocate_bar root df) al bars s = (Val al', s') ->
  exists new, placed ranges al' (new ++ l) /\ assigned root s s' new /\
    want_of root <$> new = reverse (requests root df bars).
Proof.
  revert al l s. induction bars as [|bar bars IH]; intros al l s Hp H; simpl in H.
  { inv_prim H. exists []. split; [done|]. split; [apply assigned_refl|done]. }
  inv_bind H as al1 s1 H1.
  destruct (allocate_bar_spec _ _ _ _ _ _ _ _ _ Hp H1) as (n1 & Hp1 & Ha1 & Hw1).
  destruct (IH _ _ _ Hp1 H) as (n2 & Hp2 & Ha2 & Hw2).
  exists (n2 ++ n1). rewrite <-app_assoc. split; [done|].
  split; [by eapply assigned_trans|]. rewrite fmap_app, Hw2, Hw1. unfold requests. simpl.
  destruct (request root df bar); simpl; by rewrite ?reverse_cons, ?app_nil_r.
Qed.

(** What [allocate_bars] does for one function, and what they do together. *)
Definition all_assigned (root : Z) s s' (new : list assignment) : Prop :=
  bar_writes (trace s') = (write_of root <$> new) ++ bar_writes (trace s) /\
  wanted (trace s') = (want_of root <$> new) ++ wanted (trace s).

Lemma allocate_bars_spec root df ranges al l s al' s' :
  placed ranges al l -> allocate_bars root al df s = (Val al', s') ->
  exists new, placed ranges al' (new ++ l) /\ all_assigned root s s' new.
Proof.
  intros Hp H. unfold allocate_bars in H. inv_bind H as r s1 Hr. injection Hr as Hr <-.
  inv_step H as bars. inv_bind H as al1 s2 Hf. inv_bind H as u s3 Ht. injection Ht as _ <-.
  inv_prim H. destruct (fold_bars_spec _ _ _ _ _ _ _ _ _ Hp Hf) as (new & Hp' & [Hb Hw] & Hn).
  exists new. split; [done|]. rewrite Hr, Hrun in Hb, Hw. simpl in *.
  unfold all_assigned. simpl. by rewrite Hb, Hw, Hn.
Qed.

Lemma all_assigned_uart root s s1 s' new :
  uart_calls s s1 -> all_assigned root s1 s' new -> all_assigned root s s' new.
Proof.
  intros Hu [Hb Hw]. unfold all_assigned.
  rewrite Hb, Hw, (uart_calls_ignored _ _ _ bar_writes_ignores_uart Hu),
    (uart_calls_ignored _ _ _ wanted_ignores_uart Hu). done.
Qed.

Lemma for_function_spec root ranges fuel n al l s al' s' :
  placed ranges al l ->
  for_function root (fun al '(df, text) =>
    do! info ("Initialising bars for " +:+ df_display df +:+ " " +:+ text) in
    allocate_bars root al df) fuel n al s = (Val al', s') ->
  exists new, placed ranges al' (new ++ l) /\ all_assigned root s s' new.
Proof.
  revert n al l s. induction fuel as [|fuel IH]; intros n al l s Hp H; simpl in H; [done|].
  inv_bind H as r s0 Hr. injection Hr as _ <-. destruct r as [[df text]|].
  2: { inv_prim H. exists []. by split. }
  inv_bind H as al1 s1 H1. inv_step H1.
  destruct (allocate_bars_spec _ _ _ _ _ _ _ _ Hp H1) as (n1 & Hp1 & Ha1).
  apply (all_assigned_uart _ _ _ _ _ Hrun) in Ha1 as [Hb1 Hw1].
  destruct (IH _ _ _ _ Hp1 H) as (n2 & Hp2 & [Hb2 Hw2]).
  exists (n2 ++ n1). rewrite <-app_assoc. split; [done|].
  unfold all_assigned. by rewrite Hb2, Hb1, Hw2, Hw1, !fmap_app, !app_assoc.
Qed.

Lemma placed_new ranges s al s' :
  PciBarAllocator.new ranges s = (Val al, s') -> ranges_apart ranges ->
  placed ranges al [] /\ uart_calls s s'.
Proof.
  intros H Hap. destruct (new_free _ _ _ _ H Hap) as [Hu Hf]. split; [|done].
  split; [|intros p x Hx%Hf|done|done].
  - intros p q x Hp%Hf Hq%Hf. by eapply pool_range_unique.
  - split; [done|]. set_solver.
Qed.
End assignments.

(** ** Mapping the ranges *)

Section mapping.
Context {P : PagingCrate} {B : BoardEnv} {I : EmbeddedIo machine} {L : EmbeddedIoLaws machine I}.
Context {C : CrateConsts} {W : PagingLaws} {PC : PagingCalls}.
Implicit Types s : machine.

(** The page-aligned region of a range. *)
Definition range_region (r : PciRange.t) : MemoryRegion :=
  region_new (PciRange.cpu_physical r) (PciRange.cpu_physical r + PciRange.size r).

Lemma in_range_region r x : in_range r x -> in_region x (range_region r) = true.
Proof.
  unfold in_range, in_region, range_region. intros Hx.
  pose proof (region_new_start (PciRange.cpu_physical r)
    (PciRange.cpu_physical r + PciRange.size r)).
  pose proof (region_new_end (PciRange.cpu_physical r)
    (PciRange.cpu_physical r + PciRange.size r)). lia.
Qed.

Definition memory_regions (ranges : list PciRange.t) : list (kind * MemoryRegion) :=
  (fun r => (AsDevice, range_region r)) <$> List.filter memory_range ranges.

Lemma memory_regions_cons r l :
  memory_regions (r :: l) =
    if memory_range r then (AsDevice, range_region r) :: memory_regions l else memory_regions l.
Proof. unfold memory_regions. cbn [List.filter]. by destruct (memory_range r). Qed.

(** [map_ranges] is the sequence of [map_device] calls for the memory ranges. *)
Lemma map_ranges_maps self idmap s idmap' s' :
  PciRootInfo.map_ranges self idmap s = (Val idmap', s') ->
  mapped_as idmap (memory_regions (PciRootInfo.ranges self)) idmap'.
Proof.
  unfold PciRootInfo.map_ranges. revert idmap s.
  induction (PciRootInfo.ranges self) as [|r l IH]; intros idmap s H; simpl in H.
  { inv_prim H. apply mapped_as_nil. }
  inv_bind H as i1 s1 H1. erewrite bind_Val in H1 by apply range_type_run.
  rewrite memory_regions_cons. fold (memory_range r) in H1. destruct (memory_range r).
  2: { inv_prim H1. by apply IH in H. }
  inv_bind H1 as region s2 Hr. unfold PciRange.memory_region in Hr. inv_step Hr as stop.
  injection Hr as <- <-. inv_step H1. apply (map_unwrap_mapped AsDevice) in H1 as [Hm _].
  apply (mapped_as_app _ [_] _ _ _ Hm). by eapply IH.
Qed.

Lemma last_kind_not_memory ranges x : last_kind (memory_regions ranges) x <> Some AsMemory.
Proof.
  induction ranges as [|r l IH]; [done|]. rewrite memory_regions_cons.
  destruct (memory_range r); [|done]. cbn [last_kind].
  destruct (last_kind _ x) as [[]|]; [done|done|]. by destruct (in_region _ _).
Qed.

Lemma last_kind_device ranges r x :
  r ∈ ranges -> memory_range r = true -> in_range r x ->
  last_kind (memory_regions ranges) x = Some AsDevice.
Proof.
  intros Hr Hm Hx. pose proof (last_kind_not_memory ranges x) as Hk.
  induction ranges as [|r0 l IH]; [by apply elem_of_nil in Hr|].
  pose proof (last_kind_not_memory l x) as Hk'. rewrite memory_regions_cons in *.
  apply elem_of_cons in Hr as [<-|Hr].
  - rewrite Hm in *. cbn [last_kind]. rewrite (in_range_region _ _ Hx).
    by destruct (last_kind (memory_regions l) x) as [[]|].
  - specialize (IH Hr Hk'). destruct (memory_range r0); [|done]. cbn [last_kind]. by rewrite IH.
Qed.
End mapping.

(** ** Trimming the ranges of a node *)

(** The memory addresses which the ranges of a node name. *)
Definition node_memory (rs : list Range) (x : Z) : Prop :=
  exists range child parent len, range ∈ rs /\
    range_child_bus_address range = Ok child /\ range_parent_bus_address range = Ok parent /\
    range_length range = Ok len /\
    is_memory (PciMemoryFlags.flags_type (Z.shiftr child 64 mod 2 ^ 32)) = true /\
    parent <= x < parent + len.

Definition kept_memory (ranges : list PciRange.t) (x : Z) : Prop :=
  exists r, r ∈ ranges /\ memory_range r = true /\ in_range r x.

Definition below_limit (limit : Z) (r : PciRange.t) : Prop :=
  memory_range r = true -> PciRange.cpu_physical r + PciRange.size r <= limit.

Lemma node_memory_cons range rs x :
  node_memory (range :: rs) x <-> node_memory [range] x \/ node_memory rs x.
Proof.
  unfold node_memory. split.
  - intros (r & c & p & n & [Hr|Hr]%elem_of_cons & H); [left|right]; exists r, c, p, n;
      (split; [|done]); [subst; apply list_elem_of_here|done].
  - intros [(r & c & p & n & Hr%list_elem_of_singleton & H)|(r & c & p & n & Hr & H)];
      exists r, c, p, n; (split; [|done]); [subst; apply list_elem_of_here|by right].
Qed.

Lemma kept_memory_app l1 l2 x : kept_memory (l1 ++ l2) x <-> kept_memory l1 x \/ kept_memory l2 x.
Proof.
  unfold kept_memory. split.
  - intros (r & [Hr|Hr]%elem_of_app & H); eauto.
  - intros [(r & Hr & H)|(r & Hr & H)]; exists r; (split; [|done]); apply elem_of_app; auto.
Qed.

Lemma kept_memory_one r x : kept_memory [r] x <-> memory_range r = true /\ in_range r x.
Proof.
  unfold kept_memory. split.
  - by intros (r' & ->%list_elem_of_singleton & H).
  - intros H. exists r. split; [apply list_elem_of_here|done].
Qed.

Section trimming.
Context {P : PagingCrate} {B : BoardEnv} {I : EmbeddedIo machine} {L : EmbeddedIoLaws machine I}.
Context {C : CrateConsts}.
Implicit Types s : machine.

Lemma from_inv range s r s' :
  PciRange.from range s = (Val r, s') ->
  s' = s /\ exists child, range_child_bus_address range = Ok child /\
    range_parent_bus_address range = Ok (PciRange.cpu_physical r) /\
    range_length range = Ok (PciRange.size r) /\
    PciRange.bus_address r = child mod 2 ^ 64 /\
    PciRange.flags r = Z.shiftr child 64 mod 2 ^ 32.
Proof.
  unfold PciRange.from. intros H. inv_step H as child. inv_step H as parent. inv_step H as len.
  inv_prim H. split; [done|]. by exists child.
Qed.

Lemma from_memory range s r s' x :
  PciRange.from range s = (Val r, s') ->
  node_memory [range] x <-> memory_range r = true /\ in_range r x.
Proof.
  intros (_ & child & Hc & Hp & Hl & _ & Hf)%from_inv.
  unfold node_memory, memory_range, in_range. rewrite Hf. split.
  - intros (range' & c & p & n & ->%list_elem_of_singleton & Hc' & Hp' & Hl' & H).
    rewrite Hc in Hc'. rewrite Hp in Hp'. rewrite Hl in Hl'. by simplify_eq.
  - intros H. exists range, child, (PciRange.cpu_physical r), (PciRange.size r).
    split; [apply list_elem_of_here|done].
Qed.

Lemma add_range_spec limit acc range s acc' s' :
  PciRootInfo.add_range limit acc range s = (Val acc', s') ->
  uart_calls s s' /\ exists kept, acc' = acc ++ kept /\ Forall (below_limit limit) kept /\
    forall x, kept_memory kept x <-> x < limit /\ node_memory [range] x.
Proof.
  intros H. unfold PciRootInfo.add_range in H. inv_bind H as r s1 Hr.
  pose proof (fun x => from_memory _ _ _ _ x Hr) as Hx. apply from_inv in Hr as [-> _].
  inv_step H. erewrite bind_Val in H by apply range_type_run. fold (memory_range r) in H.
  destruct (memory_range r) eqn:Em.
  2: { inv_prim H. split; [done|]. exists [r]. split; [done|]. split.
       - apply Forall_singleton. unfold below_limit. by rewrite Em.
       - intros y. rewrite kept_memory_one, Hx, Em. naive_solver. }
  destruct (Z.leb_spec limit (PciRange.cpu_physical r)) as [Hle|Hlt].
  - inv_step H. inv_prim H. split; [by etrans|]. exists []. split; [by rewrite app_nil_r|].
    split; [done|]. intros y. rewrite Hx. unfold kept_memory, in_range. split.
    + by intros (r' & Hr'%elem_of_nil & _).
    + intros (? & _ & ?). lia.
  - inv_prim H. split; [done|]. eexists [_]. split; [done|]. split.
    + apply Forall_singleton. unfold below_limit.
      cbn [PciRange.cpu_physical PciRange.size]. lia.
    + intros y. rewrite kept_memory_one, Hx. unfold in_range, memory_range in *.
      cbn [PciRange.cpu_physical PciRange.size PciRange.flags]. rewrite Em. split; [intros [_ ?]; repeat split; lia|intros (? & _ & ?); split; [done|lia]].
Qed.

Lemma fold_add_range_spec limit rs acc s ranges s' :
  fold_prog (PciRootInfo.add_range limit) acc rs s = (Val ranges, s') ->
  uart_calls s s' /\ exists kept, ranges = acc ++ kept /\ Forall (below_limit limit) kept /\
    forall x, kept_memory kept x <-> x < limit /\ node_memory rs x.
Proof.
  revert acc s. induction rs as [|range rs IH]; intros acc s H; simpl in H.
  { inv_prim H. split; [reflexivity|]. exists []. split; [by rewrite app_nil_r|].
    split; [done|]. intros x. unfold kept_memory, node_memory. split.
    - by intros (r & Hr%elem_of_nil & _).
    - by intros (_ & r & c & p & n & Hr%elem_of_nil & _). }
  inv_bind H as acc1 s1 H1. apply add_range_spec in H1 as (Hu1 & k1 & -> & Hb1 & Hk1).
  apply IH in H as (Hu2 & k2 & -> & Hb2 & Hk2). split; [by etrans|].
  exists (k1 ++ k2). split; [by rewrite app_assoc|]. split; [by apply Forall_app|].
  intros x. rewrite kept_memory_app, Hk1, Hk2, (node_memory_cons range rs). tauto.
Qed.
End trimming.

(** ** Properties *)

Section theorems.
Context {P : PagingCrate} {B : BoardEnv} {I : EmbeddedIo machine} {L : EmbeddedIoLaws machine I}.
Context {C : CrateConsts} {F : FrameAllocator} {FL : FrameAllocatorLaws} {W : PagingLaws} {PC : PagingCalls}.
Implicit Types s : machine.

(** What [init_pci] has done when it returns. *)
Lemma init_pci_run self s root s' :
  init_pci self s = (Val root, s') -> ranges_apart (PciRootInfo.ranges self) ->
  exists new, all_assigned root s s' new /\
    Forall (good_assignment (PciRootInfo.ranges self)) new /\ blocks_apart new.
Proof.
  intros H Hap. unfold init_pci in H. inv_bind H as al s1 Hn.
  destruct (placed_new _ _ _ _ Hn Hap) as [Hp Hu].
  inv_bind H as al' s3 Hf. inv_prim H.
  destruct (for_function_spec _ _ _ _ _ _ _ _ _ Hp Hf) as (new & Hp' & Ha).
  rewrite app_nil_r in Hp'. destruct Hp' as [_ _ Hg Hb]. exists new. split; [|done].
  by apply (all_assigned_uart _ _ _ _ _ Hu).
Qed.

(** C6: when [init_pci] returns, every memory BAR of non-zero size which a
    function of the root reported has been given an address, and nothing else was
    written; each block is naturally aligned and inside a range of the root which
    suits the BAR (a 32-bit BAR is below 4 GiB, a non-prefetchable one is not in a
    prefetchable range), and no two blocks overlap. *)
Theorem init_pci_assigns_bars self s root s' :
  init_pci self s = (Val root, s') -> ranges_apart (PciRootInfo.ranges self) ->
  exists new, all_assigned root s s' new /\
    Forall (good_assignment (PciRootInfo.ranges self)) new /\ blocks_apart new.
Proof. apply init_pci_run. Qed.


(** C24: the memory ranges kept for a root are exactly the addresses which its
    device tree node names and which are below the limit of the page table. *)
Theorem for_fdt_node_keeps_memory node c limit s root s' rs :
  node_ranges node = Ok (Some rs) ->
  PciRootInfo.for_fdt_node node c limit s = (Val root, s') ->
  Forall (below_limit limit) (PciRootInfo.ranges root) /\
  forall x, kept_memory (PciRootInfo.ranges root) x <-> x < limit /\ node_memory rs x.
Proof.
  intros Hrs H. unfold PciRootInfo.for_fdt_node in H.
  do 5 (let a := fresh in inv_step H as a). inv_bind H as u s1 Hlog.
  inv_step H. inv_step H as rs0. inv_step H as rs1. inv_bind H as ranges s2 Hf. inv_prim H.
  rewrite Hrs in *. simplify_eq.
  apply fold_add_range_spec in Hf as (_ & kept & -> & Hb & Hk). done.
Qed.

(** Decoding the type of a range never panics: it only looks at two bits,
    all values of which are known. *)
Lemma range_type_total flags (s : machine) :
  exists t, PciMemoryFlags.range_type flags s = (Val t, s) /\
    range_type_from (Z.shiftr flags 24 mod 4) = Some t.
Proof.
  exists (PciMemoryFlags.flags_type flags). split; [apply range_type_run|].
  pose proof (range_type_run flags s) as H. unfold PciMemoryFlags.range_type in H.
  rewrite range_type_bits in H. by apply expect_inv in H as [-> _].
Qed.

(** The pools of a new allocator are exactly the ranges of their class, and
    no address is in two pools. *)
Lemma allocator_pools ranges s al s' :
  PciBarAllocator.new ranges s = (Val al, s') -> ranges_apart ranges ->
  pools_disjoint al /\ forall p x, pool_free al p x <-> pool_range ranges p x.
Proof.
  intros H Hap. destruct (placed_new _ _ _ _ H Hap) as [Hp _].
  split; [apply Hp|]. by eapply new_free.
Qed.

(** C40: a 64-bit range which ends exactly at, or one byte before, the 4 GiB
    boundary lies entirely within the 32-bit address space but is not treated as
    a 32-bit range: if it is the only one, every 32-bit BAR makes [allocate32]
    panic. *)
Theorem range_up_to_4g_not_32bit r s al s' sz s1 :
  PciBarAllocator.new [r] s = (Val al, s') -> 0 <= PciRange.size r ->
  PciMemoryFlags.flags_type (PciRange.flags r) = Memory64 ->
  PciRange.cpu_physical r = PciRange.bus_address r ->
  2 ^ 32 - 1 <= PciRange.bus_address r + PciRange.size r <= 2 ^ 32 -> 0 < sz ->
  (forall x, in_range r x -> x < 2 ^ 32) /\
  PciBarAllocator.allocate32 sz al s1 = (Panic "Failed to allocate PCI BAR", s1).
Proof.
  intros H Hsz Ht Hbus Hend Hpos. split; [unfold in_range; lia|].
  assert (ranges_apart [r]) as Hap.
  { split; [done|]. split; [|done]. by intros _ r' x ?%elem_of_nil. }
  destruct (new_free _ _ _ _ H Hap) as [_ Hf]. unfold PciBarAllocator.allocate32.
  destruct (alloc_aligned sz sz (PciBarAllocator.memory32 al)) as [[a|] f] eqn:E; [|done].
  apply alloc_aligned_some in E as (_ & Hin & _); [|done..].
  assert (pool_range [r] Pool32 a) as (r' & ->%list_elem_of_singleton & Hp & _).
  { apply Hf. apply Hin. lia. }
  unfold pool_of in Hp. rewrite Ht in Hp. unfold U32_MAX in Hp.
  destruct (Z.ltb_spec (PciRange.bus_address r + PciRange.size r) (2 ^ 32 - 1)); [lia|].
  by destruct (PciMemoryFlags.prefetchable _).
Qed.
End theorems.

(** ** A frame allocator which keeps the promises: a list of free intervals *)

Fixpoint sim_find (sz align : Z) (l : list (Z * Z)) : option Z :=
  match l with
  | [] => None
  | (start, stop) :: l =>
      if align_up start align + sz <=? stop then Some (align_up start align)
      else sim_find sz align l
  end.

Definition sim_cut (a sz : Z) (l : list (Z * Z)) : list (Z * Z) :=
  l ≫= fun i => [(i.1, Z.min i.2 a); (Z.max i.1 (a + sz), i.2)].

#[export] Instance sim_frames : FrameAllocator := {|
  frames := list (Z * Z);
  frames_new _ := [];
  add_frame start stop l := (start, stop) :: l;
  alloc_aligned sz align l :=
    match sim_find sz align l with
    | Some a => (Some a, sim_cut a sz l)
    | None => (None, l)
    end;
|}.

Definition sim_free (l : list (Z * Z)) (x : Z) : Prop := Exists (fun i => i.1 <= x < i.2) l.

Lemma sim_find_spec sz align l a :
  0 < align -> sim_find sz align l = Some a ->
  a mod align = 0 /\ forall x, a <= x < a + sz -> sim_free l x.
Proof.
  intros Hal. induction l as [|[start stop] l IH]; simpl; [done|].
  destruct (Z.leb_spec (align_up start align + sz) stop) as [Hle|].
  - intros [= <-]. unfold align_up, align_down in *. split.
    + rewrite Zminus_mod_idemp_r, Z.sub_diag. by apply Z.mod_0_l; lia.
    + intros x Hx. left. simpl. pose proof (Z.mod_pos_bound (start + align - 1) align Hal). lia.
  - intros [Hm Hf]%IH. split; [done|]. intros x Hx. right. by apply Hf.
Qed.

Lemma sim_cut_spec a sz l x :
  0 < sz -> sim_free (sim_cut a sz l) x -> sim_free l x /\ ~ (a <= x < a + sz).
Proof.
  intros Hsz. induction l as [|[start stop] l IH]; simpl; [by intros ?%Exists_nil|].
  unfold sim_free in *. rewrite !Exists_cons. simpl. intros [H|[H|H]].
  - split; [left|]; lia.
  - split; [left|]; lia.
  - apply IH in H as [? ?]. auto.
Qed.

#[export] Instance sim_frames_laws : FrameAllocatorLaws (F := sim_frames).
Proof.
  refine {| free (l : @frames sim_frames) x := sim_free l x |}; simpl.
  - by intros order x ?%Exists_nil.
  - intros f start stop _ _ x. unfold sim_free. rewrite Exists_cons. simpl. tauto.
  - intros f sz align a f' Hsz Hal E. destruct (sim_find sz align f) as [a'|] eqn:Ef; [|done].
    injection E as -> <-. apply sim_find_spec in Ef as [Hm Hf]; [|done].
    split; [done|]. split; [done|]. intros x. by apply sim_cut_spec.
  - intros f sz align f' E x Hx. destruct (sim_find sz align f); [done|]. by injection E as ->.
Defined.

(** ** Witnesses *)

(** A root with a 32-bit and a 64-bit prefetchable range, and two functions. *)
Definition sim_root : PciRootInfo.t :=
  PciRootInfo.mkInfo Ecam 0x4010000000
    [PciRange.mk 0x10000000 0x10000000 0x2eff0000 0x02000000;
     PciRange.mk 0x7000000000 0x7000000000 0x1000000000 0x43000000].

Definition sim_bars : list (Z * list (option BarInfo)) :=
  [(8, [Some (BarMemory Width32 false 0 0x1000); None;
        Some (BarMemory Width64 true 0 0x4000)]);
   (16, [Some (BarIO 0 32); Some (BarMemory Width32 false 0 0x100000)])].

Definition sim_with_pci (input : list byte) : BoardEnv :=
  sim_env (mkSimConfig input 0 false None sim_bars []).
Definition with_pci : BoardEnv := sim_with_pci [].

Lemma sim_root_apart : ranges_apart (PciRootInfo.ranges sim_root).
Proof.
  simpl. repeat split; try lia; intros _.
  - intros r' x ->%list_elem_of_singleton _. unfold in_range. simpl. lia.
  - by intros r' x ?%elem_of_nil.
Qed.

Section witnesses.
#[local] Existing Instance with_pci.

Lemma init_pci_assigns_bars_witness :
  exists new, all_assigned 0x4010000000 sim_machine (init_pci sim_root sim_machine).2 new /\
    Forall (good_assignment (PciRootInfo.ranges sim_root)) new /\ blocks_apart new.
Proof.
  apply (init_pci_assigns_bars sim_root sim_machine 0x4010000000
           (init_pci sim_root sim_machine).2).
  - apply run_fst. vm_compute. reflexivity.
  - exact sim_root_apart.
Defined.

Definition sim_root_mapped : IdMap :=
  match (PciRootInfo.map_ranges sim_root sim_idmap sim_machine).1 with
  | Val i => i | _ => sim_idmap end.


(** The node of the same root, below a limit which cuts the second range. *)
Definition sim_pci_ranges : list Range :=
  [mkRange (Ok (0x02000000 * 2 ^ 64 + 0x10000000)) (Ok 0x10000000) (Ok 0x2eff0000);
   mkRange (Ok (0x43000000 * 2 ^ 64 + 0x7000000000)) (Ok 0x7000000000) (Ok 0x2000000000)].

Definition sim_pci_node : FdtNode :=
  mkFdtNode "pcie@10000000" None (Ok (Some [mkReg (Ok 0x4010000000) (Ok 0x10000000)]))
    (Ok (Some sim_pci_ranges)) (fun _ => None) [].

Definition sim_found : PciRootInfo.t :=
  match (PciRootInfo.for_fdt_node sim_pci_node Ecam (2 ^ 39) sim_machine).1 with
  | Val i => i | _ => sim_root end.

Lemma for_fdt_node_keeps_memory_witness :
  Forall (below_limit (2 ^ 39)) (PciRootInfo.ranges sim_found) /\
  forall x, kept_memory (PciRootInfo.ranges sim_found) x <-> x < 2 ^ 39 /\ node_memory sim_pci_ranges x.
Proof.
  apply (for_fdt_node_keeps_memory sim_pci_node Ecam (2 ^ 39) sim_machine sim_found
           (PciRootInfo.for_fdt_node sim_pci_node Ecam (2 ^ 39) sim_machine).2).
  - reflexivity.
  - apply run_fst. reflexivity.
Defined.

Definition sim_allocator (ranges : list PciRange.t) : PciBarAllocator.t :=
  match (PciBarAllocator.new ranges sim_machine).1 with
  | Val al => al | _ => PciBarAllocator.mkAllocator [] [] [] end.

Lemma allocator_pools_witness :
  pools_disjoint (sim_allocator (PciRootInfo.ranges sim_root)) /\
  forall p x, pool_free (sim_allocator (PciRootInfo.ranges sim_root)) p x <->
    pool_range (PciRootInfo.ranges sim_root) p x.
Proof.
  apply (allocator_pools (PciRootInfo.ranges sim_root) sim_machine
           (sim_allocator (PciRootInfo.ranges sim_root))
           (PciBarAllocator.new (PciRootInfo.ranges sim_root) sim_machine).2).
  - apply run_fst. reflexivity.
  - exact sim_root_apart.
Defined.

Definition sim_high_range : PciRange.t := PciRange.mk 0xc0000000 0xc0000000 0x40000000 0x03000000.

Lemma range_up_to_4g_not_32bit_witness :
  (forall x, in_range sim_high_range x -> x < 2 ^ 32) /\
  PciBarAllocator.allocate32 0x1000 (sim_allocator [sim_high_range]) sim_machine =
    (Panic "Failed to allocate PCI BAR", sim_machine).
Proof.
  apply (range_up_to_4g_not_32bit sim_high_range sim_machine (sim_allocator [sim_high_range])
           (PciBarAllocator.new [sim_high_range] sim_machine).2 0x1000 sim_machine).
  - apply run_fst. reflexivity.
  - simpl. lia.
  - reflexivity.
  - reflexivity.
  - simpl. lia.
  - lia.
Defined.
End witnesses.
