(* ===== verification/PciInit.v ===== *)
(** * PciInit: [init_pci] returns

    [init_pci] panics when a BAR cannot be placed.  It does not, whatever the functions of
    the bus ask for and in whatever order, if the 32-bit memory of the root has room for as
    many blocks of the size of the largest BAR as there are BARs: every block is naturally
    aligned and so uses up at most one of these. *)

From S2P Require Import Prelude Text Extern Machine Sim Console Returns Pagetable Pci.

Definition pow2 (n : Z) : Prop := exists k, 0 <= k /\ n = 2 ^ k.

Lemma pow2_pos n : pow2 n -> 0 < n.
Proof. intros (k & Hk & ->). lia. Qed.

Lemma pow2_divide m n : pow2 m -> pow2 n -> m <= n -> (m | n).
Proof.
  intros (j & Hj & ->) (k & Hk & ->) Hle. exists (2 ^ (k - j)).
  rewrite <-Z.pow_add_r by (apply Z.pow_le_mono_r_iff in Hle; lia). f_equal. lia.
Qed.

(** What is documented of the buddy system: a naturally aligned block of an added frame is
    available until a part of it is allocated, and an allocation for which there is an
    available block succeeds.  The smaller of the two orders in use is 32. *)
Class FrameAllocatorComplete `{F : FrameAllocator} `{FL : !FrameAllocatorLaws} := {
  block : frames -> Z -> Z -> Prop;
  block_add f start stop a n :
    (forall x, start <= x < stop -> ~ free f x) -> pow2 n -> n <= 2 ^ 31 -> (n | a) ->
    start <= a -> a + n <= stop -> block (add_frame start stop f) a n;
  block_add_kept f start stop a n :
    (forall x, start <= x < stop -> ~ free f x) -> start <= stop ->
    block f a n -> block (add_frame start stop f) a n;
  block_alloc f sz a f' b n :
    pow2 sz -> alloc_aligned sz sz f = (Some a, f') -> pow2 n -> (n | b) -> block f b n ->
    b + n <= a \/ a + sz <= b -> block f' b n;
  alloc_complete f sz b n :
    pow2 sz -> pow2 n -> sz <= n -> (n | b) -> block f b n ->
    exists a f', alloc_aligned sz sz f = (Some a, f');
}.

(** ** Slots

    [slots] blocks of [slot_size] bytes, one after the other. *)

Section slots.
Context (base slot_size : Z) (slots : nat).
Context (Hsize : pow2 slot_size) (Hbase : (slot_size | base)).

Definition slot (i : Z) : Z := base + i * slot_size.

(** The slot in which a block begins. *)
Definition slot_of (t : Z * Z) : Z := (t.1 - base) / slot_size.

Definition fits (t : Z * Z) : Prop := pow2 t.2 /\ t.2 <= slot_size /\ (t.2 | t.1).

Lemma slot_aligned i : (slot_size | slot i).
Proof. unfold slot. by apply Z.divide_add_r; [|apply Z.divide_factor_r]. Qed.

(** A naturally aligned block which is not larger is in one slot only. *)
Lemma fits_one_slot t i :
  fits t -> slot_of t <> i -> slot i + slot_size <= t.1 \/ t.1 + t.2 <= slot i.
Proof.
  destruct t as [a n]. intros (Hn & Hle & Hdiv) Hi. simpl in *. unfold slot, slot_of in *. simpl in Hi.
  pose proof (pow2_pos _ Hsize) as Hpos.
  destruct (pow2_divide _ _ Hn Hsize Hle) as [c Hc]. pose proof (pow2_pos _ Hn) as Hnp.
  pose proof (Z.div_mod (a - base) slot_size ltac:(lia)) as Hdm.
  pose proof (Z.mod_pos_bound (a - base) slot_size Hpos) as Hm.
  set (q := (a - base) / slot_size) in *. set (r := (a - base) mod slot_size) in *.
  assert ((n | r)) as [d Hd].
  { replace r with (a - base - slot_size * q) by lia. destruct Hbase as [e He].
    apply Z.divide_sub_r; [apply Z.divide_sub_r; [done|]|].
    - rewrite He, Hc. exists (e * c). lia.
    - exists (c * q). rewrite Hc. lia. }
  assert (r + n <= slot_size).
  { assert (d < c) by nia. nia. }
  destruct (Z.lt_trichotomy q i) as [|[|]]; [right; nia|done|left; nia].
Qed.

(** Fewer blocks than slots leave a slot free. *)
Lemma free_slot (T : list (Z * Z)) :
  (length T < slots)%nat -> exists i, 0 <= i < Z.of_nat slots /\ forall t, t ∈ T -> slot_of t <> i.
Proof.
  intros Hlt. destruct (decide (Exists (fun i => i ∉ slot_of <$> T) (Z.of_nat <$> seq 0 slots))) as [H|H].
  - apply Exists_exists in H as (i & (j & -> & Hj)%list_elem_of_fmap & Hi). exists (Z.of_nat j).
    apply elem_of_seq in Hj. split; [lia|]. intros t Ht Hs. apply Hi. rewrite <-Hs.
    by apply list_elem_of_fmap_2.
  - exfalso. assert (Z.of_nat <$> seq 0 slots ⊆+ slot_of <$> T) as Hsub%submseteq_length.
    { apply NoDup_submseteq; [apply NoDup_fmap_2, NoDup_seq; apply _|].
      intros i Hi. destruct (decide (i ∈ slot_of <$> T)); [done|].
      destruct H. apply Exists_exists. eauto. }
    rewrite !length_fmap, length_seq in Hsub. lia.
Qed.

Context `{FC : FrameAllocatorComplete}.

(** At most [k] slots of [f] are in use. *)
Definition room (k : nat) (f : frames) : Prop :=
  (forall x, free f x -> x <= U32_MAX) /\
  exists T, (length T <= k)%nat /\ Forall fits T /\
    forall i, 0 <= i < Z.of_nat slots -> (forall t, t ∈ T -> slot_of t <> i) ->
      block f (slot i) slot_size.

Lemma room_le k k' f : (k <= k')%nat -> room k f -> room k' f.
Proof. intros Hk (Hlow & T & HT & H). split; [done|]. exists T. split; [lia|done]. Qed.

Lemma alloc_room k f sz :
  (k < slots)%nat -> pow2 sz -> sz <= slot_size -> room k f ->
  exists a f', alloc_aligned sz sz f = (Some a, f') /\ a <= U32_MAX /\ room (S k) f'.
Proof.
  intros Hk Hsz Hle (Hlow & T & HT & Hfit & Hblock).
  destruct (free_slot T) as (i & Hi & Hout); [lia|].
  destruct (alloc_complete f sz (slot i) slot_size) as (a & f' & E);
    [done..|apply slot_aligned|by apply Hblock|].
  exists a, f'. split; [done|]. pose proof (pow2_pos _ Hsz) as Hpos.
  destruct (alloc_aligned_some _ _ _ _ _ Hpos Hpos E) as (Hmod & Hfree & Hfree').
  split; [apply Hlow, Hfree; lia|]. split; [intros x Hx; by apply Hlow, Hfree'|].
  assert (fits (a, sz)) as Hfa.
  { split; [done|]. split; [done|]. simpl. apply Z.mod_divide; [lia|done]. }
  exists ((a, sz) :: T). split; [simpl; lia|]. split; [by constructor|].
  intros j Hj Hout'. eapply block_alloc; [exact Hsz|exact E|done|apply slot_aligned| |].
  - apply Hblock; [done|]. intros t Ht. apply Hout'. by right.
  - destruct (fits_one_slot (a, sz) j Hfa) as [|]; [apply Hout'; left|by left|by right].
Qed.
End slots.

(** ** The allocator *)

(** What [PciBarAllocator::new] asserts of a range. *)
Definition range_accepted (r : PciRange.t) : Prop :=
  memory_range r = true ->
  PciRange.cpu_physical r = PciRange.bus_address r /\
  PciRange.cpu_physical r + PciRange.size r < 2 ^ 64.

(** The BARs which [allocate_bars] can place, none of them larger than [slot_size]. *)
Definition bar_accepted (slot_size : Z) (bar : option BarInfo) : Prop :=
  match bar with
  | Some (BarMemory address_type _ _ sz) =>
      0 < sz -> address_type <> Below1MiB /\ pow2 sz /\ sz <= slot_size
  | _ => True
  end.

(** The range [r0] has [slots] slots. *)
Record has_slots (r0 : PciRange.t) (base slot_size : Z) (slots : nat) : Prop := {
  slots_pow2 : pow2 slot_size;
  slots_max : slot_size <= 2 ^ 31;
  slots_aligned : (slot_size | base);
  slots_pool : pool_of r0 = Some Pool32;
  slots_start : PciRange.cpu_physical r0 <= base;
  slots_end : base + Z.of_nat slots * slot_size <= PciRange.cpu_physical r0 + PciRange.size r0;
}.

Section allocator.
Context {P : PagingCrate} {B : BoardEnv} {I : EmbeddedIo machine} {L : EmbeddedIoLaws machine I}.
Context {C : CrateConsts} {F : FrameAllocator} {FL : FrameAllocatorLaws}.
Context {FC : FrameAllocatorComplete} {UA : UartAccepts}.
Implicit Types s : machine.
Implicit Types al : PciBarAllocator.t.

Lemma returns_range_type flags :
  returns (PciMemoryFlags.range_type flags) (eq (PciMemoryFlags.flags_type flags)).
Proof. intros s _. eexists _, _. split; [apply range_type_run|]. by split. Qed.

Lemma returns_add al r : range_accepted r -> returns (PciBarAllocator.add al r) (fun _ => True).
Proof.
  unfold range_accepted, memory_range. intros Hr. unfold PciBarAllocator.add.
  eapply returns_bind; [apply returns_range_type|]. intros t <-.
  destruct (PciMemoryFlags.flags_type _); [by apply returns_ret..| |];
    destruct (Hr eq_refl) as [Heq Hlt]; apply Z.eqb_eq in Heq as Heqb; apply bind_assert; try done;
    unfold PciBarAllocator.add_range_frame.
  - apply bind_returns; [apply returns_when; [intros _; returns|done]|intros _].
    apply bind_returns; [by returns|intros ?]. by returns.
  - apply bind_checked_add; [lia|].
    destruct (_ <? _); [|destruct (PciMemoryFlags.prefetchable _)];
      (apply bind_returns; [by returns|intros ?]); by returns.
Qed.

Lemma returns_new ranges :
  Forall range_accepted ranges -> returns (PciBarAllocator.new ranges) (fun _ => True).
Proof.
  intros Hr. apply returns_fold; [|done]. eapply Forall_impl; [exact Hr|].
  intros r Hacc al _. by apply returns_add.
Qed.

(** The slots of a range are available when it has been added. *)
Lemma fold_add_block l al s al' s' a n :
  fold_prog PciBarAllocator.add al l s = (Val al', s') -> ranges_apart l ->
  (forall r q x, r ∈ l -> memory_range r = true -> in_range r x -> ~ pool_free al q x) ->
  pow2 n -> n <= 2 ^ 31 -> (n | a) ->
  block (get_pool Pool32 al) a n \/
    (exists r, r ∈ l /\ pool_of r = Some Pool32 /\ PciRange.cpu_physical r <= a /\
       a + n <= PciRange.cpu_physical r + PciRange.size r) ->
  block (get_pool Pool32 al') a n.
Proof.
  intros H Hap Hout Hn Hmax Hdiv. revert al s H Hout.
  induction l as [|r l IH]; intros al s H Hout Hb; simpl in H.
  { inv_prim H. destruct Hb as [|(r & ?%elem_of_nil & _)]; done. }
  destruct Hap as (Hsz & Hr & Hap). inv_bind H as al1 s1 H1.
  assert (memory_range r = true -> forall q x, in_range r x -> ~ pool_free al q x) as Hout0.
  { intros Hm q x. apply Hout; [by left|done]. }
  pose proof (add_free _ _ _ _ _ H1 Hsz Hout0) as Hf. apply add_inv in H1 as [_ H1].
  apply (IH Hap al1 s1 H).
  - intros r' q x Hr' Hm' Hx. rewrite Hf. intros [Hfr|[Hp Hx']].
    + by apply (Hout r' q x); [right| | |].
    + eapply (Hr ltac:(rewrite pool_of_memory; apply bool_decide_true; eauto)); eauto.
  - assert (pool_of r = Some Pool32 -> forall x, in_range r x -> ~ free (get_pool Pool32 al) x) as Hd.
    { intros Hp x. apply (Hout0 ltac:(rewrite pool_of_memory; apply bool_decide_true; eauto) Pool32). }
    unfold in_range in Hd. rewrite H1. destruct Hb as [Hb|(r' & [->|Hr']%elem_of_cons & Hp & Hlo & Hhi)].
    + left. destruct (pool_of r) as [p|]; [|done]. rewrite get_set_pool.
      destruct (decide (Pool32 = p)) as [<-|]; [|done]. unfold range_frame.
      apply block_add_kept; [by apply Hd|lia|done].
    + left. rewrite Hp in *. rewrite get_set_pool, decide_True by done.
      apply block_add; [by apply Hd|done..].
    + right. eauto.
Qed.

Lemma new_room ranges r0 base slot_size slots s al s' :
  PciBarAllocator.new ranges s = (Val al, s') -> ranges_apart ranges -> r0 ∈ ranges ->
  has_slots r0 base slot_size slots ->
  (forall r, r ∈ ranges -> pool_of r = Some Pool32 ->
     PciRange.cpu_physical r + PciRange.size r <= 2 ^ 32) ->
  room base slot_size slots 0 (PciBarAllocator.memory32 al).
Proof.
  intros H Hap Hr0 Hs Hlow. destruct (new_free _ _ _ _ H Hap) as [_ Hf]. split.
  - intros x Hx. apply (Hf Pool32) in Hx as (r & Hr & Hp & Hx).
    specialize (Hlow r Hr Hp). unfold in_range, U32_MAX in *. lia.
  - exists []. split; [done|]. split; [done|]. intros i Hi _. destruct Hs as [Hpow Hmax Hal Hpool Hlo Hhi].
    eapply (fold_add_block _ _ _ _ _ (slot base slot_size i) slot_size H Hap); try done.
    + intros r q x _ _ _ Hn. destruct q; by apply free_new in Hn.
    + by apply slot_aligned.
    + right. exists r0. pose proof (pow2_pos _ Hpow). unfold slot.
      repeat split; try done; nia.
Qed.
End allocator.

(** ** The functions of a bus *)

(** The BARs of function [df]. *)
Definition bars_accepted `{B : BoardEnv} (root slot_size df : Z) : Prop :=
  forall h, exists bars, env_pci_bars h root df = Ok bars /\ (length bars <= 6)%nat /\
    Forall (bar_accepted slot_size) bars.

(** The answers of a root with at most [functions] functions. *)
Record bus_accepted `{B : BoardEnv} (root slot_size : Z) (functions : nat) : Prop := {
  bus_ends h n : (functions <= n)%nat -> env_pci_bus_next h root n = None;
  bus_bars h n df text : env_pci_bus_next h root n = Some (df, text) ->
    bars_accepted root slot_size df;
}.

Section bars.
Context {P : PagingCrate} {B : BoardEnv} {I : EmbeddedIo machine} {L : EmbeddedIoLaws machine I}.
Context {C : CrateConsts} {F : FrameAllocator} {FL : FrameAllocatorLaws}.
Context {FC : FrameAllocatorComplete} {UA : UartAccepts}.
Context (base slot_size : Z) (slots : nat).
Context (Hsize : pow2 slot_size) (Hmax : slot_size <= 2 ^ 31) (Hbase : (slot_size | base)).
Implicit Types al : PciBarAllocator.t.

(** At most [k] slots of the 32-bit pool are in use. *)
Definition al_room (k : nat) al : Prop := room base slot_size slots k (PciBarAllocator.memory32 al).

Lemma returns_allocate32 k sz al :
  (k < slots)%nat -> pow2 sz -> sz <= slot_size -> al_room k al ->
  returns (PciBarAllocator.allocate32 sz al) (fun r => al_room (S k) r.2).
Proof.
  intros Hk Hsz Hle Hr. unfold PciBarAllocator.allocate32.
  destruct (alloc_room base slot_size slots Hsize Hbase k _ sz Hk Hsz Hle Hr)
    as (a & f & -> & Ha & Hr'). returns; [|done].
  by rewrite (proj2 (Z.leb_le _ _) Ha).
Qed.

(** The 64-bit pools are tried first, and the 32-bit pool is what they fall back on. *)
Lemma returns_allocate64 k sz pf al :
  (k < slots)%nat -> pow2 sz -> sz <= slot_size -> al_room k al ->
  returns (PciBarAllocator.allocate64 sz pf al) (fun r => al_room (S k) r.2).
Proof.
  intros Hk Hsz Hle Hr.
  assert (forall al, al_room k al ->
    returns (PciBarAllocator.allocate64_or_32 sz al) (fun r => al_room (S k) r.2)) as H64.
  { clear al Hr. intros al Hr. unfold PciBarAllocator.allocate64_or_32.
    destruct (alloc_aligned sz sz _) as [[a|] f]; [|by apply returns_allocate32].
    apply returns_ret. eapply room_le; [|exact Hr]. lia. }
  unfold PciBarAllocator.allocate64. destruct pf; [|by apply H64].
  destruct (alloc_aligned sz sz _) as [[a|] f]; [|by apply H64].
  apply returns_ret. eapply room_le; [|exact Hr]. lia.
Qed.

Lemma pow2_layout sz : pow2 sz -> sz <= 2 ^ 31 -> layout_ok sz sz = true.
Proof.
  intros Hp Hle. pose proof (pow2_pos _ Hp). unfold layout_ok. destruct Hp as (k & Hk & ->).
  rewrite !andb_true_iff. split; [split|]; [lia| |].
  - apply Z.eqb_eq. replace (2 ^ k - 1) with (Z.ones k) by (rewrite Z.ones_equiv; lia).
    rewrite Z.land_ones by done. apply Z.mod_same. lia.
  - apply Z.leb_le. lia.
Qed.

Lemma returns_allocate_bar k root df al bar :
  (k < slots)%nat -> bar_accepted slot_size bar.2 -> al_room k al ->
  returns (allocate_bar root df al bar) (al_room (S k)).
Proof.
  destruct bar as [i [bar|]]; intros Hk Hacc Hr; unfold allocate_bar; simpl.
  2: { apply returns_ret. eapply room_le; [|exact Hr]. lia. }
  assert (al_room (S k) al) as Hr' by (eapply room_le; [|exact Hr]; lia).
  apply bind_returns; [by returns|intros _].
  destruct bar as [ty pf a sz|]; [|by returns]. destruct (Z.ltb_spec 0 sz) as [Hpos|]; [|by returns].
  destruct (Hacc Hpos) as (Hty & Hsz & Hle).
  apply bind_returns; [apply returns_layout; [apply pow2_layout; [done|lia]|done]|intros _].
  destruct ty; [| |done].
  - apply bind_returns; [apply returns_when; [intros _; by returns|done]|intros _].
    eapply returns_bind; [by apply (returns_allocate32 k)|]. intros [b al'] Hal'. by returns.
  - eapply returns_bind; [by apply (returns_allocate64 k)|]. intros [b al'] Hal'. by returns.
Qed.

Lemma returns_fold_bars k root df al bars :
  (k + length bars <= slots)%nat -> Forall (fun b => bar_accepted slot_size b.2) bars ->
  al_room k al -> returns (fold_prog (allocate_bar root df) al bars) (al_room (k + length bars)).
Proof.
  intros Hk Hb. revert k al Hk. induction Hb as [|bar bars Hbar _ IH]; intros k al Hk Hr; simpl in *.
  { apply returns_ret. by rewrite Nat.add_0_r. }
  eapply returns_bind; [apply (returns_allocate_bar k); [lia|done..]|]. intros al' Hr'.
  rewrite <-Nat.add_succ_comm. apply IH; [lia|done].
Qed.

Context (root : Z) (functions : nat) (Hbus : bus_accepted root slot_size functions).
Context (Hslots : (6 * functions <= slots)%nat).

Lemma returns_allocate_bars k df al :
  (k + 6 <= slots)%nat -> bars_accepted root slot_size df -> al_room k al ->
  returns (allocate_bars root al df) (al_room (k + 6)).
Proof.
  intros Hk Hdf Hr. unfold allocate_bars, pci_bars.
  apply (returns_bind _ _ (fun r => exists bars, r = Ok bars /\ (length bars <= 6)%nat /\
    Forall (bar_accepted slot_size) bars)).
  { by apply returns_ask. }
  intros r (bars & -> & Hlen & Hb). apply (bind_unwrap_ok _ bars); [done|].
  set (l := zip (seq 0 (length bars)) bars).
  assert (length l = length bars) as Hl by (unfold l; rewrite length_zip_with, length_seq; lia).
  eapply returns_bind; [apply (returns_fold_bars k); [lia| |done]|].
  { apply Forall_forall. intros [i b] Hin%elem_of_zip_r. by rewrite Forall_forall in Hb; apply Hb. }
  intros al' Hr'. returns. eapply room_le; [|exact Hr']. lia.
Qed.

Lemma returns_for_function fuel n al :
  (n <= functions < fuel + n)%nat -> al_room (6 * n) al ->
  returns (for_function root (fun al '(df, text) =>
    do! info ("Initialising bars for " +:+ df_display df +:+ " " +:+ text) in
    allocate_bars root al df) fuel n al) (fun _ => True).
Proof.
  revert n al. induction fuel as [|fuel IH]; intros n al Hn Hr; cbn [for_function]; [lia|].
  apply (returns_bind _ _ (fun r => forall df text, r = Some (df, text) ->
    (n < functions)%nat /\ bars_accepted root slot_size df)).
  { apply returns_ask. intros h df text Hr1. split; [|by eapply bus_bars].
    destruct (decide (n < functions)%nat); [done|]. rewrite (bus_ends _ _ _ Hbus) in Hr1; [done|lia]. }
  intros [[df text]|] Hdf; [|by apply returns_ret]. destruct (Hdf df text eq_refl) as [Hlt Hb].
  eapply returns_bind; [|intros al' Hr'; apply IH; [lia|exact Hr']].
  apply bind_returns; [by returns|intros _].
  replace (6 * S n)%nat with (6 * n + 6)%nat by lia. apply returns_allocate_bars; [lia|done..].
Qed.
End bars.

(** ** [init_pci] *)

Section init.
Context {P : PagingCrate} {B : BoardEnv} {I : EmbeddedIo machine} {L : EmbeddedIoLaws machine I}.
Context {C : CrateConsts} {F : FrameAllocator} {FL : FrameAllocatorLaws}.
Context {FC : FrameAllocatorComplete} {UA : UartAccepts}.
Implicit Types s : machine.

(** A root whose ranges suit the functions of its bus. *)
Record root_accepted (self : PciRootInfo.t) : Prop := {
  root_ranges : Forall range_accepted (PciRootInfo.ranges self);
  root_apart : ranges_apart (PciRootInfo.ranges self);
  root_low r : r ∈ PciRootInfo.ranges self -> pool_of r = Some Pool32 ->
    PciRange.cpu_physical r + PciRange.size r <= 2 ^ 32;
  root_room : exists r0 base slot_size functions,
    r0 ∈ PciRootInfo.ranges self /\ has_slots r0 base slot_size (6 * functions) /\
    (functions < bus_calls)%nat /\ bus_accepted (PciRootInfo.mmio_base self) slot_size functions;
}.

Lemma returns_init_pci self :
  root_accepted self -> returns (init_pci self) (eq (PciRootInfo.mmio_base self)).
Proof.
  intros [Hr Hap Hlow (r0 & base & slot_size & functions & Hr0 & Hs & Hf & Hbus)] s Hl.
  unfold init_pci. destruct (returns_new _ Hr s Hl) as (al & s1 & E1 & Hc1 & _).
  pose proof (new_room _ _ _ _ _ _ _ _ E1 Hap Hr0 Hs Hlow) as Hroom.
  destruct Hs as [Hpow Hmax Hal _ _ _].
  destruct (returns_for_function base slot_size (6 * functions) Hpow Hmax Hal
    (PciRootInfo.mmio_base self) functions Hbus ltac:(lia) bus_calls 0 al ltac:(lia) Hroom s1)
    as (al' & s2 & E2 & Hc2 & _); [by rewrite (calls_only_held _ _ Hc1)|].
  erewrite bind_Val by exact E1. eexists _, s2.
  split; [unfold enumerate_bus; by erewrite bind_Val by exact E2|]. split; [by etrans|done].
Qed.

End init.

(** ** The simulated allocator is complete *)

Definition sim_block (l : list (Z * Z)) (a n : Z) : Prop :=
  Exists (fun i => i.1 <= a /\ a + n <= i.2) l.

Lemma sim_find_complete sz l b n :
  pow2 sz -> pow2 n -> sz <= n -> (n | b) -> sim_block l b n -> exists a, sim_find sz sz l = Some a.
Proof.
  intros Hsz Hn Hle Hb. pose proof (pow2_pos _ Hsz) as Hpos. destruct (pow2_divide _ _ Hsz Hn Hle) as [c Hc].
  induction 1 as [[start stop] l [Hlo Hhi]|[start stop] l _ IH]; simpl in *.
  - destruct (Z.leb_spec (align_up start sz + sz) stop); [by eexists|]. exfalso.
    destruct Hb as [e He]. unfold align_up, align_down in *.
    pose proof (Z.div_mod (start + sz - 1) sz ltac:(lia)) as Hdm.
    pose proof (Z.mod_pos_bound (start + sz - 1) sz Hpos) as Hm.
    set (q := (start + sz - 1) / sz) in *. assert (q <= e * c) by nia. nia.
  - destruct (_ <=? stop); [by eexists|done].
Qed.

Lemma sim_block_cut a sz l b n :
  sim_block l b n -> b + n <= a \/ a + sz <= b -> sim_block (sim_cut a sz l) b n.
Proof.
  intros Hb Hout. unfold sim_cut. induction Hb as [[start stop] l [Hlo Hhi]|i l _ IH]; simpl in *.
  - destruct Hout; [left|right; left]; simpl; lia.
  - right. right. exact IH.
Qed.

#[export] Instance sim_frames_complete : FrameAllocatorComplete (F := sim_frames).
Proof.
  refine {| block (l : @frames sim_frames) a n := sim_block l a n |}; simpl.
  - intros f start stop a n _ _ _ _ Hlo Hhi. by left.
  - intros f start stop a n _ _ Hb. by right.
  - intros f sz a f' b n _ E _ _ Hb Hout. destruct (sim_find sz sz f); [|done].
    injection E as -> <-. by apply sim_block_cut.
  - intros f sz b n Hsz Hn Hle Hdiv Hb.
    destruct (sim_find_complete sz f b n Hsz Hn Hle Hdiv Hb) as (a & ->). by eexists _, _.
Defined.

(** ** Witness: the root of the simulated board *)

Section witness.
Context (input : list byte).
#[local] Instance sim_pci_board : BoardEnv := sim_with_pci input.

Lemma sim_bus : bus_accepted (PciRootInfo.mmio_base sim_root) 0x100000 2.
Proof.
  split.
  - intros h [|[|n]] Hn; [lia|lia|done].
  - intros h [|[|n]] df text [= <- <-] h'; (eexists; split; [reflexivity|]);
      (split; [simpl; lia|]); rewrite ?Forall_cons, Forall_nil; simpl; repeat split; try done;
      [by exists 12|by exists 14|by exists 20].
Qed.

Lemma sim_root_accepted : root_accepted sim_root.
Proof.
  split.
  - repeat constructor; simpl; lia.
  - exact sim_root_apart.
  - intros r [->|[->|[]%elem_of_nil]%elem_of_cons]%elem_of_cons Hp; [simpl; lia|done].
  - exists (PciRange.mk 0x10000000 0x10000000 0x2eff0000 0x02000000), 0x10000000, 0x100000, 2%nat.
    split; [by left|]. split; [|split; [|exact sim_bus]].
    + split; simpl; try lia; [by exists 20|by exists 0x100|done].
    + unfold bus_calls. lia.
Qed.
End witness.

#[export] Instance sim_with_pci_accepts input : UartAccepts (B := sim_with_pci input).
Proof. by apply sim_accepts. Qed.

Section placed.
#[local] Instance placed_board : BoardEnv := sim_with_pci [].

End placed.
