(* ===== verification/FdtMap.v ===== *)
(** * FdtMap: mapping the regions of the device tree ([main.rs])

    [is_compatible], [fdt_to_pagetable_region], [map_fdt_regions] and
    [map_fdt_node_regions], with the list of regions which they map as the
    abstract specification. *)

From S2P Require Import Prelude Text Extern Machine Sim Console Cpus Interrupts Pagetable Pci.

Section fdt_map.
Context {P : PagingCrate} {Q : Surroundings} {B : BoardEnv} {I : EmbeddedIo machine} {C : CrateConsts}.

Definition is_compatible (node : FdtNode) (with_ : list string) : bool :=
  match node_compatible node with
  | Some compatible => existsb (fun c => bool_decide (c ∈ with_)) compatible
  | None => false
  end.

Definition fdt_to_pagetable_region (region : Reg) : K MemoryRegion :=
  let! address := unwrap_ok (reg_address region) in
  let! size := unwrap_ok (reg_size region) in
  let! stop := checked_add 64 address size in
  ret (region_new address stop).

(** The devices whose registers are mapped. *)
Definition MAPPED_DEVICES : list string :=
  [PCI_COMPATIBLE; PCIE_COMPATIBLE; "arm,gic-v3"; "arm,gic-v3-its"; "arm,pl011"; "arm,pl031";
   "arm,pl061"; "arm,primecell"; "ns16550a"; "virtio,mmio"].

Definition map_memory_reg (idmap : IdMap) (fdt_region : Reg) : K IdMap :=
  let! region := fdt_to_pagetable_region fdt_region in
  let! size := unwrap_ok (reg_size fdt_region) in
  do! info ("Mapping memory region " +:+ region_debug region +:+ " from FDT ("
            +:+ fmt_dec (size / (1024 * 1024)) +:+ " MiB)...") in
  let! '(r, idmap') := IdMap.map_memory idmap region in
  do! unwrap_ok r in
  ret idmap'.

(** The argument [node.compatible().unwrap().next().unwrap()] of a message. *)
Definition first_compatible (node : FdtNode) : K string :=
  let! compatible := unwrap (node_compatible node) in
  unwrap (head compatible).

Definition map_device_reg (node : FdtNode) (idmap : IdMap) (fdt_region : Reg) : K IdMap :=
  let! region := fdt_to_pagetable_region fdt_region in
  do! Logger.log_with LInfo
        (let! compatible := first_compatible node in
         ret ("Mappping " +:+ region_display region +:+ " for " +:+ node_name node
              +:+ ", compatible=" +:+ compatible)) in
  let! '(r, idmap') := IdMap.map_device idmap region in
  do! unwrap_ok r in
  ret idmap'.

(** The part of [map_fdt_node_regions] for the node itself. *)
Definition map_node (node : FdtNode) (idmap : IdMap) : K IdMap :=
  if is_compatible node MAPPED_DEVICES then
    let! regs := unwrap_ok (node_reg node) in
    let! regs := unwrap regs in
    fold_prog (map_device_reg node) idmap regs
  else
    do! match node_compatible node with
        | Some compatible =>
            Logger.log_with LInfo
              (let! c := unwrap (head compatible) in
               ret ("Ignoring " +:+ node_name node +:+ ", compatible=" +:+ c))
        | None => info ("Ignoring " +:+ node_name node)
        end in
    ret idmap.

Fixpoint map_fdt_node_regions (node : FdtNode) (idmap : IdMap) : K IdMap :=
  let! idmap := map_node node idmap in
  (fix children (l : list FdtNode) (idmap : IdMap) : K IdMap :=
     match l with
     | [] => ret idmap
     | child :: l => let! idmap := map_fdt_node_regions child idmap in children l idmap
     end) (node_children node) idmap.

Definition map_fdt_regions (fdt : Fdt) (idmap : IdMap) : K IdMap :=
  let! memory := unwrap_ok (fdt_memory_reg fdt) in
  let! reg := unwrap_ok memory in
  let! reg := unwrap reg in
  let! idmap := fold_prog map_memory_reg idmap reg in
  map_fdt_node_regions (fdt_root fdt) idmap.

(** ** Specification: the regions, in the order in which they are mapped *)

Definition reg_region (reg : Reg) : option MemoryRegion :=
  match reg_address reg, reg_size reg with
  | Ok address, Ok size => Some (region_new address (address + size))
  | _, _ => None
  end.

Definition regs_regions (k : kind) (regs : list Reg) : list (kind * MemoryRegion) :=
  omap (fun reg => pair k <$> reg_region reg) regs.

(** The registers of a node, if it is one of the devices which are mapped. *)
Definition node_regions (node : FdtNode) : list (kind * MemoryRegion) :=
  if is_compatible node MAPPED_DEVICES then
    match node_reg node with
    | Ok (Some regs) => regs_regions AsDevice regs
    | _ => []
    end
  else [].

Fixpoint tree_regions (node : FdtNode) : list (kind * MemoryRegion) :=
  node_regions node ++
  (fix children (l : list FdtNode) : list (kind * MemoryRegion) :=
     match l with [] => [] | child :: l => tree_regions child ++ children l end)
    (node_children node).

Definition fdt_regions (fdt : Fdt) : list (kind * MemoryRegion) :=
  match fdt_memory_reg fdt with
  | Ok (Ok (Some regs)) => regs_regions AsMemory regs
  | _ => []
  end ++ tree_regions (fdt_root fdt).
End fdt_map.

(** Induction on a tree of nodes. *)
Lemma node_ind (Q : FdtNode -> Prop) :
  (forall node, Forall Q (node_children node) -> Q node) -> forall node, Q node.
Proof.
  intros H. fix IH 1. intros [name compat reg ranges prop children]. apply H. simpl.
  induction children as [|child children IHc]; constructor; [apply IH|exact IHc].
Qed.

Section facts.
Context {P : PagingCrate} {B : BoardEnv} {I : EmbeddedIo machine} {L : EmbeddedIoLaws machine I}.
Context {C : CrateConsts} {W : PagingLaws} {PC : PagingCalls}.
Implicit Types s : machine.

Lemma fdt_to_region_inv reg s r s' :
  fdt_to_pagetable_region reg s = (Val r, s') -> reg_region reg = Some r /\ s' = s.
Proof.
  unfold fdt_to_pagetable_region, reg_region. intros H. inv_step H as address.
  inv_step H as size. inv_step H as stop. inv_prim H. by rewrite Hrun, Hrun0.
Qed.

Lemma first_compatible_inv node s c s' : first_compatible node s = (Val c, s') -> s' = s.
Proof. unfold first_compatible. intros H. inv_step H. by inv_prim H. Qed.

Lemma regs_regions_one k reg r : reg_region reg = Some r -> regs_regions k [reg] = [(k, r)].
Proof. intros H. unfold regs_regions. simpl. by rewrite H. Qed.

Lemma map_memory_reg_mapped idmap reg s idmap' s' :
  map_memory_reg idmap reg s = (Val idmap', s') ->
  mapped_as idmap (regs_regions AsMemory [reg]) idmap'.
Proof.
  unfold map_memory_reg. intros H. inv_bind H as r s1 Hr.
  apply fdt_to_region_inv in Hr as [Hr ->]. inv_step H. inv_step H.
  apply (map_unwrap_mapped AsMemory) in H as [Hm _]. by rewrite (regs_regions_one _ _ _ Hr).
Qed.

Lemma map_device_reg_mapped node idmap reg s idmap' s' :
  map_device_reg node idmap reg s = (Val idmap', s') ->
  mapped_as idmap (regs_regions AsDevice [reg]) idmap'.
Proof.
  unfold map_device_reg. intros H. inv_bind H as r s1 Hr.
  apply fdt_to_region_inv in Hr as [Hr ->]. inv_bind H as u s2 Hl.
  apply (map_unwrap_mapped AsDevice) in H as [Hm _]. by rewrite (regs_regions_one _ _ _ Hr).
Qed.

(** A loop over regions, each of which is mapped as [k]. *)
Lemma fold_regs_mapped k (f : IdMap -> Reg -> K IdMap) regs idmap s idmap' s' :
  (forall i reg s1 i' s2, f i reg s1 = (Val i', s2) -> mapped_as i (regs_regions k [reg]) i') ->
  fold_prog f idmap regs s = (Val idmap', s') -> mapped_as idmap (regs_regions k regs) idmap'.
Proof.
  intros Hf. revert idmap s. induction regs as [|reg regs IH]; intros idmap s H; simpl in H.
  { inv_prim H. apply mapped_as_nil. }
  inv_bind H as i1 s1 H1. apply Hf in H1. apply IH in H.
  assert (regs_regions k (reg :: regs) = regs_regions k [reg] ++ regs_regions k regs) as ->.
  { unfold regs_regions. simpl. by destruct (reg_region reg). }
  by eapply mapped_as_app.
Qed.

Lemma map_node_mapped node idmap s idmap' s' :
  map_node node idmap s = (Val idmap', s') -> mapped_as idmap (node_regions node) idmap'.
Proof.
  unfold map_node, node_regions. intros H. destruct (is_compatible node MAPPED_DEVICES).
  - inv_step H as ro. inv_step H as regs. rewrite Hrun, Hrun0.
    eapply fold_regs_mapped; [|exact H]. intros i reg s1 i' s2. apply map_device_reg_mapped.
  - inv_bind H as u s1 H1. inv_prim H. apply mapped_as_nil.
Qed.

Lemma map_tree_mapped node idmap s idmap' s' :
  map_fdt_node_regions node idmap s = (Val idmap', s') ->
  mapped_as idmap (tree_regions node) idmap'.
Proof.
  revert idmap s idmap' s'. induction node as [node IH] using node_ind. intros idmap s idmap' s' H.
  destruct node as [name compat reg ranges prop children].
  cbn [map_fdt_node_regions tree_regions node_children] in *.
  inv_bind H as i1 s1 H1. apply map_node_mapped in H1. eapply mapped_as_app; [exact H1|].
  clear H1. revert i1 s1 H. induction IH as [|child children Hc _ IHc]; intros i1 s1 H.
  { inv_prim H. apply mapped_as_nil. }
  inv_bind H as i2 s2 H2. apply Hc in H2. apply IHc in H. by eapply mapped_as_app.
Qed.

(** [map_fdt_regions] maps exactly the regions of the specification. *)
Lemma map_fdt_regions_mapped fdt idmap s idmap' s' :
  map_fdt_regions fdt idmap s = (Val idmap', s') -> mapped_as idmap (fdt_regions fdt) idmap'.
Proof.
  unfold map_fdt_regions, fdt_regions. intros H. inv_step H as memory. inv_step H as ro.
  inv_step H as regs. inv_bind H as i1 s1 H1. apply map_tree_mapped in H.
  rewrite Hrun. rewrite Hrun0, Hrun1. eapply mapped_as_app; [|exact H].
  eapply fold_regs_mapped; [|exact H1]. intros i reg s2 i' s3. apply map_memory_reg_mapped.
Qed.
End facts.

(** ** Properties *)

(** [node] is in the tree below [root]. *)
Inductive in_tree (node : FdtNode) : FdtNode -> Prop :=
| in_tree_root : in_tree node node
| in_tree_child root child : child ∈ node_children root -> in_tree node child -> in_tree node root.

Section theorems.
Context {P : PagingCrate} {B : BoardEnv} {I : EmbeddedIo machine} {L : EmbeddedIoLaws machine I}.
Context {C : CrateConsts} {W : PagingLaws} {PC : PagingCalls}.
Implicit Types s : machine.

(** The address [va] is in the registers of a device which is mapped. *)
Definition device_address (fdt : Fdt) (va : Z) : Prop :=
  exists node regs reg a n, in_tree node (fdt_root fdt) /\
    is_compatible node MAPPED_DEVICES = true /\ node_reg node = Ok (Some regs) /\ reg ∈ regs /\
    reg_address reg = Ok a /\ reg_size reg = Ok n /\ a <= va < a + n.

(** The address is in the memory of the device tree. *)
Definition memory_address (fdt : Fdt) (va : Z) : Prop :=
  exists regs reg a n, fdt_memory_reg fdt = Ok (Ok (Some regs)) /\ reg ∈ regs /\
    reg_address reg = Ok a /\ reg_size reg = Ok n /\ a <= va < a + n.

(** A region is listed and contains [va]. *)
Definition covered (l : list (kind * MemoryRegion)) (k : kind) (va : Z) : Prop :=
  exists r, (k, r) ∈ l /\ in_region va r = true.

Lemma last_kind_covered l va :
  is_Some (last_kind l va) <-> exists k, covered l k va.
Proof.
  unfold covered. induction l as [|[k r] l IH]; simpl.
  { split; [by intros []|]. by intros (k & r & ?%elem_of_nil & _). }
  destruct (last_kind l va) as [k'|].
  - split; [|by eexists]. intros _. destruct (proj1 IH) as (k2 & r2 & H2 & Hin); [by eexists|].
    exists k2, r2. split; [by right|done].
  - split.
    + destruct (in_region va r) eqn:E; [|by intros []]. intros _. exists k, r. split; [by left|done].
    + intros (k2 & r2 & [[= -> ->]|H2]%elem_of_cons & Hin); [by rewrite Hin; eexists|].
      destruct (proj2 IH) as [? ?]; [eauto|done].
Qed.

Lemma last_kind_in l va k : last_kind l va = Some k -> covered l k va.
Proof.
  unfold covered. induction l as [|[k' r] l IH]; simpl; [done|].
  destruct (last_kind l va) as [k''|] eqn:E.
  - intros [= ->]. destruct IH as (r' & H' & Hin); [done|]. exists r'. split; [by right|done].
  - destruct (in_region va r) eqn:Er; [|done]. intros [= ->]. exists r. split; [by left|done].
Qed.

Lemma regs_regions_elem k k' regs r :
  (k', r) ∈ regs_regions k regs <-> k' = k /\ exists reg, reg ∈ regs /\ reg_region reg = Some r.
Proof.
  unfold regs_regions. rewrite list_elem_of_omap. split.
  - intros (reg & Hr & H). destruct (reg_region reg) as [r'|] eqn:E; simplify_eq/=. eauto.
  - intros (-> & reg & Hr & H). exists reg. by rewrite H.
Qed.

Lemma in_region_new a b va : a <= va < b -> in_region va (region_new a b) = true.
Proof.
  intros H. pose proof (region_new_start a b). pose proof (region_new_end a b).
  unfold in_region. lia.
Qed.

Lemma tree_regions_node node root :
  in_tree node root -> forall kr, kr ∈ node_regions node -> kr ∈ tree_regions root.
Proof.
  induction 1 as [|root child Hc _ IH]; intros kr Hkr.
  - destruct node. simpl. apply elem_of_app. by left.
  - destruct root as [name compat reg ranges prop children]. cbn [tree_regions node_children] in *.
    apply elem_of_app. right. induction children as [|c cs IHc]; [by apply elem_of_nil in Hc|].
    apply elem_of_app. apply elem_of_cons in Hc as [<-|Hc]; [left; auto|right; auto].
Qed.

Lemma tree_regions_device root k r : (k, r) ∈ tree_regions root -> k = AsDevice.
Proof.
  induction root as [root IH] using node_ind.
  destruct root as [name compat reg ranges prop children]. cbn [tree_regions node_children] in *.
  intros [Hn|Hc]%elem_of_app.
  - unfold node_regions in Hn. destruct (is_compatible _ _); [|by apply elem_of_nil in Hn].
    destruct (node_reg _) as [[regs|]|]; try by apply elem_of_nil in Hn.
    by apply regs_regions_elem in Hn as [-> _].
  - induction IH as [|c cs Hc' _ IHc]; [by apply elem_of_nil in Hc|].
    apply elem_of_app in Hc as [H|H]; auto.
Qed.

Lemma device_covered fdt va : device_address fdt va -> covered (tree_regions (fdt_root fdt)) AsDevice va.
Proof.
  intros (node & regs & reg & a & n & Ht & Hc & Hr & Hin & Ha & Hn & Hva).
  exists (region_new a (a + n)). split; [|by apply in_region_new].
  apply (tree_regions_node node); [done|]. unfold node_regions. rewrite Hc, Hr.
  apply regs_regions_elem. split; [done|]. exists reg. split; [done|].
  unfold reg_region. by rewrite Ha, Hn.
Qed.

Lemma tree_last_kind root va : last_kind (tree_regions root) va <> Some AsMemory.
Proof. intros (r & Hr & _)%last_kind_in. by apply tree_regions_device in Hr. Qed.

(** C15: after [map_fdt_regions] returned, every register of every device of the
    device tree which the kernel has a driver for is mapped to itself as device
    memory, wherever the node is in the tree; all the memory of the device tree is
    mapped to itself, as normal memory except where it is shared with the pages of a
    device. *)
Theorem fdt_regions_are_mapped fdt idmap s idmap' s' va :
  map_fdt_regions fdt idmap s = (Val idmap', s') ->
  (device_address fdt va -> idmap_walk idmap' va = Some (va, device_attributes idmap')) /\
  (memory_address fdt va ->
     idmap_walk idmap' va = Some (va, memory_attributes idmap') \/
     idmap_walk idmap' va = Some (va, device_attributes idmap') /\
       covered (tree_regions (fdt_root fdt)) AsDevice va).
Proof.
  intros (He & _ & Hw)%map_fdt_regions_mapped. rewrite Hw. unfold fdt_regions.
  rewrite last_kind_app. destruct (attributes_el2 _ _ He) as [-> ->].
  pose proof (tree_last_kind (fdt_root fdt) va) as Hk.
  destruct (last_kind (tree_regions (fdt_root fdt)) va) as [[]|] eqn:E; [done|..].
  - split; [done|]. intros _. right. split; [done|]. by apply last_kind_in.
  - split.
    + intros Hd%device_covered. destruct (proj2 (last_kind_covered (tree_regions (fdt_root fdt)) va))
        as [? ?]; [eauto|congruence].
    + intros (regs & reg & a & n & Hr & Hin & Ha & Hn & Hva). left. rewrite Hr.
      destruct (proj2 (last_kind_covered (regs_regions AsMemory regs) va)) as [k Hk2].
      { exists AsMemory, (region_new a (a + n)). split; [|by apply in_region_new].
        apply regs_regions_elem. split; [done|]. exists reg. split; [done|].
        unfold reg_region. by rewrite Ha, Hn. }
      rewrite Hk2. apply last_kind_in in Hk2 as (r & Hr2 & _).
      by apply regs_regions_elem in Hr2 as [-> _].
Qed.
End theorems.

(** ** Witnesses *)

Section witnesses.
#[local] Existing Instance quiet.

Definition sim_fdt_map : IdMap :=
  val_or sim_idmap (map_fdt_regions sim_fdt sim_idmap sim_machine).1.

Lemma fdt_regions_are_mapped_witness :
  idmap_walk sim_fdt_map 0x80a0010 = Some (0x80a0010, device_attributes sim_fdt_map).
Proof.
  apply (fdt_regions_are_mapped sim_fdt sim_idmap sim_machine sim_fdt_map
           (map_fdt_regions sim_fdt sim_idmap sim_machine).2).
  - apply run_val. vm_cast_no_check (eq_refl true).
  - exists sim_gic_node, [mkReg (Ok 0x8000000) (Ok 0x10000); mkReg (Ok 0x80a0000) (Ok 0xf60000)],
      (mkReg (Ok 0x80a0000) (Ok 0xf60000)), 0x80a0000, 0xf60000.
    split; [|repeat split; try reflexivity; try lia].
    + eapply in_tree_child; [apply list_elem_of_here|apply in_tree_root].
    + apply list_elem_of_further, list_elem_of_here.
Defined.
End witnesses.
