(* ===== verification/Virtio.v ===== *)
(** * Virtio: [virtio.rs] and [devices.rs]

    Finding VirtIO devices in the device tree and on the PCI bus, and the memory
    which their drivers share with the host ([VirtioHal]). *)

From S2P Require Import Prelude Text Extern Machine Sim Console Cpus Interrupts Pagetable Pci.
From S2P Require Import FdtMap Secondary.

Definition VIRTIO_MMIO_COMPATIBLE : string := "virtio,mmio".

(** ** [devices.rs] *)

Module Devices.
(** A driver is identified by the transport it was constructed with. *)
Record t := mkDevices {
  rtc : Z;
  block : list Transport;
  console : list Transport;
  vsock : list Transport;
}.

Definition new (rtc : Z) : t := mkDevices rtc [] [] [].
End Devices.

Section virtio.
Context {P : PagingCrate} {Q : Surroundings} {B : BoardEnv} {I : EmbeddedIo machine} {C : CrateConsts}.
Import Devices.

Definition init_virtio_device (transport : Transport) (devices : Devices.t) : K Devices.t :=
  match transport_device_type transport with
  | DevBlock =>
      let! r := ask (fun h => env_virtio_blk_new h transport) (VirtioBlkNew transport) in
      do! unwrap_ok r in
      ret (mkDevices (rtc devices) (block devices ++ [transport]) (console devices) (vsock devices))
  | DevConsole =>
      let! r := ask (fun h => env_virtio_console_new h transport) (VirtioConsoleNew transport) in
      do! unwrap_ok r in
      ret (mkDevices (rtc devices) (block devices) (console devices ++ [transport]) (vsock devices))
  | DevSocket =>
      let! r := ask (fun h => env_virtio_socket_new h transport) (VirtioSocketNew transport) in
      do! unwrap_ok r in
      ret (mkDevices (rtc devices) (block devices) (console devices) (vsock devices ++ [transport]))
  | t =>
      do! warn ("Ignoring unsupported VirtIO device type " +:+ devicetype_debug t) in
      ret devices
  end.

Definition transport_vendor_id (t : Transport) : K Z :=
  ask (fun h => env_virtio_vendor_id h t) (VirtioVendorId t).
Definition transport_read_device_features (t : Transport) : K Z :=
  ask (fun h => env_virtio_read_features h t) (VirtioReadFeatures t).
Definition transport_get_status (t : Transport) : K Z :=
  ask (fun h => env_virtio_get_status h t) (VirtioGetStatus t).

Definition mmio_transport_new (header size : Z) : K (Transport + MmioError) :=
  ask (fun h => env_virtio_mmio_new h header size) (VirtioMmioNew header size).

(** One child of the root node. *)
Definition probe_mmio_node (devices : Devices.t) (node : FdtNode) : K Devices.t :=
  if is_compatible node [VIRTIO_MMIO_COMPATIBLE] then
    do! debug ("Found VirtIO MMIO device " +:+ node_name node) in
    let! regs := unwrap_ok (node_reg node) in
    let! regs := unwrap regs in
    match head regs with
    | None =>
        do! error ("VirtIO MMIO device " +:+ node_name node +:+ " missing region") in
        ret devices
    | Some region =>
        let! region_size := unwrap_ok (reg_size region) in
        if region_size <? size_of_VirtIOHeader then
          do! error ("VirtIO MMIO device " +:+ node_name node
                     +:+ " region smaller than VirtIO header size (" +:+ fmt_dec region_size
                     +:+ " < " +:+ fmt_dec size_of_VirtIOHeader +:+ ")") in
          ret devices
        else
          let! address := unwrap_ok (reg_address region) in
          let! header := Gic.non_null address in
          let! r := mmio_transport_new header region_size in
          match r with
          | inr (InvalidDeviceType 0) =>
              do! debug "Ignoring VirtIO device with zero device ID." in
              ret devices
          | inr e =>
              do! error ("Error creating VirtIO transport: " +:+ mmio_error_display e) in
              ret devices
          | inl transport =>
              do! Logger.log_with LInfo (
                let! vendor_id := transport_vendor_id transport in
                let! features := transport_read_device_features transport in
                ret ("Detected virtio MMIO device with device type "
                     +:+ devicetype_debug (transport_device_type transport)
                     +:+ ", vendor ID " +:+ fmt_hex vendor_id
                     +:+ ", version " +:+ mmio_version_debug transport
                     +:+ ", features " +:+ fmt_hex_018 features)) in
              init_virtio_device transport devices
          end
    end
  else ret devices.

Definition find_virtio_mmio_devices (fdt : Fdt) (devices : Devices.t) : K Devices.t :=
  fold_prog probe_mmio_node devices (node_children (fdt_root fdt)).

Definition pci_transport_new (root df : Z) : K (result Transport) :=
  ask (fun h => env_virtio_pci_new h root df) (VirtioPciNew root df).

Definition probe_pci_function (pci_root : Z) (devices : Devices.t) (function : Z * string)
    : K Devices.t :=
  let '(device_function, text) := function in
  match virtio_device_type text with
  | None => ret devices
  | Some virtio_type =>
      do! info ("  VirtIO " +:+ devicetype_debug virtio_type +:+ " " +:+ text +:+ " at "
                +:+ df_display device_function) in
      let! r := pci_transport_new pci_root device_function in
      let! transport := unwrap_ok r in
      do! Logger.log_with LInfo (
        let! features := transport_read_device_features transport in
        let! status := transport_get_status transport in
        ret ("Detected virtio PCI device with device type "
             +:+ devicetype_debug (transport_device_type transport)
             +:+ ", features " +:+ fmt_hex_018 features
             +:+ ", status " +:+ device_status_debug status)) in
      init_virtio_device transport devices
  end.

Definition find_virtio_pci_devices (pci_root : Z) (devices : Devices.t) : K Devices.t :=
  do! info "Looking for VirtIO devices on PCI bus" in
  enumerate_bus pci_root (probe_pci_function pci_root) devices.
End virtio.

(** ** [VirtioHal] *)

Module VirtioHal.
Section hal.
Context {P : PagingCrate} {Q : Surroundings} {B : BoardEnv} {C : CrateConsts}.

Definition virt_to_phys (vaddr : Z) : Z := vaddr.

(** [alloc_zeroed]; a failure aborts. *)
Definition dma_alloc (pages : Z) : K (Z * Z) :=
  do! assert (negb (pages =? 0)) "assertion `left != right` failed" in
  let! size := checked_mul 64 pages VIRTIO_PAGE_SIZE in
  do! layout_from_size_align size VIRTIO_PAGE_SIZE in
  let! r := ask (fun h => env_heap_alloc h size VIRTIO_PAGE_SIZE) (HeapAlloc size VIRTIO_PAGE_SIZE) in
  let! vaddr := expect "memory allocation failed" r in
  do! tell (WriteBytes vaddr 0 size) in
  ret (virt_to_phys vaddr, vaddr).

Definition dma_dealloc (paddr vaddr pages : Z) : K Z :=
  let! size := checked_mul 64 pages VIRTIO_PAGE_SIZE in
  do! layout_from_size_align size VIRTIO_PAGE_SIZE in
  do! tell (HeapDealloc vaddr size VIRTIO_PAGE_SIZE) in
  ret 0.

Definition mmio_phys_to_virt (paddr size : Z) : K Z := Gic.non_null paddr.

Definition share (buffer : Z) : Z := virt_to_phys buffer.

Definition unshare (paddr buffer : Z) : K unit := ret tt.
End hal.
End VirtioHal.

(** ** What was found *)

(** The transports which were constructed, newest first. *)
Fixpoint transports (h : history) : list Transport :=
  match h with
  | [] => []
  | e :: h =>
      match call e with
      | VirtioMmioNew _ _ (inl t) => t :: transports h
      | VirtioPciNew _ _ (Ok t) => t :: transports h
      | _ => transports h
      end
  end.

Lemma transports_ignores : ignores_uart transports.
Proof. intros e h (buf & r & He). simpl. by rewrite He. Qed.

Section found.
Context {P : PagingCrate} {B : BoardEnv} {I : EmbeddedIo machine} {L : EmbeddedIoLaws machine I}.
Context {C : CrateConsts}.
Implicit Types s : machine.
Import Devices.

Definition is_block (t : Transport) : bool :=
  match transport_device_type t with DevBlock => true | _ => false end.
Definition is_console (t : Transport) : bool :=
  match transport_device_type t with DevConsole => true | _ => false end.
Definition is_socket (t : Transport) : bool :=
  match transport_device_type t with DevSocket => true | _ => false end.

(** Every transport goes to the list of its type; other types are dropped. *)
Definition add_devices (devices : Devices.t) (found : list Transport) : Devices.t :=
  mkDevices (rtc devices) (block devices ++ List.filter is_block found)
    (console devices ++ List.filter is_console found)
    (vsock devices ++ List.filter is_socket found).

(** Between [s] and [s'] exactly [found] was constructed. *)
Definition found_in (found : list Transport) s s' : Prop :=
  transports (trace s') = reverse found ++ transports (trace s).

Lemma found_uart s s1 s2 found :
  uart_calls s s1 -> found_in found s1 s2 -> found_in found s s2.
Proof. unfold found_in. intros Hu ->. by rewrite (uart_calls_ignored _ _ _ transports_ignores Hu). Qed.

Lemma found_none s s' : uart_calls s s' -> found_in [] s s'.
Proof. intros Hu. unfold found_in. by rewrite (uart_calls_ignored _ _ _ transports_ignores Hu). Qed.

Lemma add_devices_nil devices : add_devices devices [] = devices.
Proof. destruct devices. unfold add_devices. simpl. by rewrite !app_nil_r. Qed.

Lemma add_devices_app devices l1 l2 :
  add_devices devices (l1 ++ l2) = add_devices (add_devices devices l1) l2.
Proof. unfold add_devices. simpl. by rewrite !List.filter_app, !app_assoc. Qed.

Lemma init_device_spec t devices s devices' s' :
  init_virtio_device t devices s = (Val devices', s') ->
  devices' = add_devices devices [t] /\ transports (trace s') = transports (trace s).
Proof.
  unfold init_virtio_device, add_devices, is_block, is_console, is_socket. simpl. intros H.
  destruct (transport_device_type t).
  1-3: inv_bind H as r s1 Hr; injection Hr as _ <-; inv_step H; inv_prim H;
    by rewrite !app_nil_r.
  inv_step H. inv_prim H. rewrite !app_nil_r. split; [by destruct devices|].
  by apply (uart_calls_ignored _ _ _ transports_ignores).
Qed.

(** The message about a transport may ask the device, but constructs nothing. *)
Lemma detected_log level args s u s' :
  (forall s1 x s2, args s1 = (Val x, s2) -> transports (trace s2) = transports (trace s1)) ->
  Logger.log_with level args s = (Val u, s') -> transports (trace s') = transports (trace s).
Proof. apply log_with_view, transports_ignores. Qed.

#[local] Ltac solve_detected := intros ??? Hx; injection Hx as _ <-; reflexivity.

Lemma probe_mmio_spec devices node s devices' s' :
  probe_mmio_node devices node s = (Val devices', s') ->
  exists found, devices' = add_devices devices found /\ found_in found s s'.
Proof.
  unfold probe_mmio_node. intros H. destruct (is_compatible _ _).
  2: { inv_prim H. exists []. by rewrite add_devices_nil. }
  inv_step H. inv_step H as ro. inv_step H as regs. destruct (head regs) as [region|].
  2: { inv_step H. inv_prim H. exists []. rewrite add_devices_nil. split; [done|].
       apply found_none. by etrans. }
  inv_step H as size. destruct (_ <? _).
  { inv_step H. inv_prim H. exists []. rewrite add_devices_nil. split; [done|].
    apply found_none. by etrans. }
  inv_step H as address. unfold Gic.non_null in H. inv_step H as header.
  inv_bind H as r s1 Hr. injection Hr as Hr <-. destruct r as [t|e].
  - inv_bind H as u s2 Hlog. apply detected_log in Hlog; [|solve_detected].
    apply init_device_spec in H as [-> Ht]. exists [t]. split; [done|].
    eapply found_uart; [exact Hrun|]. unfold found_in. rewrite Ht, Hlog. simpl. by rewrite Hr.
  - exists []. rewrite add_devices_nil.
    destruct e as [[| |]|]; inv_step H; inv_prim H; (split; [done|]);
      (eapply found_uart; [exact Hrun|]); unfold found_in;
      rewrite (uart_calls_ignored _ _ _ transports_ignores Hrun5); simpl; by rewrite Hr.
Qed.

Lemma probe_pci_spec root devices f s devices' s' :
  probe_pci_function root devices f s = (Val devices', s') ->
  exists found, devices' = add_devices devices found /\ found_in found s s'.
Proof.
  destruct f as [df text]. unfold probe_pci_function. intros H.
  destruct (virtio_device_type text).
  2: { inv_prim H. exists []. by rewrite add_devices_nil. }
  inv_step H. inv_bind H as r s1 Hr. injection Hr as Hr <-. inv_step H as t.
  inv_bind H as u s2 Hlog. apply detected_log in Hlog; [|solve_detected].
  apply init_device_spec in H as [-> Ht]. exists [t]. split; [done|].
  eapply found_uart; [exact Hrun|]. unfold found_in. rewrite Ht, Hlog. simpl. by rewrite Hr, Hrun0.
Qed.

Lemma found_trans f1 f2 s s1 s2 :
  found_in f1 s s1 -> found_in f2 s1 s2 -> found_in (f1 ++ f2) s s2.
Proof. unfold found_in. intros F1 F2. by rewrite F2, F1, reverse_app, app_assoc. Qed.

Lemma fold_probe_spec {A} (f : Devices.t -> A -> K Devices.t) l devices s devices' s' :
  (forall d x s1 d' s2, f d x s1 = (Val d', s2) ->
     exists found, d' = add_devices d found /\ found_in found s1 s2) ->
  fold_prog f devices l s = (Val devices', s') ->
  exists found, devices' = add_devices devices found /\ found_in found s s'.
Proof.
  intros Hf. revert devices s. induction l as [|x l IH]; intros devices s H; simpl in H.
  { inv_prim H. exists []. by rewrite add_devices_nil. }
  inv_bind H as d1 s1 H1. apply Hf in H1 as (f1 & -> & F1). apply IH in H as (f2 & -> & F2).
  exists (f1 ++ f2). rewrite add_devices_app. split; [done|]. by eapply found_trans.
Qed.

Lemma for_function_found root fuel n devices s devices' s' :
  for_function root (probe_pci_function root) fuel n devices s = (Val devices', s') ->
  exists found, devices' = add_devices devices found /\ found_in found s s'.
Proof.
  revert n devices s. induction fuel as [|fuel IH]; intros n devices s H; simpl in H; [done|].
  inv_bind H as r s0 Hr. injection Hr as _ <-. destruct r as [function|].
  2: { inv_prim H. exists []. by rewrite add_devices_nil. }
  inv_bind H as d1 s1 H1. apply probe_pci_spec in H1 as (f1 & -> & F1).
  apply IH in H as (f2 & -> & F2). exists (f1 ++ f2). rewrite add_devices_app. split; [done|].
  by apply (found_trans _ _ _ s1).
Qed.

(** C22: every VirtIO transport which is constructed, for the device tree or on the
    PCI bus, ends up exactly once in the list of drivers of its device type, in the
    order in which they were found, and nothing else does; devices of other types
    are ignored, and what was found before is kept. *)
Theorem virtio_devices_found fdt root devices s d1 s1 d2 s2 :
  find_virtio_mmio_devices fdt devices s = (Val d1, s1) ->
  find_virtio_pci_devices root d1 s1 = (Val d2, s2) ->
  exists found, d2 = add_devices devices found /\ found_in found s s2.
Proof.
  intros H1 H2. apply (fold_probe_spec probe_mmio_node) in H1 as (f1 & -> & F1);
    [|intros *; apply probe_mmio_spec].
  unfold find_virtio_pci_devices in H2. inv_step H2. apply for_function_found in H2 as (f2 & -> & F2).
  exists (f1 ++ f2). rewrite add_devices_app. split; [done|].
  apply (found_trans _ _ _ s1); [done|]. by eapply found_uart.
Qed.
End found.

(** ** Memory shared with the host *)

Section hal.
Context {P : PagingCrate} {B : BoardEnv} {C : CrateConsts} {HF : HeapFresh}.
Implicit Types s : machine.
Import VirtioHal.

Lemma dma_alloc_inv pages s paddr vaddr s' :
  dma_alloc pages s = (Val (paddr, vaddr), s') ->
  pages <> 0 /\ pages * VIRTIO_PAGE_SIZE < 2 ^ 64 /\
  layout_ok (pages * VIRTIO_PAGE_SIZE) VIRTIO_PAGE_SIZE = true /\ paddr = vaddr /\
  env_heap_alloc (trace s) (pages * VIRTIO_PAGE_SIZE) VIRTIO_PAGE_SIZE = Some vaddr /\
  s' = set_trace
         (mkEntry (WriteBytes vaddr 0 (pages * VIRTIO_PAGE_SIZE)) (masked s) (held s) ::
          mkEntry (HeapAlloc (pages * VIRTIO_PAGE_SIZE) VIRTIO_PAGE_SIZE (Some vaddr))
            (masked s) (held s) :: trace s) s.
Proof.
  unfold dma_alloc. intros H. inv_step H. inv_step H as size. inv_step H.
  inv_bind H as r s1 Hr. injection Hr as <- <-. inv_step H as v. inv_bind H as u s2 Ht.
  injection Ht as _ <-. injection H as <- <- <-. split; [by destruct (Z.eqb_spec pages 0)|].
  split; [done|]. split; [by destruct (layout_ok _ _)|]. split; [done|]. split; [done|].
  simpl. by rewrite Hrun2.
Qed.

Lemma filter_not_member p l :
  Forall (fun b : Z * Z => b.1 <> p) l -> List.filter (fun b => negb (b.1 =? p)) l = l.
Proof.
  induction 1 as [|b l Hb _ IH]; simpl; [done|].
  rewrite (proj2 (Z.eqb_neq _ _) Hb). simpl. by rewrite IH.
Qed.

End hal.

(** ** Witnesses *)

Section witnesses.
#[local] Existing Instance with_pci.

Definition sim_devices1 : Devices.t :=
  match (find_virtio_mmio_devices sim_fdt (Devices.new 0) sim_machine).1 with
  | Val d => d | _ => Devices.new 0 end.
Definition sim_found1 : machine := (find_virtio_mmio_devices sim_fdt (Devices.new 0) sim_machine).2.
Definition sim_devices2 : Devices.t :=
  match (find_virtio_pci_devices 0x4010000000 sim_devices1 sim_found1).1 with
  | Val d => d | _ => Devices.new 0 end.

Lemma virtio_devices_found_witness :
  exists found, sim_devices2 = add_devices (Devices.new 0) found /\
    found_in found sim_machine (find_virtio_pci_devices 0x4010000000 sim_devices1 sim_found1).2.
Proof.
  apply (virtio_devices_found sim_fdt 0x4010000000 (Devices.new 0) sim_machine sim_devices1
           sim_found1 sim_devices2).
  - exact (run_fst (find_virtio_mmio_devices sim_fdt (Devices.new 0)) sim_machine
             (Val sim_devices1) eq_refl).
  - exact (run_fst (find_virtio_pci_devices 0x4010000000 sim_devices1) sim_found1
             (Val sim_devices2) eq_refl).
Defined.

End witnesses.
