(* ===== verification/Shell.v ===== *)
(** * Shell: [apps/shell.rs], the command line

    [read_line] against its specification, the dispatch of commands, all commands
    which are not in Alarm or Secondary, and the loop of [main].  Loops which wait
    for input have fuel. *)

From S2P Require Import Prelude Text Extern Machine Sim Console Io Cpus Interrupts Pagetable.
From S2P Require Import Platform Alarm Pci FdtMap Secondary Virtio.

Definition EOF : byte := x04.
Definition CR : byte := x0d.
Definition LF : byte := x0a.

Definition dquote : string := String (Ascii.ascii_of_nat 34) EmptyString.

(** The capacity of the line, [ArrayVec<u8, 128>]. *)
Definition LINE_CAPACITY : nat := 128.

Inductive command :=
| CmdAlarm | CmdDate | CmdDtdump | CmdExit | CmdHelp | CmdSgi | CmdLsdev | CmdLspci | CmdVcat
| CmdCpus | CmdStartCpu | CmdEmpty | CmdUnknown.

Definition parse_command (s : string) : command :=
  if String.eqb s "alarm" then CmdAlarm
  else if String.eqb s "date" then CmdDate
  else if String.eqb s "dtdump" then CmdDtdump
  else if String.eqb s "exit" then CmdExit
  else if String.eqb s "help" then CmdHelp
  else if String.eqb s "sgi" then CmdSgi
  else if String.eqb s "lsdev" then CmdLsdev
  else if String.eqb s "lspci" then CmdLspci
  else if String.eqb s "vcat" then CmdVcat
  else if String.eqb s "cpus" then CmdCpus
  else if String.eqb s "start_cpu" then CmdStartCpu
  else if String.eqb s EmptyString then CmdEmpty
  else CmdUnknown.

(** The lines which [help] prints. *)
Definition help_lines : list string :=
  ["Commands:";
   "  alarm - Sets an alarm in the future";
   "  cpus - Lists the state of all CPUs";
   "  date - Prints the current date and time";
   "  dtdump - Dumps the device tree to the console";
   "  exit - Exits the shell and powers off the system";
   "  help - Prints this help";
   "  sgi - Sends a software-generated interrupt";
   "  lsdev - Lists devices";
   "  lspci - Lists devices on the PCI bus";
   "  start_cpu - Starts a secondary CPU";
   "  vcat - Communicates with a vsock port"].

Section shell.
Context {P : PagingCrate} {Q : Surroundings} {B : BoardEnv} {I : EmbeddedIo machine} {C : CrateConsts}.
Context {D : ConsoleDev} {PL : Platform}.

(** [ArrayVec::push] *)
Definition push (line : list byte) (c : byte) : K (list byte) :=
  if (length line <? LINE_CAPACITY)%nat then ret (line ++ [c])
  else panic "called `Result::unwrap()` on an `Err` value: CapacityError: insufficient capacity".

Fixpoint read_line_loop (fuel : nat) (line : list byte) : K (list byte) :=
  match fuel with
  | O => out_of_fuel
  | S fuel =>
      let! c := read_byte in
      if decide (c = CR \/ c = LF) then
        do! write_bytes crlf in
        ret line
      else if decide (c = EOF /\ line = []) then
        do! write_bytes crlf in
        push line EOF
      else if negb (is_ascii_control c) then
        do! write_bytes [c] in
        let! line := push line c in
        read_line_loop fuel line
      else read_line_loop fuel line
  end.

Definition read_line (fuel : nat) : K (list byte) := read_line_loop fuel [].

Definition date : K unit :=
  let! time := Alarm.rtc_get_time in
  writeln (datetime_display time).

Definition dtdump (fdt : Fdt) : K unit := writeln (fdt_display fdt).

Definition help : K unit := for_each writeln help_lines.

(** [device.device_id(&mut id_buffer)]: the bytes of the identifier *)
Definition blk_device_id (t : Transport) : K (result (list byte)) :=
  ask (fun h => env_blk_device_id h t) (BlkDeviceId t).

Definition list_block (device : nat * Transport) : K unit :=
  let '(i, t) := device in
  let! r := blk_device_id t in
  let! id := match r with
             | Ok id => ret id
             | Err e => do! writeln ("Error getting ID: " +:+ e) in ret []
             end in
  let! id := unwrap_ok (match from_utf8 id with Some s => Ok s | None => Err "Utf8Error" end) in
  writeln ("  " +:+ fmt_dec (Z.of_nat i) +:+ ": " +:+ dquote +:+ id +:+ dquote +:+ ", capacity "
           +:+ fmt_dec (blk_capacity t) +:+ " sectors, "
           +:+ (if blk_readonly t then "read-only" else "read-write")).

Definition enumerate {A} (l : list A) : list (nat * A) := zip (seq 0 (length l)) l.

Definition lsdev (devices : Devices.t) : K unit :=
  do! writeln "Block devices:" in
  do! for_each list_block (enumerate (Devices.block devices)) in
  do! writeln "Console devices:" in
  do! for_each (fun '(i, t) =>
        let! size := unwrap_ok (vconsole_size_debug t) in
        writeln ("  " +:+ fmt_dec (Z.of_nat i) +:+ ": " +:+ size))
      (enumerate (Devices.console devices)) in
  do! writeln "Vsock devices:" in
  for_each (fun '(i, t) =>
    writeln ("  " +:+ fmt_dec (Z.of_nat i) +:+ ": guest CID " +:+ fmt_dec (vsock_guest_cid t)))
    (enumerate (Devices.vsock devices)).

Definition list_function (root : Z) (function : Z * string) : K unit :=
  let '(df, text) := function in
  let! '(status, command) := ask (fun h => env_pci_status_command h root df)
                               (PciGetStatusCommand root df) in
  do! writeln (text +:+ " at " +:+ df_display df +:+ ", status " +:+ status +:+ " command "
               +:+ command) in
  do! match virtio_device_type text with
      | Some virtio_type => writeln ("  VirtIO " +:+ devicetype_debug virtio_type)
      | None => ret tt
      end in
  let! bars := pci_bars root df in
  let! bars := unwrap_ok bars in
  for_each (fun '(i, bar) =>
    match bar with
    | Some bar => writeln ("  BAR " +:+ fmt_dec (Z.of_nat i) +:+ ": " +:+ bar_display bar)
    | None => ret tt
    end) (enumerate bars).

Definition lspci (pci_roots : list Z) : K unit :=
  do! writeln (fmt_dec (Z.of_nat (length pci_roots)) +:+ " PCI roots") in
  for_each (fun root =>
    enumerate_bus root (fun _ function => list_function root function) tt) pci_roots.

(** ** [vcat] *)

Definition LOCAL_PORT : Z := 42.

Definition vs_connect (t : Transport) (peer : VsockAddr) : K (result unit) :=
  ask (fun h => env_vs_connect h t peer LOCAL_PORT) (VsConnect t peer LOCAL_PORT).
Definition vs_send (t : Transport) (peer : VsockAddr) (buf : list byte) : K (result unit) :=
  ask (fun h => env_vs_send h t peer LOCAL_PORT buf) (VsSend t peer LOCAL_PORT buf).
Definition vs_poll (t : Transport) : K (result (option VsockEvent)) :=
  ask (fun h => env_vs_poll h t) (VsPoll t).
Definition vs_available (t : Transport) (peer : VsockAddr) : K (result Z) :=
  ask (fun h => env_vs_available h t peer LOCAL_PORT) (VsAvailable t peer LOCAL_PORT).
Definition vs_recv (t : Transport) (peer : VsockAddr) (len : nat) : K (result (list byte)) :=
  ask (fun h => env_vs_recv h t peer LOCAL_PORT len) (VsRecv t peer LOCAL_PORT len).

(** [while vsock.recv_buffer_available_bytes(..) > 0] *)
Fixpoint vcat_receive (fuel : nat) (t : Transport) (peer : VsockAddr) : K unit :=
  match fuel with
  | O => out_of_fuel
  | S fuel =>
      let! n := vs_available t peer in
      let! n := unwrap_ok n in
      if 0 <? n then
        let! r := vs_recv t peer 10 in
        let! bs := unwrap_ok r in
        do! write_bytes bs in
        vcat_receive fuel t peer
      else ret tt
  end.

(** An event; the result is whether to go on. *)
Definition vcat_event (fuel : nat) (t : Transport) (peer : VsockAddr) (event : VsockEvent)
    : K bool :=
  if decide (port (vs_destination event) = LOCAL_PORT /\ vs_source event = peer) then
    match vs_type event with
    | VsConnected => do! writeln "Connected." in ret true
    | VsDisconnected Shutdown => do! writeln "Connection shut down." in ret false
    | VsDisconnected ResetReason => do! writeln "Connection reset." in ret false
    | VsReceived _ => do! vcat_receive fuel t peer in ret true
    | VsCreditUpdate => ret true
    | VsOther _ => do! writeln ("Event: " +:+ vsevent_debug event) in ret true
    end
  else
    do! writeln ("Event for unexpected source or destination: " +:+ vsevent_debug event) in
    ret true.

(** One iteration of the loop. *)
Definition vcat_step (fuel : nat) (t : Transport) (peer : VsockAddr) : K bool :=
  let! ready := con_read_ready in
  let! ready := unwrap_ok ready in
  do! when ready
    (let! r := con_read 8 in
     let! buffer := unwrap_ok r in
     let! r := vs_send t peer buffer in
     unwrap_ok r) in
  let! event := vs_poll t in
  let! event := unwrap_ok event in
  match event with
  | Some event => vcat_event fuel t peer event
  | None => ret true
  end.

Fixpoint vcat_loop (fuel : nat) (t : Transport) (peer : VsockAddr) : K unit :=
  match fuel with
  | O => out_of_fuel
  | S fuel =>
      let! continue := vcat_step fuel t peer in
      if continue then vcat_loop fuel t peer else ret tt
  end.

(** [args.collect::<ArrayVec<_, 4>>()] *)
Definition collect4 (args : list string) : K (list string) :=
  if (length args <=? 4)%nat then ret args
  else panic "ArrayVec: capacity exceeded in extend/from_iter".

Definition vcat (fuel : nat) (args : list string) (vsock : list Transport) : K unit :=
  let! args := collect4 args in
  match args with
  | [arg0; arg1] =>
      match parse_unsigned 64 arg0 with
      | None => writeln ("Invalid CID " +:+ arg0)
      | Some cid =>
          match parse_unsigned 32 arg1 with
          | None => writeln ("Invalid port " +:+ arg1)
          | Some port =>
              match vsock with
              | [] => writeln "No vsock device found."
              | t :: _ =>
                  let peer := mkVsockAddr cid port in
                  do! writeln ("Connecting to " +:+ fmt_dec cid +:+ ":" +:+ fmt_dec port +:+ "...") in
                  let! r := vs_connect t peer in
                  do! unwrap_ok r in
                  vcat_loop fuel t peer
              end
          end
      end
  | _ =>
      do! writeln "Usage:" in
      writeln "  vcat <CID> <port>"
  end.

(** ** The loop *)

Definition run_command (fuel : nat) (pci_roots : list Z) (devices : Devices.t) (fdt : Fdt)
    (c : command) (parts : list string) : K bool :=
  match c with
  | CmdAlarm => do! Alarm.alarm parts in ret true
  | CmdDate => do! date in ret true
  | CmdDtdump => do! dtdump fdt in ret true
  | CmdExit => ret false
  | CmdHelp => do! help in ret true
  | CmdSgi => do! CpusApp.sgi parts in ret true
  | CmdLsdev => do! lsdev devices in ret true
  | CmdLspci => do! lspci pci_roots in ret true
  | CmdVcat => do! vcat fuel parts (Devices.vsock devices) in ret true
  | CmdCpus => do! CpusApp.cpus fdt in ret true
  | CmdStartCpu => do! CpusApp.start_cpu fdt parts in ret true
  | CmdEmpty => ret true
  | CmdUnknown => do! writeln "Unrecognised command." in ret true
  end.

(** One iteration; the result is whether to go on. *)
Definition shell_step (fuel : nat) (pci_roots : list Z) (devices : Devices.t) (fdt : Fdt)
    : K bool :=
  do! write_text "$ " in
  let! line := read_line fuel in
  if decide (line = [EOF]) then ret false
  else
    match from_utf8 line with
    | None => do! writeln "Invalid UTF-8" in ret true
    | Some line =>
        match split_space line with
        | [] => ret true
        | c :: parts => run_command fuel pci_roots devices fdt (parse_command c) parts
        end
    end.

Fixpoint shell_loop (fuel : nat) (pci_roots : list Z) (devices : Devices.t) (fdt : Fdt) : K unit :=
  match fuel with
  | O => out_of_fuel
  | S fuel =>
      let! continue := shell_step fuel pci_roots devices fdt in
      if continue then shell_loop fuel pci_roots devices fdt else ret tt
  end.

Definition shell_main (fuel : nat) (pci_roots : list Z) (devices : Devices.t) (fdt : Fdt) : K unit :=
  do! info "Configuring IRQs..." in
  do! tell (GicSetPriorityMask 0xff) in
  do! Alarm.irq_setup in
  do! irq_enable in
  do! shell_loop fuel pci_roots devices fdt in
  Alarm.irq_remove.
End shell.

(** ** Reading a line *)

Definition printable (c : byte) : bool := negb (is_ascii_control c).

(** The characters which are typed and stay in the line. *)
Definition kept (typed : list byte) : list byte := List.filter printable typed.

(** A character which does not end a line. *)
Definition inner (c : byte) : Prop := c <> CR /\ c <> LF /\ c <> EOF.

Section read_line.
Context {P : PagingCrate} {B : BoardEnv} {I : EmbeddedIo machine} {L : EmbeddedIoLaws machine I}.
Context {C : CrateConsts} {D : ConsoleDev} {CS : ConsoleSpec}.
Implicit Types s : machine.

(** One character inside a line which still has room. *)
Lemma read_line_char fuel line c rest s :
  con_ok s -> pending (trace s) = c :: rest -> inner c ->
  (length line + length (kept [c]) <= LINE_CAPACITY)%nat ->
  exists s1, read_line_loop (S fuel) line s = read_line_loop fuel (line ++ kept [c]) s1 /\
    io_step (kept [c]) [c] s s1 /\ con_ok s1 /\ pending (trace s1) = rest.
Proof.
  intros Hok Hp (Hcr & Hlf & Heof) Hlen.
  destruct (read_byte_spec c rest s Hok Hp) as (s1 & E1 & H1 & Hp1).
  assert (con_ok s1) as Hok1 by (by eapply io_step_ok).
  cbn [read_line_loop]. erewrite bind_Val by exact E1.
  rewrite decide_False by naive_solver. rewrite decide_False by naive_solver.
  change (negb (is_ascii_control c)) with (printable c).
  unfold kept in *. simpl in *. destruct (printable c).
  - destruct (write_bytes_spec [c] s1 Hok1) as (s2 & E2 & H2).
    erewrite bind_Val by exact E2. unfold push.
    rewrite (proj2 (Nat.ltb_lt _ _)) by (simpl in Hlen; lia). run_step.
    exists s2. split; [done|]. split; [by apply (io_step_trans [] [c] [c] [] s s1)|].
    split; [by eapply io_step_ok|]. destruct H2 as [[_ H2] _]. simpl in H2. congruence.
  - exists s1. rewrite app_nil_r. done.
Qed.

Lemma read_line_chars fuel line typed rest s :
  con_ok s -> pending (trace s) = typed ++ rest -> Forall inner typed ->
  (length line + length (kept typed) <= LINE_CAPACITY)%nat ->
  exists s1, read_line_loop (length typed + fuel) line s =
      read_line_loop fuel (line ++ kept typed) s1 /\
    io_step (kept typed) typed s s1 /\ con_ok s1 /\ pending (trace s1) = rest.
Proof.
  revert line s. induction typed as [|c typed IH]; intros line s Hok Hp Hin Hlen.
  { exists s. rewrite app_nil_r. split; [done|]. split; [apply io_step_refl|done]. }
  inversion_clear Hin as [|? ? Hc Htyped].
  assert (kept (c :: typed) = kept [c] ++ kept typed) as Hk.
  { unfold kept. simpl. by destruct (printable c). }
  rewrite Hk, length_app in Hlen.
  destruct (read_line_char (length typed + fuel) line c (typed ++ rest) s) as
    (s1 & E1 & H1 & Hok1 & Hp1); [done|done|done|lia|].
  destruct (IH (line ++ kept [c]) s1) as (s2 & E2 & H2 & Hok2 & Hp2);
    [done|done|done|rewrite length_app; lia|].
  exists s2. rewrite Hk, app_assoc. cbn [length Nat.add]. rewrite E1. split; [done|].
  split; [|done]. by apply (io_step_trans (kept [c]) [c] _ typed s s1).
Qed.

(** The end of a line. *)
Lemma read_line_end fuel line term rest s :
  con_ok s -> pending (trace s) = term :: rest -> term = CR \/ term = LF ->
  exists s', read_line_loop (S fuel) line s = (Val line, s') /\
    io_step crlf [term] s s' /\ pending (trace s') = rest.
Proof.
  intros Hok Hp Ht. destruct (read_byte_spec term rest s Hok Hp) as (s1 & E1 & H1 & Hp1).
  destruct (write_bytes_spec crlf s1) as (s2 & E2 & H2); [by eapply io_step_ok|].
  exists s2. cbn [read_line_loop]. erewrite bind_Val by exact E1. rewrite decide_True by done.
  erewrite bind_Val by exact E2. split; [done|].
  split; [by apply (io_step_trans [] [term] crlf [] s s1)|].
  destruct H2 as [[_ H2] _]. simpl in H2. congruence.
Qed.

Lemma read_line_run fuel typed term rest s :
  con_ok s -> pending (trace s) = typed ++ term :: rest -> Forall inner typed ->
  term = CR \/ term = LF -> (length (kept typed) <= LINE_CAPACITY)%nat ->
  (length typed < fuel)%nat ->
  exists s', read_line fuel s = (Val (kept typed), s') /\
    io_step (kept typed ++ crlf) (typed ++ [term]) s s' /\ pending (trace s') = rest.
Proof.
  intros Hok Hp Hin Ht Hlen Hf. unfold read_line.
  replace fuel with (length typed + S (fuel - length typed - 1))%nat by lia.
  destruct (read_line_chars (S (fuel - length typed - 1)) [] typed (term :: rest) s) as
    (s1 & E1 & H1 & Hok1 & Hp1); [done..|].
  destruct (read_line_end (fuel - length typed - 1) (kept typed) term rest s1) as
    (s2 & E2 & H2 & Hp2); [done..|].
  exists s2. rewrite E1. split; [done|]. split; [|done]. by eapply io_step_trans.
Qed.

Lemma read_line_eof_run fuel rest s :
  con_ok s -> pending (trace s) = EOF :: rest -> (0 < fuel)%nat ->
  exists s', read_line fuel s = (Val [EOF], s') /\ io_step crlf [EOF] s s' /\
    pending (trace s') = rest.
Proof.
  intros Hok Hp Hf. destruct fuel as [|fuel]; [lia|].
  destruct (read_byte_spec EOF rest s Hok Hp) as (s1 & E1 & H1 & Hp1).
  destruct (write_bytes_spec crlf s1) as (s2 & E2 & H2); [by eapply io_step_ok|].
  exists s2. unfold read_line. cbn [read_line_loop]. erewrite bind_Val by exact E1.
  rewrite decide_False by (by intros [|]). rewrite decide_True by done.
  erewrite bind_Val by exact E2. split; [done|].
  split; [by apply (io_step_trans [] [EOF] crlf [] s s1)|].
  destruct H2 as [[_ H2] _]. simpl in H2. congruence.
Qed.

(** C18: a line which is typed, with at most 128 printable characters, is returned
    without its control characters; exactly what is returned is echoed, followed by a
    line break, and exactly the line and its terminator are consumed. *)
Theorem read_line_returns_typed fuel typed term rest s :
  con_ok s -> pending (trace s) = typed ++ term :: rest -> Forall inner typed ->
  term = CR \/ term = LF -> (length (kept typed) <= 128)%nat -> (length typed < fuel)%nat ->
  exists s', read_line fuel s = (Val (kept typed), s') /\
    io_step (kept typed ++ crlf) (typed ++ [term]) s s' /\ pending (trace s') = rest.
Proof. apply read_line_run. Qed.

(** C38: the 129th printable character of a line makes [read_line] panic, after it
    was echoed: typing a long line at the prompt powers the system off. *)
Theorem read_line_overflow_panics fuel typed c rest s :
  con_ok s -> pending (trace s) = typed ++ c :: rest -> Forall inner (typed ++ [c]) ->
  length (kept typed) = 128%nat -> printable c = true -> (length typed < fuel)%nat ->
  exists msg s', read_line fuel s = (Panic msg, s') /\
    io_step (kept (typed ++ [c])) (typed ++ [c]) s s'.
Proof.
  intros Hok Hp [Hin Hc]%Forall_app Hlen Hpr Hf. apply Forall_singleton in Hc as (Hcr & Hlf & Heof).
  unfold read_line. replace fuel with (length typed + S (fuel - length typed - 1))%nat by lia.
  destruct (read_line_chars (S (fuel - length typed - 1)) [] typed (c :: rest) s) as
    (s1 & E1 & H1 & Hok1 & Hp1); [done|done|done|simpl; unfold LINE_CAPACITY; lia|].
  destruct (read_byte_spec c rest s1 Hok1 Hp1) as (s2 & E2 & H2 & Hp2).
  destruct (write_bytes_spec [c] s2) as (s3 & E3 & H3); [by eapply io_step_ok|].
  rewrite E1. cbn [read_line_loop]. erewrite bind_Val by exact E2.
  rewrite decide_False by naive_solver. rewrite decide_False by naive_solver.
  change (negb (is_ascii_control c)) with (printable c). rewrite Hpr.
  erewrite bind_Val by exact E3. unfold push. simpl app. rewrite Hlen. simpl. eexists _, s3.
  split; [reflexivity|].
  assert (kept (typed ++ [c]) = kept typed ++ [c]) as ->.
  { unfold kept. rewrite List.filter_app. simpl. by rewrite Hpr. }
  eapply io_step_trans; [exact H1|]. by apply (io_step_trans [] [c] [c] [] s1 s2).
Qed.
End read_line.

(** ** Sessions *)

Section session.
Context {P : PagingCrate} {B : BoardEnv} {I : EmbeddedIo machine} {L : EmbeddedIoLaws machine I}.
Context {C : CrateConsts} {D : ConsoleDev} {CS : ConsoleSpec} {PL : Platform}.
Implicit Types s : machine.

(** What the shell answers to a line whose command only uses the console. *)
Definition answer (fdt : Fdt) (line : list byte) : option (list byte) :=
  match from_utf8 line with
  | None => Some (bytes ("Invalid UTF-8" +:+ nl))
  | Some text =>
      match parse_command (default EmptyString (head (split_space text))) with
      | CmdEmpty => Some []
      | CmdUnknown => Some (bytes ("Unrecognised command." +:+ nl))
      | CmdHelp => Some (concat ((fun l => bytes (l +:+ nl)) <$> help_lines))
      | CmdDtdump => Some (bytes (fdt_display fdt +:+ nl))
      | _ => None
      end
  end.

Definition prompt : list byte := bytes "$ ".

(** A line which is typed, with its terminator, and everything it prints. *)
Record typed_line := mkLine { tl_typed : list byte; tl_term : byte; tl_answer : list byte }.

Definition good_line (fdt : Fdt) (l : typed_line) : Prop :=
  Forall inner (tl_typed l) /\ (tl_term l = CR \/ tl_term l = LF) /\
  (length (kept (tl_typed l)) <= LINE_CAPACITY)%nat /\
  answer fdt (kept (tl_typed l)) = Some (tl_answer l).

Definition session_input (lines : list typed_line) : list byte :=
  concat ((fun l => tl_typed l ++ [tl_term l]) <$> lines).

Definition session_output (lines : list typed_line) : list byte :=
  concat ((fun l => prompt ++ (kept (tl_typed l) ++ crlf) ++ tl_answer l) <$> lines).

(** The two ways to leave the shell, with what is echoed. *)
Definition leaves (input echo : list byte) : Prop :=
  (input = [EOF] /\ echo = crlf) \/
  (input = bytes "exit" ++ [CR] /\ echo = bytes "exit" ++ crlf).

Lemma for_each_writeln_spec lines s :
  con_ok s ->
  exists s', for_each writeln lines s = (Val tt, s') /\
    io_step (concat ((fun l => bytes (l +:+ nl)) <$> lines)) [] s s'.
Proof.
  revert s. induction lines as [|l lines IH]; intros s Hok; simpl.
  { exists s. split; [done|]. apply io_step_refl. }
  destruct (writeln_spec l s Hok) as (s1 & E1 & H1).
  destruct (IH s1) as (s2 & E2 & H2); [by eapply io_step_ok|].
  exists s2. erewrite bind_Val by exact E1. split; [done|].
  by apply (io_step_trans _ [] _ [] s s1).
Qed.

(** A console-only program followed by [continue]. *)
Lemma then_continue (m : K unit) text s :
  (exists s', m s = (Val tt, s') /\ io_step text [] s s') ->
  exists s', (do! m in ret true) s = (Val true, s') /\ io_step text [] s s'.
Proof. intros (s' & E & H). exists s'. by erewrite bind_Val by exact E. Qed.

Lemma io_step_pending text s s' : io_step text [] s s' -> pending (trace s') = pending (trace s).
Proof. by intros [[_ ->] _]. Qed.

(** The command part of an iteration. *)
Lemma run_answer fuel roots devices fdt line text s :
  con_ok s -> answer fdt line = Some text -> line <> [EOF] ->
  exists s',
    (if decide (line = [EOF]) then ret false
     else
       match from_utf8 line with
       | None => do! writeln "Invalid UTF-8" in ret true
       | Some line =>
           match split_space line with
           | [] => ret true
           | c :: parts => run_command fuel roots devices fdt (parse_command c) parts
           end
       end) s = (Val true, s') /\ io_step text [] s s'.
Proof.
  intros Hok Ha Hne. rewrite decide_False by done. unfold answer in Ha.
  destruct (from_utf8 line) as [str|].
  2: { injection Ha as <-. by apply then_continue, writeln_spec. }
  destruct (split_space_cons str) as (c & parts & E). rewrite E in *. simpl in Ha.
  unfold run_command, help, dtdump.
  destruct (parse_command c); try done; injection Ha as <-.
  - by apply then_continue, writeln_spec.
  - by apply then_continue, for_each_writeln_spec.
  - exists s. split; [done|]. apply io_step_refl.
  - by apply then_continue, writeln_spec.
Qed.

Lemma kept_not_eof typed : kept typed <> [EOF].
Proof.
  intros H. assert (In EOF (kept typed)) as [_ Hp]%filter_In by (rewrite H; by left). done.
Qed.

Lemma shell_step_answer fuel roots devices fdt l rest s :
  con_ok s -> good_line fdt l ->
  pending (trace s) = (tl_typed l ++ [tl_term l]) ++ rest -> (length (tl_typed l) < fuel)%nat ->
  exists s', shell_step fuel roots devices fdt s = (Val true, s') /\
    io_step (prompt ++ (kept (tl_typed l) ++ crlf) ++ tl_answer l) (tl_typed l ++ [tl_term l]) s s' /\
    pending (trace s') = rest.
Proof.
  intros Hok (Hin & Ht & Hlen & Hans) Hp Hf. rewrite <-app_assoc in Hp. simpl in Hp.
  destruct (write_text_spec "$ " s Hok) as (s1 & E1 & H1).
  destruct (read_line_run fuel (tl_typed l) (tl_term l) rest s1) as (s2 & E2 & H2 & Hp2);
    [by eapply io_step_ok|by rewrite (io_step_pending _ _ _ H1)|done..|].
  destruct (run_answer fuel roots devices fdt (kept (tl_typed l)) (tl_answer l) s2)
    as (s3 & E3 & H3); [|done|apply kept_not_eof|].
  { eapply io_step_ok; [|exact H2]. by eapply io_step_ok. }
  exists s3. unfold shell_step. erewrite bind_Val by exact E1. erewrite bind_Val by exact E2.
  split; [exact E3|]. split; [|by rewrite (io_step_pending _ _ _ H3)].
  pose proof (io_step_trans _ _ _ _ _ _ _ H2 H3) as H23. rewrite app_nil_r in H23.
  exact (io_step_trans _ [] _ _ _ _ _ H1 H23).
Qed.

Lemma shell_step_leaves fuel roots devices fdt input echo rest s :
  con_ok s -> leaves input echo -> pending (trace s) = input ++ rest ->
  (length input < fuel)%nat ->
  exists s', shell_step fuel roots devices fdt s = (Val false, s') /\
    io_step (prompt ++ echo) input s s' /\ pending (trace s') = rest.
Proof.
  intros Hok Hl Hp Hf. destruct (write_text_spec "$ " s Hok) as (s1 & E1 & H1).
  rewrite <-(io_step_pending _ _ _ H1) in Hp.
  assert (con_ok s1) as Hok1 by (by eapply io_step_ok). unfold shell_step.
  destruct Hl as [[-> ->]|[-> ->]].
  - destruct (read_line_eof_run fuel rest s1) as (s2 & E2 & H2 & Hp2); [done|done|simpl in Hf; lia|].
    exists s2. erewrite bind_Val by exact E1. erewrite bind_Val by exact E2.
    split; [done|]. split; [|done]. exact (io_step_trans _ [] _ _ _ _ _ H1 H2).
  - destruct (read_line_run fuel (bytes "exit") CR rest s1) as (s2 & E2 & H2 & Hp2);
      [done|done| |by left|simpl; unfold LINE_CAPACITY; lia|simpl in *; lia|].
    { repeat constructor; done. }
    exists s2. erewrite bind_Val by exact E1. erewrite bind_Val by exact E2.
    split; [done|]. split; [|done]. exact (io_step_trans _ [] _ _ _ _ _ H1 H2).
Qed.

(** A session, line by line. *)
Lemma shell_session_run fuel roots devices fdt lines input echo rest s :
  con_ok s -> Forall (good_line fdt) lines -> leaves input echo ->
  pending (trace s) = session_input lines ++ input ++ rest ->
  (length (session_input lines ++ input) + 1 < fuel)%nat ->
  exists s', shell_loop fuel roots devices fdt s = (Val tt, s') /\
    io_step (session_output lines ++ prompt ++ echo) (session_input lines ++ input) s s' /\
    pending (trace s') = rest.
Proof.
  intros Hok Hg Hl. revert fuel s Hok. induction Hg as [|l lines Hline _ IH];
    intros fuel s Hok Hp Hf; (destruct fuel as [|fuel]; [lia|]); cbn [shell_loop].
  - destruct (shell_step_leaves fuel roots devices fdt input echo rest s) as (s1 & E1 & H1 & Hp1);
      [done..|simpl in Hf; lia|]. exists s1. by erewrite bind_Val by exact E1.
  - assert (session_input (l :: lines) = (tl_typed l ++ [tl_term l]) ++ session_input lines) as Hi
      by done. rewrite Hi, <-app_assoc in Hp. rewrite Hi, !length_app in Hf. simpl in Hf.
    destruct (shell_step_answer fuel roots devices fdt l (session_input lines ++ input ++ rest) s)
      as (s1 & E1 & H1 & Hp1); [done|done|done|lia|].
    destruct (IH fuel s1) as (s2 & E2 & H2 & Hp2);
      [by eapply io_step_ok|done|rewrite length_app; lia|].
    exists s2. erewrite bind_Val by exact E1. split; [done|]. split; [|done].
    rewrite Hi, <-app_assoc. pose proof (io_step_trans _ _ _ _ _ _ _ H1 H2) as H12.
    unfold session_output in *. cbn [fmap list_fmap concat]. by rewrite <-!app_assoc in *.
Qed.

(** C10: any sequence of lines with commands which only use the console, unknown,
    empty and undecodable ones included, is answered line by line and never ends the
    shell; [exit], or an end-of-file at the start of a line, does.  All of the input is
    consumed in order, and nothing after it; the output is exactly the prompts, the
    echo and the answers. *)
Theorem shell_session fuel roots devices fdt lines input echo rest s :
  con_ok s -> Forall (good_line fdt) lines -> leaves input echo ->
  pending (trace s) = session_input lines ++ input ++ rest ->
  (length (session_input lines ++ input) + 1 < fuel)%nat ->
  exists s', shell_loop fuel roots devices fdt s = (Val tt, s') /\
    io_step (session_output lines ++ prompt ++ echo) (session_input lines ++ input) s s' /\
    pending (trace s') = rest.
Proof. apply shell_session_run. Qed.
End session.

(** ** Commands *)

(** The names which [help] lists: the third word of each line but the first. *)
Definition help_names : list string := omap (fun l => split_space l !! 2%nat) (tail help_lines).

(** [help] lists exactly the commands which the shell knows. *)
Lemma help_lists_commands name :
  name ∈ help_names <-> parse_command name <> CmdUnknown /\ name <> EmptyString.
Proof.
  assert (help_names = ["alarm"; "cpus"; "date"; "dtdump"; "exit"; "help"; "sgi"; "lsdev"; "lspci";
    "start_cpu"; "vcat"]) as -> by reflexivity.
  split.
  - intros H. repeat (apply elem_of_cons in H as [->|H]; [done|]). by apply elem_of_nil in H.
  - intros [Hk Hne]. revert Hk. unfold parse_command.
    repeat match goal with
    | |- (if String.eqb name ?x then _ else _) <> _ -> _ =>
        destruct (String.eqb_spec name x) as [->|?];
        [intros _; first [done | apply list_elem_of_In; simpl; tauto]|]
    end. done.
Qed.

Section commands.
Context {P : PagingCrate} {B : BoardEnv} {I : EmbeddedIo machine} {L : EmbeddedIoLaws machine I}.
Context {C : CrateConsts} {D : ConsoleDev} {CS : ConsoleSpec} {PL : Platform}.
Implicit Types s : machine.

Lemma irq_remove_inv s u s' :
  Alarm.irq_remove s = (Val u, s') -> shared_irq s' = delete RTC_IRQ (shared_irq s).
Proof.
  unfold Alarm.irq_remove, Irq.remove_shared_irq_handler. intros H. inv_bind H as old s1 H1.
  inv_prim H. inv_step H1. apply exception_free_inv in H1 as (s2 & H1 & ->).
  apply with_lock_inv in H1 as (_ & s3 & H1 & ->). inv_step H1.
  inv_bind H1 as v s4 Hm. injection Hm as _ <-. injection H1 as _ <-. simpl.
  destruct Hrun as (evs & -> & _). done.
Qed.

(** Whenever the shell returns, the alarm's handler is no longer in the table
    of shared interrupt handlers. *)
Lemma shell_removes_alarm_handler fuel roots devices fdt s u s' :
  shell_main fuel roots devices fdt s = (Val u, s') -> shared_irq s' !! RTC_IRQ = None.
Proof.
  unfold shell_main. intros H. do 5 (let a := fresh in let s1 := fresh in let H1 := fresh in
    inv_bind H as a s1 H1; clear H1). apply irq_remove_inv in H as ->. apply lookup_delete_eq.
Qed.

(** [vcat] with more than four arguments panics, before it looks at any of
    them, instead of printing its usage. *)
Lemma vcat_extra_arguments_panic fuel args vsock s :
  (4 < length args)%nat ->
  exists msg, vcat fuel args vsock s = (Panic msg, s).
Proof.
  intros Hl. unfold vcat, collect4. rewrite (proj2 (Nat.leb_gt _ _) Hl). by eexists.
Qed.
End commands.

(** ** Witnesses *)

(** A session at the console: an unknown command with a control character in it,
    an empty line, and an end-of-file. *)
Definition sim_lines : list typed_line :=
  [mkLine (bytes "f" ++ [x07] ++ bytes "oo bar") CR (bytes ("Unrecognised command." +:+ nl));
   mkLine [] LF []].
Definition sim_input : list byte := session_input sim_lines ++ [EOF].

Section read_witnesses.
#[local] Instance sim_board : BoardEnv := sim_typed (bytes "a" ++ [x07; x62; CR]).
#[local] Instance sim_dev : ConsoleDev := sim_console (bytes "a" ++ [x07; x62; CR]).
#[local] Instance sim_dev_spec : ConsoleSpec := sim_console_spec (bytes "a" ++ [x07; x62; CR]).

Lemma read_line_returns_typed_witness :
  exists s', read_line 9 sim_running = (Val (bytes "ab"), s') /\
    io_step (bytes "ab" ++ crlf) (bytes "a" ++ [x07; x62; CR]) sim_running s' /\
    pending (trace s') = [].
Proof.
  apply (read_line_returns_typed 9 [x61; x07; x62] CR [] sim_running).
  - apply not_elem_of_empty.
  - reflexivity.
  - by repeat constructor.
  - by left.
  - simpl. lia.
  - simpl. lia.
Defined.
End read_witnesses.

Section overflow_witness.
Definition sim_long : list byte := replicate 129 x61.
#[local] Instance sim_board2 : BoardEnv := sim_typed sim_long.
#[local] Instance sim_dev2 : ConsoleDev := sim_console sim_long.
#[local] Instance sim_dev_spec2 : ConsoleSpec := sim_console_spec sim_long.

Lemma read_line_overflow_panics_witness :
  exists msg s', read_line 200 sim_running = (Panic msg, s') /\
    io_step sim_long sim_long sim_running s'.
Proof.
  apply (read_line_overflow_panics 200 (replicate 128 x61) x61 [] sim_running).
  - apply not_elem_of_empty.
  - reflexivity.
  - change (Forall inner (replicate 129 x61)). apply Forall_replicate. done.
  - reflexivity.
  - reflexivity.
  - rewrite length_replicate. lia.
Defined.
End overflow_witness.

Section session_witness.
#[local] Instance sim_board3 : BoardEnv := sim_typed sim_input.
#[local] Instance sim_dev3 : ConsoleDev := sim_console sim_input.
#[local] Instance sim_dev_spec3 : ConsoleSpec := sim_console_spec sim_input.
#[local] Instance sim_qemu3 : Platform := Qemu.platform (B := sim_typed sim_input).

Lemma shell_session_witness :
  exists s', shell_loop 30 [] (Devices.new 0) sim_fdt sim_running = (Val tt, s') /\
    io_step (session_output sim_lines ++ prompt ++ crlf) sim_input sim_running s' /\
    pending (trace s') = [].
Proof.
  apply (shell_session 30 [] (Devices.new 0) sim_fdt sim_lines [EOF] crlf [] sim_running).
  - apply not_elem_of_empty.
  - repeat constructor; simpl; try done; try (unfold LINE_CAPACITY; lia); by left || by right.
  - by left.
  - reflexivity.
  - simpl. lia.
Defined.

Lemma vcat_extra_arguments_panic_witness :
  exists msg, vcat 1 ["2"; "1"; "x"; "y"; "z"] [] sim_running = (Panic msg, sim_running).
Proof. apply vcat_extra_arguments_panic. simpl. lia. Defined.
End session_witness.

