(* ===== verification/Vcat.v ===== *)
(** * Vcat: what [vcat] of [apps/shell.rs] relays

    [vcat] sends what is typed to its peer and shows what the peer sends.  Here that is
    shown of every connection, against views of the history which read off what was
    typed, sent, received and printed; and [vcat] is shown to end when the device
    reports that the connection is closed. *)

From S2P Require Import Prelude Text Extern Machine Sim Console Io Cpus Interrupts Pagetable.
From S2P Require Import Platform Alarm Secondary Virtio Shell.

(** ** Views of a history *)

Section views.
Context {C : CrateConsts} (t : Transport) (peer : VsockAddr).

(** What was sent to the peer. *)
Definition sent_by (e : event) : list byte :=
  match e with
  | VsSend t' peer' port buf (Ok _) =>
      if decide (t' = t /\ peer' = peer /\ port = LOCAL_PORT) then buf else []
  | _ => []
  end.

(** The message for an event of the device. *)
Definition message (ev : VsockEvent) : list byte :=
  if decide (port (vs_destination ev) = LOCAL_PORT /\ vs_source ev = peer) then
    match vs_type ev with
    | VsConnected => bytes ("Connected." +:+ nl)
    | VsDisconnected Shutdown => bytes ("Connection shut down." +:+ nl)
    | VsDisconnected ResetReason => bytes ("Connection reset." +:+ nl)
    | VsReceived _ | VsCreditUpdate => []
    | VsOther _ => bytes (("Event: " +:+ vsevent_debug ev) +:+ nl)
    end
  else bytes (("Event for unexpected source or destination: " +:+ vsevent_debug ev) +:+ nl).

(** What is to be printed: messages for events, and what was received from the peer. *)
Definition shown_by (e : event) : list byte :=
  match e with
  | VsPoll t' (Ok (Some ev)) => if decide (t' = t) then message ev else []
  | VsRecv t' peer' port _ (Ok bs) =>
      if decide (t' = t /\ peer' = peer /\ port = LOCAL_PORT) then bs else []
  | _ => []
  end.
End views.

Section relay.
Context {P : PagingCrate} {B : BoardEnv} {I : EmbeddedIo machine} {L : EmbeddedIoLaws machine I}.
Context {C : CrateConsts} {UA : UartAccepts} (wait : nat).
Context (t : Transport) (peer : VsockAddr).
#[local] Instance vcat_dev : ConsoleDev := console_dev wait.
Implicit Types s : machine.

(** [s'] is [s] after calls which sent [tx], read [rx], printed [out] and had [sh] to be
    printed. *)
Definition flow (tx rx out sh : list byte) s s' : Prop :=
  exists evs, s' = set_trace (evs ++ trace s) s /\
    bytes_of (sent_by t peer) evs = tx /\ bytes_of typed_by evs = rx /\
    bytes_of printed_by evs = out /\ bytes_of (shown_by t peer) evs = sh.

Lemma flow_refl s : flow [] [] [] [] s s.
Proof. exists []. split; [by destruct s|done]. Qed.

Lemma flow_trans tx1 rx1 out1 sh1 tx2 rx2 out2 sh2 s1 s2 s3 :
  flow tx1 rx1 out1 sh1 s1 s2 -> flow tx2 rx2 out2 sh2 s2 s3 ->
  flow (tx1 ++ tx2) (rx1 ++ rx2) (out1 ++ out2) (sh1 ++ sh2) s1 s3.
Proof.
  intros (e1 & -> & <- & <- & <- & <-) (e2 & -> & <- & <- & <- & <-). exists (e2 ++ e1).
  simpl. rewrite <-app_assoc. split; [done|]. by rewrite !bytes_of_app.
Qed.

Lemma flow_held tx rx out sh s s' : flow tx rx out sh s s' -> held s' = held s.
Proof. by intros (evs & -> & _). Qed.

(** A single call. *)
Lemma flow_ask {A} (f : history -> A) mk s a s' :
  ask f mk s = (Val a, s') ->
  flow (sent_by t peer (mk a)) (typed_by (mk a)) (printed_by (mk a)) (shown_by t peer (mk a)) s s'.
Proof. intros H. injection H as <- <-. by eexists [_]. Qed.

(** A critical section of the console with one call. *)
Lemma flow_critical {A} (f : history -> A) mk s a s' :
  exception_free (with_lock LConsole (ask f mk)) s = (Val a, s') ->
  flow (sent_by t peer (mk a)) (typed_by (mk a)) (printed_by (mk a)) (shown_by t peer (mk a)) s s'.
Proof.
  intros (_ & s1 & H & Hs)%critical_inv. injection H as <- <-.
  specialize (Hs _ eq_refl). subst s'. by eexists [_].
Qed.

(** *** Printing *)

Lemma uart_output_printed h : uart_output h = bytes_of printed_by h.
Proof.
  induction h as [|e h IH]; simpl; [done|]. rewrite IH.
  destruct (call e); simpl; rewrite ?app_nil_r; try done.
  match goal with |- context [match ?r with Ok _ => _ | Err _ => _ end] => destruct r end;
    by rewrite ?app_nil_r.
Qed.

(** Only writes, where the lock is free. *)
Definition writes_only s s' : Prop := LConsole ∉ held s -> uart_calls s s'.

#[local] Instance writes_only_preorder : PreOrder writes_only.
Proof.
  split.
  - intros s _. reflexivity.
  - intros s1 s2 s3 H12 H23 Hl. specialize (H12 Hl). etrans; [done|]. apply H23.
    by destruct H12 as (evs & -> & _).
Qed.

Lemma console_write_only buf : stays writes_only (Console.write buf).
Proof.
  intros s Hl. rewrite console_write_run by done. eexists [_]. split; [reflexivity|].
  apply Forall_singleton. by eexists _, _.
Qed.

Lemma wrote_flow text s s' :
  writes_only s s' -> LConsole ∉ held s -> wrote text s s' -> flow [] [] text [] s s'.
Proof.
  intros Hw Hl (evs & -> & Ho). destruct (Hw Hl) as (evs' & He & Huart).
  assert (evs' = evs) as ->.
  { apply (app_inv_tail (trace s)). apply (f_equal trace) in He. by simpl in He. }
  exists evs. split; [done|]. rewrite uart_output_printed, bytes_of_app, uart_output_printed in Ho.
  apply app_inv_head in Ho. split; [|split; [|split; [done|]]]; apply bytes_of_nil;
    (eapply Forall_impl; [exact Huart|]); by intros e (buf & r & ->).
Qed.

Lemma write_text_flow text s u s' :
  LConsole ∉ held s -> write_text text s = (Val u, s') -> flow [] [] (bytes text) [] s s'.
Proof.
  intros Hl H. destruct (write_fmt_writes _ _ text s shared_write_prefix Hl) as (s1 & E & Hw & _).
  assert (writes_only s s1) as Ho.
  { pose proof (write_fmt_stays writes_only SharedConsole.write text console_write_only s) as Hs.
    by rewrite E in Hs. }
  unfold write_text in H. erewrite bind_Val in H by exact E. injection H as _ <-.
  by apply wrote_flow.
Qed.

Lemma write_bytes_flow buf s u s' :
  LConsole ∉ held s -> write_bytes buf s = (Val u, s') -> flow [] [] buf [] s s'.
Proof.
  intros Hl H. destruct (write_all_writes _ _ buf s shared_write_prefix Hl) as (s1 & E & Hw & _).
  assert (writes_only s s1) as Ho.
  { pose proof (write_all_stays SharedConsole.write buf writes_only console_write_only s) as Hs.
    by rewrite E in Hs. }
  unfold write_bytes in H. erewrite bind_Val in H by exact E. injection H as _ <-.
  by apply wrote_flow.
Qed.

(** *** Reading *)

Lemma try_read_flow len s r s' :
  exception_free (with_lock LConsole (Console.try_read len)) s = (Val r, s') ->
  flow [] (match r with Ok (Some bs) => bs | _ => [] end) [] [] s s'.
Proof.
  intros (_ & s1 & H & Hs)%critical_inv. unfold Console.try_read, uart_read_ready, uart_read in H.
  inv_bind H as ready s2 H1. injection H1 as Hready <-.
  destruct ready as [[]|e]; [|injection H as <- <-; rewrite (Hs _ eq_refl); by eexists [_]..].
  inv_bind H as bs s3 H2. injection H2 as Hbs <-. injection H as <- <-. rewrite (Hs _ eq_refl).
  rewrite Hbs. eexists [_; _]. split; [reflexivity|]. simpl. by destruct bs.
Qed.

Lemma read_flow fuel len s bs s' :
  Console.read fuel len s = (Val (Ok bs), s') -> flow [] bs [] [] s s'.
Proof.
  revert s. induction fuel as [|fuel IH]; intros s H; [done|]. cbn [Console.read] in H.
  inv_bind H as r s1 H1. apply try_read_flow in H1. destruct r as [[x|]|e]; [| |discriminate H].
  - by injection H as -> <-.
  - unfold wait_for_irq, wfi, tell in H. inv_bind H as u s2 H2. apply flow_ask in H2.
    apply IH in H. by eapply (flow_trans [] [] [] [] [] bs [] []);
      [eapply (flow_trans [] [] [] [] [] [] [] [])|].
Qed.

(** *** The loop *)

Lemma receive_flow fuel s u s' :
  LConsole ∉ held s -> vcat_receive fuel t peer s = (Val u, s') ->
  exists bs, flow [] [] bs bs s s'.
Proof.
  revert s. induction fuel as [|fuel IH]; intros s Hl H; [done|]. cbn [vcat_receive] in H.
  unfold vs_available, vs_recv in H. inv_bind H as n s1 H1. apply flow_ask in H1. simpl in H1.
  inv_step H as k. destruct (0 <? k); [|injection H as _ <-; by exists []].
  inv_bind H as r s2 H2. apply flow_ask in H2. inv_step H as bs. rewrite Hrun0 in H2. simpl in H2.
  rewrite decide_True in H2 by done. inv_bind H as u3 s3 H3. apply write_bytes_flow in H3.
  2:{ by rewrite (flow_held _ _ _ _ _ _ H2), (flow_held _ _ _ _ _ _ H1). }
  pose proof (flow_trans _ _ _ _ _ _ _ _ _ _ _ (flow_trans _ _ _ _ _ _ _ _ _ _ _ H1 H2) H3) as H4.
  apply IH in H as (bs2 & H); [|by rewrite (flow_held _ _ _ _ _ _ H4)].
  pose proof (flow_trans _ _ _ _ _ _ _ _ _ _ _ H4 H) as H5. simpl in H5.
  rewrite app_nil_r in H5. by exists (bs ++ bs2).
Qed.

Lemma event_flow fuel ev s b s' :
  LConsole ∉ held s -> vcat_event fuel t peer ev s = (Val b, s') ->
  exists bs, flow [] [] (message peer ev ++ bs) bs s s'.
Proof.
  intros Hl H. unfold vcat_event in H. unfold message. case_decide; cycle 1.
  { inv_bind H as u s1 H1. injection H as _ <-. apply write_text_flow in H1; [|done].
    exists []. by rewrite app_nil_r. }
  destruct (vs_type ev) as [|[]| | |];
    try (inv_bind H as u s1 H1; injection H as _ <-; apply write_text_flow in H1; [|done];
         exists []; by rewrite app_nil_r).
  - inv_bind H as u s1 H1. injection H as _ <-. by apply receive_flow in H1.
  - injection H as _ <-. exists []. apply flow_refl.
Qed.

(** What is typed is sent, and what is to be printed is printed. *)
Definition relayed s s' : Prop := exists x y, flow x x y y s s'.

Lemma relayed_trans s1 s2 s3 : relayed s1 s2 -> relayed s2 s3 -> relayed s1 s3.
Proof. intros (x1 & y1 & H1) (x2 & y2 & H2). exists (x1 ++ x2), (y1 ++ y2). by eapply flow_trans. Qed.

Lemma relayed_held s s' : relayed s s' -> held s' = held s.
Proof. intros (x & y & H). by eapply flow_held. Qed.

(** The first half of an iteration: the keyboard. *)
Lemma keyboard_relayed s u s' :
  (let! ready := con_read_ready in
   let! ready := unwrap_ok ready in
   when ready
     (let! r := con_read 8 in
      let! buffer := unwrap_ok r in
      let! r := vs_send t peer buffer in
      unwrap_ok r)) s = (Val u, s') -> relayed s s'.
Proof.
  intros H. inv_bind H as r s1 H1. apply flow_critical in H1. simpl in H1. inv_step H as ready.
  destruct ready; cycle 1.
  { injection H as _ <-. by exists [], []. }
  cbn [when] in H. inv_bind H as r2 s2 H2. inv_step H as buffer. rewrite Hrun0 in H2.
  apply read_flow in H2. unfold vs_send in H. inv_bind H as r3 s3 H3. apply flow_ask in H3.
  destruct r3 as [[]|e]; [|discriminate H]. injection H as _ <-.
  simpl in H3. rewrite decide_True in H3 by done.
  pose proof (flow_trans _ _ _ _ _ _ _ _ _ _ _ (flow_trans _ _ _ _ _ _ _ _ _ _ _ H1 H2) H3) as H4.
  simpl in H4. rewrite app_nil_r in H4. by exists buffer, [].
Qed.

Lemma step_relayed fuel s b s' :
  LConsole ∉ held s -> vcat_step fuel t peer s = (Val b, s') -> relayed s s'.
Proof.
  intros Hl H.
  assert (vcat_step fuel t peer s = (do! (let! ready := con_read_ready in
   let! ready := unwrap_ok ready in
   when ready
     (let! r := con_read 8 in
      let! buffer := unwrap_ok r in
      let! r := vs_send t peer buffer in
      unwrap_ok r)) in
    let! event := vs_poll t in
    let! event := unwrap_ok event in
    match event with
    | Some event => vcat_event fuel t peer event
    | None => ret true
    end) s) as E.
  { rewrite bind_bind. unfold vcat_step, bind. destruct (con_read_ready s) as [[r|?|?|] s1]; try done.
    by destruct r. }
  rewrite E in H. clear E. inv_bind H as u s1 H1. apply keyboard_relayed in H1.
  unfold vs_poll in H. inv_bind H as r s2 H2. apply flow_ask in H2. inv_step H as ev.
  rewrite Hrun in H2. simpl in H2. destruct ev as [ev|]; cycle 1.
  { injection H as _ <-. eapply relayed_trans; [done|]. by exists [], []. }
  rewrite decide_True in H2 by done. apply event_flow in H as (bs & H).
  2:{ by rewrite (flow_held _ _ _ _ _ _ H2), (relayed_held _ _ H1). }
  eapply relayed_trans; [done|]. exists [], (message peer ev ++ bs).
  exact (flow_trans _ _ _ _ _ _ _ _ _ _ _ H2 H).
Qed.

Lemma loop_relayed fuel s u s' :
  LConsole ∉ held s -> vcat_loop fuel t peer s = (Val u, s') -> relayed s s'.
Proof.
  revert s. induction fuel as [|fuel IH]; intros s Hl H; [done|]. cbn [vcat_loop] in H.
  inv_bind H as continue s1 H1. apply step_relayed in H1; [|done].
  destruct continue; [|by injection H as _ <-].
  eapply relayed_trans; [done|]. apply IH; [|done]. by rewrite (relayed_held _ _ H1).
Qed.

(** *** How it ends *)

(** An event which says that the connection of [vcat] is closed. *)
Definition disconnects (e : entry) : Prop :=
  exists ev reason, call e = VsPoll t (Ok (Some ev)) /\
    port (vs_destination ev) = LOCAL_PORT /\ vs_source ev = peer /\
    vs_type ev = VsDisconnected reason.

Definition disconnected_since s s' : Prop :=
  exists evs, trace s' = evs ++ trace s /\ Exists disconnects evs.

#[local] Hint Extern 1 (stays grows con_read_ready) => apply grows_con_read_ready : stays.
#[local] Hint Extern 1 (stays grows (con_read _)) => apply grows_con_read : stays.
#[local] Hint Extern 1 (stays grows (write_bytes _)) => apply grows_write_bytes : stays.
#[local] Hint Extern 1 (stays grows (writeln _)) => apply grows_write_text : stays.

Lemma grows_vcat_receive fuel : stays grows (vcat_receive fuel t peer).
Proof.
  induction fuel as [|fuel IH]; [intros s; simpl; reflexivity|]. simpl.
  unfold vs_available, vs_recv. stays.
Qed.

Lemma grows_vcat_event fuel ev : stays grows (vcat_event fuel t peer ev).
Proof. unfold vcat_event. pose proof grows_vcat_receive. stays. Qed.

Lemma grows_vcat_step fuel : stays grows (vcat_step fuel t peer).
Proof. unfold vcat_step, vs_send, vs_poll. pose proof grows_vcat_event. stays. Qed.

Lemma vcat_event_false fuel ev s s' :
  vcat_event fuel t peer ev s = (Val false, s') ->
  port (vs_destination ev) = LOCAL_PORT /\ vs_source ev = peer /\
  exists reason, vs_type ev = VsDisconnected reason.
Proof.
  unfold vcat_event. intros H. case_decide as Hd.
  - destruct Hd as [Hport Hsrc]. split; [done|]. split; [done|].
    destruct (vs_type ev) as [|reason| | |]; [|by eexists|..];
      first [discriminate H | inv_bind H as u s1 H1; discriminate H].
  - inv_bind H as u s1 H1. discriminate H.
Qed.

Lemma vcat_step_false fuel s s' :
  vcat_step fuel t peer s = (Val false, s') -> disconnected_since s s'.
Proof.
  unfold vcat_step. intros H. inv_bind H as ready s1 H1. inv_step H as b.
  inv_bind H as u s2 H2. inv_bind H as ev s3 H3. injection H3 as Hev <-. inv_step H as event.
  destruct event as [event|]; [|discriminate H].
  assert (grows s s2) as [evs Ht].
  { trans s1.
    - assert (stays grows con_read_ready) as Hg by stays. specialize (Hg s). by rewrite H1 in Hg.
    - assert (stays grows (when b
        (let! r := con_read 8 in let! buffer := unwrap_ok r in
         let! r := vs_send t peer buffer in unwrap_ok r))) as Hg.
      { unfold vs_send. stays. }
      specialize (Hg s1). by rewrite H2 in Hg. }
  set (s3 := set_trace _ s2) in H.
  pose proof (grows_vcat_event fuel event s3) as [evs2 Ht2]. rewrite H in Ht2.
  apply vcat_event_false in H as (Hport & Hsrc & reason & Hty). simpl in Ht2.
  exists (evs2 ++ mkEntry (VsPoll t (env_vs_poll (trace s2) t)) (masked s2) (held s2) :: evs). split.
  - rewrite Ht2. simpl. by rewrite Ht, <-app_assoc.
  - apply Exists_app. right. left. exists event, reason. simpl. by rewrite Hev, Hrun0.
Qed.

Lemma loop_disconnected fuel s u s' :
  vcat_loop fuel t peer s = (Val u, s') -> disconnected_since s s'.
Proof.
  revert s. induction fuel as [|fuel IH]; intros s H; [done|]. cbn [vcat_loop] in H.
  inv_bind H as continue s1 H1. destruct continue.
  - apply IH in H as (evs & Ht & He). pose proof (grows_vcat_step fuel s) as [evs1 Ht1].
    rewrite H1 in Ht1. simpl in Ht1. exists (evs ++ evs1). rewrite Ht, Ht1, app_assoc.
    split; [done|]. by apply Exists_app; left.
  - inv_prim H. by apply vcat_step_false in H1.
Qed.

(** C13: when a connection of [vcat] ends, exactly the bytes which were typed have been
    sent to its peer, in order, and exactly the bytes which the peer sent have been
    printed, in order, between the messages for the events of the device; it ended
    because the device reported that this connection was shut down or reset, and
    nothing but the history has changed. *)
Theorem vcat_relays fuel s u s' :
  LConsole ∉ held s -> vcat_loop fuel t peer s = (Val u, s') ->
  exists evs, s' = set_trace (evs ++ trace s) s /\
    bytes_of (sent_by t peer) evs = bytes_of typed_by evs /\
    bytes_of printed_by evs = bytes_of (shown_by t peer) evs /\
    Exists disconnects evs.
Proof.
  intros Hl H. destruct (loop_disconnected _ _ _ _ H) as (evs' & Ht & Hd).
  destruct (loop_relayed _ _ _ _ Hl H) as (x & y & evs & -> & Hs & Hr & Hp & Hsh).
  simpl in Ht. apply app_inv_tail in Ht as <-. exists evs. split; [done|]. by rewrite Hs, Hr, Hp, Hsh.
Qed.

(** *** That it ends *)

Lemma polls_ignores_uart : ignores_uart (vs_polls t).
Proof. intros e h (buf & r & He). simpl. by rewrite He. Qed.

Lemma writeln_polls text s :
  LConsole ∉ held s ->
  exists s', writeln text s = (Val tt, s') /\ held s' = held s /\ vs_polls t (trace s') = vs_polls t (trace s).
Proof.
  intros Hl. destruct (write_fmt_writes _ _ (text +:+ nl) s shared_write_prefix Hl)
    as (s1 & E & Hw & _).
  exists s1. split; [unfold writeln, write_text; by erewrite bind_Val by exact E|].
  split; [by destruct (wrote_held _ _ _ Hw)|].
  pose proof (write_fmt_stays writes_only SharedConsole.write (text +:+ nl) console_write_only s) as Hs.
  rewrite E in Hs. apply (uart_calls_ignored (vs_polls t)); [apply polls_ignores_uart|by apply Hs].
Qed.

Definition closes (ev : VsockEvent) : Prop :=
  port (vs_destination ev) = LOCAL_PORT /\ vs_source ev = peer /\
  exists reason, vs_type ev = VsDisconnected reason.

Definition is_received (ev : VsockEvent) : Prop := exists n, vs_type ev = VsReceived n.

Lemma event_run fuel ev s :
  LConsole ∉ held s -> ~ is_received ev ->
  exists b s', vcat_event fuel t peer ev s = (Val b, s') /\ (b = false <-> closes ev) /\
    held s' = held s /\ vs_polls t (trace s') = vs_polls t (trace s).
Proof.
  intros Hl Hr. unfold vcat_event, closes. case_decide as Hd; cycle 1.
  { destruct (writeln_polls ("Event for unexpected source or destination: " +:+ vsevent_debug ev) s Hl)
      as (s1 & E & Hs). erewrite bind_Val by exact E. exists true, s1. naive_solver. }
  destruct (vs_type ev) as [|[]|n| |] eqn:Ety.
  5:{ exists true, s. naive_solver. }
  4:{ by destruct Hr; exists n. }
  all: match goal with |- context [writeln ?msg] =>
    destruct (writeln_polls msg s Hl) as (s1 & E & Hs) end;
    erewrite bind_Val by exact E; eexists _, s1; naive_solver.
Qed.

Lemma step_run (feed : nat -> option VsockEvent) fuel s :
  (forall h, env_uart_read_ready h = Ok false) ->
  (forall h, env_vs_poll h t = Ok (feed (vs_polls t h))) -> LConsole ∉ held s ->
  (forall ev, feed (vs_polls t (trace s)) = Some ev -> ~ is_received ev) ->
  exists b s', vcat_step fuel t peer s = (Val b, s') /\
    (b = false <-> exists ev, feed (vs_polls t (trace s)) = Some ev /\ closes ev) /\
    held s' = held s /\ vs_polls t (trace s') = S (vs_polls t (trace s)).
Proof.
  intros Hk Hf Hl Hr. unfold vcat_step. cbn [con_read_ready vcat_dev console_dev].
  erewrite bind_Val; cycle 1.
  { unfold Console.read_ready, uart_read_ready. apply critical_Val; [done|]. reflexivity. }
  rewrite Hk. run_step. cbn [when]. run_step. unfold vs_poll. run_step. rewrite Hf.
  cbn [trace set_trace vs_polls call]. run_step. change (trace (in_critical LConsole s)) with (trace s).
  destruct (feed (vs_polls t (trace s))) as [ev|] eqn:Ev.
  - match goal with |- context [vcat_event _ _ _ _ ?s2] =>
      destruct (event_run fuel ev s2 Hl (Hr ev eq_refl)) as (b & s' & -> & Hb & Hh & Hp) end.
    exists b, s'. split; [done|]. split; [rewrite Hb; naive_solver|]. split; [done|].
    rewrite Hp. simpl. by rewrite decide_True.
  - eexists true, _. split; [reflexivity|]. split; [naive_solver|]. split; [done|].
    simpl. by rewrite decide_True.
Qed.

(** C28: with nothing typed and nothing received, [vcat] ends with the first event of
    the device which says that this connection was closed, after exactly as many polls
    as it took to arrive; no other event ends it. *)
Theorem vcat_ends (feed : nat -> option VsockEvent) n fuel s :
  (forall h, env_uart_read_ready h = Ok false) ->
  (forall h, env_vs_poll h t = Ok (feed (vs_polls t h))) -> LConsole ∉ held s -> (n < fuel)%nat ->
  (forall k ev, feed k = Some ev -> ~ is_received ev) ->
  (forall k ev, (k < n)%nat -> feed (vs_polls t (trace s) + k)%nat = Some ev -> ~ closes ev) ->
  (exists ev, feed (vs_polls t (trace s) + n)%nat = Some ev /\ closes ev) ->
  exists s', vcat_loop fuel t peer s = (Val tt, s') /\
    vs_polls t (trace s') = (vs_polls t (trace s) + S n)%nat.
Proof.
  intros Hk Hf Hl Hn Hr. revert n s Hl Hn. induction fuel as [|fuel IH]; intros n s Hl Hn Hk' He; [lia|].
  cbn [vcat_loop].
  destruct (step_run feed fuel s Hk Hf Hl (fun ev => Hr _ ev)) as (b & s1 & E & Hb & Hh & Hp).
  erewrite bind_Val by exact E. destruct n as [|n].
  - rewrite Nat.add_0_r in He. rewrite (proj2 Hb He). exists s1. split; [done|]. lia.
  - destruct b.
    + destruct (IH n s1) as (s' & -> & Hp'); [by rewrite Hh|lia| | |].
      * intros k ev Hkn. rewrite Hp. replace (S (vs_polls t (trace s)) + k)%nat
          with (vs_polls t (trace s) + S k)%nat by lia. apply Hk'. lia.
      * rewrite Hp. by replace (S (vs_polls t (trace s)) + n)%nat with (vs_polls t (trace s) + S n)%nat by lia.
      * exists s'. split; [done|]. lia.
    + destruct (proj1 Hb eq_refl) as (ev & Hev & Hc). destruct (Hk' 0%nat ev); [lia| |done].
      by rewrite Nat.add_0_r.
Qed.
End relay.

(** ** Witnesses: a connection which is reset *)

Section vcat_witness.
Definition sim_peer : VsockAddr := mkVsockAddr 2 1234.
Definition sim_vsock : Transport := MmioTransport 0xa000400 0x200.
Definition sim_events : list VsockEvent :=
  [mkVsockEvent sim_peer (mkVsockAddr 102 42) VsConnected;
   mkVsockEvent (mkVsockAddr 9 9) (mkVsockAddr 102 42) (VsDisconnected Shutdown);
   mkVsockEvent sim_peer (mkVsockAddr 102 42) (VsReceived 5);
   mkVsockEvent sim_peer (mkVsockAddr 102 42) (VsDisconnected ResetReason)].
Definition sim_no_data : list VsockEvent := delete 2%nat sim_events.

(** Something is typed. *)
#[local] Instance sim_board4 : BoardEnv :=
  sim_env (mkSimConfig (bytes "hi") 0 false None [] sim_events).
#[local] Instance sim_accepts4 : UartAccepts.
Proof. by apply sim_accepts. Qed.

Definition sim_vcat_end : machine :=
  (vcat_loop (D := console_dev 1) 5 sim_vsock sim_peer sim_machine).2.

Lemma vcat_relays_witness :
  exists evs, trace sim_vcat_end = evs ++ [] /\
    bytes_of (sent_by sim_vsock sim_peer) evs = bytes_of typed_by evs /\
    bytes_of printed_by evs = bytes_of (shown_by sim_vsock sim_peer) evs /\
    Exists (disconnects sim_vsock sim_peer) evs.
Proof.
  destruct (vcat_relays 1 sim_vsock sim_peer 5 sim_machine tt sim_vcat_end) as (evs & E & H).
  - apply not_elem_of_empty.
  - apply (run_fst (vcat_loop (D := console_dev 1) 5 sim_vsock sim_peer) sim_machine (Val tt)).
    vm_cast_no_check (eq_refl (Val tt)).
  - exists evs. split; [exact (f_equal trace E)|exact H].
Defined.
End vcat_witness.

Section vcat_ends_witness.
#[local] Instance sim_board5 : BoardEnv := sim_env (mkSimConfig [] 0 false None [] sim_no_data).
#[local] Instance sim_accepts5 : UartAccepts.
Proof. by apply sim_accepts. Qed.

Lemma vcat_ends_witness :
  exists s', vcat_loop (D := console_dev 1) 5 sim_vsock sim_peer sim_machine = (Val tt, s') /\
    vs_polls sim_vsock (trace s') = 3%nat.
Proof.
  apply (vcat_ends 1 sim_vsock sim_peer (fun k => sim_no_data !! k) 2 5 sim_machine).
  - reflexivity.
  - reflexivity.
  - apply not_elem_of_empty.
  - lia.
  - intros k ev Hk [n Hn]. do 3 (destruct k as [|k]; [injection Hk as <-; discriminate Hn|]).
    discriminate Hk.
  - intros k ev Hk He (_ & Hs & r & Hr). destruct k as [|[|k]]; [| |lia].
    + injection He as <-. discriminate Hr.
    + injection He as <-. discriminate Hs.
  - eexists. split; [reflexivity|]. split; [reflexivity|]. split; [reflexivity|].
    exists ResetReason. reflexivity.
Defined.
End vcat_ends_witness.
