(* ===== verification/Frame.v ===== *)
(** * Frame: what most of the kernel leaves alone

    A relation between states which calls to the outside, masking and locking keep is
    kept by every program which changes no static.  [frame] proves it of a program
    piece by piece; it is used for the statics which boot sets, and for the input of the
    console. *)

From S2P Require Import Prelude Text Extern Machine Sim Console Io Cpus Interrupts Pagetable.
From S2P Require Import Platform Pci FdtMap Virtio.

Class Frame `{P : PagingCrate} (Q : Surroundings) (R : machine -> machine -> Prop) : Prop := {
  frame_preorder :: PreOrder R;
  frame_ask {A} (f : history -> A) mk :
    (forall a len r, mk a <> UartRead len r) -> stays R (ask f mk);
  frame_before_lock l : stays R (before_lock l);
  frame_masked v s : R s (set_masked v s);
  frame_held v s : R s (set_held v s);
}.

Create HintDb frame.
#[export] Hint Extern 1 (stays _ (ask _ _)) => apply frame_ask; by intros : frame.
#[export] Hint Extern 1 (stays _ (tell _)) => apply frame_ask; by intros : frame.
#[export] Hint Extern 1 (stays _ (ret _)) => apply stays_ret; apply _ : frame.
#[export] Hint Extern 1 (stays _ (panic _)) => apply stays_panic; apply _ : frame.
#[export] Hint Extern 1 (stays _ (hang _)) => apply stays_hang; apply _ : frame.
#[export] Hint Extern 1 (stays _ (gets _)) => apply stays_gets; apply _ : frame.
#[export] Hint Extern 1 (stays _ (expect _ _)) => apply stays_expect; apply _ : frame.
#[export] Hint Extern 1 (stays _ (unwrap _)) => apply stays_expect; apply _ : frame.
#[export] Hint Extern 1 (stays _ (unwrap_ok _)) => apply stays_unwrap_ok; apply _ : frame.
#[export] Hint Extern 1 (stays _ (assert _ _)) => apply stays_assert; apply _ : frame.
#[export] Hint Extern 1 (stays _ (layout_from_size_align _ _)) =>
  apply stays_unwrap_ok; apply _ : frame.

(** One step of a proof that a program keeps a relation. *)
Ltac frame_hook := fail.
Ltac frame_step :=
  lazymatch goal with
  | |- forall _, _ => intros ?
  | |- stays _ (bind _ _) => apply stays_bind; [apply _|..]
  | |- stays _ (when _ _) => apply stays_when; [apply _|]
  | |- stays _ (for_each _ _) => apply stays_for_each; [apply _|]
  | |- stays _ (fold_prog _ _ _) => apply stays_fold; [apply _|]
  | |- stays _ (match ?x with _ => _ end) => destruct x
  | |- _ => first [frame_hook | solve [eauto with frame typeclass_instances]]
  end.
Ltac frame := repeat frame_step.

Section combinators.
Context {P : PagingCrate} {Q : Surroundings} {R : machine -> machine -> Prop} {FR : Frame Q R}.

Lemma frame_exception_free {A} (m : K A) : stays R m -> stays R (exception_free m).
Proof.
  intros Hm. unfold exception_free. frame; intros s; apply frame_masked.
Qed.

Lemma frame_acquire l : stays R (acquire l).
Proof.
  unfold acquire. apply stays_bind; [apply _|apply frame_before_lock|]. frame.
  intros s. apply frame_held.
Qed.

Lemma frame_release l : stays R (release l).
Proof. unfold release. frame. intros s. apply frame_held. Qed.

Lemma frame_with_lock {A} l (m : K A) : stays R m -> stays R (with_lock l m).
Proof.
  intros Hm. pose proof frame_acquire. pose proof frame_release. unfold with_lock. frame.
Qed.

Lemma frame_out_of_fuel {A} : stays R (out_of_fuel (A:=A)).
Proof. intros s. simpl. reflexivity. Qed.

Lemma frame_checked_add w a b : stays R (checked_add w a b).
Proof. intros s. unfold checked_add. destruct (_ <? _); simpl; reflexivity. Qed.

Lemma frame_checked_mul w a b : stays R (checked_mul w a b).
Proof. intros s. unfold checked_mul. destruct (_ <? _); simpl; reflexivity. Qed.

Lemma frame_position {A} (f : A -> K bool) l :
  (forall x, stays R (f x)) -> stays R (position f l).
Proof. intros Hf. induction l as [|x l IH]; simpl; frame. Qed.
End combinators.

#[export] Hint Resolve frame_out_of_fuel frame_checked_add frame_checked_mul : frame.

Ltac frame_hook ::=
  lazymatch goal with
  | |- stays _ (exception_free _) => apply frame_exception_free
  | |- stays _ (with_lock _ _) => apply frame_with_lock
  | |- stays _ (position _ _) => apply frame_position
  end.

Section programs.
Context {P : PagingCrate} {Q : Surroundings} {B : BoardEnv} {I : EmbeddedIo machine}.
Context {L : EmbeddedIoLaws machine I} {C : CrateConsts} {PC : PagingCalls}.
Context {R : machine -> machine -> Prop} {FR : Frame Q R}.

Lemma frame_uart_fmt text : stays R (io_write_fmt uart_write text).
Proof. apply write_fmt_stays; [apply _|]. intros b. unfold uart_write. frame. Qed.
#[local] Hint Resolve frame_uart_fmt : frame.

Lemma frame_shared_log level args : stays R (Logger.shared_log level args).
Proof. unfold Logger.shared_log. frame. Qed.
#[local] Hint Resolve frame_shared_log : frame.

Lemma frame_log level args : stays R (Logger.log level args).
Proof. unfold Logger.log. frame. Qed.
#[local] Hint Resolve frame_log : frame.

Lemma frame_log_with level args : stays R args -> stays R (Logger.log_with level args).
Proof. intros Ha. unfold Logger.log_with. frame. Qed.
#[local] Hint Extern 2 (stays _ (Logger.log_with _ _)) => apply frame_log_with; frame : frame.

Lemma frame_console_write buf : stays R (Console.write buf).
Proof. unfold Console.write, SharedConsole.write, uart_write. frame. Qed.

Lemma frame_cpu_index : stays R current_cpu_index.
Proof.
  unfold current_cpu_index, mpidr_affinity, mpidr_to_cpu_index, fdt_cpu_nodes, cpu_id. frame.
Qed.

Lemma frame_callback {A} (m : K A) : is_callback IdTranslation.translation A m -> stays R m.
Proof.
  destruct 1; simpl; unfold IdTranslation.allocate_table, IdTranslation.deallocate_table,
    IdTranslation.physical_to_virtual; try destruct layout_PageTable; frame.
Qed.

Lemma frame_idmap_new : stays R IdMap.new.
Proof.
  unfold IdMap.new, current_el. frame; (eapply composed_stays;
    [apply _|apply @frame_callback|first [apply new_el2_calls|apply new_el1_calls]]).
Qed.

Lemma frame_map_range m r pa attrs : stays R (IdMap.map_range m r pa attrs).
Proof. eapply composed_stays; [apply _|apply @frame_callback|apply map_range_calls]. Qed.
#[local] Hint Resolve frame_map_range : frame.

Lemma frame_map_memory idmap r : stays R (IdMap.map_memory idmap r).
Proof. unfold IdMap.map_memory. frame. Qed.

Lemma frame_map_device idmap r : stays R (IdMap.map_device idmap r).
Proof. unfold IdMap.map_device. frame. Qed.
#[local] Hint Resolve frame_map_memory frame_map_device : frame.

Lemma frame_map_node node idmap : stays R (map_node node idmap).
Proof. unfold map_node, map_device_reg, fdt_to_pagetable_region, first_compatible. frame. Qed.
#[local] Hint Resolve frame_map_node : frame.

Lemma frame_tree node idmap : stays R (map_fdt_node_regions node idmap).
Proof.
  revert idmap. induction node as [node IH] using node_ind. intros idmap.
  destruct node as [name compat reg ranges prop children].
  cbn [map_fdt_node_regions node_children] in *. apply stays_bind; [apply _|frame|].
  induction IH as [|child children Hc _ IHc]; intros i; frame.
Qed.
#[local] Hint Resolve frame_tree : frame.

Lemma frame_map_fdt fdt idmap : stays R (map_fdt_regions fdt idmap).
Proof. unfold map_fdt_regions, map_memory_reg, fdt_to_pagetable_region. frame. Qed.

Lemma frame_range_type flags : stays R (PciMemoryFlags.range_type flags).
Proof. unfold PciMemoryFlags.range_type. frame. Qed.
#[local] Hint Resolve frame_range_type : frame.

Lemma frame_find_roots fdt limit : stays R (find_pci_roots fdt limit).
Proof.
  unfold find_pci_roots, find_roots_of, PciRootInfo.for_fdt_node, PciRootInfo.add_range,
    PciRange.from. frame.
Qed.

Lemma frame_map_ranges root idmap : stays R (PciRootInfo.map_ranges root idmap).
Proof. unfold PciRootInfo.map_ranges, PciRange.memory_region. frame. Qed.

Lemma frame_for_function {A} root (f : A -> Z * string -> K A) fuel n acc :
  (forall acc function, stays R (f acc function)) -> stays R (for_function root f fuel n acc).
Proof.
  intros Hf. revert n acc. induction fuel as [|fuel IH]; intros n acc; simpl;
    [apply frame_out_of_fuel|]. unfold bus_next. frame.
Qed.
#[local] Hint Extern 2 (stays _ (enumerate_bus _ _ _)) =>
  apply frame_for_function; intros; frame : frame.

Lemma frame_virtio_mmio fdt devices : stays R (find_virtio_mmio_devices fdt devices).
Proof.
  unfold find_virtio_mmio_devices, probe_mmio_node, mmio_transport_new, init_virtio_device,
    transport_vendor_id, transport_read_device_features, Gic.non_null. frame.
Qed.

Lemma frame_virtio_pci root devices : stays R (find_virtio_pci_devices root devices).
Proof.
  unfold find_virtio_pci_devices, probe_pci_function, pci_transport_new, init_virtio_device,
    transport_read_device_features, transport_get_status. frame.
Qed.

Lemma frame_init_pci `{F : FrameAllocator} info : stays R (init_pci info).
Proof.
  unfold init_pci, PciBarAllocator.new, PciBarAllocator.add, PciBarAllocator.add_range_frame,
    allocate_bars, allocate_bar, PciBarAllocator.allocate64,
    PciBarAllocator.allocate64_or_32, PciBarAllocator.allocate32, pci_bars. frame.
Qed.

Lemma frame_make_gic fdt : stays R (Gic.make_gic fdt).
Proof. unfold Gic.make_gic, Gic.non_null. frame. Qed.

Lemma frame_irq_routing : stays R init_irq_routing.
Proof. unfold init_irq_routing, current_el. frame. Qed.
End programs.

#[export] Hint Resolve frame_uart_fmt frame_shared_log frame_log frame_console_write
  frame_cpu_index frame_idmap_new frame_map_memory frame_map_device frame_map_fdt frame_find_roots frame_map_ranges
  frame_virtio_mmio frame_virtio_pci frame_init_pci frame_make_gic frame_irq_routing : frame.
#[export] Hint Extern 2 (stays _ (Logger.log_with _ _)) => apply frame_log_with; frame : frame.
