(* ===== verification/Boot.v ===== *)
(** * Boot: [main.rs], the entry point, and the interrupt handlers together

    [main] brings the components up in order, runs the shell and powers off.  The
    file also ties the handlers which the program registers to their code, and
    shows what the page table maps when boot has activated it. *)

From S2P Require Import Prelude Text Extern Machine Sim Console Io Cpus Interrupts Pagetable.
From S2P Require Import Platform Alarm Pci FdtMap Secondary Virtio Shell Frame.

(** What the image and the loader provide: the addresses of the two heaps, and the
    device tree at an address ([Fdt::from_raw]). *)
Class BootImage := {
  heap_address : Z;
  page_heap_address : Z;
  fdt_from_raw : Z -> result Fdt;
}.

(** The functions which are registered as interrupt handlers. *)
Section handlers.
Context {P : PagingCrate} {Q : Surroundings} {B : BoardEnv} {I : EmbeddedIo machine} {C : CrateConsts}.
Context {D : InterruptDriven}.

Definition run_handler (h : IrqHandler) (intid : Z) : K unit :=
  match h with
  | ConsoleHandleIrq => Console.handle_irq intid
  | AlarmIrqHandle => Alarm.irq_handle intid
  | SecondaryIrqHandler => CpusApp.secondary_irq_handler intid
  end.

(** The interrupt vector with the program's handlers. *)
Definition irq_vector : K unit := Irq.irq_current run_handler.
End handlers.

Section main.
Context {P : PagingCrate} {Q : Surroundings} {B : BoardEnv} {I : EmbeddedIo machine} {C : CrateConsts}.
Context {F : FrameAllocator} {PL : Platform} {BI : BootImage}.

Definition LOG_LEVEL : LogLevel := LDebug.
Definition PAGE_HEAP_SIZE : Z := 10 * PAGE_SIZE.
Definition HEAP_SIZE : Z := 40 * PAGE_SIZE.

(** [SpinMutexGuard::leak(LOCK.try_lock().unwrap())]: the lock stays held. *)
Definition try_lock_and_leak (l : lock) : K unit :=
  let! h := gets held in
  do! unwrap (if decide (l ∈ h) then None else Some tt) in
  modify (set_held ({[l]} ∪ h)).

(** [add_to_heap] on the global allocator, whose lock is held for the call, and on
    the page allocator. *)
Definition add_to_heap (init : Z -> Z -> event) (address size : Z) : K unit :=
  tell (init address size).

Definition init_heap : K unit :=
  do! acquire LHeapAllocator in
  do! try_lock_and_leak LHeap in
  do! add_to_heap HeapInit heap_address HEAP_SIZE in
  release LHeapAllocator.

Definition init_page_heap : K unit :=
  do! try_lock_and_leak LPageHeap in
  add_to_heap PageHeapInit page_heap_address PAGE_HEAP_SIZE.

(** Up to the logger: the platform's clock. *)
Definition init_console : K Z :=
  let! platform := create in
  let! ps := unwrap (parts platform).1 in
  let! el := current_el in
  let! r := io_write_fmt uart_write ("DemoOS starting at EL" +:+ fmt_dec el +:+ "..." +:+ nl) in
  do! unwrap_ok r in
  do! Console.init in
  let! r := Logger.init LOG_LEVEL in
  do! unwrap_ok r in
  ret (part_rtc ps).

Definition load_fdt (x0 : Z) : K Fdt :=
  do! info ("FDT address: " +:+ fmt_hex x0) in
  let! fdt := unwrap_ok (fdt_from_raw x0) in
  do! info ("FDT size: " +:+ fmt_dec (fdt_data_len fdt) +:+ " bytes") in
  do! debug ("FDT: " +:+ fdt_display fdt) in
  do! for_each (fun reserved => info ("Reserved memory: " +:+ reserved))
        (fdt_memory_reservations fdt) in
  let! cur := gets fdt_once in
  do! when (bool_decide (cur = None)) (modify (set_fdt_once (Some fdt))) in
  ret fdt.

(** The page table, from its creation to its activation. *)
Definition init_pagetable (fdt : Fdt) : K (list PciRootInfo.t) :=
  let! idmap := IdMap.new in
  do! info ("IdMap size is " +:+ fmt_dec (IdMap.size idmap / (1024 * 1024 * 1024)) +:+ " GiB") in
  let! idmap := map_fdt_regions fdt idmap in
  let! roots := find_pci_roots fdt (IdMap.size idmap) in
  let! idmap := fold_prog (fun idmap root => PciRootInfo.map_ranges root idmap) idmap roots in
  do! debug ("Page table: " +:+ match idmap with
                                | IdMapEl1 m => mapping_debug m
                                | IdMapEl2 m => mapping_debug m
                                end) in
  do! info "Activating page table..." in
  let! idmap := IdMap.activate idmap in
  let! cur := gets pagetable_once in
  do! when (match cur with None => true | Some _ => false end)
        (modify (set_pagetable_once (Some idmap))) in
  ret roots.

(** [main] up to the shell. *)
Definition boot (x0 : Z) : K (list Z * Devices.t * Fdt) :=
  let! rtc := init_console in
  let! fdt := load_fdt x0 in
  do! init_heap in
  do! info "Initialising page table..." in
  do! init_page_heap in
  let! roots_info := init_pagetable fdt in
  do! info "Initialising GIC..." in
  do! Gic.init_gic fdt in
  let! devices := find_virtio_mmio_devices fdt (Devices.new rtc) in
  let! roots := fold_prog (fun acc info => let! r := init_pci info in ret (acc ++ [r]))
                  [] roots_info in
  let! devices := fold_prog (fun devices root => find_virtio_pci_devices root devices)
                    devices roots in
  ret (roots, devices, fdt).

(** [fuel] bounds the loops of the shell and the waits of each read. *)
Definition main {A} (fuel : nat) (x0 : Z) : K A :=
  let! '(roots, devices, fdt) := boot x0 in
  do! shell_main (D := console_dev fuel) fuel roots devices fdt in
  do! info "Powering off." in
  Power.power_off.
End main.

(** ** The page table after boot *)

Section pagetable.
Context {P : PagingCrate} {B : BoardEnv} {I : EmbeddedIo machine} {L : EmbeddedIoLaws machine I}.
Context {C : CrateConsts} {W : PagingLaws} {PC : PagingCalls}.
Implicit Types s : machine.

(** All the regions which are mapped, in order. *)
Definition roots_regions (roots : list PciRootInfo.t) : list (kind * MemoryRegion) :=
  concat ((fun root => memory_regions (PciRootInfo.ranges root)) <$> roots).

Lemma fold_roots_mapped roots idmap s idmap' s' :
  fold_prog (fun idmap root => PciRootInfo.map_ranges root idmap) idmap roots s =
    (Val idmap', s') ->
  mapped_as idmap (roots_regions roots) idmap'.
Proof.
  revert idmap s. induction roots as [|root roots IH]; intros idmap s H; simpl in H.
  { inv_prim H. apply mapped_as_nil. }
  inv_bind H as i1 s1 H1. apply map_ranges_maps in H1. apply IH in H.
  by eapply mapped_as_app.
Qed.

Lemma activate_walk idmap s idmap' s' :
  IdMap.activate idmap s = (Val idmap', s') ->
  IdMap.active idmap' = true /\ idmap_el2 idmap' = idmap_el2 idmap /\
  (forall va, idmap_walk idmap' va = idmap_walk idmap va) /\ calls_only s s'.
Proof.
  unfold IdMap.activate. intros H. inv_bind H as u s1 Ht. injection Ht as _ <-.
  injection H as <- <-. split; [destruct idmap; apply active_activate|].
  split; [by destruct idmap|]. split; [|by eexists [_]].
  intros va. destruct idmap; apply walk_activate.
Qed.

(** Nothing but the end of [init_pagetable] sets the static. *)
Definition same_pagetable s s' : Prop := pagetable_once s' = pagetable_once s.

#[export] Instance same_pagetable_preorder : PreOrder same_pagetable.
Proof. split; [done|]. unfold same_pagetable. intros s1 s2 s3 -> ->. done. Qed.

#[export] Instance same_pagetable_frame : Frame alone same_pagetable.
Proof. by split; [apply _|..]. Qed.

(** What [init_pagetable] has mapped when it activates the table. *)
Lemma init_pagetable_inv fdt s roots s' :
  init_pagetable fdt s = (Val roots, s') -> pagetable_once s = None ->
  exists idmap, pagetable_once s' = Some idmap /\ IdMap.active idmap = true /\
    forall va, idmap_walk idmap va =
      match last_kind (fdt_regions fdt ++ roots_regions roots) va with
      | Some k => Some (va, kind_attributes k idmap)
      | None => None
      end.
Proof.
  unfold init_pagetable. intros H Hnone. inv_bind H as i0 s0 Hn. inv_bind H as u1 s1 Hl1.
  inv_bind H as i1 s2 Hf. inv_bind H as rs s3 Hr. inv_bind H as i2 s4 Hm.
  inv_bind H as u2 s5 Hl2. inv_bind H as u3 s6 Hl3. inv_bind H as i3 s7 Ha. inv_step H.
  assert (pagetable_once s7 = None) as Hs7.
  { assert (same_pagetable s s7) as ->; [|done].
    etrans; [refine (stays_run _ _ _ _ _ _ Hn); frame|].
    etrans; [refine (stays_run _ _ _ _ _ _ Hl1); frame|].
    etrans; [refine (stays_run _ _ _ _ _ _ Hf); frame|].
    etrans; [refine (stays_run _ _ _ _ _ _ Hr); frame|].
    etrans; [refine (stays_run _ _ _ _ _ _ Hm); frame|].
    etrans; [refine (stays_run _ _ _ _ _ _ Hl2); frame|].
    etrans; [refine (stays_run _ _ _ _ _ _ Hl3); frame|].
    refine (stays_run _ _ _ _ _ _ Ha). unfold IdMap.activate. frame. }
  rewrite Hs7 in H. inv_bind H as u4 s8 Hset. injection Hset as _ <-. inv_prim H. exists i3.
  apply activate_walk in Ha as (Hact & He3 & Hw3 & _).
  apply map_fdt_regions_mapped in Hf. apply fold_roots_mapped in Hm.
  destruct (mapped_as_app _ _ _ _ _ Hf Hm) as (He & _ & Hw).
  split; [done|]. split; [done|]. intros va. rewrite Hw3, Hw, (new_walk _ _ _ va Hn).
  destruct (last_kind _ va) as [k|]; [|done].
  by rewrite (kind_attributes_el2 k i0 i3) by congruence.
Qed.

Lemma roots_last_kind roots va : last_kind (roots_regions roots) va <> Some AsMemory.
Proof.
  unfold roots_regions. induction roots as [|root roots IH]; simpl; [done|].
  rewrite last_kind_app. destruct (last_kind (concat _) va); [done|]. apply last_kind_not_memory.
Qed.

Lemma roots_device roots root r va :
  root ∈ roots -> r ∈ PciRootInfo.ranges root -> memory_range r = true -> in_range r va ->
  last_kind (roots_regions roots) va = Some AsDevice.
Proof.
  intros Hroot Hr Hm Hx. pose proof (roots_last_kind roots va) as Hk. revert Hk.
  unfold roots_regions. induction roots as [|root0 roots IH]; [by apply elem_of_nil in Hroot|].
  simpl. rewrite last_kind_app. destruct (last_kind (concat _) va) as [k|] eqn:E.
  - by destruct k.
  - intros _. apply elem_of_cons in Hroot as [<-|Hroot].
    + by eapply last_kind_device.
    + specialize (IH Hroot ltac:(done)). done.
Qed.

(** C7: when boot has activated the page table, the table which the secondary
    cores will use too is active and an identity map; the registers of all devices of
    the device tree which the kernel drives, and all memory ranges of all PCI roots,
    are device memory, and all memory of the device tree is mapped. *)
Theorem boot_pagetable_complete fdt s roots s' :
  init_pagetable fdt s = (Val roots, s') -> pagetable_once s = None ->
  exists idmap, pagetable_once s' = Some idmap /\ IdMap.active idmap = true /\ identity idmap /\
    (forall va, device_address fdt va ->
       idmap_walk idmap va = Some (va, device_attributes idmap)) /\
    (forall root r va, root ∈ roots -> r ∈ PciRootInfo.ranges root -> memory_range r = true ->
       in_range r va -> idmap_walk idmap va = Some (va, device_attributes idmap)) /\
    (forall va, memory_address fdt va -> exists attrs, idmap_walk idmap va = Some (va, attrs)).
Proof.
  intros H Hnone. destruct (init_pagetable_inv _ _ _ _ H Hnone) as (idmap & Hp & Ha & Hw).
  exists idmap. split; [done|]. split; [done|]. split; [|split; [|split]].
  - intros va pa attrs Hva. rewrite Hw in Hva. destruct (last_kind _ va) as [k|]; [|done].
    injection Hva as <- <-. split; [done|]. destruct k; [by right|by left].
  - intros va Hd%device_covered. rewrite Hw, last_kind_app.
    pose proof (roots_last_kind roots va).
    destruct (last_kind (roots_regions roots) va) as [[]|]; [done|done|].
    unfold fdt_regions. rewrite last_kind_app.
    pose proof (tree_last_kind (fdt_root fdt) va).
    destruct (last_kind (tree_regions _) va) as [[]|] eqn:E; [done|done|].
    destruct (proj2 (last_kind_covered (tree_regions (fdt_root fdt)) va)) as [? ?]; [eauto|congruence].
  - intros root r va Hroot Hr Hm Hx. by rewrite Hw, last_kind_app, (roots_device roots root r va).
  - intros va Hmem. rewrite Hw.
    destruct (proj2 (last_kind_covered (fdt_regions fdt ++ roots_regions roots) va)) as [k ->];
      [|by eexists].
    destruct Hmem as (regs & reg & a & n & Hr & Hin & Har & Hn & Hva).
    exists AsMemory, (region_new a (a + n)). split; [|by apply in_region_new].
    apply elem_of_app. left. unfold fdt_regions. rewrite Hr. apply elem_of_app. left.
    apply regs_regions_elem. split; [done|]. exists reg. split; [done|].
    unfold reg_region. by rewrite Har, Hn.
Qed.
End pagetable.

(** ** Witness: the page table of the simulated board *)

Section pagetable_witness.
#[local] Instance quiet_boot : BoardEnv := quiet.

Lemma boot_pagetable_complete_witness :
  exists idmap, pagetable_once (init_pagetable sim_fdt sim_machine).2 = Some idmap /\
    IdMap.active idmap = true /\ identity idmap.
Proof.
  destruct (boot_pagetable_complete sim_fdt sim_machine [] (init_pagetable sim_fdt sim_machine).2)
    as (idmap & Hp & Ha & Hi & _).
  - apply (run_fst (init_pagetable sim_fdt) sim_machine (Val [])).
    vm_cast_no_check (eq_refl (Val ([] : list PciRootInfo.t))).
  - reflexivity.
  - exists idmap. split; [exact Hp|]. split; [exact Ha|exact Hi].
Defined.
End pagetable_witness.
