(* ===== verification/Locking.v ===== *)
(** * Locking: the whole kernel keeps the locking discipline

    The judgement of [Discipline] for all of [main], for a secondary core and for the
    interrupt vector with its handlers, in any surroundings which keep the rules.  The
    surroundings in which the kernel really runs, with interrupts and other cores, are
    in Interrupted. *)

From S2P Require Import Prelude Text Extern Machine Discipline Sim Console Io Cpus Interrupts.
From S2P Require Import Pagetable Platform Alarm Pci FdtMap Secondary Virtio Shell Boot.

#[export] Hint Extern 1 (orderly _ _ (uart_write _)) => apply orderly_ask; by intros : orderly.
#[export] Hint Extern 1 (orderly _ _ uart_flush) => apply orderly_ask; by intros : orderly.
#[export] Hint Extern 1 (orderly _ _ uart_read_ready) => apply orderly_ask; by intros : orderly.
#[export] Hint Extern 1 (orderly _ _ (uart_read _)) => apply orderly_ask; by intros : orderly.
#[export] Hint Extern 1 (orderly _ _ wfi) => apply orderly_ask; by intros : orderly.
#[export] Hint Extern 1 (orderly _ _ wait_for_irq) => apply orderly_ask; by intros : orderly.
#[export] Hint Extern 1 (orderly _ _ (end_interrupt _)) => apply orderly_ask; by intros : orderly.

(** ** The console and the logger *)

Section console.
Context {P : PagingCrate} {Q : Surroundings} {QO : OrderlySurroundings Q} {B : BoardEnv}.
Context {I : EmbeddedIo machine} {L : EmbeddedIoLaws machine I} {C : CrateConsts}.

Lemma orderly_uart_fmt k h text : orderly k h (io_write_fmt uart_write text).
Proof. apply (orderly_composed _ _ uart_write); [apply write_fmt_calls|orderly]. Qed.
#[local] Hint Resolve orderly_uart_fmt : orderly.

Lemma orderly_shared_log k h level args :
  below h LConsole -> orderly k h (Logger.shared_log level args).
Proof. intros Hh. unfold Logger.shared_log. orderly. Qed.
#[local] Hint Resolve orderly_shared_log : orderly.

Lemma orderly_log k h level args : below h LConsole -> orderly k h (Logger.log level args).
Proof. intros Hh. unfold Logger.log. orderly. Qed.

Lemma orderly_log_with k h level args :
  below h LConsole -> orderly k h args -> orderly k h (Logger.log_with level args).
Proof. intros Hh Ha. unfold Logger.log_with. orderly. Qed.

Lemma orderly_console_write k h buf : below h LConsole -> orderly k h (Console.write buf).
Proof. intros Hh. unfold Console.write, SharedConsole.write. orderly. Qed.

Lemma orderly_console_read k h fuel len : below h LConsole -> orderly k h (Console.read fuel len).
Proof.
  intros Hh. induction fuel as [|fuel IH]; simpl; [apply orderly_out_of_fuel|].
  unfold Console.try_read. orderly.
Qed.

Lemma orderly_console_read_ready k h : below h LConsole -> orderly k h Console.read_ready.
Proof. intros Hh. unfold Console.read_ready. orderly. Qed.

Lemma orderly_write_text k h fuel text :
  below h LConsole -> orderly k h (write_text (D := console_dev fuel) text).
Proof.
  intros Hh. unfold write_text. orderly.
  eapply orderly_composed; [apply write_fmt_calls|]. intros b. by apply orderly_console_write.
Qed.

Lemma orderly_write_bytes k h fuel buf :
  below h LConsole -> orderly k h (write_bytes (D := console_dev fuel) buf).
Proof.
  intros Hh. unfold write_bytes. orderly.
  eapply orderly_composed; [apply write_all_calls|]. intros b. by apply orderly_console_write.
Qed.

Lemma orderly_read_byte k h fuel :
  below h LConsole -> orderly k h (read_byte (D := console_dev fuel)).
Proof.
  intros Hh. unfold read_byte. orderly.
  eapply orderly_composed; [apply read_exact_calls|]. intros b. by apply orderly_console_read.
Qed.
End console.

#[export] Hint Resolve orderly_uart_fmt : orderly.
#[export] Hint Extern 1 (orderly _ _ (Logger.shared_log _ _)) => apply orderly_shared_log; below : orderly.
#[export] Hint Extern 1 (orderly _ _ (Logger.log _ _)) => apply orderly_log; below : orderly.
#[export] Hint Extern 1 (orderly _ _ (write_text _)) => apply orderly_write_text; below : orderly.
#[export] Hint Extern 1 (orderly _ _ (writeln _)) => apply orderly_write_text; below : orderly.
#[export] Hint Extern 1 (orderly _ _ (write_bytes _)) => apply orderly_write_bytes; below : orderly.
#[export] Hint Extern 1 (orderly _ _ read_byte) => apply orderly_read_byte; below : orderly.
#[export] Hint Extern 1 (orderly _ _ con_read_ready) =>
  apply orderly_console_read_ready; below : orderly.
#[export] Hint Extern 1 (orderly _ _ (con_read _)) => apply orderly_console_read; below : orderly.
#[export] Hint Extern 2 (orderly _ _ (Logger.log_with _ _)) =>
  apply orderly_log_with; [below|orderly] : orderly.

(** ** Cores and interrupt handlers *)

Section programs.
Context {P : PagingCrate} {Q : Surroundings} {QO : OrderlySurroundings Q} {B : BoardEnv}.
Context {I : EmbeddedIo machine} {L : EmbeddedIoLaws machine I} {C : CrateConsts}.

Lemma orderly_for_function {A} k h root (f : A -> Z * string -> K A) fuel n acc :
  (forall acc function, orderly k h (f acc function)) -> orderly k h (for_function root f fuel n acc).
Proof.
  intros Hf. revert n acc. induction fuel as [|fuel IH]; intros n acc; simpl;
    [apply orderly_out_of_fuel|]. unfold bus_next. orderly.
Qed.

Lemma orderly_position {A} k h (f : A -> K bool) l :
  (forall x, orderly k h (f x)) -> orderly k h (position f l).
Proof. intros Hf. induction l as [|x l IH]; simpl; orderly. Qed.

Lemma orderly_cpu_id k h cpu : orderly k h (cpu_id cpu).
Proof. unfold cpu_id. orderly. Qed.
#[local] Hint Resolve orderly_cpu_id : orderly.

Lemma orderly_current_cpu_index k h : orderly k h current_cpu_index.
Proof.
  unfold current_cpu_index, mpidr_affinity, mpidr_to_cpu_index, fdt_cpu_nodes. orderly.
  apply orderly_position. orderly.
Qed.
#[local] Hint Resolve orderly_current_cpu_index : orderly.

Lemma orderly_private_handlers k h : orderly k h Irq.private_handlers.
Proof. unfold Irq.private_handlers, cpu_count, fdt_cpu_nodes. orderly. Qed.
#[local] Hint Resolve orderly_private_handlers : orderly.

Lemma orderly_update_private k h c t : orderly k h (Irq.update_private c t).
Proof. unfold Irq.update_private. orderly. Qed.
#[local] Hint Resolve orderly_update_private : orderly.

Lemma orderly_set_shared k h i f :
  below h LSharedIrq -> orderly k h (Irq.set_shared_irq_handler i f).
Proof. intros Hh. unfold Irq.set_shared_irq_handler. orderly. Qed.

Lemma orderly_remove_shared k h i :
  below h LSharedIrq -> orderly k h (Irq.remove_shared_irq_handler i).
Proof. intros Hh. unfold Irq.remove_shared_irq_handler. orderly. Qed.

Lemma orderly_set_private k h i f :
  below h LSharedIrq -> orderly k h (Irq.set_private_irq_handler i f).
Proof. intros Hh. unfold Irq.set_private_irq_handler. orderly. Qed.

Lemma orderly_remove_private k h i :
  below h LSharedIrq -> orderly k h (Irq.remove_private_irq_handler i).
Proof. intros Hh. unfold Irq.remove_private_irq_handler. orderly. Qed.
End programs.

#[export] Hint Resolve orderly_cpu_id orderly_current_cpu_index orderly_private_handlers : orderly.
#[export] Hint Extern 2 (orderly _ _ (enumerate_bus _ _ _)) =>
  apply orderly_for_function; intros; orderly : orderly.
#[export] Hint Extern 1 (orderly _ _ (Irq.set_shared_irq_handler _ _)) =>
  apply orderly_set_shared; below : orderly.
#[export] Hint Extern 1 (orderly _ _ (Irq.remove_shared_irq_handler _)) =>
  apply orderly_remove_shared; below : orderly.
#[export] Hint Extern 1 (orderly _ _ (Irq.set_private_irq_handler _ _)) =>
  apply orderly_set_private; below : orderly.
#[export] Hint Extern 1 (orderly _ _ (Irq.remove_private_irq_handler _)) =>
  apply orderly_remove_private; below : orderly.

(** ** The two builds *)

(** The [platform] configuration which selects [PlatformImpl], and with it the
    driver of the console. *)
Inductive build := QemuBuild | CrosvmBuild.

Section builds.
Context {P : PagingCrate} {Q : Surroundings} {B : BoardEnv} {I : EmbeddedIo machine}.
Context {C : CrateConsts}.

Definition platform_of (b : build) : Platform :=
  match b with QemuBuild => Qemu.platform | CrosvmBuild => Crosvm.platform end.

Definition driver_of (b : build) : InterruptDriven :=
  match b with
  | QemuBuild => Pl011.interrupt_driven
  | CrosvmBuild => Uart16550.interrupt_driven
  end.
End builds.

Section vector.
Context {P : PagingCrate} {Q : Surroundings} {QO : OrderlySurroundings Q} {B : BoardEnv}.
Context {I : EmbeddedIo machine} {L : EmbeddedIoLaws machine I} {C : CrateConsts} (b : build).
#[local] Instance vector_driver : InterruptDriven := driver_of b.

Lemma orderly_driver k h i : orderly k h (driver_handle_irq i).
Proof.
  unfold driver_handle_irq, vector_driver. destruct b; simpl; unfold Pl011.interrupt_driven,
    Pl011.handle_irq, Uart16550.interrupt_driven, Uart16550.handle_irq; orderly.
Qed.
#[local] Hint Resolve orderly_driver : orderly.

Lemma orderly_run_handler k h f i : below h LConsole -> orderly k h (run_handler f i).
Proof.
  intros Hh. destruct f; simpl.
  - unfold Console.handle_irq. orderly.
  - unfold Alarm.irq_handle. orderly.
  - unfold CpusApp.secondary_irq_handler. orderly.
Qed.

(** The interrupt vector, wherever the locks of the handlers can be requested. *)
Lemma orderly_irq_vector h : below h LSharedIrq -> orderly true h irq_vector.
Proof.
  intros Hh. unfold irq_vector, Irq.irq_current, Irq.handle_irq,
    Irq.get_and_acknowledge_interrupt, Irq.with_borrow. orderly; apply orderly_run_handler; below.
Qed.
End vector.

(** ** The shell and the secondary cores *)

Lemma below_disciplined h mask : below h LSharedIrq -> disciplined_at h mask.
Proof. intros Hb [] Hl Hin; try discriminate Hl; specialize (Hb _ Hin); simpl in Hb; lia. Qed.

Section shell.
Context {P : PagingCrate} {Q : Surroundings} {QO : OrderlySurroundings Q} {B : BoardEnv}.
Context {I : EmbeddedIo machine} {L : EmbeddedIoLaws machine I} {C : CrateConsts} {PL : Platform}.
Context (fuel : nat) (h : gset lock) (Hh : below h LStacks).
#[local] Instance dev : ConsoleDev := console_dev fuel.

(** Unmasking is fine where no lock of a handler is held. *)
Lemma orderly_irq_enable : orderly false h irq_enable.
Proof.
  unfold irq_enable. apply orderly_bind; [orderly|]. intros _ s Es _ _. split; [done|].
  split; [by exists []|]. intros _ _. split; [done|]. split; [done|].
  apply below_disciplined. below.
Qed.

Lemma orderly_irq_setup : orderly false h Alarm.irq_setup.
Proof.
  unfold Alarm.irq_setup, Gic.with_gic, Gic.set_interrupt_priority, Gic.set_trigger,
    Gic.enable_interrupt. orderly.
Qed.

Lemma orderly_alarm args : orderly false h (Alarm.alarm args).
Proof. unfold Alarm.alarm, Alarm.irq_finish, Alarm.rtc_get_time, Alarm.rtc_set_match. orderly. Qed.

Lemma orderly_read_line f line : orderly false h (read_line_loop f line).
Proof.
  revert line. induction f as [|f IH]; intros line; simpl; [apply orderly_out_of_fuel|].
  unfold push. orderly.
Qed.

Lemma orderly_start_core id arg :
  orderly false h (SecondaryEntry.start_core_with_stack id arg).
Proof.
  unfold SecondaryEntry.start_core_with_stack, SecondaryEntry.get_secondary_stack,
    SecondaryEntry.new_stack, Power.smc_for_psci. orderly.
Qed.
#[local] Hint Resolve orderly_start_core : orderly.

Lemma orderly_start_cpu fdt args : orderly false h (CpusApp.start_cpu fdt args).
Proof.
  unfold CpusApp.start_cpu, CpusApp.start_cpu_usage, CpusApp.affinity_info, Power.smc_for_psci.
  orderly.
Qed.

Lemma orderly_cpus fdt : orderly false h (CpusApp.cpus fdt).
Proof.
  unfold CpusApp.cpus, CpusApp.list_cpu, CpusApp.unwrapped_affinity, CpusApp.affinity_info,
    CpusApp.psci_version, Power.smc_for_psci. orderly.
Qed.

Lemma orderly_sgi args : orderly false h (CpusApp.sgi args).
Proof. unfold CpusApp.sgi, CpusApp.send_sgi. orderly. Qed.

Lemma orderly_lsdev devices : orderly false h (lsdev devices).
Proof. unfold lsdev, list_block, blk_device_id. orderly. Qed.

Lemma orderly_lspci roots : orderly false h (lspci roots).
Proof. unfold lspci, list_function, pci_bars. orderly. Qed.

Lemma orderly_vcat_receive f t peer : orderly false h (vcat_receive f t peer).
Proof.
  induction f as [|f IH]; simpl; [apply orderly_out_of_fuel|]. unfold vs_available, vs_recv. orderly.
Qed.
#[local] Hint Resolve orderly_vcat_receive : orderly.

Lemma orderly_vcat_loop f t peer : orderly false h (vcat_loop f t peer).
Proof.
  induction f as [|f IH]; simpl; [apply orderly_out_of_fuel|].
  unfold vcat_step, vcat_event, vs_send, vs_poll. orderly.
Qed.
#[local] Hint Resolve orderly_vcat_loop : orderly.

Lemma orderly_vcat f args vsock : orderly false h (vcat f args vsock).
Proof. unfold vcat, collect4, vs_connect. orderly. Qed.

#[local] Hint Resolve orderly_alarm orderly_read_line orderly_start_cpu orderly_cpus orderly_sgi
  orderly_lsdev orderly_lspci orderly_vcat : orderly.

Lemma orderly_shell_loop f roots devices fdt : orderly false h (shell_loop f roots devices fdt).
Proof.
  induction f as [|f IH]; simpl; [apply orderly_out_of_fuel|].
  unfold shell_step, read_line, run_command, date, dtdump, help, Alarm.rtc_get_time. orderly.
Qed.

Lemma orderly_shell_main f roots devices fdt : orderly false h (shell_main f roots devices fdt).
Proof.
  unfold shell_main, Alarm.irq_remove. pose proof orderly_irq_setup. pose proof orderly_irq_enable.
  pose proof orderly_shell_loop. orderly.
Qed.

Lemma orderly_secondary_main A arg : orderly false h (CpusApp.secondary_main (A:=A) arg).
Proof.
  unfold CpusApp.secondary_main, CpusApp.secondary_entry, CpusApp.prepare_core,
    CpusApp.install_sgi_handlers, CpusApp.wait_core, CpusApp.remove_sgi_handlers,
    CpusApp.stop_core, SecondaryEntry.secondary_init,
    IdMap.activate_secondary, IdMap.activate, Gic.secondary_init_gic, init_irq_routing, current_el,
    Gic.with_gic, CpusApp.enable_sgi, Gic.enable_interrupt, Gic.set_interrupt_priority,
    CpusApp.psci_cpu_off, Power.smc_for_psci. pose proof orderly_irq_enable. orderly.
Qed.
End shell.

(** ** The whole of [main] *)

Section boot.
Context {P : PagingCrate} {PC : PagingCalls} {Q : Surroundings} {QO : OrderlySurroundings Q}.
Context {B : BoardEnv} {I : EmbeddedIo machine} {L : EmbeddedIoLaws machine I} {C : CrateConsts}.
Context {F : FrameAllocator} {BI : BootImage}.
Context (b : build) (h : gset lock) (Hh : below h LStacks).
#[local] Hint Extern 0 Platform => exact (platform_of b) : typeclass_instances.

Lemma orderly_callback {A} (m : K A) :
  is_callback IdTranslation.translation A m -> orderly false h m.
Proof.
  destruct 1; simpl; unfold IdTranslation.allocate_table, IdTranslation.deallocate_table,
    IdTranslation.physical_to_virtual; try destruct layout_PageTable; orderly.
Qed.

Lemma orderly_idmap_new : orderly false h IdMap.new.
Proof.
  unfold IdMap.new, current_el. orderly; (eapply orderly_composed_of;
    [first [apply new_el2_calls|apply new_el1_calls]|apply @orderly_callback]).
Qed.

Lemma orderly_map_range m r pa attrs : orderly false h (IdMap.map_range m r pa attrs).
Proof. eapply orderly_composed_of; [apply map_range_calls|apply @orderly_callback]. Qed.
#[local] Hint Resolve orderly_idmap_new orderly_map_range : orderly.

Lemma orderly_map_memory idmap r : orderly false h (IdMap.map_memory idmap r).
Proof. unfold IdMap.map_memory. orderly. Qed.

Lemma orderly_map_device idmap r : orderly false h (IdMap.map_device idmap r).
Proof. unfold IdMap.map_device. orderly. Qed.
#[local] Hint Resolve orderly_map_memory orderly_map_device : orderly.

Lemma orderly_map_node node idmap : orderly false h (map_node node idmap).
Proof.
  unfold map_node, map_device_reg, fdt_to_pagetable_region, first_compatible. orderly.
Qed.
#[local] Hint Resolve orderly_map_node : orderly.

Lemma orderly_tree node idmap : orderly false h (map_fdt_node_regions node idmap).
Proof.
  revert idmap. induction node as [node IH] using node_ind. intros idmap.
  destruct node as [name compat reg ranges prop children].
  cbn [map_fdt_node_regions node_children] in *. apply orderly_bind; [orderly|].
  induction IH as [|child children Hc _ IHc]; intros i; orderly.
Qed.
#[local] Hint Resolve orderly_tree : orderly.

Lemma orderly_range_type flags : orderly false h (PciMemoryFlags.range_type flags).
Proof. unfold PciMemoryFlags.range_type. orderly. Qed.
#[local] Hint Resolve orderly_range_type : orderly.

Lemma orderly_find_roots fdt limit : orderly false h (find_pci_roots fdt limit).
Proof.
  unfold find_pci_roots, find_roots_of, PciRootInfo.for_fdt_node, PciRootInfo.add_range,
    PciRange.from. orderly.
Qed.
#[local] Hint Resolve orderly_find_roots : orderly.

Lemma orderly_init_pagetable fdt : orderly false h (init_pagetable fdt).
Proof.
  unfold init_pagetable, map_fdt_regions, map_memory_reg,
    fdt_to_pagetable_region, PciRootInfo.map_ranges, PciRange.memory_region, IdMap.activate. orderly.
Qed.

Lemma orderly_allocate32 sz al : orderly false h (PciBarAllocator.allocate32 sz al).
Proof. unfold PciBarAllocator.allocate32. orderly. Qed.
#[local] Hint Resolve orderly_allocate32 : orderly.

Lemma orderly_init_pci info : orderly false h (init_pci info).
Proof.
  unfold init_pci, PciBarAllocator.new, PciBarAllocator.add, PciBarAllocator.add_range_frame,
    allocate_bars, allocate_bar, PciBarAllocator.allocate64,
    PciBarAllocator.allocate64_or_32, pci_bars. orderly.
Qed.

Lemma orderly_virtio_mmio fdt devices : orderly false h (find_virtio_mmio_devices fdt devices).
Proof.
  unfold find_virtio_mmio_devices, probe_mmio_node, mmio_transport_new, init_virtio_device,
    transport_vendor_id, transport_read_device_features, Gic.non_null. orderly.
Qed.

Lemma orderly_virtio_pci root devices : orderly false h (find_virtio_pci_devices root devices).
Proof.
  unfold find_virtio_pci_devices, probe_pci_function, pci_transport_new, init_virtio_device,
    transport_read_device_features, transport_get_status. orderly.
Qed.

Lemma orderly_create : orderly false h create.
Proof.
  destruct b; simpl; unfold Qemu.create, Crosvm.create, Gic.non_null;
    orderly.
Qed.

Lemma orderly_setup_gic : orderly false h setup_gic.
Proof.
  destruct b; simpl; unfold Qemu.setup_gic, Crosvm.setup_gic,
    Gic.set_interrupt_priority, Gic.set_trigger, Gic.enable_interrupt; orderly.
Qed.

Lemma orderly_init_gic fdt : orderly false h (Gic.init_gic fdt).
Proof.
  pose proof orderly_setup_gic. unfold Gic.init_gic, Gic.make_gic, Gic.non_null, init_irq_routing,
    current_el, cpu_count, fdt_cpu_nodes. orderly.
Qed.

Lemma orderly_init_console : orderly false h init_console.
Proof.
  pose proof orderly_create. unfold init_console, current_el, Console.init, Logger.init. orderly.
Qed.

Lemma orderly_load_fdt x0 : orderly false h (load_fdt x0).
Proof. unfold load_fdt. orderly. Qed.

Lemma orderly_power_off A : orderly false h (Power.power_off (A:=A)).
Proof. unfold Power.power_off, Power.smc_for_psci, Power.system_off. orderly. Qed.
End boot.

(** The locks which stay held. *)
Definition boot_locks : gset lock := {[LPageHeap; LHeap]}.

Lemma boot_locks_below : below boot_locks LStacks.
Proof. repeat (apply below_add; [simpl; lia|]). intros l ->%elem_of_singleton. simpl. lia. Qed.

Section main.
Context {P : PagingCrate} {PC : PagingCalls} {Q : Surroundings} {QO : OrderlySurroundings Q}.
Context {B : BoardEnv} {I : EmbeddedIo machine} {L : EmbeddedIoLaws machine I} {C : CrateConsts}.
Context {F : FrameAllocator} {BI : BootImage} (b : build).
#[local] Hint Extern 0 Platform => exact (platform_of b) : typeclass_instances.

Lemma orderly_leak h l : irq_lock l = false -> orderly_to false h (try_lock_and_leak l) ({[l]} ∪ h).
Proof.
  intros Hl s Hh Hk Hd. unfold try_lock_and_leak, unwrap, bind, gets, modify. simpl.
  destruct (decide (l ∈ held s)); simpl; (split; [done|]; split; [by exists []|]); [done|].
  intros _ _. subst h. split; [done|]. split; [done|]. apply disciplined_add; [by right|done].
Qed.

Lemma orderly_init_heap : orderly_to false ∅ init_heap {[LHeap]}.
Proof.
  unfold init_heap. eapply orderly_bind_to; [apply orderly_acquire; [below|by right]|intros _].
  eapply orderly_bind_to; [by apply orderly_leak|intros _].
  eapply orderly_bind_to; [apply orderly_ask; by intros|intros _].
  replace ({[LHeap]} : gset lock)
    with (({[LHeap]} ∪ ({[LHeapAllocator]} ∪ ∅)) ∖ {[LHeapAllocator]} : gset lock) by set_solver.
  apply orderly_release.
Qed.

Lemma orderly_boot x0 : orderly_to false ∅ (boot x0) boot_locks.
Proof.
  unfold boot. eapply orderly_bind_to; [apply orderly_init_console; below|intros rtc].
  eapply orderly_bind_to; [apply orderly_load_fdt; below|intros fdt].
  eapply orderly_bind_to; [apply orderly_init_heap|intros _].
  eapply orderly_bind_to; [apply orderly_log; intros l ->%elem_of_singleton; simpl; lia|intros _].
  apply (orderly_bind_to _ _ boot_locks).
  { unfold init_page_heap. eapply orderly_bind_to; [by apply orderly_leak|intros _].
    apply orderly_ask. by intros. }
  intros _. change (orderly_to ?k ?h ?m ?h) with (orderly k h m).
  pose proof boot_locks_below. pose proof @orderly_init_pagetable. pose proof @orderly_init_gic.
  pose proof @orderly_virtio_mmio. pose proof @orderly_virtio_pci. pose proof @orderly_init_pci.
  orderly.
Qed.

Lemma orderly_main A fuel x0 : orderly_to false ∅ (main (A:=A) fuel x0) boot_locks.
Proof.
  pose proof boot_locks_below. unfold main. eapply orderly_bind_to; [apply orderly_boot|].
  intros [[roots devices] fdt]. eapply orderly_bind_to; [apply orderly_shell_main; below|].
  intros _. eapply orderly_bind_to; [apply orderly_log; below|].
  intros _. apply orderly_power_off. below.
Qed.
End main.
