(* ===== verification/Session.v ===== *)
(** * Session: [main] from reset to power off

    What boot leaves behind for the shell, and the whole of [main] for a session at the
    console: it answers the lines which are typed and powers the machine off. *)

From S2P Require Import Prelude Text Extern Machine Discipline Sim Console Io Cpus Interrupts.
From S2P Require Import Pagetable Platform Alarm Pci FdtMap Secondary Virtio Shell Frame Boot.
From S2P Require Import Locking.

(** ** What boot leaves behind *)

Section boot_state.
Context {P : PagingCrate} {PC : PagingCalls} {B : BoardEnv} {I : EmbeddedIo machine} {L : EmbeddedIoLaws machine I}.
Context {C : CrateConsts} {F : FrameAllocator} {BI : BootImage} (b : build).
Context (fdt : Fdt) (ids : list Z) (Hcpus : fdt_has_cpus (Some fdt) ids).
#[local] Hint Extern 0 Platform => exact (platform_of b) : typeclass_instances.
Implicit Types s : machine.

(** The statics which the shell relies on, once the device tree is known; [mpidr] is the
    core's register, which does not change. *)
Record booted (mpidr : Z) s : Prop := {
  bt_fdt : fdt_once s = Some fdt;
  bt_log : log_max_level s = Some (level_num LOG_LEVEL);
  bt_core : mpidr_el1 s = mpidr;
  bt_borrowed : borrowed s = ∅;
  bt_private : private_irq s = None \/ private_irq s = Some (replicate (length ids) ∅);
}.

Definition keeps_booted s s' : Prop := forall mpidr, booted mpidr s -> booted mpidr s'.

#[local] Instance keeps_booted_preorder : PreOrder keeps_booted.
Proof. split; [by intros s m|]. intros s1 s2 s3 H12 H23 m Hb. by apply H23, H12. Qed.

#[local] Instance keeps_booted_frame : Frame alone keeps_booted.
Proof.
  split; [apply _|intros A f mk _ s|intros l s|intros v s|intros v s]; intros m Hb;
    destruct Hb; by split.
Qed.

#[local] Hint Extern 2 (stays keeps_booted (modify _)) =>
  let Hb := fresh in intros ? ? Hb; destruct Hb; by split : frame.

Lemma keeps_private_handlers : stays keeps_booted Irq.private_handlers.
Proof.
  intros s m Hb. unfold Irq.private_handlers. run_step.
  assert (forall ts : list (gmap Z IrqHandler), stays keeps_booted (
    let! c := current_cpu_index in
    let! t := expect "index out of bounds" (ts !! c) in ret (c, t))) as Hrest by frame.
  destruct (private_irq s) as [ts|] eqn:E.
  - run_step. by apply (Hrest ts s).
  - rewrite bind_bind.
    erewrite bind_Val by (apply cpu_count_run; by rewrite (bt_fdt _ _ Hb)).
    rewrite bind_bind. do 2 run_step. apply Hrest. destruct Hb; split; auto.
Qed.
#[local] Hint Resolve keeps_private_handlers : frame.

Lemma keeps_set_shared i f : stays keeps_booted (Irq.set_shared_irq_handler i f).
Proof. unfold Irq.set_shared_irq_handler. frame. Qed.
#[local] Hint Resolve keeps_set_shared : frame.

Lemma keeps_init_gic : stays keeps_booted (Gic.init_gic fdt).
Proof.
  unfold Gic.init_gic. frame. destruct b; simpl; unfold Qemu.setup_gic, Crosvm.setup_gic,
    Gic.set_interrupt_priority, Gic.set_trigger, Gic.enable_interrupt; frame.
Qed.

(** Nothing but boot itself sets these statics. *)
Definition same_statics s s' : Prop :=
  (fdt_once s', log_max_level s', mpidr_el1 s', borrowed s', private_irq s') =
  (fdt_once s, log_max_level s, mpidr_el1 s, borrowed s, private_irq s).

#[local] Instance same_statics_preorder : PreOrder same_statics.
Proof. split; [done|]. unfold same_statics. intros s1 s2 s3 -> ->. done. Qed.

#[local] Instance same_statics_frame : Frame alone same_statics.
Proof. by split; [apply _|..]. Qed.

#[local] Hint Extern 2 (stays same_statics (modify _)) => done : frame.

Lemma init_console_statics s rtc s' :
  init_console s = (Val rtc, s') ->
  (fdt_once s', log_max_level s', mpidr_el1 s', borrowed s', private_irq s') =
  (fdt_once s, Some (level_num LOG_LEVEL), mpidr_el1 s, borrowed s, private_irq s).
Proof.
  unfold init_console. intros H. inv_bind H as p s1 H1. inv_step H as ps. inv_bind H as el s2 H2.
  inv_bind H as r s3 H3. inv_step H. inv_bind H as u s4 H4. inv_bind H as r' s5 H5. inv_step H.
  inv_prim H. subst r'.
  assert (same_statics s s4) as E.
  { etrans; [refine (stays_run _ _ _ _ _ _ H1); destruct b; simpl;
      unfold Qemu.create, Crosvm.create, Gic.non_null; frame|].
    etrans; [refine (stays_run _ _ _ _ _ _ H2); unfold current_el; frame|].
    etrans; [refine (stays_run _ _ _ _ _ _ H3); frame|].
    refine (stays_run _ _ _ _ _ _ H4). unfold Console.init. frame. }
  unfold Logger.init in H5. inv_step H5.
  destruct (log_max_level s4); [by apply ret_inv in H5 as [? _]|].
  inv_bind H5 as v s6 H6. injection H6 as _ <-. injection H5 as _ <-. simpl.
  injection E as -> _ -> -> ->. done.
Qed.

Lemma load_fdt_statics x0 s fdt' s' :
  load_fdt x0 s = (Val fdt', s') -> fdt_once s = None ->
  (fdt_once s', log_max_level s', mpidr_el1 s', borrowed s', private_irq s') =
  (Some fdt', log_max_level s, mpidr_el1 s, borrowed s, private_irq s).
Proof.
  unfold load_fdt. intros H Hnone. inv_bind H as u1 s1 H1. inv_step H as f. inv_bind H as u2 s2 H2.
  inv_bind H as u3 s3 H3. inv_bind H as u4 s4 H4. inv_step H. inv_bind H as u5 s5 H5. inv_prim H.
  assert (same_statics s s4) as E.
  { etrans; [refine (stays_run _ _ _ _ _ _ H1); frame|].
    etrans; [refine (stays_run _ _ _ _ _ _ H2); frame|].
    etrans; [refine (stays_run _ _ _ _ _ _ H3); frame|].
    refine (stays_run _ _ _ _ _ _ H4). frame. }
  injection E as E1 E2 E3 E4 E5. rewrite E1, Hnone in H5. injection H5 as _ <-. simpl. by rewrite E2, E3, E4, E5.
Qed.

(** The GIC, once it is set. *)
Definition gic_kept s s' : Prop := gic_once s = true -> gic_once s' = true.

#[local] Instance gic_kept_preorder : PreOrder gic_kept.
Proof. split; [by intros s H|]. intros s1 s2 s3 H12 H23 H. by apply H23, H12. Qed.

#[local] Instance gic_kept_frame : Frame alone gic_kept.
Proof. split; [apply _|intros A f mk _ s|intros l s|intros v s|intros v s]; by intros H. Qed.

Lemma init_gic_sets s u s' : Gic.init_gic fdt s = (Val u, s') -> gic_once s' = true.
Proof.
  unfold Gic.init_gic. intros H. inv_bind H as u1 s1 H1. inv_step H.
  destruct (gic_once s1) eqn:E; [by apply ret_inv in H as [_ ->]|]. simpl in H.
  do 6 (let a := fresh in let s2 := fresh in let H2 := fresh in inv_bind H as a s2 H2).
  by injection H as _ <-.
Qed.

#[local] Hint Extern 2 (stays keeps_booted (IdMap.activate _)) =>
  unfold IdMap.activate; frame : frame.

Lemma keeps_init_pagetable : stays keeps_booted (init_pagetable fdt).
Proof. unfold init_pagetable. frame. Qed.

(** When boot comes to the GIC, from the reset state. *)
Lemma booted_before_gic x0 s rtc s1 s2 u1 s3 u2 s4 u3 s5 rs s6 u4 s7 :
  init_console s = (Val rtc, s1) -> load_fdt x0 s1 = (Val fdt, s2) ->
  init_heap s2 = (Val u1, s3) -> info "Initialising page table..." s3 = (Val u2, s4) ->
  init_page_heap s4 = (Val u3, s5) -> init_pagetable fdt s5 = (Val rs, s6) ->
  info "Initialising GIC..." s6 = (Val u4, s7) ->
  fdt_once s = None -> borrowed s = ∅ -> private_irq s = None -> booted (mpidr_el1 s) s7.
Proof.
  intros H1 H2 H3 H4 H5 H6 H7 Hf Hb Hp.
  apply init_console_statics in H1. injection H1 as E1 E2 E3 E4 E5.
  apply load_fdt_statics in H2; [|congruence]. injection H2 as F1 F2 F3 F4 F5.
  assert (keeps_booted s2 s7) as Hk.
  { etrans; [refine (stays_run _ _ _ _ _ _ H3); unfold init_heap, try_lock_and_leak, add_to_heap;
      pose proof (frame_acquire (R := keeps_booted)); pose proof (frame_release (R := keeps_booted));
      frame|].
    etrans; [refine (stays_run _ _ _ _ _ _ H4); frame|].
    etrans; [refine (stays_run _ _ _ _ _ _ H5); unfold init_page_heap, try_lock_and_leak,
      add_to_heap; frame|].
    etrans; [exact (stays_run _ _ _ _ _ keeps_init_pagetable H6)|].
    refine (stays_run _ _ _ _ _ _ H7). frame. }
  apply Hk. split; [done|by rewrite F2, E2|by rewrite F3, E3|by rewrite F4, E4|left; by rewrite F5, E5].
Qed.

(** When boot has returned. *)
Lemma boot_booted x0 s roots devices s' :
  boot x0 s = (Val (roots, devices, fdt), s') ->
  fdt_once s = None -> borrowed s = ∅ -> private_irq s = None ->
  booted (mpidr_el1 s) s' /\ gic_once s' = true.
Proof.
  unfold boot. intros H Hf Hb Hp. inv_bind H as rtc s1 H1. inv_bind H as fdt' s2 H2.
  inv_bind H as u1 s3 H3. inv_bind H as u2 s4 H4. inv_bind H as u3 s5 H5.
  inv_bind H as rs s6 H6. inv_bind H as u4 s7 H7. inv_bind H as u5 s8 H8.
  inv_bind H as devs s9 H9. inv_bind H as roots' s10 H10. inv_bind H as devs' s11 H11.
  apply ret_inv in H as [[= -> -> <-] ->].
  assert (booted (mpidr_el1 s) s7) as Hbt by (by eapply booted_before_gic).
  assert (gic_once s8 = true) as Hg by (by eapply init_gic_sets).
  split.
  - assert (keeps_booted s7 s11) as Hk; [|by apply Hk].
    etrans; [exact (stays_run _ _ _ _ _ keeps_init_gic H8)|].
    etrans; [refine (stays_run _ _ _ _ _ _ H9); frame|].
    etrans; [refine (stays_run _ _ _ _ _ _ H10); frame|].
    refine (stays_run _ _ _ _ _ _ H11). frame.
  - revert Hg. change (gic_kept s8 s11).
    etrans; [refine (stays_run _ _ _ _ _ _ H9); frame|].
    etrans; [refine (stays_run _ _ _ _ _ _ H10); frame|].
    refine (stays_run _ _ _ _ _ _ H11). frame.
Qed.
End boot_state.

(** ** The shell, from its set-up to its end *)

Section shell.
Context {P : PagingCrate} {B : BoardEnv} {I : EmbeddedIo machine} {L : EmbeddedIoLaws machine I}.
Context {C : CrateConsts} {UA : UartAccepts} {patience : nat} {UI : UartInput patience}.
Context {PL : Platform} (fuel : nat) (Hfuel : (patience < fuel)%nat).
#[local] Hint Extern 0 ConsoleDev => exact (console_dev fuel) : typeclass_instances.
#[local] Hint Extern 0 ConsoleSpec => exact (console_spec fuel Hfuel) : typeclass_instances.
Implicit Types s : machine.

(** Nothing was read from the UART. *)
Definition same_upcoming s s' : Prop := upcoming (trace s') = upcoming (trace s).

#[local] Instance same_upcoming_preorder : PreOrder same_upcoming.
Proof. split; [done|]. unfold same_upcoming. intros s1 s2 s3 -> ->. done. Qed.

#[local] Instance same_upcoming_frame : Frame alone same_upcoming.
Proof.
  split; [apply _| |done..]. intros A f mk Hmk s. apply upcoming_frame. unfold is_uart_read. simpl.
  destruct (mk _) eqn:E; try done. by destruct (Hmk _ _ _ E).
Qed.

(** The console, the locks and the statics which the shell needs are as they were. *)
Record same_console s s' : Prop := {
  sc_held : held s' = held s;
  sc_fdt : fdt_once s' = fdt_once s;
  sc_log : log_max_level s' = log_max_level s;
  sc_output : uart_output (trace s') = uart_output (trace s);
  sc_input : upcoming (trace s') = upcoming (trace s);
}.

(** A step which changes the tables only. *)
Lemma tables_same_console s s' : same_but_tables s s' -> same_console s s'.
Proof. intros ->. by split. Qed.

Lemma alarm_setup_run ids c s :
  irq_ready ids c s -> gic_once s = true -> LGic ∉ held s -> gic_accepts RTC_IRQ ->
  Tables.private (tables_of (length ids) s) !! c = Some ∅ ->
  exists s', Alarm.irq_setup s = (Val tt, s') /\ same_console s s' /\ irq_ready ids c s'.
Proof.
  intros Hr Hg Hl (Hp & Ht & He) Hpriv. unfold Alarm.irq_setup, Gic.with_gic. run_step.
  rewrite Hg. run_step. set (sg := set_held ({[LGic]} ∪ held s) s).
  assert (irq_ready ids c sg) as Hrg by (destruct Hr; split; simpl; try done; set_solver).
  pose proof (set_shared_refines ids c sg RTC_IRQ AlarmIrqHandle Hrg) as Href.
  unfold refines, Tables.step in Href. change (tables_of (length ids) sg) with
    (tables_of (length ids) s) in Href. rewrite Hpriv, decide_True in Href by done.
  destruct Href as (s2 & E & Htab & Hsame). unfold run_op in E.
  eexists. split; [apply with_lock_run; [done| |]|].
  - erewrite bind_Val by exact E. unfold Gic.set_interrupt_priority, Gic.set_trigger,
      Gic.enable_interrupt. run_step. rewrite Hp. do 2 run_step. rewrite Ht. do 2 run_step.
    rewrite He. reflexivity.
  - simpl. rewrite Hsame. reflexivity.
  - destruct (tables_same_console _ _ Hsame) as [H1 H2 H3 H4 H5]. split.
    + split; simpl; try done. by rewrite !upcoming_frame.
    + assert (irq_ready ids c s2) as Hr2.
      { eapply irq_ready_tables; [exact Hrg|exact Hsame|]. rewrite Htab. apply Hrg. }
      destruct Hr, Hr2. by split.
Qed.

Lemma alarm_remove_run ids c s :
  irq_ready ids c s -> exists s', Alarm.irq_remove s = (Val tt, s') /\ same_console s s'.
Proof.
  intros Hr. pose proof (remove_shared_refines ids c s RTC_IRQ Hr) as Href.
  destruct (private_handlers_run ids c s Hr) as (p & Hp & _).
  unfold refines, Tables.step in Href. rewrite Hp in Href.
  destruct Href as (s' & E & _ & Hsame). exists s'. unfold run_op in E. unfold Alarm.irq_remove.
  erewrite bind_Val by exact E. split; [done|]. by apply tables_same_console.
Qed.

(** The calls of the console leave everything else alone. *)
Lemma irq_ready_calls ids c s s' : irq_ready ids c s -> console_calls s s' -> irq_ready ids c s'.
Proof. intros [] (evs & -> & _). by split. Qed.

(** What [shell_main] writes for a session. *)
Definition shell_output (lines : list typed_line) (echo : list byte) : list byte :=
  bytes (log_line LInfo "Configuring IRQs...") ++ session_output lines ++ prompt ++ echo.

Lemma shell_main_run ids c roots devices fdt lines input echo rest s :
  irq_ready ids c s -> gic_once s = true -> LGic ∉ held s -> LConsole ∉ held s ->
  level_num LInfo <= default 0 (log_max_level s) -> gic_accepts RTC_IRQ ->
  Tables.private (tables_of (length ids) s) !! c = Some ∅ ->
  Forall (good_line fdt) lines -> leaves input echo ->
  upcoming (trace s) = session_input lines ++ input ++ rest ->
  (length (session_input lines ++ input) + 1 < fuel)%nat ->
  exists s', shell_main fuel roots devices fdt s = (Val tt, s') /\
    held s' = held s /\ fdt_once s' = fdt_once s /\ log_max_level s' = log_max_level s /\
    uart_output (trace s') = uart_output (trace s) ++ shell_output lines echo /\
    upcoming (trace s') = rest.
Proof.
  intros Hr Hg Hlg Hlc Hlev Ha Hp Hgood Hl Hu Hf. unfold shell_main.
  destruct (log_writes LInfo "Configuring IRQs..." s Hlc Hlev) as (s1 & E1 & evs & -> & Ho1).
  assert (upcoming (evs ++ trace s) = upcoming (trace s)) as Hu1
    by (refine (stays_run same_upcoming _ _ _ _ _ E1); frame).
  erewrite bind_Val by exact E1. run_step. set (s2 := set_trace _ _).
  assert (irq_ready ids c s2) as Hr2 by (destruct Hr; by split).
  destruct (alarm_setup_run ids c s2 Hr2 Hg Hlg Ha Hp) as (s3 & E3 & [A1 A2 A3 A4 A5] & Hr3).
  erewrite bind_Val by exact E3. unfold irq_enable. rewrite bind_bind. do 2 run_step.
  set (s4 := set_masked _ _).
  assert (irq_ready ids c s4) as Hr4 by (destruct Hr3; by split).
  assert (upcoming (trace s4) = upcoming (trace s)) as Hu4.
  { simpl. rewrite upcoming_frame, A5 by done. simpl. by rewrite upcoming_frame. }
  destruct (shell_session_run fuel roots devices fdt lines input echo rest s4)
    as (s5 & E5 & [[(evs5 & E5' & Ho5) _] Hc5] & Hu5);
    [simpl; by rewrite A1|done|done|by rewrite <-Hu, <-Hu4|done|].
  erewrite bind_Val by exact E5.
  destruct (alarm_remove_run ids c s5 (irq_ready_calls _ _ _ _ Hr4 Hc5)) as (s6 & E6 & [D1 D2 D3 D4 D5]).
  exists s6. rewrite D1, D2, D3, D4, D5. split; [exact E6|]. subst s5. simpl.
  split; [exact A1|]. split; [exact A2|]. split; [exact A3|]. split; [|exact Hu5].
  etrans; [exact Ho5|]. simpl. rewrite A4. simpl. rewrite Ho1. unfold shell_output. by rewrite <-!app_assoc.
Qed.
End shell.

(** ** The whole of [main] *)

Section main.
Context {P : PagingCrate} {PC : PagingCalls} {B : BoardEnv} {I : EmbeddedIo machine}.
Context {L : EmbeddedIoLaws machine I} {C : CrateConsts} {F : FrameAllocator} {BI : BootImage}.
Context {UA : UartAccepts} {patience : nat} {UI : UartInput patience} (b : build).
#[local] Hint Extern 0 Platform => exact (platform_of b) : typeclass_instances.
#[local] Existing Instance same_upcoming_frame.
#[local] Hint Extern 2 (stays same_upcoming (modify _)) => done : frame.
Implicit Types s : machine.

(** Boot does not read from the console. *)
Lemma boot_upcoming x0 : stays same_upcoming (boot x0).
Proof.
  assert (stays same_upcoming create) as H1.
  { destruct b; simpl; unfold Qemu.create, Crosvm.create, Gic.non_null; frame. }
  assert (stays same_upcoming setup_gic) as H2.
  { destruct b; simpl; unfold Qemu.setup_gic, Crosvm.setup_gic, Gic.set_interrupt_priority,
      Gic.set_trigger, Gic.enable_interrupt, Irq.set_shared_irq_handler, Irq.private_handlers,
      cpu_count, fdt_cpu_nodes; frame. }
  pose proof (frame_acquire (R := same_upcoming)). pose proof (frame_release (R := same_upcoming)).
  unfold boot, init_console, current_el, Console.init, Logger.init, load_fdt, init_heap,
    init_page_heap, try_lock_and_leak, add_to_heap, init_pagetable, current_el,
    IdMap.activate, Gic.init_gic. frame.
Qed.

(** A core at reset. *)
Record reset s : Prop := {
  reset_held : held s = ∅;
  reset_borrowed : borrowed s = ∅;
  reset_fdt : fdt_once s = None;
  reset_private : private_irq s = None;
  reset_log : log_max_level s = None;
  reset_pagetable : pagetable_once s = None;
}.

Lemma booted_ready fdt ids c s s1 :
  fdt_has_cpus (Some fdt) ids -> core_index s ids = Some c -> booted fdt ids (mpidr_el1 s) s1 ->
  held s1 = boot_locks ->
  irq_ready ids c s1 /\ Tables.private (tables_of (length ids) s1) !! c = Some ∅.
Proof.
  intros Hcpus Hc [Hf Hlog Hm Hb Hp] Hh.
  assert (Tables.private (tables_of (length ids) s1) = replicate (length ids) ∅) as Ht.
  { unfold tables_of. simpl. by destruct Hp as [->| ->]. }
  split; [split|].
  - by rewrite Hf.
  - unfold core_index in *. by rewrite Hm.
  - by rewrite Ht, length_replicate.
  - rewrite Hh. apply below_free. apply (below_mono _ LStacks), boot_locks_below. simpl. lia.
  - rewrite Hb. apply not_elem_of_empty.
  - by rewrite Hlog.
  - rewrite Ht. apply lookup_replicate. split; [done|]. by eapply core_index_bound.
Qed.

Lemma boot_held x0 s r s1 :
  held s = ∅ -> boot x0 s = (Val r, s1) ->
  held s1 = boot_locks /\ disciplined_at boot_locks (masked s1).
Proof.
  intros Hh Hboot. destruct (orderly_boot b x0 s Hh) as (_ & _ & Hv);
    [done|intros l _ Hin; set_solver|].
  rewrite Hboot in Hv. by destruct (Hv _ eq_refl) as (? & _ & ?).
Qed.

(** Whatever commands were given: when the shell has returned, [main] powers off.  It
    calls [PSCI_SYSTEM_OFF] through the conduit which the device tree asks for, and does
    not return. *)
Theorem main_powers_off A fuel x0 s roots devices fdt s1 s2 :
  held s = ∅ -> boot x0 s = (Val (roots, devices, fdt), s1) ->
  shell_main (D := console_dev fuel) fuel roots devices fdt s1 = (Val tt, s2) ->
  (forall a, (main (A:=A) fuel x0 s).1 <> Val a) /\
  exists e r, e ∈ trace (main (A:=A) fuel x0 s).2 /\
    call e = PsciSystemOff (Power.conduit (Power.fdt_uses_smc (fdt_once s2))) r.
Proof.
  intros Hh Hboot Hshell. destruct (boot_held x0 s _ s1 Hh Hboot) as [Hh1 Hd1].
  destruct (orderly_shell_main fuel boot_locks boot_locks_below fuel roots devices fdt s1 Hh1)
    as (_ & _ & Hv); [done..|]. unfold dev in Hv. rewrite Hshell in Hv. destruct (Hv _ eq_refl) as [Hh2 _].
  destruct (log_returns LInfo "Powering off." s2) as (evs & E).
  { simpl in Hh2. rewrite Hh2. apply below_free, (below_mono _ LStacks), boot_locks_below. simpl. lia. }
  unfold main. erewrite bind_Val by exact Hboot. cbv beta iota.
  erewrite bind_Val by exact Hshell. erewrite bind_Val by exact E.
  destruct (power_off_run A (set_trace (evs ++ trace s2) s2)) as (Hv2 & evs2 & ->).
  split; [done|]. eexists (off_entry (set_trace (evs ++ trace s2) s2)), _.
  split; [|reflexivity]. apply elem_of_app. right. apply list_elem_of_here.
Qed.

(** When boot has returned, a session at the console runs to its end: whatever lines
    with console-only commands are typed, and then [exit] or an end-of-file, [main]
    answers them line by line and calls the firmware's [PSCI_SYSTEM_OFF], through the
    conduit which the device tree asks for, and never returns.  From the end of boot to
    that call the UART gets exactly the two log messages, the prompts, the echo and the
    answers, and exactly the session is read from it. *)
Theorem main_session A fuel x0 s roots devices fdt s1 ids c lines input echo rest :
  reset s -> boot x0 s = (Val (roots, devices, fdt), s1) ->
  fdt_has_cpus (Some fdt) ids -> core_index s ids = Some c -> gic_accepts RTC_IRQ ->
  Forall (good_line fdt) lines -> leaves input echo ->
  upcoming (trace s) = session_input lines ++ input ++ rest ->
  (length (session_input lines ++ input) + 1 < fuel)%nat -> (patience < fuel)%nat ->
  (forall a, (main (A:=A) fuel x0 s).1 <> Val a) /\
  exists evs h r m hd,
    trace (main (A:=A) fuel x0 s).2 =
      evs ++ mkEntry (PsciSystemOff (Power.conduit (Power.fdt_uses_smc (Some fdt))) r) m hd :: h /\
    uart_output h = uart_output (trace s1) ++ shell_output lines echo ++
      bytes (log_line LInfo "Powering off.") /\
    upcoming h = rest.
Proof.
  intros [Hh0 Hb0 Hf0 Hp0 _ _] Hboot Hcpus Hc Hgic Hgood Hl Hu Hfuel Hpat.
  destruct (boot_booted b fdt ids Hcpus x0 s roots devices s1 Hboot Hf0 Hb0 Hp0) as [Hbt Hg].
  destruct (boot_held x0 s _ s1 Hh0 Hboot) as [Hh1 _].
  assert (forall l, (1 <= rank l)%nat -> l ∉ held s1) as Hfree.
  { intros l Hr. rewrite Hh1. by apply below_free, (below_mono _ LStacks), boot_locks_below. }
  destruct (booted_ready fdt ids c s s1 Hcpus Hc Hbt Hh1) as [Hr Hp].
  assert (upcoming (trace s1) = upcoming (trace s)) as Hu1.
  { exact (stays_run same_upcoming _ _ _ _ (boot_upcoming x0) Hboot). }
  destruct (shell_main_run fuel Hpat ids c roots devices fdt lines input echo rest s1)
    as (s2 & E2 & Hh2 & Hf2 & Hl2 & Ho2 & Hu2); try done.
  { by apply Hfree; simpl; lia. }
  { by apply Hfree; simpl; lia. }
  { by rewrite (bt_log _ _ _ _ Hbt). }
  { by rewrite Hu1. }
  destruct (log_writes LInfo "Powering off." s2) as (s3 & E3 & evs3 & -> & Ho3).
  { rewrite Hh2. apply Hfree. simpl. lia. }
  { by rewrite Hl2, (bt_log _ _ _ _ Hbt). }
  assert (upcoming (evs3 ++ trace s2) = rest) as Hu3.
  { rewrite <-Hu2. refine (stays_run same_upcoming _ _ _ _ _ E3). frame. }
  unfold main. erewrite bind_Val by exact Hboot. cbv beta iota.
  erewrite bind_Val by exact E2. erewrite bind_Val by exact E3.
  destruct (power_off_run A (set_trace (evs3 ++ trace s2) s2)) as (Hv & evs & Et).
  split; [done|]. eexists evs, (evs3 ++ trace s2), _, _, _.
  split; [rewrite Et; unfold off_entry, psci_conduit; simpl; by rewrite Hf2, (bt_fdt _ _ _ _ Hbt)|].
  split; [|done]. by rewrite Ho3, Ho2, <-app_assoc.
Qed.
End main.

(** ** Witness: a session on the simulated board *)

#[export] Instance sim_image : BootImage := {|
  heap_address := 0x40100000;
  page_heap_address := 0x40180000;
  fdt_from_raw a := if a =? 0x40000000 then Ok sim_fdt else Err "BadMagic";
|}.

Section session_witness.
#[local] Instance session_board : BoardEnv := sim_typed sim_input.
#[local] Instance session_accepts : UartAccepts (B := session_board) := sim_typed_accepts sim_input.
#[local] Instance session_uart : UartInput (B := session_board) 0 := sim_uart_input _.
#[local] Hint Extern 0 Platform => exact (platform_of QemuBuild) : typeclass_instances.

Definition session_boot : machine := (boot 0x40000000 sim_machine).2.

Definition session_devices : Devices.t :=
  match (boot 0x40000000 sim_machine).1 with Val (_, devices, _) => devices | _ => Devices.new 0 end.

Lemma main_session_witness :
  (forall a, (main (A:=unit) 30 0x40000000 sim_machine).1 <> Val a) /\
  exists evs h r m hd,
    trace (main (A:=unit) 30 0x40000000 sim_machine).2 =
      evs ++ mkEntry (PsciSystemOff (Power.conduit (Power.fdt_uses_smc (Some sim_fdt))) r) m hd
        :: h /\
    uart_output h = uart_output (trace session_boot) ++ shell_output sim_lines crlf ++
      bytes (log_line LInfo "Powering off.") /\
    upcoming h = [].
Proof.
  apply (main_session QemuBuild unit 30 0x40000000 sim_machine [] session_devices sim_fdt session_boot
    [0; 1; 2; 3] 0 sim_lines [EOF] crlf []).
  - by split.
  - apply (run_fst (boot 0x40000000) sim_machine (Val ([], session_devices, sim_fdt))).
    vm_cast_no_check (eq_refl (Val ([] : list Z, session_devices, sim_fdt))).
  - by exists sim_fdt, (sim_cpu <$> [0; 1; 2; 3]).
  - reflexivity.
  - by split; [|split].
  - repeat constructor; simpl; try done; try (unfold LINE_CAPACITY; lia); by left || by right.
  - by left.
  - reflexivity.
  - simpl. lia.
  - lia.
Defined.

Definition session_end : machine :=
  (shell_main (D := console_dev 30) 30 [] session_devices sim_fdt session_boot).2.

Lemma main_powers_off_witness :
  (forall a, (main (A:=unit) 30 0x40000000 sim_machine).1 <> Val a) /\
  exists e r, e ∈ trace (main (A:=unit) 30 0x40000000 sim_machine).2 /\
    call e = PsciSystemOff (Power.conduit (Power.fdt_uses_smc (fdt_once session_end))) r.
Proof.
  apply (main_powers_off QemuBuild unit 30 0x40000000 sim_machine [] session_devices sim_fdt
    session_boot session_end).
  - reflexivity.
  - apply (run_fst (boot 0x40000000) sim_machine (Val ([], session_devices, sim_fdt))).
    vm_cast_no_check (eq_refl (Val ([] : list Z, session_devices, sim_fdt))).
  - apply (run_fst (shell_main (D := console_dev 30) 30 [] session_devices sim_fdt) session_boot
             (Val tt)).
    vm_cast_no_check (eq_refl (Val tt)).
Defined.
End session_witness.
