(* ===== verification/Bringup.v ===== *)
(** * Bringup: boot returns

    [main] unwraps almost everything on its way to the shell.  Here are the conditions on
    the device tree and on the answers of the board under which none of it panics, and the
    proof that boot then returns. *)

From S2P Require Import Prelude Text Extern Machine Sim Console Returns Io Cpus Interrupts Pagetable.
From S2P Require Import Platform Pci PciInit FdtMap Virtio Shell Frame Boot Locking Session.

(** ** The page table *)

(** The page heap has memory for all tables. *)
Class PageHeapSuffices `{B : BoardEnv} : Prop := page_alloc_some h size align :
  exists p, env_page_alloc h size align = Some p /\ p <> 0.

Section pagetable.
Context {P : PagingCrate} {PS : PagingSucceeds} {B : BoardEnv} {PH : PageHeapSuffices}.
Context {I : EmbeddedIo machine} {L : EmbeddedIoLaws machine I} {UA : UartAccepts}.
Context {C : CrateConsts}.
Implicit Types s : machine.

Definition idmap_tables (idmap : IdMap) : list Z :=
  match idmap with IdMapEl1 m | IdMapEl2 m => tables m end.

(** A map which can be extended. *)
Record extensible (idmap : IdMap) : Prop := {
  ext_inactive : IdMap.active idmap = false;
  ext_size : IdMap.size idmap = root_size ROOT_LEVEL;
  ext_tables : Forall (fun pa => pa <> 0) (idmap_tables idmap);
}.

Lemma translation_serves s :
  serves IdTranslation.translation (calls_only s) (fun pa => pa <> 0).
Proof.
  split; simpl.
  - intros s1 Hs1. unfold IdTranslation.allocate_table. destruct layout_PageTable as [size align].
    destruct (page_alloc_some (trace s1) size align) as (p & E & Hp).
    eexists p, p, _. run_step. rewrite E. do 2 run_step. split; [reflexivity|]. split; [|done].
    etrans; [exact Hs1|]. by eexists [_; _].
  - intros p s1 Hs1. unfold IdTranslation.deallocate_table. destruct layout_PageTable as [size align].
    eexists. split; [reflexivity|]. etrans; [exact Hs1|]. by eexists [_].
  - intros pa s1 Hpa Hs1. unfold IdTranslation.physical_to_virtual.
    rewrite (proj2 (Z.eqb_neq _ _) Hpa). by eexists _, _.
Qed.

Lemma returns_idmap_new : returns IdMap.new extensible.
Proof.
  intros s _. unfold IdMap.new, current_el. run_step.
  pose proof (translation_serves s) as Ht. destruct (_ =? 2).
  - destruct (new_el2_succeeds _ _ _ ROOT_LEVEL s Ht ltac:(reflexivity))
      as (m & s' & E & Hc & Hg & Ha & Hs). eexists _, s'.
    split; [by erewrite bind_Val by exact E|]. by repeat split.
  - destruct (new_el1_succeeds _ _ _ ASID ROOT_LEVEL s Ht ltac:(reflexivity))
      as (m & s' & E & Hc & Hg & Ha & Hs). eexists _, s'.
    split; [by erewrite bind_Val by exact E|]. by repeat split.
Qed.

(** A region which the page table can map. *)
Definition mappable (r : MemoryRegion) : Prop :=
  0 <= region_start r <= region_end r /\ region_end r <= root_size ROOT_LEVEL.

Lemma returns_map_kind k idmap r :
  extensible idmap -> mappable r ->
  returns (map_kind k idmap r) (fun p => p.1 = Ok tt /\ extensible p.2).
Proof.
  intros [Ha Hs Hg] [Hr Hend] s _. pose proof (translation_serves s) as Ht.
  assert (forall m attrs, mapping_active m = false -> mapping_size m = root_size ROOT_LEVEL ->
    Forall (fun pa => pa <> 0) (tables m) ->
    attrs ∈ [EL1_DEVICE_ATTRIBUTES; EL1_MEMORY_ATTRIBUTES;
             EL2_DEVICE_ATTRIBUTES; EL2_MEMORY_ATTRIBUTES] ->
    exists m' s', IdMap.map_range m r (IdTranslation.virtual_to_physical (region_start r)) attrs s =
      (Val (Ok tt, m'), s') /\ calls_only s s' /\ Forall (fun pa => pa <> 0) (tables m') /\
      mapping_active m' = false /\ mapping_size m' = root_size ROOT_LEVEL) as Hm.
  { intros m attrs Hma Hms Hmg Hat.
    destruct (map_range_succeeds _ _ _ m r (IdTranslation.virtual_to_physical (region_start r)) attrs s
      Ht ltac:(reflexivity) Hmg Hma Hr ltac:(by rewrite Hms) Hat) as (m' & s' & E & Hc & Hg' & Ha' & Hs').
    exists m', s'. by rewrite Hs'. }
  destruct k, idmap as [m|m]; simpl in *; unfold IdMap.map_memory, IdMap.map_device.
  1: destruct (Hm m EL1_MEMORY_ATTRIBUTES) as (m' & s' & E & Hc & ? & ? & ?);
    [done..|rewrite !elem_of_cons; tauto|].
  2: destruct (Hm m EL2_MEMORY_ATTRIBUTES) as (m' & s' & E & Hc & ? & ? & ?);
    [done..|rewrite !elem_of_cons; tauto|].
  3: destruct (Hm m EL1_DEVICE_ATTRIBUTES) as (m' & s' & E & Hc & ? & ? & ?);
    [done..|rewrite !elem_of_cons; tauto|].
  4: destruct (Hm m EL2_DEVICE_ATTRIBUTES) as (m' & s' & E & Hc & ? & ? & ?);
    [done..|rewrite !elem_of_cons; tauto|].
  all: eexists _, s'; split; [by erewrite bind_Val by exact E|]; by repeat split.
Qed.

(** [idmap.map_kind(&region).unwrap()] *)
Lemma returns_map_unwrap k idmap r :
  extensible idmap -> mappable r ->
  returns (let! '(res, idmap') := map_kind k idmap r in do! unwrap_ok res in ret idmap') extensible.
Proof.
  intros Hi Hr. eapply returns_bind; [by apply returns_map_kind|]. intros [res i] [Hres Hi'].
  simpl in Hres. subst res. by returns.
Qed.

(** ** The device tree *)

Definition reg_ok (reg : Reg) : Prop :=
  exists a n, reg_address reg = Ok a /\ reg_size reg = Ok n /\ a + n < 2 ^ 64 /\
    mappable (region_new a (a + n)).

Lemma returns_pagetable_region reg :
  reg_ok reg -> returns (fdt_to_pagetable_region reg) mappable.
Proof. intros (a & n & Ha & Hn & Hlt & Hm). unfold fdt_to_pagetable_region. by returns. Qed.

(** The nodes of devices have registers, and no node has an empty [compatible]. *)
Definition node_ok (node : FdtNode) : Prop :=
  node_compatible node <> Some [] /\
  (is_compatible node MAPPED_DEVICES = true ->
     exists regs, node_reg node = Ok (Some regs) /\ Forall reg_ok regs).

Lemma returns_map_memory_reg idmap reg :
  extensible idmap -> reg_ok reg -> returns (map_memory_reg idmap reg) extensible.
Proof.
  intros Hi Hreg. unfold map_memory_reg.
  eapply returns_bind; [by apply returns_pagetable_region|]. intros r Hr.
  destruct Hreg as (a & n & Ha & Hn & _). returns. by apply (returns_map_unwrap AsMemory).
Qed.

Lemma returns_map_device_reg node idmap reg :
  is_compatible node MAPPED_DEVICES = true -> extensible idmap -> reg_ok reg ->
  returns (map_device_reg node idmap reg) extensible.
Proof.
  intros Hc Hi Hreg. unfold map_device_reg.
  eapply returns_bind; [by apply returns_pagetable_region|]. intros r Hr.
  apply bind_returns; [|intros _; by apply (returns_map_unwrap AsDevice)].
  apply returns_log_with; [|done]. unfold first_compatible, is_compatible in *.
  destruct (node_compatible node) as [[|c cs]|]; [done| |done]. simpl. by returns.
Qed.

Lemma returns_map_node node idmap :
  extensible idmap -> node_ok node -> returns (map_node node idmap) extensible.
Proof.
  intros Hi [Hne Hreg]. unfold map_node. destruct (is_compatible node MAPPED_DEVICES) eqn:Hc.
  - destruct (Hreg eq_refl) as (regs & Hr & Hregs). returns. apply returns_fold; [|done].
    eapply Forall_impl; [exact Hregs|]. intros reg Hok i Hi'. by apply returns_map_device_reg.
  - apply bind_returns; [|intros _; by returns].
    destruct (node_compatible node) as [[|c cs]|]; [done| |by returns].
    apply returns_log_with; [|done]. simpl. by returns.
Qed.

Lemma returns_map_tree root idmap :
  (forall node, in_tree node root -> node_ok node) -> extensible idmap ->
  returns (map_fdt_node_regions root idmap) extensible.
Proof.
  revert idmap. induction root as [root IH] using node_ind. intros idmap Hok Hi.
  destruct root as [name compat reg ranges prop children].
  cbn [map_fdt_node_regions node_children] in *.
  eapply returns_bind; [apply returns_map_node; [done|apply Hok, in_tree_root]|].
  clear idmap Hi. intros idmap Hi.
  assert (forall child, child ∈ children -> forall node, in_tree node child -> node_ok node) as Hc.
  { intros child Hin node Hn. apply Hok. by eapply in_tree_child. }
  clear Hok. revert idmap Hi. induction IH as [|child children Hchild _ IHc]; intros idmap Hi;
    [by apply returns_ret|].
  eapply returns_bind; [apply Hchild; [apply Hc; by left|done]|].
  intros i Hi'. apply IHc; [|done]. intros c Hin. apply Hc. by right.
Qed.

Lemma returns_map_fdt fdt idmap regs :
  fdt_memory_reg fdt = Ok (Ok (Some regs)) -> Forall reg_ok regs ->
  (forall node, in_tree node (fdt_root fdt) -> node_ok node) -> extensible idmap ->
  returns (map_fdt_regions fdt idmap) extensible.
Proof.
  intros Hr Hregs Hok Hi. unfold map_fdt_regions. returns.
  eapply returns_bind; [|intros i Hi'; by apply returns_map_tree].
  apply returns_fold; [|done]. eapply Forall_impl; [exact Hregs|].
  intros reg Hreg i Hi'. by apply returns_map_memory_reg.
Qed.
End pagetable.

(** ** PCI roots *)

Section pci.
Context {P : PagingCrate} {PS : PagingSucceeds} {B : BoardEnv} {PH : PageHeapSuffices}.
Context {I : EmbeddedIo machine} {L : EmbeddedIoLaws machine I} {UA : UartAccepts}.
Context {C : CrateConsts}.
Implicit Types s : machine.

(** What a node of a PCI root is decoded to. *)
Definition decoded_range (range : Range) : option PciRange.t :=
  match range_child_bus_address range, range_parent_bus_address range, range_length range with
  | Ok child, Ok parent, Ok length =>
      Some (PciRange.mk parent (child mod 2 ^ 64) length (Z.shiftr child 64 mod 2 ^ 32))
  | _, _, _ => None
  end.

(** A memory range is cut at the limit of the page table, and dropped above it. *)
Definition trimmed (limit : Z) (r : PciRange.t) : option PciRange.t :=
  if memory_range r then
    if limit <=? PciRange.cpu_physical r then None
    else Some (PciRange.mk (PciRange.cpu_physical r) (PciRange.bus_address r)
                 (Z.min (PciRange.size r) (limit - PciRange.cpu_physical r)) (PciRange.flags r))
  else Some r.

Record root_node (limit : Z) (cam : Cam) (node : FdtNode) (info : PciRootInfo.t) : Prop := {
  rn_reg : exists reg regs, node_reg node = Ok (Some (reg :: regs)) /\
    reg_address reg = Ok (PciRootInfo.mmio_base info) /\ reg_size reg = Ok (cam_size cam) /\
    PciRootInfo.mmio_base info + cam_size cam < 2 ^ 64;
  rn_ranges : exists rs decoded, node_ranges node = Ok (Some rs) /\
    mapM decoded_range rs = Some decoded /\ PciRootInfo.ranges info = omap (trimmed limit) decoded;
  rn_cam : PciRootInfo.cam info = cam;
}.

Lemma returns_add_range limit acc range r :
  decoded_range range = Some r ->
  returns (PciRootInfo.add_range limit acc range) (eq (acc ++ option_list (trimmed limit r))).
Proof.
  unfold decoded_range, PciRootInfo.add_range, PciRange.from, trimmed, memory_range. intros Hr.
  destruct (range_child_bus_address range) as [child|]; [|done].
  destruct (range_parent_bus_address range) as [parent|]; [|done].
  destruct (range_length range) as [len|]; [|done]. injection Hr as <-.
  set (r := PciRange.mk _ _ _ _). do 8 returns_step.
  eapply returns_bind; [apply returns_range_type|]. intros t <-.
  destruct (is_memory _); [|by returns]. destruct (_ <=? _); returns; [|done].
  apply app_nil_r.
Qed.

Lemma returns_add_ranges limit acc rs decoded :
  mapM decoded_range rs = Some decoded ->
  returns (fold_prog (PciRootInfo.add_range limit) acc rs) (eq (acc ++ omap (trimmed limit) decoded)).
Proof.
  intros Hm%mapM_Some. revert acc.
  induction Hm as [|range r rs decoded Hr _ IH]; intros acc; cbn [fold_prog omap list_omap].
  { apply returns_ret, app_nil_r. }
  eapply returns_bind; [by apply returns_add_range|]. intros ? <-.
  eapply returns_weaken; [apply IH|]. intros ? <-. rewrite <-app_assoc.
  by destruct (trimmed limit r).
Qed.

Lemma returns_for_fdt_node limit cam node info :
  root_node limit cam node info ->
  returns (PciRootInfo.for_fdt_node node cam limit) (eq info).
Proof.
  intros [(reg & regs & Hreg & Ha & Hn & Hlt) (rs & decoded & Hrs & Hdec & Hranges) Hcam].
  unfold PciRootInfo.for_fdt_node. do 5 returns_step. returns_step; [by returns|].
  rewrite Z.eqb_refl. do 3 returns_step.
  eapply returns_bind; [by apply returns_add_ranges|]. intros ? <-. apply returns_ret.
  destruct info. by simpl in *; subst.
Qed.

Lemma returns_roots_of fdt compatible label cam limit nodes infos acc :
  fdt_find_compatible fdt compatible = nodes -> Forall2 (root_node limit cam) nodes infos ->
  returns (find_roots_of fdt compatible label cam limit acc) (eq (acc ++ infos)).
Proof.
  unfold find_roots_of. intros -> Hn. revert acc.
  induction Hn as [|node info nodes infos Hnode _ IH]; intros acc; cbn [fold_prog].
  { apply returns_ret, app_nil_r. }
  apply bind_assoc. apply bind_returns; [by returns|intros _]. apply bind_assoc.
  eapply returns_bind; [by apply returns_for_fdt_node|]. intros ? <-. apply bind_ret.
  eapply returns_weaken; [apply IH|]. intros ? <-. by rewrite <-app_assoc.
Qed.

(** The roots of the device tree. *)
Definition fdt_roots (fdt : Fdt) (limit : Z) (infos : list PciRootInfo.t) : Prop :=
  exists pci pcie, infos = pci ++ pcie /\
    Forall2 (root_node limit MmioCam) (fdt_find_compatible fdt PCI_COMPATIBLE) pci /\
    Forall2 (root_node limit Ecam) (fdt_find_compatible fdt PCIE_COMPATIBLE) pcie.

Lemma returns_find_roots fdt limit infos :
  fdt_roots fdt limit infos -> returns (find_pci_roots fdt limit) (eq infos).
Proof.
  intros (pci & pcie & -> & H1 & H2). unfold find_pci_roots.
  eapply returns_bind; [by eapply returns_roots_of|]. intros ? <-.
  by eapply returns_roots_of.
Qed.

Definition range_mappable (r : PciRange.t) : Prop :=
  memory_range r = true -> PciRange.cpu_physical r + PciRange.size r < 2 ^ 64 /\
    mappable (range_region r).

Lemma returns_map_ranges info idmap :
  Forall range_mappable (PciRootInfo.ranges info) -> extensible idmap ->
  returns (PciRootInfo.map_ranges info idmap) extensible.
Proof.
  intros Hr Hi. apply returns_fold; [|done]. eapply Forall_impl; [exact Hr|].
  intros r Hmap i Hi'. unfold range_mappable, memory_range in Hmap.
  eapply returns_bind; [apply returns_range_type|]. intros t <-.
  destruct (is_memory _); [|by returns]. destruct (Hmap eq_refl) as [Hlt Hm].
  unfold PciRange.memory_region. returns_step. apply bind_checked_add; [done|].
  apply bind_ret. apply bind_returns; [by returns|intros _].
  by apply (returns_map_unwrap AsDevice).
Qed.
End pci.

(** ** VirtIO devices *)

(** The drivers start on their devices. *)
Class VirtioStarts `{B : BoardEnv} `{C : CrateConsts} : Prop := {
  blk_starts h t : env_virtio_blk_new h t = Ok tt;
  console_starts h t : env_virtio_console_new h t = Ok tt;
  socket_starts h t : env_virtio_socket_new h t = Ok tt;
  pci_starts h n root df text h' :
    env_pci_bus_next h root n = Some (df, text) -> is_Some (virtio_device_type text) ->
    exists t, env_virtio_pci_new h' root df = Ok t;
}.

Section virtio.
Context {P : PagingCrate} {B : BoardEnv} {I : EmbeddedIo machine} {L : EmbeddedIoLaws machine I}.
Context {UA : UartAccepts} {C : CrateConsts} {VS : VirtioStarts}.

Lemma returns_init_device t devices :
  returns (init_virtio_device t devices) (fun _ => True).
Proof.
  unfold init_virtio_device. destruct (transport_device_type t); [..|by returns];
    (eapply returns_bind; [apply (returns_ask _ _ (eq (Ok tt))); intros h; symmetry|]).
  1: apply blk_starts. 2: apply console_starts. 3: apply socket_starts.
  all: intros ? <-; by returns.
Qed.

(** The first register of a VirtIO device is not at address zero. *)
Definition virtio_node_ok (node : FdtNode) : Prop :=
  is_compatible node [VIRTIO_MMIO_COMPATIBLE] = true ->
  exists regs, node_reg node = Ok (Some regs) /\
    forall region, head regs = Some region -> exists a n, reg_size region = Ok n /\
      (size_of_VirtIOHeader <= n -> reg_address region = Ok a /\ a <> 0).

Lemma returns_probe_mmio devices node :
  virtio_node_ok node -> returns (probe_mmio_node devices node) (fun _ => True).
Proof.
  intros Hn. unfold probe_mmio_node. destruct (is_compatible _ _) eqn:Hc; [|by returns].
  destruct (Hn Hc) as (regs & Hr & Hregs). do 3 returns_step.
  destruct (head regs) as [region|]; [|by returns].
  destruct (Hregs region eq_refl) as (a & n & Hsz & Ha). returns_step.
  destruct (Z.ltb_spec n size_of_VirtIOHeader) as [|Hle]; [by returns|].
  destruct (Ha Hle) as [Haddr Hnz]. returns_step. unfold Gic.non_null, mmio_transport_new.
  rewrite (proj2 (Z.eqb_neq _ _) Hnz). do 2 returns_step.
  destruct v as [t|[[|p|p]|text]]; [|by returns..].
  apply bind_returns; [|intros _; apply returns_init_device].
  apply returns_log_with; [|done]. unfold transport_vendor_id, transport_read_device_features.
  by returns.
Qed.

Lemma returns_find_mmio fdt devices :
  Forall virtio_node_ok (node_children (fdt_root fdt)) ->
  returns (find_virtio_mmio_devices fdt devices) (fun _ => True).
Proof.
  intros Hn. apply returns_fold; [|done]. eapply Forall_impl; [exact Hn|].
  intros node Hok d _. by apply returns_probe_mmio.
Qed.

Lemma returns_find_pci root functions devices :
  (forall h n, (functions <= n)%nat -> env_pci_bus_next h root n = None) ->
  (functions < bus_calls)%nat ->
  returns (find_virtio_pci_devices root devices) (fun _ => True).
Proof.
  intros Hend Hf. unfold find_virtio_pci_devices. apply bind_returns; [by returns|intros _].
  unfold enumerate_bus. assert (0 <= functions < bus_calls + 0)%nat as Hn by lia. revert Hn.
  generalize bus_calls, 0%nat. intros fuel. revert devices.
  induction fuel as [|fuel IH]; intros devices n Hn; cbn [for_function]; [lia|].
  apply (returns_bind _ _ (fun r => forall df text, r = Some (df, text) -> (n < functions)%nat /\
    (is_Some (virtio_device_type text) ->
     forall h, exists t, env_virtio_pci_new h root df = Ok t))).
  { apply returns_ask. intros h df text Hr. split; [|intros Ht h'; by eapply pci_starts].
    destruct (decide (n < functions)%nat); [done|]. rewrite Hend in Hr; [done|lia]. }
  intros [[df text]|] Hdf; [|by apply returns_ret]. destruct (Hdf df text eq_refl) as [Hlt Ht].
  apply bind_returns; [|intros d; apply IH; lia]. unfold probe_pci_function.
  destruct (virtio_device_type text) as [ty|]; [|by returns]. returns_step.
  apply (returns_bind _ _ (fun r => exists t, r = Ok t)).
  { apply returns_ask. by apply Ht. }
  intros ? (t & ->). apply (bind_unwrap_ok _ t); [done|].
  apply bind_returns; [|intros _; apply returns_init_device].
  apply returns_log_with; [|done]. unfold transport_get_status, transport_read_device_features.
  by returns.
Qed.
End virtio.

(** ** The interrupt controller *)

Section gic.
Context {P : PagingCrate} {B : BoardEnv} {I : EmbeddedIo machine} {L : EmbeddedIoLaws machine I}.
Context {UA : UartAccepts} {C : CrateConsts} (b : build).
#[local] Hint Extern 0 Platform => exact (platform_of b) : typeclass_instances.
Implicit Types s : machine.

(** There is a GIC with register blocks of the right sizes. *)
Record gic_ok (fdt : Fdt) (ids : list Z) : Prop := {
  gic_cpus : fdt_has_cpus (Some fdt) ids;
  gic_node : exists gicd gicr da ra rsize, gic_regions fdt = Some (gicd, gicr) /\
    reg_address gicd = Ok da /\ reg_address gicr = Ok ra /\ da <> 0 /\ ra <> 0 /\
    reg_size gicd = Ok size_of_Gicd /\ reg_size gicr = Ok rsize /\
    size_of_GicrSgi * Z.of_nat (length ids) < 2 ^ 64 /\
    size_of_GicrSgi * Z.of_nat (length ids) <= rsize;
}.

Lemma returns_make_gic fdt ids : gic_ok fdt ids -> returns (Gic.make_gic fdt) (eq (Some tt)).
Proof.
  intros [(f & cpus & [= <-] & Hcpus & Hids) (gicd & gicr & da & ra & rsize & Hreg & Hda & Hra &
    Hd0 & Hr0 & Hds & Hrs & Hlt & Hle)].
  assert (length cpus = length ids) as Hlen by (by eapply Forall2_length, mapM_Some). rewrite <-Hlen in *.
  unfold Gic.make_gic, gic_regions in *. returns_step.
  destruct (head (fdt_find_compatible fdt "arm,gic-v3")) as [node|]; [|done]. simpl in Hreg.
  destruct (node_reg node) as [[[|r0 [|r1 regs]]|]|] eqn:En; try done. simplify_eq.
  do 10 returns_step. rewrite Z.eqb_refl. do 2 returns_step.
  rewrite (proj2 (Z.leb_le _ _) Hle). do 2 returns_step. unfold Gic.non_null.
  rewrite (proj2 (Z.eqb_neq _ _) Hd0). do 2 returns_step.
  rewrite (proj2 (Z.eqb_neq _ _) Hr0). by returns.
Qed.

Lemma setup_gic_runs ids c s p :
  irq_ready ids c s -> gic_accepts CONSOLE_IRQ ->
  Tables.private (tables_of (length ids) s) !! c = Some p -> p !! CONSOLE_IRQ = None ->
  exists s', setup_gic s = (Val tt, s') /\ held s' = held s.
Proof.
  intros Hr Ha Hp Hn. destruct b; simpl in *.
  - destruct (console_setup_run _ Level _ _ _ _ Hr Ha Hp Hn) as (s' & E & _ & _ & Hh). eauto.
  - destruct (console_setup_run _ Edge _ _ _ _ Hr Ha Hp Hn) as (s' & E & _ & _ & Hh). eauto.
Qed.

Lemma irq_ready_calls_only ids c s s' :
  irq_ready ids c s -> calls_only s s' -> irq_ready ids c s'.
Proof. intros Hr [evs ->]. destruct Hr. by split. Qed.

Lemma init_gic_runs fdt ids c s p :
  irq_ready ids c s -> gic_ok fdt ids -> gic_accepts CONSOLE_IRQ -> LConsole ∉ held s ->
  Tables.private (tables_of (length ids) s) !! c = Some p -> p !! CONSOLE_IRQ = None ->
  exists s', Gic.init_gic fdt s = (Val tt, s') /\ held s' = held s.
Proof.
  intros Hr Hg Ha Hl Hp Hn.
  assert (returns init_irq_routing (fun _ => True)) as Hrout.
  { unfold init_irq_routing, current_el. by returns. }
  destruct (Hrout s Hl) as (u & s1 & E1 & Hc1 & _). unfold Gic.init_gic.
  erewrite bind_Val by exact E1. run_step. destruct (gic_once s1); simpl.
  { exists s1. split; [done|]. by apply calls_only_held. }
  destruct (returns_make_gic fdt ids Hg s1) as (? & s2 & E2 & Hc2 & <-);
    [by rewrite (calls_only_held _ _ Hc1)|].
  assert (returns (do! debug "gic.setup..." in do! tell (GicSetup 0) in debug "Platform GIC setup")
    (fun _ => True)) as Hlog by (by returns).
  destruct (Hlog s2) as (? & s3 & E3 & Hc3 & _).
  { by rewrite (calls_only_held _ _ Hc2), (calls_only_held _ _ Hc1). }
  assert (calls_only s s3) as Hc by (by etrans; [|etrans]).
  destruct (setup_gic_runs ids c s3 p) as (s4 & E4 & Hh);
    [by eapply irq_ready_calls_only|done|by destruct Hc as [evs ->]|done|].
  inv_bind E3 as u1 s5 E5. inv_bind E3 as u2 s6 E6.
  exists (set_gic_once true s4). erewrite bind_Val by exact E2. run_step.
  erewrite bind_Val by exact E5. erewrite bind_Val by exact E6. erewrite bind_Val by exact E3.
  erewrite bind_Val by exact E4. split; [done|]. simpl. by rewrite Hh, (calls_only_held _ _ Hc).
Qed.
End gic.

(** ** Boot *)

(** A UART which is there (the 8250 driver of crosvm checks it). *)
Definition uart_starts `{B : BoardEnv} : Prop :=
  (forall h base, env_uart_new_mmio h base = Ok tt) /\ forall h base, env_uart_init h base = Ok tt.

Section boot.
Context {P : PagingCrate} {PC : PagingCalls} {PS : PagingSucceeds} {B : BoardEnv}.
Context {PH : PageHeapSuffices} {I : EmbeddedIo machine} {L : EmbeddedIoLaws machine I}.
Context {UA : UartAccepts} {C : CrateConsts} {VS : VirtioStarts}.
Context {F : FrameAllocator} {FL : FrameAllocatorLaws} {FC : FrameAllocatorComplete}.
Context {BI : BootImage} (b : build).
#[local] Hint Extern 0 Platform => exact (platform_of b) : typeclass_instances.
Implicit Types s : machine.

(** The device tree and the board suit the kernel: [infos] are the PCI roots and [ids] the
    cores of the tree. *)
Record board_ok (fdt : Fdt) (infos : list PciRootInfo.t) (ids : list Z) : Prop := {
  board_uart : uart_starts;
  board_gic : gic_ok fdt ids;
  board_irq : gic_accepts CONSOLE_IRQ;
  board_memory : exists regs, fdt_memory_reg fdt = Ok (Ok (Some regs)) /\ Forall reg_ok regs;
  board_nodes node : in_tree node (fdt_root fdt) -> node_ok node;
  board_virtio : Forall virtio_node_ok (node_children (fdt_root fdt));
  board_roots : fdt_roots fdt (root_size ROOT_LEVEL) infos;
  board_ranges : Forall (fun info => Forall range_mappable (PciRootInfo.ranges info)) infos;
  board_pci : Forall root_accepted infos;
}.

Lemma create_returns : uart_starts -> returns create (fun p => is_Some (parts p).1).
Proof.
  intros [Hn Hi]. destruct b; simpl; unfold Qemu.create, Crosvm.create, Gic.non_null.
  - returns. by eexists.
  - eapply returns_bind; [apply (returns_ask _ _ (eq (Ok tt))); by intros|]. intros ? <-. returns_step.
    eapply returns_bind; [apply (returns_ask _ _ (eq (Ok tt))); by intros|]. intros ? <-. returns.
    by eexists.
Qed.

Lemma returns_uart_fmt text : returns (io_write_fmt uart_write text) (eq (Ok tt)).
Proof.
  intros s _. destruct (write_fmt_writes (fun _ => True) uart_write text s) as (s' & E & (evs & -> & _) & _);
    [apply uart_write_prefix|done|]. eexists _, _. split; [exact E|]. split; [by exists evs|done].
Qed.

Lemma init_console_runs s :
  uart_starts -> log_max_level s = None -> LConsole ∉ held s ->
  exists rtc s', init_console s = (Val rtc, s') /\ held s' = held s.
Proof.
  intros Hu Hlog Hl. unfold init_console.
  destruct (create_returns Hu s Hl) as (p & s1 & E1 & Hc1 & ps & Hps).
  erewrite bind_Val by exact E1. rewrite Hps. run_step. unfold current_el. run_step.
  match goal with |- context [io_write_fmt uart_write ?text] =>
    destruct (returns_uart_fmt text s1) as (r & s2 & E2 & Hc2 & <-) end;
    [by rewrite (calls_only_held _ _ Hc1)|].
  assert (calls_only s s2) as [evs ->] by (by etrans).
  erewrite bind_Val by exact E2. run_step. unfold Console.init. run_step. unfold Logger.init.
  rewrite bind_bind. run_step. simpl. rewrite Hlog. by eexists _, _.
Qed.

(** Programs which return and hold the same locks afterwards, but set a static. *)
Definition settles {A} (m : K A) (Q : A -> Prop) : Prop :=
  forall s, LConsole ∉ held s -> exists a s', m s = (Val a, s') /\ held s' = held s /\ Q a.

Lemma settles_bind {A D} (m : K A) (k : A -> K D) Q Q' :
  returns m Q -> (forall a, Q a -> settles (k a) Q') -> settles (bind m k) Q'.
Proof.
  intros Hm Hk s Hs. destruct (Hm s Hs) as (a & s1 & E & Hc & Ha).
  apply calls_only_held in Hc. destruct (Hk a Ha s1) as (d & s2 & E2 & Hh & Hd); [by rewrite Hc|].
  exists d, s2. split; [by erewrite bind_Val by exact E|]. by rewrite Hh.
Qed.

(** A static which is set once. *)
Lemma settles_once {A D} (cur : machine -> option D) (isnone : option D -> bool) g (a : A) (Q : A -> Prop) :
  (forall s, held (g s) = held s) -> Q a ->
  settles (let! c := gets cur in do! when (isnone c) (modify g) in ret a) Q.
Proof.
  intros Hg HQ s _. run_step. unfold when. destruct (isnone (cur s)); run_step; by eexists _, _.
Qed.

Lemma load_fdt_settles x0 fdt : fdt_from_raw x0 = Ok fdt -> settles (load_fdt x0) (eq fdt).
Proof.
  intros Hf. unfold load_fdt. rewrite Hf.
  eapply (settles_bind _ _ (fun _ => True)); [by returns|intros _ _].
  eapply (settles_bind _ _ (eq fdt)); [by apply returns_ret|intros ? <-].
  do 2 (eapply (settles_bind _ _ (fun _ => True)); [by returns|intros _ _]).
  eapply settles_bind; [apply returns_for_each, Forall_true; intros; by returns|intros _ _].
  by apply settles_once.
Qed.

Lemma init_pagetable_settles fdt infos ids :
  board_ok fdt infos ids -> settles (init_pagetable fdt) (eq infos).
Proof.
  intros Hb. destruct (board_memory _ _ _ Hb) as (regs & Hm & Hregs). unfold init_pagetable.
  eapply settles_bind; [apply returns_idmap_new|intros i Hi].
  eapply (settles_bind _ _ (fun _ => True)); [by returns|intros _ _].
  eapply settles_bind; [eapply returns_map_fdt; try done; apply Hb|]. clear i Hi. intros i Hi.
  eapply settles_bind; [rewrite (ext_size _ Hi); apply returns_find_roots, Hb|intros ? <-].
  eapply settles_bind; [apply (returns_fold _ extensible); [|done]|].
  { eapply Forall_impl; [exact (board_ranges _ _ _ Hb)|]. intros info Hr i' Hi'.
    by apply returns_map_ranges. }
  clear i Hi. intros i Hi. do 2 (eapply (settles_bind _ _ (fun _ => True)); [by returns|intros _ _]).
  eapply (settles_bind _ _ (fun _ => True)); [unfold IdMap.activate; by returns|intros i' _].
  by apply settles_once.
Qed.

Lemma try_lock_and_leak_run l s :
  l ∉ held s -> try_lock_and_leak l s = (Val tt, set_held ({[l]} ∪ held s) s).
Proof. intros Hl. unfold try_lock_and_leak. run_step. by rewrite decide_False. Qed.

Lemma init_heap_runs s :
  held s = ∅ -> exists s', init_heap s = (Val tt, s') /\ held s' = {[LHeap]}.
Proof.
  intros Hh. unfold init_heap, add_to_heap, release.
  erewrite bind_Val by (apply acquire_free; set_solver).
  erewrite bind_Val by (apply try_lock_and_leak_run; simpl; set_solver). run_step.
  eexists. split; [reflexivity|]. simpl. set_solver.
Qed.

Lemma init_page_heap_runs s :
  held s = {[LHeap]} -> exists s', init_page_heap s = (Val tt, s') /\ held s' = boot_locks.
Proof.
  intros Hh. unfold init_page_heap, add_to_heap.
  erewrite bind_Val by (apply try_lock_and_leak_run; set_solver).
  eexists. split; [reflexivity|]. simpl. by rewrite Hh.
Qed.

Lemma returns_init_roots infos acc :
  Forall root_accepted infos ->
  returns (fold_prog (fun acc info => let! r := init_pci info in ret (acc ++ [r])) acc infos)
    (eq (acc ++ (PciRootInfo.mmio_base <$> infos))).
Proof.
  intros Hi. revert acc. induction Hi as [|info infos Hinfo _ IH]; intros acc; cbn [fold_prog fmap list_fmap].
  { apply returns_ret, app_nil_r. }
  apply bind_assoc. eapply returns_bind; [by apply returns_init_pci|]. intros ? <-. apply bind_ret.
  eapply returns_weaken; [apply IH|]. intros ? <-. by rewrite <-app_assoc.
Qed.

Lemma returns_probe_roots infos devices :
  Forall root_accepted infos ->
  returns (fold_prog (fun devices root => find_virtio_pci_devices root devices) devices
             (PciRootInfo.mmio_base <$> infos)) (fun _ => True).
Proof.
  intros Hi. apply returns_fold; [|done]. rewrite Forall_fmap.
  eapply Forall_impl; [exact Hi|]. intros info [_ _ _ (r0 & base & slot & n & _ & _ & Hn & Hbus)] d _.
  apply (returns_find_pci _ n); [|done]. apply Hbus.
Qed.

(** After the locks and statics are there: the rest of boot. *)
Lemma devices_return fdt infos ids rtc :
  board_ok fdt infos ids ->
  returns (let! devices := find_virtio_mmio_devices fdt (Devices.new rtc) in
           let! roots := fold_prog (fun acc info => let! r := init_pci info in ret (acc ++ [r]))
                           [] infos in
           let! devices := fold_prog (fun devices root => find_virtio_pci_devices root devices)
                             devices roots in
           ret (roots, devices, fdt))
    (fun r => exists devices, r = (PciRootInfo.mmio_base <$> infos, devices, fdt)).
Proof.
  intros Hb. eapply returns_bind; [apply returns_find_mmio, Hb|]. intros d _.
  eapply returns_bind; [apply returns_init_roots, Hb|]. intros ? <-.
  eapply returns_bind; [apply returns_probe_roots, Hb|]. intros d' _. apply returns_ret. by eexists.
Qed.

#[local] Hint Extern 2 (stays same_pagetable (modify _)) => done : frame.

(** Only [init_pagetable] sets the page table. *)
Lemma pagetable_before x0 s rtc s1 fdt s2 u1 s3 u2 s4 u3 s5 :
  init_console s = (Val rtc, s1) -> load_fdt x0 s1 = (Val fdt, s2) ->
  init_heap s2 = (Val u1, s3) -> info "Initialising page table..." s3 = (Val u2, s4) ->
  init_page_heap s4 = (Val u3, s5) -> same_pagetable s s5.
Proof.
  intros H1 H2 H3 H4 H5.
  etrans; [refine (stays_run _ _ _ _ _ _ H1); unfold init_console, current_el, Console.init,
    Logger.init; destruct b; simpl; unfold Qemu.create, Crosvm.create, Gic.non_null; frame|].
  etrans; [refine (stays_run _ _ _ _ _ _ H2); unfold load_fdt; frame|].
  etrans; [refine (stays_run _ _ _ _ _ _ H3); unfold init_heap, try_lock_and_leak, add_to_heap;
    pose proof (frame_acquire (R := same_pagetable)); pose proof (frame_release (R := same_pagetable));
    frame|].
  etrans; [refine (stays_run _ _ _ _ _ _ H4); frame|].
  refine (stays_run _ _ _ _ _ _ H5). unfold init_page_heap, try_lock_and_leak, add_to_heap. frame.
Qed.

Lemma pagetable_gic fdt : stays same_pagetable (Gic.init_gic fdt).
Proof.
  assert (stays same_pagetable setup_gic) as H.
  { destruct b; simpl; unfold Qemu.setup_gic, Crosvm.setup_gic, Gic.set_interrupt_priority,
      Gic.set_trigger, Gic.enable_interrupt, Irq.set_shared_irq_handler, Irq.private_handlers,
      cpu_count, fdt_cpu_nodes; frame. }
  unfold Gic.init_gic. frame.
Qed.

(** All of boot, with the states around [init_pagetable]. *)
Lemma boot_run fdt infos ids c x0 s :
  reset s -> fdt_from_raw x0 = Ok fdt -> board_ok fdt infos ids -> core_index s ids = Some c ->
  exists devices s' s5 s6,
    boot x0 s = (Val (PciRootInfo.mmio_base <$> infos, devices, fdt), s') /\
    init_pagetable fdt s5 = (Val infos, s6) /\ same_pagetable s s5 /\ same_pagetable s6 s'.
Proof.
  intros [Hh0 Hb0 Hf0 Hp0 Hl0 _] Hraw Hb Hc.
  assert (forall l : lock, l ∉ (∅ : gset lock)) as He by set_solver.
  destruct (init_console_runs s (board_uart _ _ _ Hb) Hl0) as (rtc & s1 & E1 & Hh1); [by rewrite Hh0|].
  destruct (load_fdt_settles x0 fdt Hraw s1) as (? & s2 & E2 & Hh2 & <-); [by rewrite Hh1, Hh0|].
  destruct (init_heap_runs s2) as (s3 & E3 & Hh3); [congruence|].
  destruct (returns_log LInfo "Initialising page table..." (fun _ => True) Logic.I s3)
    as ([] & s4 & E4 & Hc4 & _); [rewrite Hh3; set_solver|]. apply calls_only_held in Hc4.
  destruct (init_page_heap_runs s4) as (s5 & E5 & Hh5); [congruence|].
  destruct (init_pagetable_settles _ _ _ Hb s5) as (? & s6 & E6 & Hh6 & <-); [rewrite Hh5; set_solver|].
  destruct (returns_log LInfo "Initialising GIC..." (fun _ => True) Logic.I s6)
    as ([] & s7 & E7 & Hc7 & _); [rewrite Hh6, Hh5; set_solver|].
  assert (held s7 = boot_locks) as Hh7 by (apply calls_only_held in Hc7; congruence).
  pose proof (gic_cpus _ _ (board_gic _ _ _ Hb)) as Hcpus.
  assert (booted fdt ids (mpidr_el1 s) s7) as Hbt by (by eapply (booted_before_gic b)).
  destruct (booted_ready fdt ids c s s7 Hcpus Hc Hbt Hh7) as [Hr Hp].
  destruct (init_gic_runs b fdt ids c s7 ∅ Hr (board_gic _ _ _ Hb) (board_irq _ _ _ Hb))
    as (s8 & E8 & Hh8); [rewrite Hh7; set_solver|done..|].
  destruct (devices_return fdt infos ids rtc Hb s8) as (r & s9 & E9 & Hc9 & d & ->);
    [rewrite Hh8, Hh7; set_solver|].
  exists d, s9, s5, s6. split; [|split; [done|split; [by eapply pagetable_before|]]].
  - unfold boot. erewrite bind_Val by exact E1. erewrite bind_Val by exact E2.
    erewrite bind_Val by exact E3. erewrite bind_Val by exact E4. erewrite bind_Val by exact E5.
    erewrite bind_Val by exact E6. erewrite bind_Val by exact E7. by erewrite bind_Val by exact E8.
  - pose proof (stays_run _ _ _ _ _ (pagetable_gic fdt) E8) as H8.
    destruct Hc7 as [? ->], Hc9 as [? ->]. exact H8.
Qed.


End boot.

(** ** Witnesses: a board with a PCI root *)

Definition sim_pcie_node : FdtNode :=
  mkFdtNode "pcie@10000000" (Some [PCIE_COMPATIBLE])
    (Ok (Some [mkReg (Ok 0x4010000000) (Ok 0x10000000)])) (Ok (Some sim_pci_ranges)) (fun _ => None) [].

(** The tree of the simulated board, with a node of the root. *)
Definition sim_pci_fdt : Fdt := {|
  fdt_root := mkFdtNode "/" (Some ["linux,dummy-virt"]) (Ok None) (Ok None) (fun _ => None)
                [sim_gic_node; sim_uart_node; sim_virtio_node 0xa000000; sim_virtio_node 0xa000200;
                 sim_pcie_node];
  fdt_memory_reg := fdt_memory_reg sim_fdt;
  fdt_cpus := fdt_cpus sim_fdt;
  fdt_find_node := fdt_find_node sim_fdt;
  fdt_find_compatible := fun c =>
    if bool_decide (c = PCIE_COMPATIBLE) then [sim_pcie_node] else fdt_find_compatible sim_fdt c;
  fdt_memory_reservations := ["0x40000000..0x40010000"];
  fdt_data_len := 8192;
  fdt_display := "fdt";
|}.

Section witnesses.
#[local] Instance bringup_board : BoardEnv := sim_with_pci sim_input.
#[local] Instance bringup_uart : UartInput (B := bringup_board) 0 := sim_uart_input _.
#[local] Instance bringup_image : BootImage := {|
  heap_address := 0x40100000;
  page_heap_address := 0x40180000;
  fdt_from_raw a := if a =? 0x40000000 then Ok sim_pci_fdt else Err "BadMagic";
|}.
#[local] Hint Extern 0 Platform => exact (platform_of CrosvmBuild) : typeclass_instances.

#[local] Instance bringup_heap : PageHeapSuffices.
Proof. intros h size align. eexists. split; [reflexivity|]. lia. Qed.

#[local] Instance bringup_virtio : VirtioStarts.
Proof. split; try done. intros. by eexists. Qed.

#[local] Hint Extern 1 (reg_ok (mkReg (Ok ?a) (Ok ?n))) =>
  exists a, n; repeat split; vm_compute; discriminate : core.

Lemma sim_nodes_ok node : in_tree node (fdt_root sim_pci_fdt) -> node_ok node.
Proof.
  assert (forall child, node_children child = [] -> in_tree node child -> node = child) as Hleaf.
  { intros child Hc Ht. destruct Ht as [|root child' Hin]; [done|]. rewrite Hc in Hin.
    by apply elem_of_nil in Hin. }
  intros Ht. inversion Ht as [|root child Hin Hc]; subst; [by split|].
  cbn [fdt_root sim_pci_fdt node_children] in Hin. rewrite !elem_of_cons, elem_of_nil in Hin.
  destruct Hin as [->|[->|[->|[->|[->|[]]]]]]; apply Hleaf in Hc; try done; subst node;
    (split; [done|]); intros _; (eexists; split; [reflexivity|]); auto.
Qed.

Lemma sim_board_ok : board_ok CrosvmBuild sim_pci_fdt [sim_root] [0; 1; 2; 3].
Proof.
  split.
  - by split.
  - split; [by exists sim_pci_fdt, (sim_cpu <$> [0; 1; 2; 3])|].
    eexists _, _, _, _, _. repeat (split; [reflexivity|]). split; [done|]. split; [done|].
    repeat (split; [reflexivity|]). vm_compute. discriminate.
  - by split; [|split].
  - eexists. split; [reflexivity|]. auto.
  - apply sim_nodes_ok.
  - repeat constructor; try (by intros [=]); intros _; (eexists; split; [reflexivity|]);
      intros region [= <-]; (eexists _, _; split; [reflexivity|]); by intros _.
  - exists [], [sim_root]. split; [done|]. split; [done|]. repeat constructor.
    + eexists _, _. repeat (split; [reflexivity|]). vm_compute. done.
    + eexists _, _. by repeat (split; [reflexivity|]).
  - repeat constructor; vm_compute; discriminate.
  - apply Forall_singleton, (sim_root_accepted sim_input).
Qed.


End witnesses.
