(* ===== verification/Interrupted.v ===== *)
(** * Interrupted: the kernel with interrupts and other cores

    The surroundings in which the kernel really runs.  Other cores compete for the
    locks, and may have changed what a lock protects when it is obtained; interrupts are
    taken at any call at which they are not masked.  In them the kernel never deadlocks:
    neither one core with itself, nor several with each other. *)

From S2P Require Import Prelude Text Extern Machine Discipline Sim Console Io Cpus Interrupts.
From S2P Require Import Pagetable Platform Alarm Pci FdtMap Secondary Virtio Shell Boot Locking.
From S2P Require Import Session.

(** Whether the GIC signals an interrupt to the core. *)
Class IrqLine := irq_pending : history -> bool.

(** What other cores make of the data which two of the locks protect. *)
Class OtherCores := {
  others_shared_irq : history -> gmap Z IrqHandler -> gmap Z IrqHandler;
  others_stacks : history -> gmap Z Z -> gmap Z Z;
}.

Section surroundings.
Context {P : PagingCrate} {B : BoardEnv} {I : EmbeddedIo machine} {C : CrateConsts}.
Context {IL : IrqLine} {OC : OtherCores} (b : build).

Definition interfere (l : lock) : K unit :=
  match l with
  | LSharedIrq => modify (fun s => set_shared_irq (others_shared_irq (trace s) (shared_irq s)) s)
  | LStacks => modify (fun s => set_secondary_stacks (others_stacks (trace s) (secondary_stacks s)) s)
  | _ => ret tt
  end.

(** Locks are requested, and obtained after others have had them. *)
Definition contended : Surroundings := {|
  before_call := ret tt;
  before_lock l := do! tell (Q := alone) (LockRequest l) in interfere l;
|}.

(** The exception masks exceptions and the return from it unmasks them again.  The
    handlers run in the surroundings [Q]. *)
Definition take_irq (Q : Surroundings) : K unit :=
  do! modify (set_masked true) in
  do! irq_vector (D := driver_of b) in
  modify (set_masked false).

(** At most [n] interrupts in a row. *)
Fixpoint take_irqs (Q : Surroundings) (n : nat) : K unit :=
  match n with
  | O => ret tt
  | S n =>
      let! mask := gets masked in
      let! h := gets trace in
      if negb mask && irq_pending h then do! take_irq Q in take_irqs Q n else ret tt
  end.

(** [Q] with interrupts. *)
Definition with_irqs (Q : Surroundings) (n : nat) : Surroundings := {|
  before_call := do! take_irqs Q n in before_call (Surroundings := Q);
  before_lock l := do! take_irqs Q n in before_lock (Surroundings := Q) l;
|}.

Definition interrupted (n : nat) : Surroundings := with_irqs contended n.
End surroundings.

Section orderly.
Context {P : PagingCrate} {B : BoardEnv} {I : EmbeddedIo machine} {L : EmbeddedIoLaws machine I}.
Context {C : CrateConsts} {IL : IrqLine} {OC : OtherCores} (b : build).
Implicit Types s : machine.

#[export] Instance contended_orderly : OrderlySurroundings contended.
Proof.
  split; [intros; apply orderly_ret|]. intros k h l Hb. apply orderly_bind.
  - intros s Hh Hk Hd. split; [done|]. split; [|by intros; simpl; rewrite Hh].
    eexists [_]. split; [reflexivity|]. repeat constructor; simpl; [by rewrite Hh|].
    intros l' [= <-]. by rewrite Hh.
  - intros _. unfold interfere. orderly.
Qed.

Section irqs.
Context (Q : Surroundings) {QO : OrderlySurroundings Q}.

(** An interrupt which is taken with exceptions unmasked. *)
Lemma take_irq_orderly h s :
  held s = h -> masked s = false -> disciplined_at h false ->
  (take_irq b Q s).1 <> Hang Deadlock /\
  (exists evs, trace (take_irq b Q s).2 = evs ++ trace s /\ Forall good_entry evs) /\
  (forall a, (take_irq b Q s).1 = Val a -> held (take_irq b Q s).2 = h /\
     masked (take_irq b Q s).2 = false).
Proof.
  intros Hh Hm Hd. unfold take_irq, bind, modify.
  destruct (orderly_irq_vector (Q := Q) b h (disciplined_below h Hd) (set_masked true s) Hh)
    as (Hdl & Hev & Hv); [done|apply disciplined_masked|].
  destruct (irq_vector _) as [[[]|?|?|] s1]; simpl in *;
    [|by (split; [congruence|]; split)..].
  split; [done|]. split; [done|]. intros a _. by destruct (Hv tt eq_refl) as (-> & _ & _).
Qed.

Lemma take_irqs_orderly n k h : orderly k h (take_irqs b Q n).
Proof.
  induction n as [|n IH]; simpl; [apply orderly_ret|]. intros s Hh Hk Hd.
  unfold bind, gets.
  destruct (negb (masked s) && irq_pending (trace s)) eqn:E; [|by apply orderly_ret].
  apply andb_prop in E as [Hm%negb_true_iff _]. rewrite Hm in Hk, Hd.
  destruct (take_irq_orderly h s Hh Hm Hd) as (Hdl & (e1 & Ht1 & Hg1) & Hv).
  destruct (take_irq b Q s) as [[[]|?|?|] s1]; simpl in *;
    [|by (split; [congruence|]; split; [exists e1|])..].
  destruct (Hv tt eq_refl) as [Hh1 Hm1].
  destruct (IH s1 Hh1) as (Hdl2 & (e2 & Ht2 & Hg2) & Hv2).
  { intros Hk1. by apply Hk in Hk1. }
  { by rewrite Hm1. }
  split; [done|]. split; [|done]. exists (e2 ++ e1).
  split; [by rewrite Ht2, Ht1, app_assoc|by apply Forall_app].
Qed.

#[export] Instance with_irqs_orderly n : OrderlySurroundings (with_irqs b Q n).
Proof.
  split.
  - intros k h. apply orderly_bind; [apply take_irqs_orderly|]. intros _. apply before_call_orderly.
  - intros k h l Hb. apply orderly_bind; [apply take_irqs_orderly|]. intros _.
    by apply before_lock_orderly.
Qed.
End irqs.

#[export] Instance interrupted_orderly n : OrderlySurroundings (interrupted b n).
Proof. unfold interrupted. apply _. Qed.
End orderly.

(** ** Deadlocks *)

(** What a core runs: [main] on the core which boots, [secondary_main] on the others. *)
Inductive core := BootCore (fuel : nat) (x0 : Z) | SecondaryCore (arg : Z).

Section run_core.
Context {P : PagingCrate} {Q : Surroundings} {B : BoardEnv} {I : EmbeddedIo machine}.
Context {C : CrateConsts} {F : FrameAllocator} {BI : BootImage} (b : build).

Definition run_core (c : core) : K unit :=
  match c with
  | BootCore fuel x0 => main (PL := platform_of b) fuel x0
  | SecondaryCore arg => CpusApp.secondary_main arg
  end.
End run_core.

Section deadlock.
Context {P : PagingCrate} {PC : PagingCalls} {I : EmbeddedIo machine}.
Context {L : EmbeddedIoLaws machine I} {C : CrateConsts} {F : FrameAllocator} {BI : BootImage}.
Context (b : build).
Implicit Types s : machine.

Lemma run_core_orderly `{B : BoardEnv} `{IL : IrqLine} `{OC : OtherCores} n c s :
  held s = ∅ ->
  (run_core (Q := interrupted b n) b c s).1 <> Hang Deadlock /\
  exists evs, trace (run_core (Q := interrupted b n) b c s).2 = evs ++ trace s /\
    Forall good_entry evs.
Proof.
  intros Hh. assert (disciplined_at ∅ (masked s)) as Hd by (intros l _ Hin; set_solver).
  destruct c as [fuel x0|arg]; simpl.
  - destruct (orderly_main (Q := interrupted b n) b unit fuel x0 s Hh) as (Hdl & Hev & _); done.
  - destruct (orderly_secondary_main (Q := interrupted b n) ∅ (below_empty _) unit arg s Hh)
      as (Hdl & Hev & _); done.
Qed.


(** At some moment of some run a core holds [h] and waits for [l]. *)
Definition can_wait (h : gset lock) (l : lock) : Prop :=
  exists (B : BoardEnv) (IL : IrqLine) (OC : OtherCores) n c s evs e,
    held s = ∅ /\ trace (run_core (Q := interrupted b n) b c s).2 = evs ++ trace s /\
    e ∈ evs /\ call e = LockRequest l /\ at_held e = h.

(** Core [i] waits for a lock which core [j] holds, while [j] waits too. *)
Definition waits_for (waiting : nat -> option (gset lock * lock)) (i j : nat) : Prop :=
  exists h l h' l', waiting i = Some (h, l) /\ waiting j = Some (h', l') /\ l ∈ h'.

Lemma can_wait_below h l : can_wait h l -> below h l.
Proof.
  intros (B & IL & OC & n & c & s & evs & e & Hh & Ht & He & Hc & <-).
  destruct (run_core_orderly n c s Hh) as (_ & evs' & Ht' & Hg).
  rewrite Ht in Ht'. apply app_inv_tail in Ht' as <-.
  rewrite Forall_forall in Hg. by apply (Hg e He).
Qed.

(** Along a chain of cores which wait for each other the ranks of the locks grow. *)
Lemma chain_ranks waiting i j :
  (forall i h l, waiting i = Some (h, l) -> can_wait h l) ->
  tc (waits_for waiting) i j ->
  exists h l h' l', waiting i = Some (h, l) /\ waiting j = Some (h', l') /\ (rank l < rank l')%nat.
Proof.
  intros Hw. induction 1 as [i j (h & l & h' & l' & Hi & Hj & Hl)|i j k Hij _ IH].
  - exists h, l, h', l'. split; [done|]. split; [done|]. by apply (can_wait_below h' l'); [eapply Hw|].
  - destruct Hij as (h & l & h1 & l1 & Hi & Hj & Hl).
    destruct IH as (h1' & l1' & h2 & l2 & Hj' & Hk & Hr).
    rewrite Hj in Hj'. injection Hj' as <- <-. exists h, l, h2, l2. split; [done|]. split; [done|].
    pose proof (can_wait_below h1 l1 (Hw _ _ _ Hj) l Hl). lia.
Qed.

End deadlock.

(** ** Witnesses *)

(** Every call is interrupted once. *)
Definition sim_busy_line : IrqLine := fun h =>
  match h with e :: _ => match call e with GicEnd _ => false | _ => true end | [] => true end.

(** Other cores which do nothing. *)
Definition idle_cores : OtherCores := {|
  others_shared_irq _ t := t;
  others_stacks _ t := t;
|}.

(** The simulated board, at whose console the end of file is typed; the console's
    interrupt is pending. *)
Definition sim_eof_board : BoardEnv := sim_env (mkSimConfig [EOF] 0 false (Some 33) [] []).

Section deadlock_witnesses.
#[local] Existing Instances sim_eof_board sim_busy_line idle_cores.


Definition sim_history : history :=
  trace (run_core (Q := interrupted QemuBuild 1) QemuBuild (BootCore 10 0x40000000) sim_machine).2.

Definition requests (h : gset lock) (l : lock) (e : entry) : bool :=
  match call e with LockRequest l' => bool_decide (l' = l /\ at_held e = h) | _ => false end.

Lemma sim_can_wait h l : existsb (requests h l) sim_history = true -> can_wait QemuBuild h l.
Proof.
  intros (e & He & Hr)%existsb_exists. apply list_elem_of_In in He.
  exists sim_eof_board, sim_busy_line, idle_cores, 1%nat, (BootCore 10 0x40000000), sim_machine,
    sim_history, e.
  unfold requests in Hr. destruct (call e) eqn:Ec; try discriminate Hr.
  apply bool_decide_eq_true in Hr as [-> Eh].
  split; [reflexivity|]. split; [unfold sim_history; symmetry; apply app_nil_r|].
  split; [exact He|]. split; [reflexivity|exact Eh].
Qed.

(** Core 0 sets its alarm up while an interrupt on core 1 has the handlers locked. *)
Definition sim_waiting_cores (i : nat) : option (gset lock * lock) :=
  match i with
  | O => Some ({[LGic]} ∪ boot_locks, LSharedIrq)
  | S O => Some ({[LSharedIrq]} ∪ boot_locks, LConsole)
  | _ => None
  end.

End deadlock_witnesses.
