(* ===== verification/Input.v ===== *)
(** * Input: what is typed, while interrupts arrive

    Reading from the console in surroundings with interrupts.  Interrupt handlers never
    read from the UART, so what [Console::read] and [read_line] return depends on the
    typed bytes only.  But the handler of the console's interrupt can run between the
    check for input and the wait for an interrupt, and then the wake-up is lost. *)

From S2P Require Import Prelude Text Extern Machine Discipline Sim Console Io Cpus Interrupts.
From S2P Require Import Pagetable Platform Alarm Pci FdtMap Secondary Virtio Shell Frame Boot Locking.
From S2P Require Import Interrupted.

(** What has been read from the UART. *)
Definition bytes_read `{P : PagingCrate} (s : machine) : list byte := bytes_of typed_by (trace s).

(** Documented behaviour of [embedded_io::Read::read]: it returns at least one byte, and
    no more than fit into the buffer. *)
Class UartReads `{B : BoardEnv} : Prop := uart_reads h len bs :
  (0 < len)%nat -> env_uart_read h len = Ok bs -> bs <> [] /\ (length bs <= len)%nat.

Section same_input.
Context {P : PagingCrate}.
Implicit Types s : machine.

(** Nothing was read. *)
Definition same_input s s' : Prop := bytes_read s' = bytes_read s.

#[export] Instance same_input_preorder : PreOrder same_input.
Proof. split; [done|]. unfold same_input. intros s1 s2 s3 -> ->. done. Qed.

(** Surroundings which do not read from the UART. *)
Class NoInput (Q : Surroundings) : Prop := {
  before_call_no_input : stays same_input before_call;
  before_lock_no_input l : stays same_input (before_lock l);
}.

#[export] Instance alone_no_input : NoInput alone.
Proof. by split. Qed.
End same_input.

#[export] Instance same_input_frame `{P : PagingCrate} (Q : Surroundings) `{QN : !NoInput Q} :
  Frame Q same_input.
Proof.
  split; [apply _| |apply before_lock_no_input|done|done].
  intros A f mk Hmk. apply stays_bind; [apply _|apply before_call_no_input|]. intros _ s.
  unfold same_input, bytes_read. simpl. destruct (mk _) eqn:E; simpl; try apply app_nil_r.
  by destruct (Hmk _ _ _ E).
Qed.

#[export] Hint Extern 2 (stays same_input (modify _)) => by intros [] : frame.

(** ** Interrupt handlers *)

Section handlers.
Context {P : PagingCrate} {Q : Surroundings} {QN : NoInput Q} {B : BoardEnv}.
Context {I : EmbeddedIo machine} {L : EmbeddedIoLaws machine I} {C : CrateConsts} (b : build).
#[local] Hint Extern 0 InterruptDriven => exact (driver_of b) : typeclass_instances.

Lemma same_input_run_handler f i : stays same_input (run_handler f i).
Proof.
  destruct f; simpl.
  - unfold Console.handle_irq. frame. unfold driver_handle_irq. destruct b; simpl;
      unfold Pl011.interrupt_driven, Pl011.handle_irq, Uart16550.interrupt_driven,
      Uart16550.handle_irq, end_interrupt; frame.
  - unfold Alarm.irq_handle. frame.
  - unfold CpusApp.secondary_irq_handler. frame.
Qed.
#[local] Hint Resolve same_input_run_handler : frame.

Lemma same_input_irq_vector : stays same_input irq_vector.
Proof.
  unfold irq_vector, Irq.irq_current, Irq.handle_irq, Irq.get_and_acknowledge_interrupt,
    Irq.with_borrow, Irq.private_handlers, cpu_count, fdt_cpu_nodes. frame.
Qed.
#[local] Hint Resolve same_input_irq_vector : frame.

Context {IL : IrqLine}.

Lemma same_input_take_irqs n : stays same_input (take_irqs b Q n).
Proof.
  induction n as [|n IH]; simpl; [apply stays_ret, _|]. unfold take_irq. frame.
Qed.

#[export] Instance with_irqs_no_input n : NoInput (with_irqs b Q n).
Proof.
  pose proof same_input_take_irqs. pose proof before_call_no_input. pose proof before_lock_no_input.
  split; [|intros l]; simpl; frame.
Qed.
End handlers.

#[export] Instance contended_no_input `{P : PagingCrate} `{OC : OtherCores} : NoInput contended.
Proof. split; simpl; [frame|]. intros l. unfold interfere. frame. Qed.

#[export] Instance interrupted_no_input `{L : EmbeddedIoLaws machine} `{B : BoardEnv}
    `{C : CrateConsts} `{IL : IrqLine} `{OC : OtherCores} b n : NoInput (interrupted b n).
Proof. unfold interrupted. apply _. Qed.

(** ** Reading *)

Section reading.
Context {P : PagingCrate} {Q : Surroundings} {QN : NoInput Q} {B : BoardEnv} {UR : UartReads}.
Context {I : EmbeddedIo machine} {L : EmbeddedIoLaws machine I} {C : CrateConsts}.
Implicit Types s : machine.

Lemma with_lock_typed {A} l (m : K A) s a s' :
  with_lock l m s = (Val a, s') ->
  exists s1 s2, bytes_read s1 = bytes_read s /\ m s1 = (Val a, s2) /\ bytes_read s' = bytes_read s2.
Proof.
  unfold with_lock, release. intros H. inv_bind H as u s1 Ha. inv_bind H as a1 s2 Hm.
  inv_bind H as v s3 Hr. inv_step Hr. injection Hr as _ <-. inv_prim H. exists s1, s2.
  split; [by apply (stays_run same_input _ _ _ _ (frame_acquire l) Ha)|done].
Qed.

Lemma try_read_typed len s bs s' :
  Console.try_read len s = (Val (Ok (Some bs)), s') ->
  bytes_read s' = bytes_read s ++ bs /\ exists h, env_uart_read h len = Ok bs.
Proof.
  unfold Console.try_read, uart_read. intros H. inv_bind H as ready s1 H1.
  assert (bytes_read s1 = bytes_read s) as <- by (refine (stays_run same_input _ _ _ _ _ H1); unfold uart_read_ready; frame).
  destruct ready as [[]|]; [|by apply ret_inv in H as [? ?]..]. inv_bind H as r s2 H2. unfold ask in H2.
  inv_bind H2 as u s3 H3. injection H2 as <- <-. injection H as H <-.
  assert (bytes_read s3 = bytes_read s1) as <- by (refine (stays_run _ _ _ _ _ before_call_no_input H3)).
  destruct (env_uart_read (trace s3) len) as [bs'|] eqn:E; [|done]. injection H as ->.
  split; [done|by eexists].
Qed.

Lemma try_read_none_typed len s s' :
  Console.try_read len s = (Val (Ok None), s') -> bytes_read s' = bytes_read s.
Proof.
  unfold Console.try_read, uart_read. intros H. inv_bind H as ready s1 H1.
  assert (bytes_read s1 = bytes_read s) as <- by (refine (stays_run same_input _ _ _ _ _ H1); unfold uart_read_ready; frame).
  destruct ready as [[]|]; [|by apply ret_inv in H as [? ->]..]. inv_bind H as r s2 H2.
  by destruct r.
Qed.

Lemma console_read_typed fuel len s bs s' :
  Console.read fuel len s = (Val (Ok bs), s') ->
  bytes_read s' = bytes_read s ++ bs /\ exists h, env_uart_read h len = Ok bs.
Proof.
  revert s. induction fuel as [|fuel IH]; intros s H; cbn [Console.read] in H; [done|].
  inv_bind H as r s1 H1. apply exception_free_inv in H1 as (s2 & H1 & ->).
  apply with_lock_typed in H1 as (s3 & s4 & E3 & H1 & E4).
  change (bytes_read s3 = bytes_read s) in E3. change (bytes_read s2) with (bytes_read (set_masked (masked s) s2)) in E4.
  destruct r as [[bs'|]|e].
  - injection H as <- <-. apply try_read_typed in H1 as [Ht Hx]. split; [congruence|done].
  - apply try_read_none_typed in H1. inv_bind H as u s5 H5.
    assert (bytes_read s5 = bytes_read (set_masked (masked s) s2)) as E5
      by (refine (stays_run same_input _ _ _ _ _ H5); unfold wait_for_irq, wfi; frame).
    apply IH in H as [Ht Hx]. split; [congruence|done].
  - done.
Qed.

Context (wait : nat).
#[local] Hint Extern 0 ConsoleDev => exact (console_dev wait) : typeclass_instances.

Lemma read_byte_typed s c s' : read_byte s = (Val c, s') -> bytes_read s' = bytes_read s ++ [c].
Proof.
  unfold read_byte. intros H. inv_bind H as res s1 H1. inv_step H as bs. inv_prim H.
  cbn [con_read console_dev] in H1. destruct (Console.read wait 1 s) as [o s2] eqn:E.
  destruct o as [[bs'|e]|msg|why|]; cycle 2.
  1-3: destruct (read_exact_stops _ 1%nat _ _ _ ltac:(lia) E) as (o & E' & Ho); [done|];
    rewrite E' in H1; injection H1 as -> _; by destruct (Ho res).
  - destruct (console_read_typed _ _ _ _ _ E) as [Ht (h & Hr)].
    destruct (uart_reads h 1 bs' ltac:(lia) Hr) as [Hne Hlen].
    rewrite (read_exact_step _ _ bs' _ s2) in H1 by (done || lia).
    destruct bs' as [|c' [|? ?]]; [done| |simpl in Hlen; lia]. simpl in H1.
    unfold bind in H1. rewrite read_exact_zero in H1. injection H1 as <- <-.
    injection Hrun as <-. by injection H as ->.
  - destruct (read_exact_fails _ 1%nat _ _ _ ltac:(lia) E) as [e' E']; [done|].
    rewrite E' in H1. by injection H1 as <- _.
Qed.

Lemma write_bytes_typed buf s u s' : write_bytes buf s = (Val u, s') -> bytes_read s' = bytes_read s.
Proof.
  intros H. refine (stays_run same_input _ _ _ _ _ H). unfold write_bytes. frame.
  apply write_all_stays; [apply _|]. intros bs. simpl. frame.
Qed.

(** How a line ends, after the characters [ts]. *)
Definition line_result (ts : list byte) (last : byte) (line : list byte) : Prop :=
  ((last = CR \/ last = LF) /\ line = kept ts) \/ (last = EOF /\ kept ts = [] /\ line = [EOF]).

Lemma kept_app ts ts' : kept (ts ++ ts') = kept ts ++ kept ts'.
Proof. apply List.filter_app. Qed.

Lemma read_line_loop_typed fuel ts s line s' :
  read_line_loop fuel (kept ts) s = (Val line, s') ->
  exists ts' last, bytes_read s' = bytes_read s ++ ts' ++ [last] /\
    Forall (fun c => c <> CR /\ c <> LF) ts' /\ line_result (ts ++ ts') last line.
Proof.
  revert ts s. induction fuel as [|fuel IH]; intros ts s H; cbn [read_line_loop] in H; [done|].
  inv_bind H as c s1 H1. apply read_byte_typed in H1. case_decide as Hc.
  { inv_bind H as u s2 H2. apply write_bytes_typed in H2. inv_prim H. exists [], c.
    rewrite app_nil_r. split; [by rewrite H2|]. split; [done|]. by left. }
  case_decide as He.
  { destruct He as [-> He]. inv_bind H as u s2 H2. apply write_bytes_typed in H2.
    rewrite He in H. injection H as <- <-. exists [], EOF. rewrite app_nil_r.
    split; [by rewrite H2|]. split; [done|]. by right. }
  assert (c <> CR /\ c <> LF) as Hline by tauto.
  assert (exists s2, read_line_loop fuel (kept (ts ++ [c])) s2 = (Val line, s') /\
    bytes_read s2 = bytes_read s ++ [c]) as (s2 & E & Ht).
  { rewrite kept_app. unfold kept at 2. simpl.
    change (negb (is_ascii_control c)) with (printable c) in H. destruct (printable c).
    - inv_bind H as u s2 H2. apply write_bytes_typed in H2. inv_bind H as line2 s3 H3.
      unfold push in H3. destruct (_ <? _)%nat; [|done]. inv_prim H3. exists s2. by rewrite H2.
    - exists s1. by rewrite app_nil_r. }
  apply IH in E as (ts' & last & Et & Hf & Hr). exists (c :: ts'), last.
  rewrite Et, Ht, <-app_assoc. split; [done|]. split; [by constructor|].
  by rewrite <-app_assoc in Hr.
Qed.
End reading.

(** C19: interrupts cannot corrupt a line.  Whatever interrupts arrive while a line is
    read, and whatever other cores do, the line which [read_line] returns consists of
    exactly the printable bytes which were read from the UART since it was called, up to
    the first line break; at the start of a line an end-of-file is returned as such. *)
Theorem read_line_interrupted `{B : BoardEnv} `{UR : !UartReads} `{L : EmbeddedIoLaws machine}
    `{C : CrateConsts} `{IL : IrqLine} `{OC : OtherCores} b n wait fuel s line s' :
  read_line (D := console_dev (Q := interrupted b n) wait) fuel s = (Val line, s') ->
  exists ts last, bytes_read s' = bytes_read s ++ ts ++ [last] /\
    Forall (fun c => c <> CR /\ c <> LF) ts /\ line_result ts last line.
Proof. apply (read_line_loop_typed (Q := interrupted b n) wait fuel []). Qed.

(** ** A wake-up can be lost *)

Section cleared.
Context (arrived : history -> nat).

(** How many bytes had arrived when the receive interrupt was last cleared. *)
Fixpoint cleared (h : history) : nat :=
  match h with
  | [] => 0
  | e :: h => match call e with UartClearInterrupts => arrived h | _ => cleared h end
  end.
End cleared.

(** The PL011 and the GIC, when nothing else interrupts: there is data while bytes have
    arrived which were not read; an arriving byte raises the receive interrupt, which
    [clear_interrupts(RXI)] lowers until another byte arrives. *)
Class Pl011Line `{B : BoardEnv} `{IL : IrqLine} `{C : CrateConsts} := {
  arrived : history -> nat;
  arrived_mono e h : (arrived h <= arrived (e :: h))%nat;
  pl011_ready h : env_uart_read_ready h = Ok (length (bytes_of typed_by h) <? arrived h)%nat;
  pl011_raised h : (cleared arrived h < arrived h)%nat ->
    (length (bytes_of typed_by h) < arrived h)%nat ->
    irq_pending h = true /\ env_gic_ack h = Some Qemu.CONSOLE_IRQ;
  pl011_lowered h : cleared arrived h = arrived h -> irq_pending h = false;
}.

Section wakeup.
Context {P : PagingCrate} {B : BoardEnv} {I : EmbeddedIo machine} {L : EmbeddedIoLaws machine I}.
Context {C : CrateConsts} {IL : IrqLine} {PL : Pl011Line}.
Implicit Types s : machine.

Lemma cleared_le h : (cleared arrived h <= arrived h)%nat.
Proof.
  induction h as [|e h IH]; simpl; [lia|]. pose proof (arrived_mono e h).
  destruct (call e); lia.
Qed.

Lemma take_irqs_masked b n s : masked s = true -> take_irqs b alone n s = (Val tt, s).
Proof. intros Hm. destruct n; [done|]. simpl. unfold bind, gets. by rewrite Hm. Qed.

Lemma take_irqs_quiet b n s : irq_pending (trace s) = false -> take_irqs b alone n s = (Val tt, s).
Proof.
  intros Hp. destruct n; [done|]. simpl. unfold bind, gets. rewrite Hp. by rewrite andb_false_r.
Qed.

(** A check for input which finds nothing; it cannot be interrupted. *)
Lemma poll_interrupted b n len s :
  LConsole ∉ held s -> env_uart_read_ready (trace s) = Ok false ->
  exception_free (with_lock (Q := with_irqs b alone n) LConsole
    (Console.try_read (Q := with_irqs b alone n) len)) s =
    (Val (Ok None), set_trace (ready_entry s (Ok false) :: trace s) s).
Proof.
  intros Hl Hr. unfold exception_free, with_lock, acquire, release, Console.try_read,
    uart_read_ready, ask, bind, gets, modify, ret. simpl. unfold bind.
  rewrite !take_irqs_masked by done. simpl. rewrite decide_False by done. simpl. unfold bind.
  rewrite !take_irqs_masked by done. simpl. rewrite Hr. simpl. unfold ready_entry, set_trace. simpl.
  by rewrite held_restore.
Qed.

(** A core which waits for input with its interrupts unmasked, when the console's
    handler is in place. *)
Record waiting_core (ids : list Z) (c : nat) s : Prop := {
  wc_ready : irq_ready ids c s;
  wc_unmasked : masked s = false;
  wc_console : LConsole ∉ held s;
  wc_once : console_once s = true;
  wc_private : Tables.private (tables_of (length ids) s) !! c ≫= lookup Qemu.CONSOLE_IRQ = None;
  wc_shared : shared_irq s !! Qemu.CONSOLE_IRQ = Some ConsoleHandleIrq;
}.

(** The calls of the console's interrupt, newest first. *)
Definition console_irq_calls s : list entry :=
  [mkEntry (GicEnd Qemu.CONSOLE_IRQ) true ({[LConsole]} ∪ ({[LSharedIrq]} ∪ held s));
   mkEntry UartClearInterrupts true ({[LConsole]} ∪ ({[LSharedIrq]} ∪ held s));
   mkEntry (GicAck (Some Qemu.CONSOLE_IRQ)) true (held s)].

Lemma take_console_irq ids c s :
  waiting_core ids c s -> env_gic_ack (trace s) = Some Qemu.CONSOLE_IRQ ->
  exists s', take_irq QemuBuild alone s = (Val tt, s') /\
    trace s' = console_irq_calls s ++ trace s /\ held s' = held s /\ masked s' = false.
Proof.
  intros [Hr Hm Hl Ho Hp Hs] Ha. unfold take_irq. run_step.
  assert (irq_ready ids c (set_masked true s)) as Hr1 by (by apply irq_ready_masked).
  set (s1 := entry_shared ids Qemu.CONSOLE_IRQ (set_masked true s)).
  assert (run_handler (D := driver_of QemuBuild) ConsoleHandleIrq Qemu.CONSOLE_IRQ s1 =
    (Val tt, set_trace (console_irq_calls s ++ trace s) s1)) as Eh.
  { apply (console_irq_runs_driver (D := driver_of QemuBuild) _ s1 (take 2 (console_irq_calls s)));
      [|done|done]. unfold s1. simpl. set_solver. }
  assert (irq_vector (D := driver_of QemuBuild) (set_masked true s) =
    (Val tt, after_irq (set_masked true s) (set_trace (console_irq_calls s ++ trace s) s1))) as Ev.
  { unfold irq_vector, Irq.irq_current. erewrite bind_Val by (by eapply log_trace_skip).
    by eapply (handle_irq_shared ids c _ _ _ ConsoleHandleIrq). }
  erewrite bind_Val by exact Ev. eexists. split; [reflexivity|]. done.
Qed.

Lemma cleared_stays h1 evs later :
  (forall evs, arrived (evs ++ h1) = arrived h1) -> cleared arrived (evs ++ h1) = arrived h1 ->
  cleared arrived (later ++ evs ++ h1) = arrived h1.
Proof.
  intros Ha Hc. induction later as [|e later IH]; [done|]. simpl.
  destruct (call e); try done. by rewrite app_assoc, Ha.
Qed.

(** C35: the core can go to sleep with input to read.  If [Console::read] finds no data,
    and a byte arrives before the core waits for an interrupt, then the console's handler
    runs in between and clears the receive interrupt; when the core then waits, there is
    data, and no interrupt will be pending until another byte arrives. *)
Theorem console_wakeup_lost ids c n fuel len s :
  waiting_core ids c s ->
  let polled := ready_entry s (Ok false) :: trace s in
  (arrived (trace s) = length (bytes_read s))%nat ->
  (length (bytes_read s) < arrived polled)%nat ->
  (forall evs, arrived (evs ++ polled) = arrived polled) ->
  exists evs h,
    trace (Console.read (Q := with_irqs QemuBuild alone (S n)) (S fuel) len s).2 =
      evs ++ mkEntry Wfi false (held s) :: h /\
    env_uart_read_ready h = Ok true /\ forall later, irq_pending (later ++ h) = false.
Proof.
  intros Hw polled H0 H1 H2. destruct Hw as [Hr Hm Hl Ho Hp Hs].
  set (s1 := set_trace polled s).
  assert (waiting_core ids c s1) as Hw1 by (destruct Hr; by repeat split).
  destruct (pl011_raised polled) as [Hpend Hack].
  { simpl. pose proof (cleared_le (trace s)). lia. }
  { unfold polled, bytes_read in *. simpl. by rewrite app_nil_r. }
  destruct (take_console_irq ids c s1 Hw1 Hack) as (s2 & E2 & Ht2 & Hh2 & Hm2).
  assert (forall later, irq_pending (later ++ trace s2) = false) as Hquiet.
  { intros later. rewrite Ht2. apply pl011_lowered. simpl trace.
    rewrite (cleared_stays polled (console_irq_calls s1) later H2); [|exact (H2 [_])].
    by rewrite app_assoc, H2. }
  assert (wait_for_irq (Q := with_irqs QemuBuild alone (S n)) s1 =
    (Val tt, set_trace (mkEntry Wfi false (held s) :: trace s2) s2)) as Ew.
  { unfold wait_for_irq, wfi, tell, ask, bind. simpl. unfold bind, gets.
    change (trace s1) with polled. rewrite Hpend. rewrite (wc_unmasked _ _ _ Hw1). simpl. rewrite E2.
    rewrite take_irqs_quiet by apply (Hquiet []). simpl. by rewrite Hm2, Hh2. }
  cbn [Console.read]. erewrite bind_Val by (apply poll_interrupted; [done|]; rewrite pl011_ready;
    unfold bytes_read in H0; by rewrite H0, Nat.ltb_irrefl).
  cbv beta iota. erewrite bind_Val by exact Ew.
  set (s3 := set_trace (mkEntry Wfi false (held s) :: trace s2) s2).
  assert (disciplined_at (held s) false) as Hd.
  { intros [] Hk Hin; try discriminate Hk; [by destruct Hl|by destruct (ready_lock _ _ _ Hr)]. }
  destruct (orderly_console_read (Q := with_irqs QemuBuild alone (S n)) false (held s) fuel len)
    with (s := s3) as (_ & (evs & Et & _) & _).
  { pose proof (disciplined_below _ Hd). below. }
  { done. }
  { done. }
  { simpl. by rewrite Hm2. }
  exists evs, (trace s2). split; [exact Et|]. split; [|done].
  rewrite pl011_ready, Ht2, bytes_of_app. simpl trace. rewrite H2. f_equal.
  apply Nat.ltb_lt. unfold polled, bytes_read in *. simpl in *. rewrite !app_nil_r. done.
Qed.
End wakeup.

(** ** Witnesses *)

(** Core 0 with the console's handler. *)
Definition sim_waiting : machine := set_shared_irq {[33 := ConsoleHandleIrq]} (sim_core 0).

Section line_witness.
#[local] Instance line_board : BoardEnv :=
  sim_env (mkSimConfig (bytes "a" ++ [x07; x62; CR]) 0 false (Some 33) [] []).
#[local] Existing Instances sim_busy_line idle_cores.

#[local] Instance line_board_reads : UartReads.
Proof.
  intros h len bs Hlen E. unfold env_uart_read, line_board, sim_env in E.
  destruct (Nat.ltb_spec (uart_consumed h)
    (length (cfg_input (mkSimConfig (bytes "a" ++ [x07; x62; CR]) 0 false (Some 33) [] []))))
    as [Hc|Hc]; [|done]. injection E as <-. cbn [cfg_input] in *. rewrite length_take. split; [|lia].
  intros E%(f_equal length). rewrite length_take, length_drop in E. simpl length in *. lia.
Qed.

Definition sim_line_run : outcome (list byte) * machine :=
  read_line (D := console_dev (Q := interrupted QemuBuild 1) 2) 9 sim_waiting.

(** The line is read although every unmasked call is interrupted. *)
Lemma read_line_interrupted_witness :
  sim_line_run.1 = Val (bytes "ab") /\
  exists ts last, bytes_read sim_line_run.2 = bytes_read sim_waiting ++ ts ++ [last] /\
    Forall (fun c => c <> CR /\ c <> LF) ts /\ line_result ts last (bytes "ab").
Proof.
  split; [vm_compute; reflexivity|].
  apply (read_line_interrupted QemuBuild 1 2 9 sim_waiting (bytes "ab") sim_line_run.2).
  apply (run_fst (read_line (D := console_dev (Q := interrupted QemuBuild 1) 2) 9) sim_waiting
    (Val (bytes "ab"))).
  vm_cast_no_check (eq_refl (Val (bytes "ab"))).
Defined.
End line_witness.

(** A board on which one byte arrives as soon as the UART has been polled. *)
Definition is_poll (e : entry) : bool := match call e with UartReadReady _ => true | _ => false end.

Definition sim_arrived (h : history) : nat := if existsb is_poll h then 1 else 0.

Definition sim_rx_irq (h : history) : bool :=
  (cleared sim_arrived h <? sim_arrived h)%nat &&
  (length (bytes_of typed_by h) <? sim_arrived h)%nat.

Definition sim_pl011 : BoardEnv :=
  match sim_env sim_default with
  | Build_BoardEnv write flush _ read a5 a6 a7 a8 a9 _ a11 a12 a13 a14 a15 a16 a17 a18 a19 a20
      a21 a22 a23 a24 a25 a26 a27 a28 a29 a30 a31 a32 a33 a34 a35 a36 a37 a38 a39 a40 =>
      Build_BoardEnv write flush (fun h => Ok (length (bytes_of typed_by h) <? sim_arrived h)%nat)
        read a5 a6 a7 a8 a9 (fun h => if sim_rx_irq h then Some 33 else None) a11 a12 a13 a14 a15
        a16 a17 a18 a19 a20 a21 a22 a23 a24 a25 a26 a27 a28 a29 a30 a31 a32 a33 a34 a35 a36 a37
        a38 a39 a40
  end.

Section wakeup_witness.
#[local] Existing Instance sim_pl011.
#[local] Instance sim_rx_line : IrqLine := sim_rx_irq.

Lemma sim_arrived_mono e h : (sim_arrived h <= sim_arrived (e :: h))%nat.
Proof. unfold sim_arrived. simpl. destruct (is_poll e), (existsb is_poll h); simpl; lia. Qed.

#[local] Instance sim_pl011_line : Pl011Line.
Proof.
  refine {| arrived := sim_arrived |}.
  - apply sim_arrived_mono.
  - done.
  - intros h H1 H2. unfold irq_pending, sim_rx_line. cbn. unfold sim_rx_irq.
    by rewrite (proj2 (Nat.ltb_lt _ _) H1), (proj2 (Nat.ltb_lt _ _) H2).
  - intros h H. unfold irq_pending, sim_rx_line, sim_rx_irq. by rewrite H, Nat.ltb_irrefl.
Defined.

Lemma console_wakeup_lost_witness :
  exists evs h,
    trace (Console.read (Q := with_irqs QemuBuild alone 1) 1 1 sim_waiting).2 =
      evs ++ mkEntry Wfi false ∅ :: h /\
    env_uart_read_ready h = Ok true /\ forall later, irq_pending (later ++ h) = false.
Proof.
  apply (console_wakeup_lost [0; 1; 2; 3] 0 0 0 1 sim_waiting).
  - split; try done. split; try done. apply sim_core_cpus.
  - reflexivity.
  - apply Nat.lt_0_1.
  - intros evs. simpl. unfold sim_arrived. by rewrite existsb_app, orb_true_r.
Defined.
End wakeup_witness.
