(* ===== verification/Cores.v ===== *)
(** * Cores: a secondary core from its start to [PSCI_CPU_OFF]

    [secondary_entry] of [apps/cpus.rs] together with the interrupt vector: which
    handlers are in place while interrupts are enabled, and what is left of them when
    the core goes off. *)

From S2P Require Import Prelude Text Extern Machine Sim Console Io Cpus Interrupts Pagetable.
From S2P Require Import Platform Alarm Secondary Virtio Shell Boot.

Section cores.
Context {P : PagingCrate} {B : BoardEnv} {I : EmbeddedIo machine} {L : EmbeddedIoLaws machine I}.
Context {C : CrateConsts} {D : InterruptDriven}.
Implicit Types s : machine.
Import Tables.

(** The interrupts which are enabled on a secondary core. *)
Definition sgi_ids : list Z := IntId_sgi <$> CpusApp.sgis.

(** Sets ([Some]) or removes ([None]) the private handler of [i]. *)
Definition private_op (v : option IrqHandler) (i : Z) : op :=
  match v with Some h => SetPrivate i h | None => RemovePrivate i end.

Lemma private_op_step c v i t p :
  private t !! c = Some p -> (v = None \/ shared t !! i = None) ->
  step c (private_op v i) t =
    Some (p !! i, mkTables (shared t) (<[c := partial_alter (fun _ => v) i p]> (private t))).
Proof.
  intros Hp Hs. unfold step. rewrite Hp. destruct v as [h|]; simpl; [|done].
  rewrite decide_True by naive_solver. done.
Qed.

(** The private handlers of core [c] after such operations on [l]. *)
Definition privately (c : nat) (v : option IrqHandler) (l : list Z) (t t' : tables) : Prop :=
  shared t' = shared t /\
  forall c' j, private t' !! c' ≫= lookup j =
    if decide (c' = c /\ j ∈ l) then v else private t !! c' ≫= lookup j.

Lemma private_ops_run ids c v l s :
  irq_ready ids c s -> (v = None \/ Forall (fun i => shared_irq s !! i = None) (IntId_sgi <$> l)) ->
  exists s', for_each (fun sgi => let! _ := run_op (private_op v (IntId_sgi sgi)) in ret tt) l s
      = (Val tt, s') /\
    same_but_tables s s' /\ irq_ready ids c s' /\
    privately c v (IntId_sgi <$> l) (tables_of (length ids) s) (tables_of (length ids) s').
Proof.
  revert s. induction l as [|i l IH]; intros s Hr Hsh; simpl.
  { exists s. split; [done|]. split; [by destruct s|]. split; [done|]. split; [done|].
    intros c' j. by rewrite decide_False by set_solver. }
  assert (v = None \/ shared_irq s !! IntId_sgi i = None) as Hi.
  { destruct Hsh as [?|Hsh]; [by left|right]. by inversion Hsh. }
  destruct (private_handlers_run ids c s Hr) as (p & Hp & _).
  pose proof (op_refines ids c s (private_op v (IntId_sgi i)) Hr) as Ho.
  rewrite (private_op_step c v _ _ p Hp Hi) in Ho. destruct Ho as (s1 & E1 & Ht1 & Hs1).
  assert (irq_ready ids c s1) as Hr1.
  { eapply irq_ready_tables; [done|done|]. rewrite Ht1. simpl. rewrite length_insert. apply Hr. }
  assert (shared_irq s1 = shared_irq s) as Hsh1 by (by injection Ht1).
  destruct (IH s1 Hr1) as (s2 & E2 & Hs2 & Hr2 & Hsh2 & Hp2).
  { rewrite Hsh1. destruct Hsh as [?|Hsh]; [by left|right]. by inversion Hsh. }
  exists s2. split; [|split; [|split; [done|split; [by rewrite Hsh2, Ht1|]]]].
  - rewrite (bind_Val _ _ _ _ _ (bind_Val _ _ _ _ _ E1)). done.
  - unfold same_but_tables in *. rewrite Hs1 in Hs2. exact Hs2.
  - intros c' j. rewrite Hp2, Ht1. cbn [private].
    assert (c < length (private (tables_of (length ids) s)))%nat by (by eapply lookup_lt_Some).
    destruct (decide (c' = c /\ j ∈ IntId_sgi <$> l)) as [[-> Hj]|Hj].
    { rewrite decide_True by set_solver. done. }
    destruct (decide (c' = c)) as [->|Hc]; cycle 1.
    { rewrite list_lookup_insert_ne by done. by rewrite decide_False by naive_solver. }
    rewrite list_lookup_insert_eq, Hp by done. simpl.
    destruct (decide (j = IntId_sgi i)) as [->|Hne].
    + rewrite lookup_partial_alter_eq, decide_True; [done|set_solver].
    + rewrite lookup_partial_alter_ne, decide_False; [done|set_solver|done].
Qed.

(** *** What [dispatch] gives while the handlers are installed, and afterwards *)

Lemma privately_dispatch c v l t t' c' j :
  privately c v l t t' ->
  dispatch c' j t' =
    if decide (c' = c /\ j ∈ l)
    then match v with Some h => Some h | None => shared t !! j end
    else dispatch c' j t.
Proof. intros [Hs Hp]. unfold dispatch. rewrite Hp, Hs. by case_decide. Qed.

Lemma privately_twice c v l t t1 t2 :
  privately c v l t t1 -> privately c None l t1 t2 -> privately c None l t t2.
Proof.
  intros [Hs1 Hp1] [Hs2 Hp2]. split; [congruence|]. intros c' j. rewrite Hp2, Hp1.
  by repeat case_decide.
Qed.

(** *** Enabling the interrupts *)

Definition sgi_enabled (cpu : nat) (i : Z) (h : history) : Prop :=
  exists m l, mkEntry (GicEnableInterrupt i (Some (Z.of_nat cpu)) true (Ok tt)) m l ∈ h.

Lemma enable_sgis_run cpu l s :
  Forall gic_accepts (IntId_sgi <$> l) ->
  exists evs, for_each (CpusApp.enable_sgi (Z.of_nat cpu)) l s = (Val tt, set_trace (evs ++ trace s) s) /\
    Forall (fun i => sgi_enabled cpu i evs) (IntId_sgi <$> l).
Proof.
  revert s. induction l as [|i l IH]; intros s Hg; simpl.
  { exists []. split; [by destruct s|done]. }
  inversion_clear Hg as [|? ? (Hp & _ & He) Hl].
  unfold CpusApp.enable_sgi at 1, Gic.enable_interrupt, Gic.set_interrupt_priority.
  rewrite bind_bind. run_step. rewrite He, bind_bind. run_step. rewrite bind_bind. run_step.
  rewrite Hp. run_step.
  match goal with
  | |- context [for_each _ _ ?s1] => destruct (IH s1 Hl) as (evs & -> & Hen)
  end.
  eexists (evs ++ [_; _]). simpl. rewrite <-app_assoc. split; [reflexivity|]. constructor.
  - eexists _, _. apply elem_of_app. right. right. left.
  - eapply Forall_impl; [exact Hen|]. intros j (m & h & Hin). exists m, h. apply elem_of_app. by left.
Qed.

Lemma with_gic_run {A} (m : K A) s a evs :
  gic_once s = true -> LGic ∉ held s ->
  m (set_held ({[LGic]} ∪ held s) s) =
    (Val a, set_trace (evs ++ trace s) (set_held ({[LGic]} ∪ held s) s)) ->
  Gic.with_gic m s = (Val a, set_trace (evs ++ trace s) s).
Proof.
  intros Hg Hl Hm. unfold Gic.with_gic. run_step. rewrite Hg. run_step.
  etrans; [apply with_lock_run; [done|exact Hm|done]|]. by destruct s.
Qed.

(** A secondary core which has initialised itself: its GIC accepts the interrupts,
    none of which has a shared handler. *)
Record core_ready (ids : list Z) (c : nat) s : Prop := {
  core_irq : irq_ready ids c s;
  core_console : LConsole ∉ held s;
  core_gic : gic_once s = true;
  core_gic_lock : LGic ∉ held s;
  core_accepts : Forall gic_accepts sgi_ids;
  core_shared : Forall (fun i => shared_irq s !! i = None) sgi_ids;
}.

(** What stays the same on the way: [s'] comes after [s] on the same core. *)
Definition core_later (ids : list Z) (c : nat) s s' : Prop :=
  (exists evs, trace s' = evs ++ trace s) /\ held s' = held s /\ fdt_once s' = fdt_once s /\
  irq_ready ids c s'.

Lemma core_later_trans ids c s1 s2 s3 :
  core_later ids c s1 s2 -> core_later ids c s2 s3 -> core_later ids c s1 s3.
Proof.
  intros ([e1 H1] & Hh1 & Hf1 & _) ([e2 H2] & Hh2 & Hf2 & Hr).
  split; [exists (e2 ++ e1); by rewrite H2, H1, app_assoc|]. split; [congruence|]. split; [congruence|done].
Qed.

Lemma core_later_tables ids c s s' :
  same_but_tables s s' -> irq_ready ids c s' -> core_later ids c s s'.
Proof. intros Hs Hr. rewrite Hs in *. split; [by exists []|done]. Qed.

Lemma irq_ready_trace ids c t s : irq_ready ids c s -> irq_ready ids c (set_trace t s).
Proof. by intros []; split. Qed.

Context {UA : UartAccepts}.

Lemma core_later_calls ids c evs s :
  irq_ready ids c s -> core_later ids c s (set_trace (evs ++ trace s) s).
Proof. intros Hr. split; [by exists evs|]. split; [done|]. split; [done|by apply irq_ready_trace]. Qed.

Lemma prepare_core_run ids c arg s :
  core_ready ids c s ->
  exists s', CpusApp.prepare_core c arg s = (Val tt, s') /\ masked s' = false /\
    core_later ids c s s' /\ Forall (fun i => sgi_enabled c i (trace s')) sgi_ids /\
    privately c (Some SecondaryIrqHandler) sgi_ids (tables_of (length ids) s)
      (tables_of (length ids) s').
Proof.
  intros [Hr Hl Hg Hlg Ha Hsh]. unfold CpusApp.prepare_core.
  destruct (log_returns LInfo ("Secondary CPU " +:+ fmt_dec (Z.of_nat c) +:+ " started with arg "
    +:+ fmt_dec arg) s Hl) as (e1 & E1).
  erewrite bind_Val by exact E1. set (s1 := set_trace (e1 ++ trace s) s).
  destruct (enable_sgis_run c CpusApp.sgis (set_held ({[LGic]} ∪ held s1) s1) Ha)
    as (e2 & E2 & Hen).
  erewrite bind_Val by (apply (with_gic_run _ s1 tt e2); [done|done|exact E2]).
  set (s2 := set_trace (e2 ++ trace s1) s1).
  destruct (private_ops_run ids c (Some SecondaryIrqHandler) CpusApp.sgis s2)
    as (s3 & E3 & Hs3 & Hr3 & Hp3); [by do 2 apply irq_ready_trace|by right|].
  unfold CpusApp.install_sgi_handlers. erewrite bind_Val by exact E3. unfold irq_enable. run_step.
  assert (trace s3 = e2 ++ e1 ++ trace s) as Ht by (by rewrite Hs3).
  eexists. split; [reflexivity|]. split; [done|]. split; [|split; [|exact Hp3]].
  - split; [eexists (_ :: e2 ++ e1); simpl; by rewrite Ht, app_assoc|].
    split; [by rewrite Hs3|]. split; [by rewrite Hs3|]. by apply irq_ready_masked, irq_ready_trace.
  - eapply Forall_impl; [exact Hen|]. intros i (m & h & Hin). exists m, h. simpl. right.
    rewrite Ht. apply elem_of_app. by left.
Qed.

Lemma wait_core_run ids c s :
  irq_ready ids c s -> LConsole ∉ held s ->
  exists evs, CpusApp.wait_core s = (Val tt, set_trace (evs ++ trace s) s).
Proof.
  intros Hr Hl. unfold CpusApp.wait_core, wfi.
  destruct (log_returns LInfo "Waiting for interrupt..." s Hl) as (e1 & E1).
  erewrite bind_Val by exact E1. run_step.
  match goal with |- context [info _ ?s1] =>
    destruct (log_returns LInfo "Finished waiting" s1 Hl) as (e2 & E2) end.
  rewrite E2. eexists (e2 ++ _ :: e1). simpl. by rewrite <-app_assoc.
Qed.

(** Going off calls the firmware first and never returns. *)
Lemma stop_core_run A s :
  (forall a, (CpusApp.stop_core (A:=A) s).1 <> Val a) /\
  exists evs r, trace (CpusApp.stop_core (A:=A) s).2 =
    evs ++ mkEntry (PsciCpuOff (psci_conduit s) r) (masked s) (held s) :: trace s.
Proof.
  unfold CpusApp.stop_core, Power.smc_for_psci, CpusApp.psci_cpu_off. do 2 run_step.
  destruct (env_psci_cpu_off _ _) as [[]|e]; simpl.
  - run_step. match goal with |- context [bind (error ?m) ?k ?s1] =>
      destruct (then_hang (A:=A) (error m) s1) as (Hv & evs & Ht); [stays|] end.
    split; [exact Hv|]. exists evs, (Ok tt). exact Ht.
  - split; [done|]. by exists [], (Err e).
Qed.

Lemma secondary_irq_handler_run ids c i s :
  fdt_has_cpus (fdt_once s) ids -> core_index s ids = Some c -> LConsole ∉ held s ->
  exists evs, CpusApp.secondary_irq_handler i s = (Val tt, set_trace (evs ++ trace s) s).
Proof.
  intros Hf Hc Hl.
  destruct (log_returns LInfo ("Secondary CPU " +:+ fmt_dec (Z.of_nat c) +:+ " IRQ handler "
    +:+ intid_debug i) s Hl) as (evs & E).
  exists evs. rewrite <-E. unfold CpusApp.secondary_irq_handler, Logger.log_with, Logger.log.
  do 2 run_step. destruct (_ <=? _); [|done]. cbn [when]. rewrite bind_bind.
  by erewrite bind_Val by (by eapply current_cpu_index_run).
Qed.

(** The vector, at an interrupt which [SecondaryIrqHandler] handles. *)
Lemma vector_handles_sgi ids c i s :
  irq_ready ids c s -> LConsole ∉ held s -> env_gic_ack (trace s) = Some i ->
  private (tables_of (length ids) s) !! c ≫= lookup i = Some SecondaryIrqHandler ->
  exists s', irq_vector s = (Val tt, s').
Proof.
  intros Hr Hl Ha Hp. unfold irq_vector, Irq.irq_current.
  erewrite bind_Val by (by eapply log_trace_skip).
  destruct (secondary_irq_handler_run ids c i (entry_private ids c i s)) as (evs & E);
    [apply Hr|apply Hr|done|].
  eexists. eapply handle_irq_private; [done|done|done|exact E|done].
Qed.

Lemma vector_panics ids c i s :
  irq_ready ids c s -> env_gic_ack (trace s) = Some i ->
  dispatch c i (tables_of (length ids) s) = None ->
  exists msg s', irq_vector s = (Panic msg, s').
Proof.
  intros Hr Ha Hd. unfold irq_vector, Irq.irq_current.
  erewrite bind_Val by (by eapply log_trace_skip). eexists. by eapply handle_irq_none.
Qed.

(** The three states of the run: prepared, woken, and with the handlers removed. *)
Lemma secondary_entry_run A ids c arg s :
  core_ready ids c s ->
  exists s1 s2 s3, CpusApp.prepare_core c arg s = (Val tt, s1) /\
    CpusApp.wait_core s1 = (Val tt, s2) /\ CpusApp.remove_sgi_handlers s2 = (Val tt, s3) /\
    CpusApp.secondary_entry (A:=A) arg s = CpusApp.stop_core s3 /\
    masked s1 = false /\ masked s3 = false /\ core_later ids c s s1 /\ core_later ids c s1 s3 /\
    Forall (fun i => sgi_enabled c i (trace s1)) sgi_ids /\
    privately c (Some SecondaryIrqHandler) sgi_ids (tables_of (length ids) s)
      (tables_of (length ids) s1) /\
    privately c None sgi_ids (tables_of (length ids) s) (tables_of (length ids) s3).
Proof.
  intros Hc. destruct (prepare_core_run ids c arg s Hc) as (s1 & E1 & Hm1 & Hl1 & Hen & Hp1).
  pose proof Hl1 as (_ & Hh1 & _ & Hr1).
  destruct (wait_core_run ids c s1 Hr1) as (evs & E2); [rewrite Hh1; apply Hc|].
  destruct (private_ops_run ids c None CpusApp.sgis (set_trace (evs ++ trace s1) s1))
    as (s3 & E3 & Hs3 & Hr3 & Hp3); [by apply irq_ready_trace|by left|].
  exists s1, (set_trace (evs ++ trace s1) s1), s3. split; [done|]. split; [done|].
  split; [exact E3|]. split.
  { unfold CpusApp.secondary_entry.
    erewrite bind_Val by (eapply current_cpu_index_run; apply Hc).
    erewrite bind_Val by exact E1. erewrite bind_Val by exact E2.
    unfold CpusApp.remove_sgi_handlers. by erewrite bind_Val by exact E3. }
  split; [done|]. split; [by rewrite Hs3|]. split; [done|]. split.
  { eapply core_later_trans; [by apply core_later_calls|by apply core_later_tables]. }
  split; [done|]. split; [done|]. by eapply privately_twice.
Qed.


(** C37: the handlers are removed while the interrupts are still enabled and
    unmasked: a software-generated interrupt which arrives between the removal and
    [PSCI_CPU_OFF] finds no handler and makes the core panic, which powers the whole
    system off. *)
Theorem late_sgi_panics A ids c arg s :
  core_ready ids c s ->
  exists s3, CpusApp.secondary_entry (A:=A) arg s = CpusApp.stop_core s3 /\
    masked s3 = false /\ Forall (fun i => sgi_enabled c i (trace s3)) sgi_ids /\
    forall i, i ∈ sgi_ids -> env_gic_ack (trace s3) = Some i ->
      exists msg s', irq_vector s3 = (Panic msg, s').
Proof.
  intros Hc. destruct (secondary_entry_run A ids c arg s Hc) as
    (s1 & s2 & s3 & _ & _ & _ & E & _ & Hm3 & _ & ([evs Ht] & _ & _ & Hr3) & Hen & _ & Hp3).
  exists s3. split; [done|]. split; [done|]. split.
  - eapply Forall_impl; [exact Hen|]. intros i (m & h & Hin). exists m, h. rewrite Ht.
    apply elem_of_app. by right.
  - intros i Hi Ha. apply (vector_panics ids c i); [done|done|].
    rewrite (privately_dispatch _ _ _ _ _ _ _ Hp3), decide_True by done.
    pose proof (core_shared _ _ _ Hc) as Hs. rewrite Forall_forall in Hs. by apply Hs.
Qed.
End cores.

(** ** Witnesses: core 1 of the simulated board, with interrupt 3 pending *)

Section witnesses.
#[local] Instance sgi_board : BoardEnv := sim_env (mkSimConfig [] 0 false (Some 3) [] []).
#[local] Instance sgi_board_accepts : UartAccepts.
Proof. intros h buf Hne. by apply (sim_typed_accepts [] h buf). Defined.
#[local] Existing Instance Pl011.interrupt_driven.

Definition sim_secondary : machine := set_gic_once true (sim_core 1).

Lemma sim_core_ready : core_ready [0; 1; 2; 3] 1 sim_secondary.
Proof.
  split; [|apply not_elem_of_empty|done|apply not_elem_of_empty| |].
  - split; [apply (sim_core_cpus 1)|done|done|apply not_elem_of_empty|apply not_elem_of_empty|done].
  - apply Forall_forall. intros i _. by split_and!.
  - apply Forall_forall. done.
Qed.


Lemma late_sgi_panics_witness :
  exists s3, CpusApp.secondary_entry (A:=unit) 7 sim_secondary = CpusApp.stop_core s3 /\
    masked s3 = false /\ exists msg s', irq_vector s3 = (Panic msg, s').
Proof.
  destruct (late_sgi_panics unit [0; 1; 2; 3] 1 7 sim_secondary sim_core_ready)
    as (s3 & E & Hm & _ & Hv).
  exists s3. do 2 (split; [assumption|]). apply (Hv 3); [|reflexivity].
  apply (list_elem_of_lookup_2 _ 3). reflexivity.
Defined.
End witnesses.
