(* ===== verification/Build.v ===== *)
(** * Build: [build.rs], the choice of the platform

    The build script runs on the host.  It accepts the platforms for which there is a
    [Platform] instance, and has the image linked with the linker script of the one
    which was chosen.  The state is the list of lines which it has printed for Cargo. *)

From S2P Require Import Prelude Text Extern Machine Sim Console Io Cpus Interrupts Pagetable.
From S2P Require Import Platform Alarm Secondary Virtio Shell Boot Locking.

Module BuildScript.
Section build.
(** [{:?}] of a string and of an array of strings *)
Context (str_debug : string -> string) (array_debug : list string -> string).

Definition PLATFORMS : list string := ["crosvm"; "qemu"].

(** [join] of a slice of strings *)
Fixpoint join (sep : string) (l : list string) : string :=
  match l with
  | [] => EmptyString
  | [x] => x
  | x :: l => x +:+ sep +:+ join sep l
  end.

Definition println (line : string) : prog (list string) unit :=
  modify (fun out => out ++ [line]).

(** [platform_var] is the environment variable [CARGO_CFG_PLATFORM]. *)
Definition main (platform_var : option string) : prog (list string) unit :=
  do! println ("cargo::rustc-check-cfg=cfg(platform, values(" +:+ dquote
               +:+ join (dquote +:+ ", " +:+ dquote) PLATFORMS +:+ dquote +:+ "))") in
  let! platform := expect "Missing platform name" platform_var in
  do! assert (bool_decide (platform ∈ PLATFORMS))
        ("Unexpected platform name " +:+ str_debug platform +:+ ". Supported platforms: "
         +:+ array_debug PLATFORMS) in
  do! println "cargo:rustc-link-arg=-Timage.ld" in
  do! println ("cargo:rustc-link-arg=-Tlinker/" +:+ platform +:+ ".ld") in
  println ("cargo:rerun-if-changed=linker/" +:+ platform +:+ ".ld").

(** The name of a build in the configuration. *)
Definition build_name (b : build) : string :=
  match b with QemuBuild => "qemu" | CrosvmBuild => "crosvm" end.

Lemma platforms_builds name : name ∈ PLATFORMS <-> exists b, name = build_name b.
Proof.
  unfold PLATFORMS. rewrite !elem_of_cons, elem_of_nil. split.
  - intros [->|[->|[]]]; [by exists CrosvmBuild|by exists QemuBuild].
  - intros [[] ->]; auto.
Qed.

(** The script succeeds exactly for the names of the builds, and then has the image
    linked with the script of that build and no other. *)
Lemma build_main_accepts v out :
  match v with
  | Some name =>
      (exists b, name = build_name b) /\
        (exists cfg, main v out =
          (Val tt, out ++ [cfg; "cargo:rustc-link-arg=-Timage.ld";
                           "cargo:rustc-link-arg=-Tlinker/" +:+ name +:+ ".ld";
                           "cargo:rerun-if-changed=linker/" +:+ name +:+ ".ld"])) \/
      ~ (exists b, name = build_name b) /\ exists msg out', main v out = (Panic msg, out')
  | None => exists out', main v out = (Panic "Missing platform name", out')
  end.
Proof.
  unfold main, println. destruct v as [name|]; [|by eexists].
  destruct (decide (name ∈ PLATFORMS)) as [Hin|Hout].
  - left. split; [by apply platforms_builds|]. eexists. unfold bind, modify, expect, assert, ret.
    rewrite bool_decide_eq_true_2 by done. by rewrite <-!app_assoc.
  - right. rewrite <-platforms_builds. split; [done|].
    unfold bind, modify, expect, assert, ret. rewrite bool_decide_eq_false_2 by done. by eexists _, _.
Qed.
End build.
End BuildScript.
